(** * nfx-datatypes: Int128 and Decimal

    A shallow embedding of the arithmetic core of nfx-datatypes
    (src/Int128.cpp, src/Decimal.cpp, Int128.inl, Decimal.inl, Constants.h)
    and the properties of its specification that can be settled on it.

    Conventions.
    - A [w]-bit unsigned machine integer is a [Z] reduced with [u8], [u32]
      or [u64] after every operation that can leave the range; the signed
      readings are [i64] and [i128].
    - A C++ function that can throw returns an [outcome]; [Throw] carries the
      exception.  Functions that only call throwing operators with a
      constant non-zero divisor keep the [outcome] type of what they call.
    - The preprocessor flag NFX_DATATYPES_HAS_NATIVE_INT128 is the boolean
      [native]: every function that has an [#if] in the source has a body
      in [Native] and a body in [Emulated], and a dispatcher that picks one.
    - Loops are written as structurally recursive functions on a counter
      that bounds the iterations of the source loop. *)

From Stdlib Require Import ZArith Lia List Bool Ascii String.
Import ListNotations.
Local Open Scope Z_scope.

(* ================================================================== *)
(** * Machine integers *)

Definition u8 (z : Z) : Z := z mod 2 ^ 8.
Definition u32 (z : Z) : Z := z mod 2 ^ 32.
Definition u64 (z : Z) : Z := z mod 2 ^ 64.
Definition u128 (z : Z) : Z := z mod 2 ^ 128.

(** Two's-complement readings. *)
Definition i64 (z : Z) : Z :=
let r := z mod 2 ^ 64 in if r <? 2 ^ 63 then r else r - 2 ^ 64.

Definition i128 (z : Z) : Z :=
let r := z mod 2 ^ 128 in if r <? 2 ^ 127 then r else r - 2 ^ 128.

(** Logical negation of a 64-bit word, [~x]. *)
Definition not64 (x : Z) : Z := u64 (Z.lnot x).

(* ================================================================== *)
(** * Exceptions *)

(** [std::overflow_error{"Division by zero"}] and
    [std::invalid_argument{...}], the two exceptions the library throws. *)
Inductive fault : Type :=
| DivisionByZero
| InvalidFormat.

Inductive outcome (A : Type) : Type :=
| Ok (a : A)
| Throw (f : fault).

Arguments Ok {A} a.
Arguments Throw {A} f.

Definition bind {A B : Type} (r : outcome A) (k : A -> outcome B) : outcome B :=
match r with
| Ok a => k a
| Throw f => Throw f
end.

Notation "x <- c ;; k" := (bind c (fun x => k))
  (at level 61, c at next level, right associativity).

Notation "' p <- c ;; k" := (bind c (fun x => let 'p := x in k))
  (at level 61, p pattern, c at next level, right associativity).

(* ================================================================== *)
(** * Constants.h *)

Module constants.

Definition BITS_PER_UINT32 : Z := 32.
Definition BITS_PER_UINT64 : Z := 64.
Definition UINT32_MAX_VALUE : Z := 0xFFFFFFFF.
Definition BIT_MASK_ONE : Z := 1.
Definition BIT_MASK_ZERO : Z := 0.
Definition DECIMAL_96BIT_MAX_LOW : Z := 0xFFFFFFFFFFFFFFFF.
Definition DECIMAL_96BIT_MAX_HIGH : Z := 0x00000000FFFFFFFF.
Definition INT_128_BASE : Z := 10.
Definition INT_128_MAX_BIT_INDEX : nat := 127.
Definition INT128_MUL10_OVERFLOW_THRESHOLD : Z := 0x1999999999999999.
Definition INT_128_MAX_POSITIVE_HIGH : Z := 0x7FFFFFFFFFFFFFFF.
Definition INT_128_MAX_POSITIVE_LOW : Z := 0xFFFFFFFFFFFFFFFF.
Definition INT_128_MIN_NEGATIVE_HIGH : Z := 0x8000000000000000.
Definition INT_128_MIN_NEGATIVE_LOW : Z := 0x0000000000000000.
Definition INT_128_MAX_DIGIT_COUNT : nat := 39.
Definition INT_128_MAX_POSITIVE_STRING : string :=
  "170141183460469231731687303715884105727".
Definition INT_128_MAX_NEGATIVE_STRING : string :=
  "170141183460469231731687303715884105728".
Definition DECIMAL_BASE : Z := 10.
Definition DECIMAL_MAX_MANTISSA_0 : Z := 0xFFFFFFFF.
Definition DECIMAL_MAX_MANTISSA_1 : Z := 0xFFFFFFFF.
Definition DECIMAL_MAX_MANTISSA_2 : Z := 0xFFFFFFFF.
Definition DECIMAL_MAXIMUM_PLACES : Z := 28.
Definition DECIMAL_DIVISION_EXTRA_PRECISION : nat := 18.
Definition DECIMAL_ROUNDING_THRESHOLD : Z := 5.
Definition DECIMAL_SCALE_MASK : Z := 0x00FF0000.
Definition DECIMAL_SIGN_MASK : Z := 0x80000000.
Definition DECIMAL_SCALE_SHIFT : Z := 16.
Definition DECIMAL_MAX_STRING_LENGTH : nat := 64.
Definition DECIMAL_POWER_TABLE_SIZE : Z := 20.
Definition DECIMAL_EXTENDED_POWER_MIN : Z := 20.
Definition DECIMAL_EXTENDED_POWER_MAX : Z := 28.

Definition DECIMAL_POWERS_OF_10 : list Z :=
  [ 1; 10; 100; 1000; 10000; 100000; 1000000; 10000000; 100000000;
    1000000000; 10000000000; 100000000000; 1000000000000;
    10000000000000; 100000000000000; 1000000000000000;
    10000000000000000; 100000000000000000; 1000000000000000000;
    10000000000000000000 ].

Definition DECIMAL_EXTENDED_POWERS_OF_10 : list (Z * Z) :=
  [ (0x6BC75E2D63100000, 0x0000000000000005);
    (0x35C9ADC5DEA00000, 0x0000000000000036);
    (0x19E0C9BAB2400000, 0x000000000000021E);
    (0x02C7E14AF6800000, 0x000000000000152D);
    (0x1BCECCEDA1000000, 0x000000000000D3C2);
    (0x161401484A000000, 0x0000000000084595);
    (0xDCC80CD2E4000000, 0x000000000052B7D2);
    (0x9FD0803CE8000000, 0x00000000033B2E3C);
    (0x3E25026110000000, 0x00000000204FCE5E) ].

End constants.

Import constants.

(* ================================================================== *)
(** * Int128 *)

(** The sixteen bytes of an [Int128].  The emulated build stores them as
    [m_layout = {lower64bits, upper64bits}]; the native build stores the
    same bits as one [__int128 m_value], read here through [toNative]. *)
Record Int128 : Type := mkInt128 { lower64bits : Z; upper64bits : Z }.

(** The unsigned 128-bit reading of the layout. *)
Definition bits128 (x : Int128) : Z := lower64bits x + 2 ^ 64 * upper64bits x.

(** ** Emulated backend ([#else] branches) *)

Module Emulated.

(** [Int128()] *)
Definition zero : Int128 := mkInt128 0 0.

(** [Int128(int)], [Int128(std::int64_t)] *)
Definition of_int64 (val : Z) : Int128 :=
mkInt128 (u64 val) (if val <? 0 then u64 (-1) else 0).

(** [Int128(std::uint32_t)], [Int128(std::uint64_t)] *)
Definition of_uint64 (val : Z) : Int128 := mkInt128 val 0.

(** [Int128(low, high)] *)
Definition of_words (low high : Z) : Int128 := mkInt128 low high.

Definition toLow (x : Int128) : Z := lower64bits x.
Definition toHigh (x : Int128) : Z := upper64bits x.

Definition isZero (x : Int128) : bool :=
(lower64bits x =? 0) && (upper64bits x =? 0).

Definition isNegative (x : Int128) : bool := i64 (upper64bits x) <? 0.

(** [operator+] *)
Definition add (a b : Int128) : Int128 :=
let result_low := u64 (lower64bits a + lower64bits b) in
let carry := if result_low <? lower64bits a then BIT_MASK_ONE else BIT_MASK_ZERO in
let result_high := u64 (upper64bits a + upper64bits b + carry) in
mkInt128 result_low result_high.

(** [operator-] (binary) *)
Definition sub (a b : Int128) : Int128 :=
let result_low := u64 (lower64bits a - lower64bits b) in
let borrow := if lower64bits a <? lower64bits b then BIT_MASK_ONE else BIT_MASK_ZERO in
let result_high := u64 (upper64bits a - upper64bits b - borrow) in
mkInt128 result_low result_high.

(** [operator*] *)
Definition mul (a b : Int128) : Int128 :=
let a_low := Z.land (lower64bits a) UINT32_MAX_VALUE in
let a_high := Z.shiftr (lower64bits a) BITS_PER_UINT32 in
let b_low := Z.land (lower64bits b) UINT32_MAX_VALUE in
let b_high := Z.shiftr (lower64bits b) BITS_PER_UINT32 in
let p0 := u64 (a_low * b_low) in
let p1 := u64 (a_low * b_high) in
let p2 := u64 (a_high * b_low) in
let p3 := u64 (a_high * b_high) in
let carry :=
  Z.shiftr (u64 (Z.shiftr p0 BITS_PER_UINT32
                 + Z.land p1 UINT32_MAX_VALUE
                 + Z.land p2 UINT32_MAX_VALUE)) BITS_PER_UINT32 in
let result_low :=
  u64 (p0 + u64 (Z.shiftl p1 BITS_PER_UINT32)
          + u64 (Z.shiftl p2 BITS_PER_UINT32)) in
let result_high :=
  u64 (p3 + Z.shiftr p1 BITS_PER_UINT32 + Z.shiftr p2 BITS_PER_UINT32
          + carry
          + u64 (upper64bits a * lower64bits b)
          + u64 (lower64bits a * upper64bits b)) in
mkInt128 result_low result_high.

(** [operator-] (unary): two's complement negation *)
Definition neg (x : Int128) : Int128 :=
let result := mkInt128 (not64 (lower64bits x)) (not64 (upper64bits x)) in
add result (of_int64 1).

Definition eqb (a b : Int128) : bool :=
(lower64bits a =? lower64bits b) && (upper64bits a =? upper64bits b).

Definition neqb (a b : Int128) : bool :=
negb (lower64bits a =? lower64bits b) || negb (upper64bits a =? upper64bits b).

Definition ltb (a b : Int128) : bool :=
if negb (upper64bits a =? upper64bits b)
then i64 (upper64bits a) <? i64 (upper64bits b)
else lower64bits a <? lower64bits b.

Definition leb (a b : Int128) : bool :=
if negb (upper64bits a =? upper64bits b)
then i64 (upper64bits a) <? i64 (upper64bits b)
else lower64bits a <=? lower64bits b.

Definition gtb (a b : Int128) : bool :=
if negb (upper64bits a =? upper64bits b)
then i64 (upper64bits a) >? i64 (upper64bits b)
else lower64bits a >? lower64bits b.

Definition geb (a b : Int128) : bool :=
if negb (upper64bits a =? upper64bits b)
then i64 (upper64bits a) >? i64 (upper64bits b)
else lower64bits a >=? lower64bits b.

Definition abs (x : Int128) : Int128 :=
if negb (isNegative x) then x else neg x.

(** The body of the binary long division loop of [operator/], for bit
    index [i]; the state is [(quotient, remainder)]. *)
Definition div_step (abs_dividend abs_divisor : Int128) (i : Z)
  (st : Int128 * Int128) : Int128 * Int128 :=
let '(quotient, remainder) := st in
let remainder := add remainder remainder in
let bit_set :=
  ((i >=? BITS_PER_UINT64)
   && negb (Z.land (Z.shiftr (upper64bits abs_dividend) (i - BITS_PER_UINT64)) 1 =? 0))
  || ((i <? BITS_PER_UINT64)
      && negb (Z.land (Z.shiftr (lower64bits abs_dividend) i) 1 =? 0)) in
let remainder := if bit_set then add remainder (of_words 1 0) else remainder in
if negb (ltb remainder abs_divisor)
then
  let remainder := sub remainder abs_divisor in
  let quotient :=
    if i >=? BITS_PER_UINT64
    then mkInt128 (lower64bits quotient)
           (Z.lor (upper64bits quotient)
                  (u64 (Z.shiftl BIT_MASK_ONE (i - BITS_PER_UINT64))))
    else mkInt128 (Z.lor (lower64bits quotient) (u64 (Z.shiftl BIT_MASK_ONE i)))
           (upper64bits quotient) in
  (quotient, remainder)
else (quotient, remainder).

(** [for (int i = n - 1; i >= 0; --i)]: runs [div_step] for the bit
    indices [n-1], ..., [0]. *)
Fixpoint div_loop (abs_dividend abs_divisor : Int128) (n : nat)
  (st : Int128 * Int128) : Int128 * Int128 :=
match n with
| O => st
| S i => div_loop abs_dividend abs_divisor i
           (div_step abs_dividend abs_divisor (Z.of_nat i) st)
end.

(** [operator/] *)
Definition div (a b : Int128) : outcome Int128 :=
if isZero b then Throw DivisionByZero
else if (upper64bits a =? 0) && (upper64bits b =? 0)
then Ok (of_words (lower64bits a / lower64bits b) 0)
else if upper64bits b =? 0
then
  let divisor := lower64bits b in
  let high_quotient := upper64bits a / divisor in
  let high_remainder := upper64bits a mod divisor in
  if high_remainder =? 0
  then
    let low_quotient := lower64bits a / divisor in
    Ok (of_words low_quotient high_quotient)
  else
    let low_high := Z.shiftr (lower64bits a) BITS_PER_UINT32 in
    let low_low := Z.land (lower64bits a) UINT32_MAX_VALUE in
    let temp_dividend := u64 (u64 (Z.shiftl high_remainder BITS_PER_UINT32) + low_high) in
    let temp_quotient := temp_dividend / divisor in
    let temp_remainder := temp_dividend mod divisor in
    let final_dividend := u64 (u64 (Z.shiftl temp_remainder BITS_PER_UINT32) + low_low) in
    let final_quotient := final_dividend / divisor in
    let low_quotient := u64 (u64 (Z.shiftl temp_quotient BITS_PER_UINT32) + final_quotient) in
    Ok (of_words low_quotient high_quotient)
else
  let result_negative := false in
  let abs_dividend := a in
  let abs_divisor := b in
  let '(result_negative, abs_dividend) :=
    if isNegative abs_dividend
    then (negb result_negative, neg abs_dividend)
    else (result_negative, abs_dividend) in
  let '(result_negative, abs_divisor) :=
    if isNegative abs_divisor
    then (negb result_negative, neg abs_divisor)
    else (result_negative, abs_divisor) in
  if ltb abs_dividend abs_divisor then Ok (of_words 0 0)
  else if eqb abs_dividend abs_divisor
  then Ok (if result_negative then sub (of_words 0 0) (of_words 1 0) else of_words 1 0)
  else
    let '(quotient, _) :=
      div_loop abs_dividend abs_divisor (S INT_128_MAX_BIT_INDEX)
        (of_words 0 0, of_words 0 0) in
    Ok (if result_negative then sub (of_words 0 0) quotient else quotient).

(** [operator%] *)
Definition rem (a b : Int128) : outcome Int128 :=
if isZero b then Throw DivisionByZero
else if (upper64bits a =? 0) && (upper64bits b =? 0)
then Ok (of_words (lower64bits a mod lower64bits b) 0)
else
  quotient <- div a b ;;
  Ok (sub a (mul quotient b)).

End Emulated.

(** ** Native backend ([#if NFX_DATATYPES_HAS_NATIVE_INT128] branches)

    Signed overflow of [__int128] is undefined in C++; it is modelled as
    the two's-complement wrap-around that the supported compilers produce. *)

Module Native.

(** [toNative]: the value of [m_value]. *)
Definition toNative (x : Int128) : Z := i128 (bits128 x).

(** [Int128(NFX_DATATYPES_NATIVE_INT128)] *)
Definition of_native (val : Z) : Int128 :=
mkInt128 (u64 val) (u64 (Z.shiftr val 64)).

Definition zero : Int128 := of_native 0.

Definition of_int64 (val : Z) : Int128 := of_native val.

Definition of_uint64 (val : Z) : Int128 := of_native val.

(** [Int128(low, high)]: [m_value = (__int128)high << 64 | low] *)
Definition of_words (low high : Z) : Int128 :=
of_native (i128 (Z.lor (Z.shiftl high BITS_PER_UINT64) low)).

Definition toLow (x : Int128) : Z := u64 (toNative x).
Definition toHigh (x : Int128) : Z := u64 (Z.shiftr (toNative x) BITS_PER_UINT64).

Definition isZero (x : Int128) : bool := toNative x =? 0.
Definition isNegative (x : Int128) : bool := toNative x <? 0.

Definition add (a b : Int128) : Int128 := of_native (i128 (toNative a + toNative b)).
Definition sub (a b : Int128) : Int128 := of_native (i128 (toNative a - toNative b)).
Definition mul (a b : Int128) : Int128 := of_native (i128 (toNative a * toNative b)).

Definition div (a b : Int128) : outcome Int128 :=
if toNative b =? 0 then Throw DivisionByZero
else Ok (of_native (i128 (Z.quot (toNative a) (toNative b)))).

Definition rem (a b : Int128) : outcome Int128 :=
if toNative b =? 0 then Throw DivisionByZero
else Ok (of_native (i128 (Z.rem (toNative a) (toNative b)))).

Definition neg (x : Int128) : Int128 := of_native (i128 (- toNative x)).

Definition eqb (a b : Int128) : bool := toNative a =? toNative b.
Definition neqb (a b : Int128) : bool := negb (toNative a =? toNative b).
Definition ltb (a b : Int128) : bool := toNative a <? toNative b.
Definition leb (a b : Int128) : bool := toNative a <=? toNative b.
Definition gtb (a b : Int128) : bool := toNative a >? toNative b.
Definition geb (a b : Int128) : bool := toNative a >=? toNative b.

Definition abs (x : Int128) : Int128 :=
of_native (if toNative x <? 0 then i128 (- toNative x) else toNative x).

End Native.

(** ** The operations of [Int128], for either build *)

Section Int128Operations.

(** NFX_DATATYPES_HAS_NATIVE_INT128 *)
Variable native : bool.

Definition Int128_zero : Int128 := if native then Native.zero else Emulated.zero.
Definition Int128_of_int64 (val : Z) : Int128 :=
if native then Native.of_int64 val else Emulated.of_int64 val.
Definition Int128_of_uint64 (val : Z) : Int128 :=
if native then Native.of_uint64 val else Emulated.of_uint64 val.
Definition Int128_of_words (low high : Z) : Int128 :=
if native then Native.of_words low high else Emulated.of_words low high.
Definition Int128_toLow (x : Int128) : Z :=
if native then Native.toLow x else Emulated.toLow x.
Definition Int128_toHigh (x : Int128) : Z :=
if native then Native.toHigh x else Emulated.toHigh x.
Definition Int128_isZero (x : Int128) : bool :=
if native then Native.isZero x else Emulated.isZero x.
Definition Int128_isNegative (x : Int128) : bool :=
if native then Native.isNegative x else Emulated.isNegative x.
Definition Int128_add (a b : Int128) : Int128 :=
if native then Native.add a b else Emulated.add a b.
Definition Int128_sub (a b : Int128) : Int128 :=
if native then Native.sub a b else Emulated.sub a b.
Definition Int128_mul (a b : Int128) : Int128 :=
if native then Native.mul a b else Emulated.mul a b.
Definition Int128_div (a b : Int128) : outcome Int128 :=
if native then Native.div a b else Emulated.div a b.
Definition Int128_rem (a b : Int128) : outcome Int128 :=
if native then Native.rem a b else Emulated.rem a b.
Definition Int128_neg (x : Int128) : Int128 :=
if native then Native.neg x else Emulated.neg x.
Definition Int128_eqb (a b : Int128) : bool :=
if native then Native.eqb a b else Emulated.eqb a b.
Definition Int128_neqb (a b : Int128) : bool :=
if native then Native.neqb a b else Emulated.neqb a b.
Definition Int128_ltb (a b : Int128) : bool :=
if native then Native.ltb a b else Emulated.ltb a b.
Definition Int128_gtb (a b : Int128) : bool :=
if native then Native.gtb a b else Emulated.gtb a b.
Definition Int128_abs (x : Int128) : Int128 :=
if native then Native.abs x else Emulated.abs x.

(** The compound assignments of Int128.inl.  The left operand is the
    object [*this]; the function returns the outcome of the statement
    together with the value [*this] holds afterwards. *)

(** [operator/=].  Native: zero check, then [m_value /= other.m_value].
    Emulated: [*this = *this / other]. *)
Definition Int128_div_assign (this other : Int128) : outcome unit * Int128 :=
if native
then
  if Native.toNative other =? 0 then (Throw DivisionByZero, this)
  else (Ok tt, Native.of_native (i128 (Z.quot (Native.toNative this) (Native.toNative other))))
else
  match Emulated.div this other with
  | Ok q => (Ok tt, q)
  | Throw f => (Throw f, this)
  end.

(** [operator%=].  Native: zero check, then [m_value %= other.m_value].
    Emulated: zero check, then [*this = *this % other]. *)
Definition Int128_rem_assign (this other : Int128) : outcome unit * Int128 :=
if native
then
  if Native.toNative other =? 0 then (Throw DivisionByZero, this)
  else (Ok tt, Native.of_native (i128 (Z.rem (Native.toNative this) (Native.toNative other))))
else
  if Emulated.isZero other then (Throw DivisionByZero, this)
  else
    match Emulated.rem this other with
    | Ok r => (Ok tt, r)
    | Throw f => (Throw f, this)
    end.

End Int128Operations.

(* ================================================================== *)
(** * Decimal *)

(** [m_layout]: the flags word (scale in bits 16-23, sign in bit 31) and
    the three mantissa words, least significant first. *)
Record Decimal : Type := mkDecimal {
  flags : Z;
  mantissa0 : Z;
  mantissa1 : Z;
  mantissa2 : Z
}.

(** [RoundingMode] *)
Inductive RoundingMode : Type :=
| ToNearest
| ToNearestTiesAway
| ToZero
| ToPositiveInfinity
| ToNegativeInfinity.

(** [Decimal()] *)
Definition Decimal_zero : Decimal := mkDecimal 0 0 0 0.

(** [Decimal::one()] *)
Definition Decimal_one : Decimal := mkDecimal 0 1 0 0.

(** [Decimal::maxValue()] *)
Definition Decimal_maxValue : Decimal :=
mkDecimal 0 DECIMAL_MAX_MANTISSA_0 DECIMAL_MAX_MANTISSA_1 DECIMAL_MAX_MANTISSA_2.

(** [Decimal(std::int32_t)] *)
Definition Decimal_of_int32 (value : Z) : Decimal :=
if value <? 0
then mkDecimal (Z.lor 0 DECIMAL_SIGN_MASK) (u32 (- value)) 0 0
else mkDecimal 0 (u32 value) 0 0.

(** [Decimal(std::int64_t)] *)
Definition Decimal_of_int64 (value : Z) : Decimal :=
let '(fl, value) :=
  if value <? 0 then (Z.lor 0 DECIMAL_SIGN_MASK, - value) else (0, value) in
mkDecimal fl (u32 value) (u32 (Z.shiftr value BITS_PER_UINT32)) 0.

(** [scale()] *)
Definition scale (d : Decimal) : Z :=
u8 (Z.shiftr (Z.land (flags d) DECIMAL_SCALE_MASK) DECIMAL_SCALE_SHIFT).

(** [isNegative()] *)
Definition isNegative (d : Decimal) : bool :=
negb (Z.land (flags d) DECIMAL_SIGN_MASK =? 0).

(** [isZero()] *)
Definition isZero (d : Decimal) : bool :=
(mantissa0 d =? 0) && (mantissa1 d =? 0) && (mantissa2 d =? 0).

(** The flags word with its scale field replaced: 
    [(flags & ~DECIMAL_SCALE_MASK) | (s << DECIMAL_SCALE_SHIFT)]. *)
Definition with_scale (fl : Z) (s : Z) : Z :=
Z.lor (Z.land fl (u32 (Z.lnot DECIMAL_SCALE_MASK)))
      (u32 (Z.shiftl s DECIMAL_SCALE_SHIFT)).

Definition set_flags (d : Decimal) (fl : Z) : Decimal :=
mkDecimal fl (mantissa0 d) (mantissa1 d) (mantissa2 d).

(** [flags |= DECIMAL_SIGN_MASK] when [c] holds. *)
Definition set_sign_if (c : bool) (d : Decimal) : Decimal :=
if c then set_flags d (Z.lor (flags d) DECIMAL_SIGN_MASK) else d.

Section DecimalOperations.

(** NFX_DATATYPES_HAS_NATIVE_INT128 *)
Variable native : bool.

Abbreviation I_of_int := (Int128_of_int64 native).
Abbreviation I_of_u64 := (Int128_of_uint64 native).
Abbreviation I_of_words := (Int128_of_words native).
Abbreviation I_toLow := (Int128_toLow native).
Abbreviation I_toHigh := (Int128_toHigh native).
Abbreviation I_add := (Int128_add native).
Abbreviation I_sub := (Int128_sub native).
Abbreviation I_mul := (Int128_mul native).
Abbreviation I_div := (Int128_div native).
Abbreviation I_rem := (Int128_rem native).
Abbreviation I_eqb := (Int128_eqb native).
Abbreviation I_neqb := (Int128_neqb native).
Abbreviation I_ltb := (Int128_ltb native).
Abbreviation I_gtb := (Int128_gtb native).
Abbreviation I_isZero := (Int128_isZero native).
Abbreviation I_abs := (Int128_abs native).

(** [internal::getPowerOf10] *)
Definition getPowerOf10 (power : Z) : Int128 :=
if (power <? DECIMAL_POWER_TABLE_SIZE)
   && negb (nth (Z.to_nat power) DECIMAL_POWERS_OF_10 0 =? 0)
then I_of_u64 (nth (Z.to_nat power) DECIMAL_POWERS_OF_10 0)
else if (power >=? DECIMAL_EXTENDED_POWER_MIN) && (power <=? DECIMAL_EXTENDED_POWER_MAX)
then
  let extended :=
    nth (Z.to_nat (power - DECIMAL_EXTENDED_POWER_MIN)) DECIMAL_EXTENDED_POWERS_OF_10 (0, 0) in
  I_of_words (fst extended) (snd extended)
else
  Nat.iter (Z.to_nat power) (fun result => I_mul result (I_of_u64 DECIMAL_BASE)) (I_of_int 1).

(** [internal::mantissaAsInt128] *)
Definition mantissaAsInt128 (decimal : Decimal) : Int128 :=
if native
then
  let value :=
    Z.lor (Z.lor (Z.shiftl (mantissa2 decimal) BITS_PER_UINT64)
                 (Z.shiftl (mantissa1 decimal) BITS_PER_UINT32))
          (mantissa0 decimal) in
  Native.of_native value
else
  let low := Z.lor (u64 (Z.shiftl (mantissa1 decimal) BITS_PER_UINT32)) (mantissa0 decimal) in
  let high := mantissa2 decimal in
  Emulated.of_words low high.

(** [internal::alignScale] *)
Definition alignScale (decimal other : Decimal) : Int128 * Int128 :=
let left := mantissaAsInt128 decimal in
let right := mantissaAsInt128 other in
let leftScale := scale decimal in
let rightScale := scale other in
if leftScale <? rightScale
then
  let scaleDiff := u8 (rightScale - leftScale) in
  (I_mul left (getPowerOf10 scaleDiff), right)
else if rightScale <? leftScale
then
  let scaleDiff := u8 (leftScale - rightScale) in
  (left, I_mul right (getPowerOf10 scaleDiff))
else (left, right).

(** [internal::setMantissa] *)
Definition setMantissa (decimal : Decimal) (value : Int128) : Decimal :=
if native
then
  let nativeValue := Native.toNative value in
  mkDecimal (flags decimal)
    (u32 nativeValue)
    (u32 (Z.shiftr nativeValue BITS_PER_UINT32))
    (u32 (Z.shiftr nativeValue BITS_PER_UINT64))
else
  let low := Emulated.toLow value in
  let high := Emulated.toHigh value in
  mkDecimal (flags decimal)
    (u32 low)
    (u32 (Z.shiftr low BITS_PER_UINT32))
    (u32 high).

(** [internal::divideByPowerOf10] *)
Definition divideByPowerOf10 (decimal : Decimal) (power : Z) : outcome Decimal :=
let mantissa := mantissaAsInt128 decimal in
mantissa <- I_div mantissa (getPowerOf10 power) ;;
Ok (setMantissa decimal mantissa).

(** [internal::normalize].  Every iteration of the [while] lowers the
    scale by one, so the scale read on entry bounds the iterations. *)
Fixpoint normalize_loop (n : nat) (decimal : Decimal) : outcome Decimal :=
match n with
| O => Ok decimal
| S n' =>
    if scale decimal >? 0
    then
      r <- I_rem (mantissaAsInt128 decimal) (I_of_u64 DECIMAL_BASE) ;;
      if I_eqb r (I_of_int 0)
      then
        decimal <- divideByPowerOf10 decimal 1 ;;
        let currentScale := scale decimal in
        normalize_loop n'
          (set_flags decimal (with_scale (flags decimal) (currentScale - 1)))
      else Ok decimal
    else Ok decimal
end.

Definition normalize (decimal : Decimal) : outcome Decimal :=
normalize_loop (Z.to_nat (scale decimal)) decimal.

(** [internal::shouldRoundUpToNearest] *)
Definition shouldRoundUpToNearest (roundingDigit mantissa divisor : Int128)
  (digitsToRemove : Z) (result : Decimal) : outcome bool :=
if I_toLow roundingDigit >? DECIMAL_ROUNDING_THRESHOLD
then Ok true
else if I_toLow roundingDigit =? DECIMAL_ROUNDING_THRESHOLD
then
  hasRemainingFraction <-
    (if digitsToRemove >? 1
     then
       let remainderDivisor := divisor in
       remainder <- I_rem mantissa remainderDivisor ;;
       q <- I_div divisor (I_of_u64 DECIMAL_BASE) ;;
       let roundingDigitContribution := I_mul roundingDigit q in
       Ok (I_neqb remainder roundingDigitContribution)
     else Ok false) ;;
  if (hasRemainingFraction : bool)
  then Ok true
  else
    let resultMantissa := mantissaAsInt128 result in
    r <- I_rem resultMantissa (I_of_int 2) ;;
    let isEven := I_eqb r (I_of_int 0) in
    Ok (negb isEven)
else Ok false.

(** [internal::shouldRoundUpToNearestTiesAway] *)
Definition shouldRoundUpToNearestTiesAway (roundingDigit : Int128) : bool :=
I_toLow roundingDigit >=? DECIMAL_ROUNDING_THRESHOLD.

(** [internal::shouldRoundUpToPositiveInfinity] *)
Definition shouldRoundUpToPositiveInfinity (mantissa : Int128)
  (digitsToRemove : Z) (isNeg : bool) : outcome bool :=
if isNeg then Ok false
else if digitsToRemove >? 0
then
  let fractionalDivisor := getPowerOf10 digitsToRemove in
  fractionalPart <- I_rem mantissa fractionalDivisor ;;
  Ok (negb (I_isZero fractionalPart))
else Ok false.

(** [internal::shouldRoundUpToNegativeInfinity] *)
Definition shouldRoundUpToNegativeInfinity (mantissa : Int128)
  (digitsToRemove : Z) (isNeg : bool) : outcome bool :=
if negb isNeg then Ok false
else if digitsToRemove >? 0
then
  let fractionalDivisor := getPowerOf10 digitsToRemove in
  fractionalPart <- I_rem mantissa fractionalDivisor ;;
  Ok (negb (I_isZero fractionalPart))
else Ok false.

(** [Decimal::operator+] *)
Definition Decimal_add (this other : Decimal) : outcome Decimal :=
if isZero this then Ok other
else if isZero other then Ok this
else
  let result := Decimal_zero in
  let aligned := alignScale this other in
  let left := fst aligned in
  let right := snd aligned in
  let result := setMantissa result (I_add left right) in
  let result :=
    set_flags result
      (Z.lor (Z.land (flags this) (u32 (Z.lnot DECIMAL_SCALE_MASK)))
             (u32 (Z.shiftl (Z.max (scale this) (scale other)) DECIMAL_SCALE_SHIFT))) in
  let result :=
    if Bool.eqb (isNegative this) (isNegative other)
    then set_sign_if (isNegative this) result
    else
      if I_gtb left right
      then set_sign_if (isNegative this) (setMantissa result (I_sub left right))
      else set_sign_if (isNegative other) (setMantissa result (I_sub right left)) in
  normalize result.

(** [Decimal::operator-] (unary) *)
Definition Decimal_neg (this : Decimal) : Decimal :=
set_flags this (Z.lxor (flags this) DECIMAL_SIGN_MASK).

(** [Decimal::operator-] (binary) *)
Definition Decimal_sub (this other : Decimal) : outcome Decimal :=
let negatedOther := set_flags other (Z.lxor (flags other) DECIMAL_SIGN_MASK) in
Decimal_add this negatedOther.

(** The [while] loop of [operator*].  The product is below [10^39], so
    after 39 divisions by ten it is zero, and the 8-bit [newScale] comes
    below 29 within another 256 decrements. *)
Fixpoint mul_truncate_loop (n : nat) (max96bit productMantissa : Int128)
  (newScale : Z) : outcome (Int128 * Z) :=
match n with
| O => Ok (productMantissa, newScale)
| S n' =>
    if I_gtb productMantissa max96bit || (newScale >? DECIMAL_MAXIMUM_PLACES)
    then
      productMantissa <- I_div productMantissa (I_of_u64 DECIMAL_BASE) ;;
      let newScale := u8 (newScale - 1) in
      if (newScale =? 0) && I_gtb productMantissa max96bit
      then Ok (productMantissa, newScale)
      else mul_truncate_loop n' max96bit productMantissa newScale
    else Ok (productMantissa, newScale)
end.

(** [Decimal::operator*] *)
Definition Decimal_mul (this other : Decimal) : outcome Decimal :=
if isZero this || isZero other then Ok Decimal_zero
else
  let result := Decimal_zero in
  let left := mantissaAsInt128 this in
  let right := mantissaAsInt128 other in
  let productMantissa := I_mul left right in
  let newScale := u8 (scale this + scale other) in
  let max96bit := I_of_words DECIMAL_96BIT_MAX_LOW DECIMAL_96BIT_MAX_HIGH in
  '(productMantissa, newScale) <-
     mul_truncate_loop 300 max96bit productMantissa newScale ;;
  let result := setMantissa result productMantissa in
  let result := set_flags result (u32 (Z.shiftl newScale DECIMAL_SCALE_SHIFT)) in
  let result := set_sign_if (negb (Bool.eqb (isNegative this) (isNegative other))) result in
  normalize result.

(** The pre-scaling [for] loops of [operator/]: at most [n] times,
    multiply the dividend by ten unless its high word is above the
    overflow threshold. *)
Fixpoint div_scale_up (n : nat) (dividend : Int128) (targetScale : Z) : Int128 * Z :=
match n with
| O => (dividend, targetScale)
| S n' =>
    if I_toHigh dividend >? INT128_MUL10_OVERFLOW_THRESHOLD
    then (dividend, targetScale)
    else div_scale_up n' (I_mul dividend (I_of_u64 DECIMAL_BASE)) (targetScale + 1)
end.

(** [Decimal::operator/] *)
Definition Decimal_div (this other : Decimal) : outcome Decimal :=
if isZero other then Throw DivisionByZero
else if isZero this then Ok Decimal_zero
else
  let result := Decimal_zero in
  let dividend := mantissaAsInt128 this in
  let divisor := mantissaAsInt128 other in
  let targetScale := scale this - scale other in
  let extraPrecision := DECIMAL_DIVISION_EXTRA_PRECISION in
  let '(dividend, targetScale) := div_scale_up extraPrecision dividend targetScale in
  let '(dividend, targetScale) :=
    if targetScale <? 0
    then
      let scaleUp := u8 (- targetScale) in
      div_scale_up (Z.to_nat (Z.min scaleUp DECIMAL_MAXIMUM_PLACES)) dividend targetScale
    else (dividend, targetScale) in
  q <- I_div dividend divisor ;;
  let result := setMantissa result q in
  let result := set_flags result (u32 (Z.shiftl (u32 targetScale) DECIMAL_SCALE_SHIFT)) in
  let result := set_sign_if (negb (Bool.eqb (isNegative this) (isNegative other))) result in
  normalize result.

(** The compound assignments of Decimal.inl, [*this = *this op other]:
    the outcome of the statement and the value of [*this] afterwards. *)
Definition Decimal_div_assign (this other : Decimal) : outcome unit * Decimal :=
match Decimal_div this other with
| Ok q => (Ok tt, q)
| Throw f => (Throw f, this)
end.

(** [Decimal::operator==] *)
Definition Decimal_eqb (this other : Decimal) : bool :=
if isZero this && isZero other then true
else if negb (Bool.eqb (isNegative this) (isNegative other)) then false
else
  let aligned := alignScale this other in
  let left := fst aligned in
  let right := snd aligned in
  I_eqb left right.

End DecimalOperations.

(* ================================================================== *)
(** * Rounding *)

Section DecimalRounding.

Variable native : bool.

Abbreviation R_of_int := (Int128_of_int64 native).
Abbreviation R_of_u64 := (Int128_of_uint64 native).
Abbreviation R_add := (Int128_add native).
Abbreviation R_mul := (Int128_mul native).
Abbreviation R_div := (Int128_div native).
Abbreviation R_rem := (Int128_rem native).

(** The truncation loop of [round]: [n] times [divideByPowerOf10(result, 1)]. *)
Fixpoint truncate_digits (n : nat) (result : Decimal) : outcome Decimal :=
match n with
| O => Ok result
| S n' =>
    result <- divideByPowerOf10 native result 1 ;;
    truncate_digits n' result
end.

(** [Decimal::round] *)
Definition Decimal_round (this : Decimal) (decimalsPlacesCount : Z)
  (mode : RoundingMode) : outcome Decimal :=
let decimalsPlacesCount := if decimalsPlacesCount <? 0 then 0 else decimalsPlacesCount in
if (decimalsPlacesCount >=? scale this) || isZero this
then Ok this
else
  let result := this in
  let currentScale := scale this in
  let targetScale := u8 decimalsPlacesCount in
  let digitsToRemove := u8 (currentScale - targetScale) in
  let mantissa := mantissaAsInt128 native this in
  let divisor := R_of_int 1 in
  let divisor :=
    if digitsToRemove >? 1
    then
      let divisorPowers := u8 (digitsToRemove - 1) in
      Nat.iter (Z.to_nat divisorPowers) (fun divisor => R_mul divisor (R_of_u64 DECIMAL_BASE)) divisor
    else divisor in
  q <- R_div mantissa divisor ;;
  roundingDigit <- R_rem q (R_of_u64 DECIMAL_BASE) ;;
  result <- truncate_digits (Z.to_nat digitsToRemove) result ;;
  let result := set_flags result (with_scale (flags result) targetScale) in
  shouldRoundUp <-
    match mode with
    | ToNearest =>
        shouldRoundUpToNearest native roundingDigit mantissa divisor digitsToRemove result
    | ToNearestTiesAway => Ok (shouldRoundUpToNearestTiesAway native roundingDigit)
    | ToZero => Ok false
    | ToPositiveInfinity =>
        shouldRoundUpToPositiveInfinity native mantissa digitsToRemove (isNegative this)
    | ToNegativeInfinity =>
        shouldRoundUpToNegativeInfinity native mantissa digitsToRemove (isNegative this)
    end ;;
  if (shouldRoundUp : bool)
  then
    let resultMantissa := mantissaAsInt128 native result in
    let resultMantissa :=
      if isNegative this
      then R_add resultMantissa (R_of_int 1)
      else R_add resultMantissa (R_of_int 1) in
    Ok (setMantissa native result resultMantissa)
  else Ok result.

(** [truncate()], [floor()], [ceiling()] *)
Definition Decimal_truncate (this : Decimal) : outcome Decimal :=
Decimal_round this 0 ToZero.

Definition Decimal_floor (this : Decimal) : outcome Decimal :=
Decimal_round this 0 ToNegativeInfinity.

Definition Decimal_ceiling (this : Decimal) : outcome Decimal :=
Decimal_round this 0 ToPositiveInfinity.

End DecimalRounding.

(* ================================================================== *)
(** * Strings *)

(** A [std::string_view] is read as the list of its characters. *)
Definition chars (s : string) : list ascii := list_ascii_of_string s.

Definition code (c : ascii) : Z := Z.of_nat (nat_of_ascii c).

(** [static_cast<char>('0' + d)] *)
Definition digit_char (d : Z) : ascii := ascii_of_nat (Z.to_nat ((48 + d) mod 256)).

Definition is_char (c : ascii) (s : string) : bool :=
match s with
| String c' EmptyString => Ascii.eqb c c'
| _ => false
end.

(** [c < '0' || c > '9'] *)
Definition not_a_digit (c : ascii) : bool := (code c <? 48) || (code c >? 57).

(** [std::string_view::operator>]: lexicographic on characters, a proper
    prefix being smaller. *)
Fixpoint string_gt (a b : list ascii) : bool :=
match a, b with
| [], _ => false
| _ :: _, [] => true
| x :: a', y :: b' =>
    if code x >? code y then true
    else if code x <? code y then false
    else string_gt a' b'
end.

(** ** Decimal::tryParse *)

(** The first loop of [tryParse]: position of the decimal point, [None]
    for [npos]; the outer [None] is [return false] on a second point. *)
Fixpoint find_decimal_point (cs : list ascii) (i : nat) (decimalPos : option nat)
  (decimalCount : nat) : option (option nat) :=
match cs with
| [] => Some decimalPos
| c :: cs' =>
    if is_char c "."
    then
      let decimalCount := S decimalCount in
      if (1 <? decimalCount)%nat then None
      else find_decimal_point cs' (S i) (Some i) decimalCount
    else find_decimal_point cs' (S i) decimalPos decimalCount
end.

(** The local variables of the digit accumulation loop. *)
Record parse_state : Type := mkParseState {
  ps_mantissaValue : Int128;
  ps_hasDigits : bool;
  ps_significantDigits : Z;
  ps_decimalDigitsProcessed : Z;
  ps_currentScale : Z
}.

(** [decimalPos != npos && i > decimalPos] *)
Definition after_point (decimalPos : option nat) (i : nat) : bool :=
match decimalPos with
| Some p => (p <? i)%nat
| None => false
end.

Section DecimalStrings.

Variable native : bool.

Abbreviation S_of_int := (Int128_of_int64 native).
Abbreviation S_of_u64 := (Int128_of_uint64 native).
Abbreviation S_toLow := (Int128_toLow native).
Abbreviation S_toHigh := (Int128_toHigh native).
Abbreviation S_add := (Int128_add native).
Abbreviation S_mul := (Int128_mul native).
Abbreviation S_div := (Int128_div native).
Abbreviation S_rem := (Int128_rem native).
Abbreviation S_neqb := (Int128_neqb native).
Abbreviation S_isZero := (Int128_isZero native).
Abbreviation S_abs := (Int128_abs native).

(** The digit accumulation loop of [tryParse], from index [i] on.
    [None] is [return false]; [Some] is the state at the end of the loop
    or at its [break]. *)
Fixpoint accumulate_digits (cs : list ascii) (i : nat) (decimalPos : option nat)
  (st : parse_state) : option parse_state :=
match cs with
| [] => Some st
| c :: cs' =>
    if is_char c "."
    then accumulate_digits cs' (S i) decimalPos st
    else if not_a_digit c
    then None
    else
      let hasDigits := true in
      let digit := code c - 48 in
      if ps_significantDigits st >=? DECIMAL_MAXIMUM_PLACES
      then
        Some (mkParseState (ps_mantissaValue st) hasDigits (ps_significantDigits st)
                (ps_decimalDigitsProcessed st)
                (match decimalPos with
                 | Some _ => ps_decimalDigitsProcessed st
                 | None => ps_currentScale st
                 end))
      else
        let significantDigits :=
          if negb (digit =? 0)
             || S_neqb (ps_mantissaValue st) (S_of_int 0)
             || after_point decimalPos i
          then u8 (ps_significantDigits st + 1)
          else ps_significantDigits st in
        let decimalDigitsProcessed :=
          if after_point decimalPos i
          then u8 (ps_decimalDigitsProcessed st + 1)
          else ps_decimalDigitsProcessed st in
        let ten := S_of_u64 DECIMAL_BASE in
        let mantissaValue := S_add (S_mul (ps_mantissaValue st) ten) (S_of_u64 digit) in
        accumulate_digits cs' (S i) decimalPos
          (mkParseState mantissaValue hasDigits significantDigits
             decimalDigitsProcessed (ps_currentScale st))
end.

(** [while (mantissaValue.toHigh() > UINT32_MAX_VALUE && currentScale > 0)]:
    a 128-bit value is zero after 39 divisions by ten. *)
Fixpoint fit_by_scale (n : nat) (mantissaValue : Int128) (currentScale : Z)
  : outcome (Int128 * Z) :=
match n with
| O => Ok (mantissaValue, currentScale)
| S n' =>
    if (S_toHigh mantissaValue >? UINT32_MAX_VALUE) && (currentScale >? 0)
    then
      mantissaValue <- S_div mantissaValue (S_of_u64 DECIMAL_BASE) ;;
      fit_by_scale n' mantissaValue (u8 (currentScale - 1))
    else Ok (mantissaValue, currentScale)
end.

(** [while (mantissaValue.toHigh() > UINT32_MAX_VALUE)] *)
Fixpoint fit_by_integer (n : nat) (mantissaValue : Int128) : outcome Int128 :=
match n with
| O => Ok mantissaValue
| S n' =>
    if S_toHigh mantissaValue >? UINT32_MAX_VALUE
    then
      mantissaValue <- S_div mantissaValue (S_of_u64 DECIMAL_BASE) ;;
      fit_by_integer n' mantissaValue
    else Ok mantissaValue
end.

(** The body of the [try] block of [tryParse].  [Ok None] is
    [return false], [Ok (Some d)] is [return true] with [result = d]. *)
Definition tryParse_body (str : string) : outcome (option Decimal) :=
let s := chars str in
match s with
| [] => Ok None
| c0 :: _ =>
    let '(negative, pos) :=
      if is_char c0 "-" then (true, 1%nat)
      else if is_char c0 "+" then (false, 1%nat)
      else (false, 0%nat) in
    if (List.length s <=? pos)%nat then Ok None
    else
      match find_decimal_point (skipn pos s) pos None 0 with
      | None => Ok None
      | Some decimalPos =>
          let currentScale :=
            match decimalPos with
            | Some p =>
                let currentScale := u8 (Z.of_nat (List.length s) - Z.of_nat p - 1) in
                if currentScale >? DECIMAL_MAXIMUM_PLACES
                then DECIMAL_MAXIMUM_PLACES else currentScale
            | None => 0
            end in
          match accumulate_digits (skipn pos s) pos decimalPos
                  (mkParseState (Int128_zero native) false 0 0 currentScale) with
          | None => Ok None
          | Some st =>
              if negb (ps_hasDigits st) then Ok None
              else
                let mantissaValue := ps_mantissaValue st in
                let currentScale := ps_currentScale st in
                '(mantissaValue, currentScale) <-
                   (if S_toHigh mantissaValue >? UINT32_MAX_VALUE
                    then
                      '(mantissaValue, currentScale) <-
                         fit_by_scale 40 mantissaValue currentScale ;;
                      mantissaValue <- fit_by_integer 40 mantissaValue ;;
                      Ok (mantissaValue, currentScale)
                    else Ok (mantissaValue, currentScale)) ;;
                let result := Decimal_zero in
                let result := set_sign_if negative result in
                let result :=
                  set_flags result
                    (Z.lor (flags result) (u32 (Z.shiftl currentScale DECIMAL_SCALE_SHIFT))) in
                let low := S_toLow mantissaValue in
                let high := S_toHigh mantissaValue in
                let result :=
                  mkDecimal (flags result) (u32 low)
                    (u32 (Z.shiftr low BITS_PER_UINT32)) (u32 high) in
                result <- normalize native result ;;
                Ok (Some result)
          end
      end
end.

(** [Decimal::tryParse]: [None] when it returns false, which includes
    the [catch (...)] of anything thrown in the body. *)
Definition Decimal_tryParse (str : string) : option Decimal :=
match tryParse_body str with
| Ok r => r
| Throw _ => None
end.

(** [Decimal::parse] *)
Definition Decimal_parse (str : string) : outcome Decimal :=
match Decimal_tryParse str with
| Some d => Ok d
| None => Throw InvalidFormat
end.

(** ** Decimal::toString *)

(** [while (value > 0 && digitCount < digits.size())]; [n] is the room
    left in [digits], which holds the least significant digit first. *)
Fixpoint extract_digits_64 (n : nat) (value : Z) (digits : list ascii) : list ascii :=
match n with
| O => digits
| S n' =>
    if value >? 0
    then extract_digits_64 n' (value / DECIMAL_BASE)
           (digits ++ [digit_char (value mod DECIMAL_BASE)])
    else digits
end.

(** Native build, full 128-bit extraction. *)
Fixpoint extract_digits_native (n : nat) (mantissa : Int128) (digits : list ascii)
  : list ascii :=
match n with
| O => digits
| S n' =>
    if negb (Native.isZero mantissa)
    then
      let digits := digits ++ [digit_char (Z.rem (Native.toNative mantissa) DECIMAL_BASE)] in
      extract_digits_native n'
        (Native.of_native (Z.quot (Native.toNative mantissa) DECIMAL_BASE)) digits
    else digits
end.

(** Emulated build, manual 128-bit extraction. *)
Fixpoint extract_digits_emulated (n : nat) (mantissa : Int128) (digits : list ascii)
  : outcome (list ascii) :=
match n with
| O => Ok digits
| S n' =>
    if negb (Emulated.isZero mantissa)
    then
      if Emulated.toHigh mantissa =? 0
      then Ok (extract_digits_64 n (Emulated.toLow mantissa) digits)
      else
        remainder <- Emulated.rem mantissa (Emulated.of_uint64 DECIMAL_BASE) ;;
        let digits := digits ++ [digit_char (Emulated.toLow remainder)] in
        mantissa <- Emulated.div mantissa (Emulated.of_uint64 DECIMAL_BASE) ;;
        extract_digits_emulated n' mantissa digits
    else Ok digits
end.

(** [Decimal::toString] *)
Definition Decimal_toString (this : Decimal) : outcome string :=
if isZero this then Ok "0"%string
else
  let mantissa := S_abs (mantissaAsInt128 native this) in
  let currentScale := Z.to_nat (scale this) in
  digits <-
    (if native
     then
       if Native.toNative mantissa <=? 0xFFFFFFFFFFFFFFFF
       then Ok (extract_digits_64 DECIMAL_MAX_STRING_LENGTH (u64 (Native.toNative mantissa)) [])
       else Ok (extract_digits_native DECIMAL_MAX_STRING_LENGTH mantissa [])
     else
       if Emulated.toHigh mantissa =? 0
       then Ok (extract_digits_64 DECIMAL_MAX_STRING_LENGTH (Emulated.toLow mantissa) [])
       else extract_digits_emulated DECIMAL_MAX_STRING_LENGTH mantissa []) ;;
  let digits := match digits with [] => [digit_char 0] | _ => digits end in
  let digitCount := List.length digits in
  let result := if isNegative this then chars "-" else [] in
  let result :=
    if (0 <? currentScale)%nat
    then
      if (digitCount <=? currentScale)%nat
      then
        result ++ chars "0." ++ repeat (digit_char 0) (currentScale - digitCount)
               ++ rev digits
      else
        result ++ rev (skipn currentScale digits) ++ chars "."
               ++ rev (firstn currentScale digits)
    else result ++ rev digits in
  Ok (string_of_list_ascii result).

End DecimalStrings.

(* ================================================================== *)
(** * Int128: parsing and construction from floating point *)

Section Int128Strings.

Variable native : bool.

(** The accumulation loop of [Int128::tryParse]; [None] is [return false]. *)
Fixpoint accumulate_int128 (cs : list ascii) (result : Int128) : option Int128 :=
match cs with
| [] => Some result
| c :: cs' =>
    if not_a_digit c then None
    else
      let digit := code c - 48 in
      accumulate_int128 cs'
        (Int128_add native
           (Int128_mul native result (Int128_of_int64 native INT_128_BASE))
           (Int128_of_int64 native digit))
end.

(** [Int128::tryParse]: [None] when it returns false. *)
Definition Int128_tryParse (str : string) : option Int128 :=
let s := chars str in
match s with
| [] => None
| c0 :: _ =>
    let '(isNegative, pos) :=
      if is_char c0 "-" then (true, 1%nat)
      else if is_char c0 "+" then (false, 1%nat)
      else (false, 0%nat) in
    if (List.length s <=? pos)%nat then None
    else
      let result := Int128_of_int64 native 0 in
      let digitCount := (List.length s - pos)%nat in
      if (INT_128_MAX_DIGIT_COUNT <? digitCount)%nat then None
      else if (digitCount =? INT_128_MAX_DIGIT_COUNT)%nat
              && (let digits := skipn pos s in
                  if negb isNegative
                  then string_gt digits (chars INT_128_MAX_POSITIVE_STRING)
                  else string_gt digits (chars INT_128_MAX_NEGATIVE_STRING))
      then None
      else
        match accumulate_int128 (skipn pos s) result with
        | None => None
        | Some result =>
            Some (if isNegative then Int128_neg native result else result)
        end
end.

(** [Int128::parse] *)
Definition Int128_parse (str : string) : outcome Int128 :=
match Int128_tryParse str with
| Some x => Ok x
| None => Throw InvalidFormat
end.

End Int128Strings.

(** ** Floating-point arguments

    A [float] or [double] is NaN, an infinity, or a finite value
    [(-1)^negative * significand * 2^exponent].  The constructors below
    only classify, truncate and compare their argument, and every one of
    these operations is exact on such a value. *)
Inductive floating : Type :=
| fp_nan
| fp_inf (negative : bool)
| fp_finite (negative : bool) (significand : Z) (exponent : Z).

(** The values of the binary32 and binary64 formats. *)
Definition is_float (v : floating) : Prop :=
match v with
| fp_finite _ m e => 0 <= m < 2 ^ 24 /\ -149 <= e <= 104
| _ => True
end.

Definition is_double (v : floating) : Prop :=
match v with
| fp_finite _ m e => 0 <= m < 2 ^ 53 /\ -1074 <= e <= 971
| _ => True
end.

(** The magnitude of [std::trunc] of a finite value. *)
Definition trunc_magnitude (m e : Z) : Z :=
if 0 <=? e then m * 2 ^ e else m / 2 ^ (- e).

(** The integer [std::trunc] returns, with its sign. *)
Definition trunc_value (negative : bool) (m e : Z) : Z :=
if negative then - trunc_magnitude m e else trunc_magnitude m e.

(** [static_cast<double>(std::numeric_limits<std::int64_t>::max())]: the
    conversion rounds [2^63 - 1] to the nearest double, [2^63]. *)
Definition INT64_MAX_AS_DOUBLE : Z := 2 ^ 63.

(** [static_cast<double>(std::numeric_limits<std::int64_t>::min())] *)
Definition INT64_MIN_AS_DOUBLE : Z := - 2 ^ 63.

(** [constants::INT_128_MAX_AS_DOUBLE], the literal 1.7014118346046923e38:
    the double nearest to it is [2^127]. *)
Definition INT_128_MAX_AS_DOUBLE : Z := 2 ^ 127.

(** [constants::INT_128_MIN_AS_DOUBLE], the literal -1.7014118346046924e38:
    the double nearest to it is [-2^127]. *)
Definition INT_128_MIN_AS_DOUBLE : Z := - 2 ^ 127.

(** What [oss << std::fixed << std::setprecision(0) << truncated] writes
    for an integral double: a minus sign when the sign bit is set, then
    the decimal digits of the magnitude. *)
Fixpoint decimal_digits (n : nat) (value : Z) (acc : list ascii) : list ascii :=
match n with
| O => acc
| S n' =>
    if value <? 10 then digit_char value :: acc
    else decimal_digits n' (value / 10) (digit_char (value mod 10) :: acc)
end.

Definition format_fixed0 (negative : bool) (magnitude : Z) : string :=
string_of_list_ascii
  ((if negative then chars "-" else [])
   ++ decimal_digits (S (Z.to_nat (Z.log2 magnitude))) magnitude []).

Section Int128FromFloating.

Variable native : bool.

(** [Int128::Int128(float)].  The last conversion,
    [static_cast<std::int64_t>(truncated)], is only defined for a value
    of the [int64_t] range; it is read as the 64-bit wrap-around. *)
Definition Int128_of_float (val : floating) : Int128 :=
match val with
| fp_nan | fp_inf _ => Int128_of_int64 native 0
| fp_finite negative m e =>
    let truncated := trunc_value negative m e in
    if (truncated >? INT64_MAX_AS_DOUBLE) || (truncated <? INT64_MIN_AS_DOUBLE)
    then
      if truncated >? 0
      then Int128_of_int64 native (2 ^ 63 - 1)
      else Int128_of_int64 native (- 2 ^ 63)
    else Int128_of_int64 native (i64 truncated)
end.

(** [Int128::Int128(double)] *)
Definition Int128_of_double (val : floating) : outcome Int128 :=
match val with
| fp_nan | fp_inf _ => Ok (Int128_of_int64 native 0)
| fp_finite negative m e =>
    let truncated := trunc_value negative m e in
    if (truncated >? INT_128_MAX_AS_DOUBLE) || (truncated <? INT_128_MIN_AS_DOUBLE)
    then
      if truncated >? 0
      then Ok (Int128_of_words native INT_128_MAX_POSITIVE_LOW INT_128_MAX_POSITIVE_HIGH)
      else Ok (Int128_of_words native INT_128_MIN_NEGATIVE_LOW INT_128_MIN_NEGATIVE_HIGH)
    else Int128_parse native (format_fixed0 negative (trunc_magnitude m e))
end.

End Int128FromFloating.

(** ** Int128::toString *)

Section Int128Formatting.

Variable native : bool.

(** [while (!temp.isZero())]: one digit per iteration, put in front of
    [result].  An iteration divides [temp] by ten; [n] bounds the
    iterations followed here, and [None] stands for a loop that is still
    running after them. *)
Fixpoint toString_digits (n : nat) (temp : Int128) (result : list ascii)
  : outcome (option (list ascii)) :=
if Int128_isZero native temp then Ok (Some result)
else
  match n with
  | O => Ok None
  | S n' =>
      quotient <- Int128_div native temp (Int128_of_int64 native INT_128_BASE) ;;
      remainder <- Int128_rem native temp (Int128_of_int64 native INT_128_BASE) ;;
      let digit := digit_char (Int128_toLow native remainder) in
      toString_digits n' quotient (digit :: result)
  end.

(** [Int128::toString] *)
Definition Int128_toString (this : Int128) : outcome (option string) :=
if Int128_isZero native this then Ok (Some "0"%string)
else if (Int128_toHigh native this =? INT_128_MIN_NEGATIVE_HIGH)
        && (Int128_toLow native this =? INT_128_MIN_NEGATIVE_LOW)
then Ok (Some (String "-" INT_128_MAX_NEGATIVE_STRING))
else
  let temp := Int128_abs native this in
  digits <- toString_digits (S INT_128_MAX_BIT_INDEX) temp [] ;;
  match digits with
  | None => Ok None
  | Some result =>
      Ok (Some (string_of_list_ascii
                  (if Int128_isNegative native this
                   then "-"%char :: result else result)))
  end.

End Int128Formatting.

(** ** Decimal: the other comparisons, abs and the conversions *)

Section DecimalComparisons.

Variable native : bool.

(** [Decimal::operator<] *)
Definition Decimal_ltb (this other : Decimal) : bool :=
if negb (Bool.eqb (isNegative this) (isNegative other)) then isNegative this
else
  let aligned := alignScale native this other in
  let left := fst aligned in
  let right := snd aligned in
  if isNegative this then Int128_gtb native left right else Int128_ltb native left right.

(** [operator!=], [operator<=], [operator>], [operator>=] of Decimal.inl *)
Definition Decimal_neqb (this other : Decimal) : bool :=
negb (Decimal_eqb native this other).

Definition Decimal_leb (this other : Decimal) : bool :=
Decimal_ltb this other || Decimal_eqb native this other.

Definition Decimal_gtb (this other : Decimal) : bool :=
negb (Decimal_leb this other).

Definition Decimal_geb (this other : Decimal) : bool :=
negb (Decimal_ltb this other).

(** [Decimal::abs] *)
Definition Decimal_abs (this : Decimal) : Decimal :=
if isNegative this then Decimal_neg this else this.

(** [Decimal(std::uint32_t)], [Decimal(std::uint64_t)] *)
Definition Decimal_of_uint32 (value : Z) : Decimal := mkDecimal 0 value 0 0.

Definition Decimal_of_uint64 (value : Z) : Decimal :=
mkDecimal 0 (u32 value) (u32 (Z.shiftr value BITS_PER_UINT32)) 0.

(** [Decimal(const Int128&)].  The native test compares with
    [static_cast<__int128>(INT_128_MIN_NEGATIVE_HIGH) << 64], the
    minimum value. *)
Definition Decimal_of_Int128 (val : Int128) : Decimal :=
let this := Decimal_zero in
if Int128_isZero native val then this
else
  let isNegative := Int128_isNegative native val in
  if (if native
      then Native.toNative val
           =? i128 (Z.shiftl (i128 INT_128_MIN_NEGATIVE_HIGH) BITS_PER_UINT64)
      else (Emulated.toHigh val =? INT_128_MIN_NEGATIVE_HIGH)
           && (Emulated.toLow val =? INT_128_MIN_NEGATIVE_LOW))
  then
    let this :=
      mkDecimal (flags this)
        DECIMAL_MAX_MANTISSA_0 DECIMAL_MAX_MANTISSA_1 DECIMAL_MAX_MANTISSA_2 in
    set_sign_if isNegative this
  else
    let absoluteValue := Int128_abs native val in
    let this := set_sign_if isNegative this in
    let high64 := Int128_toHigh native absoluteValue in
    if high64 >? UINT32_MAX_VALUE
    then
      mkDecimal (flags this)
        DECIMAL_MAX_MANTISSA_0 DECIMAL_MAX_MANTISSA_1 DECIMAL_MAX_MANTISSA_2
    else setMantissa native this absoluteValue.

(** [Int128(const Decimal&)] *)
Definition Int128_of_Decimal (decimal : Decimal) : outcome Int128 :=
if isZero decimal then Ok (Int128_of_int64 native 0)
else
  let low :=
    Z.lor (u64 (Z.shiftl (mantissa1 decimal) BITS_PER_UINT32)) (mantissa0 decimal) in
  let high := mantissa2 decimal in
  let integerPart := Int128_of_words native low high in
  integerPart <-
    (if scale decimal >? 0
     then
       let divisor :=
         Nat.iter (Z.to_nat (scale decimal))
           (fun divisor => Int128_mul native divisor (Int128_of_int64 native INT_128_BASE))
           (Int128_of_int64 native 1) in
       Int128_div native integerPart divisor
     else Ok integerPart) ;;
  let isNegative := isNegative decimal in
  Ok (if isNegative then Int128_neg native integerPart else integerPart).

End DecimalComparisons.

(** ** Decimal::decimalPlacesCount *)

Section DecimalPlaces.

Variable native : bool.

(** [while (trailingZeros < currentScale)]: every iteration that does
    not [break] raises [trailingZeros] by one, so [n], the distance to
    [currentScale] on entry, bounds the iterations. *)
Fixpoint count_trailing_zeros (n : nat) (mantissa128 ten : Int128)
  (trailingZeros currentScale : Z) : outcome Z :=
match n with
| O => Ok trailingZeros
| S n' =>
    if trailingZeros <? currentScale
    then
      r <- Int128_rem native mantissa128 ten ;;
      if Int128_neqb native r (Int128_of_int64 native 0)
      then Ok trailingZeros
      else
        mantissa128 <- Int128_div native mantissa128 ten ;;
        count_trailing_zeros n' mantissa128 ten (u8 (trailingZeros + 1)) currentScale
    else Ok trailingZeros
end.

(** [Decimal::decimalPlacesCount] *)
Definition Decimal_decimalPlacesCount (this : Decimal) : outcome Z :=
if isZero this then Ok 0
else
  let currentScale := scale this in
  if currentScale =? 0 then Ok 0
  else
    let mantissa128 :=
      if native
      then
        let mantissaValue :=
          Z.lor (Z.lor (Z.shiftl (mantissa2 this) BITS_PER_UINT64)
                       (Z.shiftl (mantissa1 this) BITS_PER_UINT32))
                (mantissa0 this) in
        Native.of_native mantissaValue
      else
        let low := Z.lor (u64 (Z.shiftl (mantissa1 this) BITS_PER_UINT32)) (mantissa0 this) in
        let high := mantissa2 this in
        Emulated.of_words low high in
    let trailingZeros := 0 in
    let ten := Int128_of_uint64 native DECIMAL_BASE in
    trailingZeros <-
      count_trailing_zeros (Z.to_nat currentScale) mantissa128 ten trailingZeros currentScale ;;
    Ok (u8 (currentScale - trailingZeros)).

End DecimalPlaces.

(** ** Int128: comparison with the built-in integers (Int128.inl) *)

Section Int128BuiltinComparisons.

Variable native : bool.

(** [operator==(std::int64_t)] and its five companions.  The native
    build compares [m_value] with the argument; the emulated build
    compares the words for equality and goes through [Int128{val}] for
    the order. *)
Definition Int128_eqb_int64 (this : Int128) (val : Z) : bool :=
if native then Native.toNative this =? val
else
  let expected_upper := if val <? 0 then u64 (-1) else 0 in
  (upper64bits this =? expected_upper) && (lower64bits this =? u64 val).

Definition Int128_neqb_int64 (this : Int128) (val : Z) : bool :=
if native then negb (Native.toNative this =? val)
else negb (Int128_eqb_int64 this val).

Definition Int128_ltb_int64 (this : Int128) (val : Z) : bool :=
if native then Native.toNative this <? val
else Emulated.ltb this (Emulated.of_int64 val).

Definition Int128_leb_int64 (this : Int128) (val : Z) : bool :=
if native then Native.toNative this <=? val
else Emulated.leb this (Emulated.of_int64 val).

Definition Int128_gtb_int64 (this : Int128) (val : Z) : bool :=
if native then Native.toNative this >? val
else Emulated.gtb this (Emulated.of_int64 val).

Definition Int128_geb_int64 (this : Int128) (val : Z) : bool :=
if native then Native.toNative this >=? val
else Emulated.geb this (Emulated.of_int64 val).

(** [operator==(std::uint64_t)] and its five companions.  The native
    build compares [static_cast<std::uint64_t>(m_value)], the low word,
    with the argument. *)
Definition Int128_eqb_uint64 (this : Int128) (val : Z) : bool :=
if native
then (Native.toNative this >=? 0) && (u64 (Native.toNative this) =? val)
else (upper64bits this =? 0) && (lower64bits this =? val).

Definition Int128_neqb_uint64 (this : Int128) (val : Z) : bool :=
if native
then (Native.toNative this <? 0) || negb (u64 (Native.toNative this) =? val)
else negb (Int128_eqb_uint64 this val).

Definition Int128_ltb_uint64 (this : Int128) (val : Z) : bool :=
if native
then (Native.toNative this <? 0) || (u64 (Native.toNative this) <? val)
else
  if Emulated.isNegative this then true
  else if negb (upper64bits this =? 0) then false
  else lower64bits this <? val.

Definition Int128_leb_uint64 (this : Int128) (val : Z) : bool :=
if native
then (Native.toNative this <? 0) || (u64 (Native.toNative this) <=? val)
else
  if Emulated.isNegative this then true
  else if negb (upper64bits this =? 0) then false
  else lower64bits this <=? val.

Definition Int128_gtb_uint64 (this : Int128) (val : Z) : bool :=
if native
then (Native.toNative this >=? 0) && (u64 (Native.toNative this) >? val)
else
  if Emulated.isNegative this then false
  else if negb (upper64bits this =? 0) then true
  else lower64bits this >? val.

Definition Int128_geb_uint64 (this : Int128) (val : Z) : bool :=
if native
then (Native.toNative this >=? 0) && (u64 (Native.toNative this) >=? val)
else
  if Emulated.isNegative this then false
  else if negb (upper64bits this =? 0) then true
  else lower64bits this >=? val.

End Int128BuiltinComparisons.

(* ================================================================== *)
(** * Values

    The numbers the layouts stand for, used to state the properties. *)

(** The signed value of an [Int128]. *)
Definition Int128_value (x : Int128) : Z := i128 (bits128 x).

(** Both words of the layout are 64-bit words. *)
Definition Int128_wf (x : Int128) : Prop :=
0 <= lower64bits x < 2 ^ 64 /\ 0 <= upper64bits x < 2 ^ 64.

(** The 96-bit mantissa of a [Decimal]. *)
Definition mantissa_value (d : Decimal) : Z :=
mantissa0 d + 2 ^ 32 * mantissa1 d + 2 ^ 64 * mantissa2 d.

(** The number a run of decimal digits denotes, most significant digit
    first, continuing from [acc]. *)
Fixpoint digits_value (cs : list ascii) (acc : Z) : Z :=
match cs with
| [] => acc
| c :: cs' => digits_value cs' (acc * 10 + (code c - 48))
end.

(** [c] is one of the characters '0' ... '9'. *)
Definition is_digit (c : ascii) : Prop := not_a_digit c = false.

(** The representation invariant of the data model: the flags word holds
    the sign in bit 31 and a scale of at most 28 in bits 16-23, every
    other bit is zero, and the mantissa words are 32-bit words. *)
Definition Decimal_wf (d : Decimal) : Prop :=
flags d = Z.lor (if isNegative d then DECIMAL_SIGN_MASK else 0)
                  (Z.shiftl (scale d) DECIMAL_SCALE_SHIFT)
  /\ scale d <= DECIMAL_MAXIMUM_PLACES
  /\ 0 <= mantissa0 d < 2 ^ 32
  /\ 0 <= mantissa1 d < 2 ^ 32
  /\ 0 <= mantissa2 d < 2 ^ 32.

(** ** Expressions of the worked examples *)

(** Parse, combine with [op], and format the result. *)
Definition calc (native : bool)
  (op : Decimal -> Decimal -> outcome Decimal) (l r : string) : outcome string :=
a <- Decimal_parse native l ;;
b <- Decimal_parse native r ;;
c <- op a b ;;
Decimal_toString native c.

(** Parse, round and format. *)
Definition rounded (native : bool) (s : string) (places : Z) (mode : RoundingMode)
  : outcome string :=
a <- Decimal_parse native s ;;
r <- Decimal_round native a places mode ;;
Decimal_toString native r.

(** ** The loop invariant of the long division

    Before the bit with index [n - 1] is handled, [quotient] and
    [remainder] are those of the bits of the dividend above it. *)
Definition div_invariant (abs_dividend abs_divisor : Int128) (n : Z)
  (st : Int128 * Int128) : Prop :=
Int128_wf (fst st) /\ Int128_wf (snd st)
/\ bits128 (snd st) = (bits128 abs_dividend / 2 ^ n) mod bits128 abs_divisor
/\ bits128 (fst st) = (bits128 abs_dividend / 2 ^ n / bits128 abs_divisor) * 2 ^ n.

(** ** The number a Decimal denotes

    [Decimal_signed d s] is the value of [d] in units of [10^-s], for a
    scale [s] that is not below the scale of [d]. *)
Definition Decimal_signed (d : Decimal) (s : Z) : Z :=
(if isNegative d then -1 else 1) * (mantissa_value d * 10 ^ (s - scale d)).

(* ================================================================== *)
(** * Properties *)

(** Arithmetic goals over the machine words: the powers of two are
    written out, divisions and remainders by them are replaced by their
    equations, and [lia] closes the rest. *)
Ltac pow_consts :=
  change (2 ^ 8) with 256 in *;
  change (2 ^ 32) with 4294967296 in *;
  change (2 ^ 63) with 9223372036854775808 in *;
  change (2 ^ 64) with 18446744073709551616 in *;
  change (2 ^ 127) with 170141183460469231731687303715884105728 in *;
  change (2 ^ 128) with 340282366920938463463374607431768211456 in *.

Ltac zlia := pow_consts; Z.div_mod_to_equations; lia.

(** ** The 128-bit arithmetic of both builds *)

Lemma bits128_of_native z : bits128 (Native.of_native z) = z mod 2 ^ 128.
Proof.
  unfold bits128, Native.of_native, u64; cbn [lower64bits upper64bits].
  rewrite Z.shiftr_div_pow2 by lia. zlia.
Qed.

Lemma of_native_wf z : Int128_wf (Native.of_native z).
Proof.
  unfold Int128_wf, Native.of_native, u64; cbn [lower64bits upper64bits].
  zlia.
Qed.

Lemma i128_mod z : i128 z mod 2 ^ 128 = z mod 2 ^ 128.
Proof.
  unfold i128. cbv zeta. destruct (Z.ltb_spec (z mod 2 ^ 128) (2 ^ 127)); zlia.
Qed.

Lemma i128_range z : - 2 ^ 127 <= i128 z < 2 ^ 127.
Proof.
  unfold i128. cbv zeta. destruct (Z.ltb_spec (z mod 2 ^ 128) (2 ^ 127)); zlia.
Qed.

Lemma i128_small z : - 2 ^ 127 <= z < 2 ^ 127 -> i128 z = z.
Proof.
  intros H. unfold i128. cbv zeta. destruct (Z.ltb_spec (z mod 2 ^ 128) (2 ^ 127)); zlia.
Qed.

Lemma emulated_add_bits a b :
  Int128_wf a -> Int128_wf b ->
  bits128 (Emulated.add a b) = (bits128 a + bits128 b) mod 2 ^ 128.
Proof.
  destruct a as [la ua], b as [lb ub].
  unfold Int128_wf, bits128, Emulated.add, u64, BIT_MASK_ONE, BIT_MASK_ZERO;
    cbn [lower64bits upper64bits].
  intros [Hla Hua] [Hlb Hub].
  destruct (Z.ltb_spec ((la + lb) mod 2 ^ 64) la); zlia.
Qed.

Lemma emulated_add_wf a b : Int128_wf (Emulated.add a b).
Proof.
  unfold Int128_wf, Emulated.add, u64; cbn [lower64bits upper64bits]. zlia.
Qed.

Lemma emulated_sub_bits a b :
  Int128_wf a -> Int128_wf b ->
  bits128 (Emulated.sub a b) = (bits128 a - bits128 b) mod 2 ^ 128.
Proof.
  destruct a as [la ua], b as [lb ub].
  unfold Int128_wf, bits128, Emulated.sub, u64, BIT_MASK_ONE, BIT_MASK_ZERO;
    cbn [lower64bits upper64bits].
  intros [Hla Hua] [Hlb Hub].
  destruct (Z.ltb_spec la lb); zlia.
Qed.

Lemma emulated_mul_bits a b :
  Int128_wf a -> Int128_wf b ->
  bits128 (Emulated.mul a b) = (bits128 a * bits128 b) mod 2 ^ 128.
Proof.
  destruct a as [la ua], b as [lb ub].
  unfold Int128_wf, bits128, Emulated.mul; cbn [lower64bits upper64bits].
  intros [Hla Hua] [Hlb Hub].
  unfold BITS_PER_UINT32.
  change UINT32_MAX_VALUE with (Z.ones 32).
  rewrite !Z.land_ones, !Z.shiftr_div_pow2, !Z.shiftl_mul_pow2 by lia.
  unfold u64.
  pose proof (Z.div_mod la (2 ^ 32) ltac:(lia)) as Ea.
  pose proof (Z.div_mod lb (2 ^ 32) ltac:(lia)) as Eb.
  pose proof (Z.mod_pos_bound la (2 ^ 32) ltac:(lia)) as Ral.
  pose proof (Z.mod_pos_bound lb (2 ^ 32) ltac:(lia)) as Rbl.
  assert (Rah : 0 <= la / 2 ^ 32 < 2 ^ 32) by zlia.
  assert (Rbh : 0 <= lb / 2 ^ 32 < 2 ^ 32) by zlia.
  set (al := la mod 2 ^ 32) in *. set (ah := la / 2 ^ 32) in *.
  set (bl := lb mod 2 ^ 32) in *. set (bh := lb / 2 ^ 32) in *.
  assert (E : (la + 2 ^ 64 * ua) * (lb + 2 ^ 64 * ub)
              = al * bl + 2 ^ 32 * (al * bh + ah * bl) + 2 ^ 64 * (ah * bh)
                + 2 ^ 64 * (ua * lb + la * ub) + 2 ^ 128 * (ua * ub)).
  { clearbody al ah bl bh. rewrite Ea, Eb. pow_consts. ring. }
  rewrite E. clear E.
  assert (R0 : 0 <= al * bl < 2 ^ 64) by (pow_consts; nia).
  assert (R1 : 0 <= al * bh < 2 ^ 64) by (pow_consts; nia).
  assert (R2 : 0 <= ah * bl < 2 ^ 64) by (pow_consts; nia).
  assert (R3 : 0 <= ah * bh < 2 ^ 64) by (pow_consts; nia).
  generalize dependent (al * bl). intros P0 R0.
  generalize dependent (al * bh). intros P1 R1.
  generalize dependent (ah * bl). intros P2 R2.
  generalize dependent (ah * bh). intros P3 R3.
  generalize (ua * lb) (la * ub) (ua * ub). intros X Y W.
  clear - R0 R1 R2 R3.
  rewrite (Z.mod_small P0), (Z.mod_small P1), (Z.mod_small P2), (Z.mod_small P3) by assumption.
  assert (Hs : (P0 / 2 ^ 32 + P1 mod 2 ^ 32 + P2 mod 2 ^ 32) mod 2 ^ 64
               = P0 / 2 ^ 32 + P1 mod 2 ^ 32 + P2 mod 2 ^ 32) by zlia.
  rewrite Hs. clear Hs.
  assert (Hl : (P0 + (P1 * 2 ^ 32) mod 2 ^ 64 + (P2 * 2 ^ 32) mod 2 ^ 64) mod 2 ^ 64
               = P0 mod 2 ^ 32
                 + 2 ^ 32 * ((P0 / 2 ^ 32 + P1 mod 2 ^ 32 + P2 mod 2 ^ 32) mod 2 ^ 32)) by zlia.
  rewrite Hl. clear Hl.
  assert (Hn : P0 + 2 ^ 32 * (P1 + P2) + 2 ^ 64 * P3
               = P0 mod 2 ^ 32
                 + 2 ^ 32 * ((P0 / 2 ^ 32 + P1 mod 2 ^ 32 + P2 mod 2 ^ 32) mod 2 ^ 32)
                 + 2 ^ 64 * (P3 + P1 / 2 ^ 32 + P2 / 2 ^ 32
                             + (P0 / 2 ^ 32 + P1 mod 2 ^ 32 + P2 mod 2 ^ 32) / 2 ^ 32)) by zlia.
  rewrite Hn. clear Hn.
  assert (Hr : 0 <= P0 mod 2 ^ 32
                 + 2 ^ 32 * ((P0 / 2 ^ 32 + P1 mod 2 ^ 32 + P2 mod 2 ^ 32) mod 2 ^ 32) < 2 ^ 64) by zlia.
  generalize dependent (P0 mod 2 ^ 32
                 + 2 ^ 32 * ((P0 / 2 ^ 32 + P1 mod 2 ^ 32 + P2 mod 2 ^ 32) mod 2 ^ 32)).
  intros L HL.
  generalize (P3 + P1 / 2 ^ 32 + P2 / 2 ^ 32
              + (P0 / 2 ^ 32 + P1 mod 2 ^ 32 + P2 mod 2 ^ 32) / 2 ^ 32).
  intros H. clear - HL. zlia.
Qed.

Lemma emulated_mul_wf a b : Int128_wf (Emulated.mul a b).
Proof.
  unfold Int128_wf, Emulated.mul, u64; cbn [lower64bits upper64bits]. zlia.
Qed.

Lemma emulated_sub_wf a b : Int128_wf (Emulated.sub a b).
Proof.
  unfold Int128_wf, Emulated.sub, u64; cbn [lower64bits upper64bits]. zlia.
Qed.

Lemma emulated_of_int64_bits v :
  - 2 ^ 63 <= v < 2 ^ 63 -> bits128 (Emulated.of_int64 v) = v mod 2 ^ 128.
Proof.
  intros Hv. unfold bits128, Emulated.of_int64, u64; cbn [lower64bits upper64bits].
  destruct (Z.ltb_spec v 0).
  - change ((-1) mod 2 ^ 64) with (2 ^ 64 - 1). zlia.
  - zlia.
Qed.

Lemma emulated_of_int64_wf v : Int128_wf (Emulated.of_int64 v).
Proof.
  unfold Int128_wf, Emulated.of_int64, u64; cbn [lower64bits upper64bits].
  destruct (Z.ltb_spec v 0).
  - change ((-1) mod 2 ^ 64) with (2 ^ 64 - 1). zlia.
  - zlia.
Qed.

Lemma emulated_neg_bits a :
  Int128_wf a -> bits128 (Emulated.neg a) = (- bits128 a) mod 2 ^ 128.
Proof.
  intros Ha. unfold Emulated.neg.
  rewrite emulated_add_bits.
  - destruct a as [la ua]. destruct Ha as [Hl Hu]. cbn [lower64bits upper64bits] in *.
    change (bits128 (Emulated.of_int64 1)) with 1.
    unfold bits128, not64, u64, Z.lnot; cbn [lower64bits upper64bits].
    replace (Z.pred (- la)) with (- la - 1) by lia.
    replace (Z.pred (- ua)) with (- ua - 1) by lia.
    zlia.
  - unfold Int128_wf, not64, u64; cbn [lower64bits upper64bits]. zlia.
  - apply emulated_of_int64_wf.
Qed.

Lemma toNative_mod x : Native.toNative x mod 2 ^ 128 = bits128 x mod 2 ^ 128.
Proof. unfold Native.toNative. apply i128_mod. Qed.

Lemma wf_bits_range x : Int128_wf x -> 0 <= bits128 x < 2 ^ 128.
Proof.
  destruct x as [l u]. unfold Int128_wf, bits128; cbn [lower64bits upper64bits].
  intros [Hl Hu]. zlia.
Qed.

Lemma wf_bits_inj x y :
  Int128_wf x -> Int128_wf y -> bits128 x = bits128 y -> x = y.
Proof.
  destruct x as [lx ux], y as [ly uy].
  unfold Int128_wf, bits128; cbn [lower64bits upper64bits].
  intros Hx Hy E.
  assert (ux = uy) as -> by zlia.
  assert (lx = ly) as -> by zlia.
  reflexivity.
Qed.

Section EitherBuild.
Variable native : bool.

Lemma Int128_add_wf a b : Int128_wf (Int128_add native a b).
Proof. destruct native; [ apply of_native_wf | apply emulated_add_wf ]. Qed.

Lemma Int128_mul_wf a b : Int128_wf (Int128_mul native a b).
Proof. destruct native; [ apply of_native_wf | apply emulated_mul_wf ]. Qed.

Lemma Int128_neg_wf a : Int128_wf (Int128_neg native a).
Proof. destruct native; [ apply of_native_wf | apply emulated_add_wf ]. Qed.

Lemma Int128_of_int64_wf v : Int128_wf (Int128_of_int64 native v).
Proof. destruct native; [ apply of_native_wf | apply emulated_of_int64_wf ]. Qed.

Lemma Int128_add_bits a b :
  Int128_wf a -> Int128_wf b ->
  bits128 (Int128_add native a b) = (bits128 a + bits128 b) mod 2 ^ 128.
Proof.
  intros Ha Hb. destruct native; cbn.
  - unfold Native.add. rewrite bits128_of_native, i128_mod.
    rewrite Z.add_mod, !toNative_mod, <- Z.add_mod by lia. reflexivity.
  - apply emulated_add_bits; assumption.
Qed.

Lemma Int128_mul_bits a b :
  Int128_wf a -> Int128_wf b ->
  bits128 (Int128_mul native a b) = (bits128 a * bits128 b) mod 2 ^ 128.
Proof.
  intros Ha Hb. destruct native; cbn.
  - unfold Native.mul. rewrite bits128_of_native, i128_mod.
    rewrite Z.mul_mod, !toNative_mod, <- Z.mul_mod by lia. reflexivity.
  - apply emulated_mul_bits; assumption.
Qed.

Lemma Int128_neg_bits a :
  Int128_wf a -> bits128 (Int128_neg native a) = (- bits128 a) mod 2 ^ 128.
Proof.
  intros Ha. destruct native; cbn.
  - unfold Native.neg. rewrite bits128_of_native, i128_mod.
    pose proof (toNative_mod a). zlia.
  - apply emulated_neg_bits; assumption.
Qed.

Lemma Int128_of_int64_bits v :
  - 2 ^ 63 <= v < 2 ^ 63 -> bits128 (Int128_of_int64 native v) = v mod 2 ^ 128.
Proof.
  intros Hv. destruct native; cbn.
  - apply bits128_of_native.
  - apply emulated_of_int64_bits; assumption.
Qed.

End EitherBuild.

Lemma i128_congr x y : x mod 2 ^ 128 = y mod 2 ^ 128 -> i128 x = i128 y.
Proof. intros E. unfold i128. rewrite E. reflexivity. Qed.

Lemma i128_idem z : i128 (i128 z) = i128 z.
Proof. apply i128_congr. apply i128_mod. Qed.

Lemma toNative_of_native z : Native.toNative (Native.of_native z) = i128 z.
Proof.
  unfold Native.toNative. rewrite bits128_of_native.
  apply i128_congr. apply Z.mod_mod. lia.
Qed.

(** ** Multiplication, division and remainder *)

(** The emulated product is the native product, for all operands. *)
Lemma emulated_mul_matches_native a b :
  Int128_wf a -> Int128_wf b -> Emulated.mul a b = Native.mul a b.
Proof.
  intros Ha Hb. apply wf_bits_inj.
  - apply emulated_mul_wf.
  - apply of_native_wf.
  - rewrite (Int128_mul_bits false), (Int128_mul_bits true) by assumption. reflexivity.
Qed.

(** On operands that both fit the low word and are not negative the
    emulated division takes its 64/64 path and agrees with the native one. *)
Lemma emulated_div_matches_native_low_word a b :
  Int128_wf a -> Int128_wf b ->
  upper64bits a = 0 -> upper64bits b = 0 -> lower64bits b <> 0 ->
  Emulated.div a b = Native.div a b.
Proof.
  destruct a as [la ua], b as [lb ub]. unfold Int128_wf; cbn [lower64bits upper64bits].
  intros [Hla _] [Hlb _] -> -> Hnz.
  unfold Emulated.div, Emulated.isZero, Native.div, Native.toNative, bits128;
    cbn [lower64bits upper64bits].
  rewrite !Z.mul_0_r, !Z.add_0_r.
  rewrite (i128_small la), (i128_small lb) by zlia.
  destruct (Z.eqb_spec lb 0) as [|_]; [ contradiction | ].
  cbn [andb Z.eqb]. f_equal.
  rewrite Z.quot_div_nonneg by lia.
  assert (0 <= la / lb <= la).
  { split; [ apply Z.div_pos; lia | ]. apply Z.div_le_upper_bound; nia. }
  rewrite i128_small by zlia.
  unfold Emulated.of_words, Native.of_native, u64. rewrite Z.shiftr_div_pow2 by lia.
  f_equal; zlia.
Qed.

(** The native remainder: it is [a - (a / b) * b], it is smaller in
    magnitude than the divisor, and it is zero or has the sign of the
    dividend. *)
Lemma native_rem_spec a b :
  Int128_value b <> 0 ->
  exists q r,
    Native.div a b = Ok q
    /\ Native.rem a b = Ok r
    /\ r = Native.sub a (Native.mul q b)
    /\ Int128_value r = Z.rem (Int128_value a) (Int128_value b)
    /\ Z.abs (Int128_value r) < Z.abs (Int128_value b)
    /\ (Int128_value r = 0 \/ Z.sgn (Int128_value r) = Z.sgn (Int128_value a)).
Proof.
  intros Hnz.
  unfold Native.div, Native.rem. change (Native.toNative b) with (Int128_value b).
  change (Native.toNative a) with (Int128_value a).
  destruct (Z.eqb_spec (Int128_value b) 0) as [|_]; [ contradiction | ].
  pose proof (i128_range (bits128 a)) as Ra. fold (Int128_value a) in Ra.
  pose proof (i128_range (bits128 b)) as Rb. fold (Int128_value b) in Rb.
  pose proof (Z.rem_bound_abs (Int128_value a) (Int128_value b) Hnz) as Habs.
  pose proof (Z.quot_rem' (Int128_value a) (Int128_value b)) as Hqr.
  assert (Hv : Int128_value (Native.of_native
                               (i128 (Z.rem (Int128_value a) (Int128_value b))))
               = Z.rem (Int128_value a) (Int128_value b)).
  { assert (Hr : - 2 ^ 127 <= Z.rem (Int128_value a) (Int128_value b) < 2 ^ 127).
    { clear Hqr. generalize dependent (Z.rem (Int128_value a) (Int128_value b)).
      intros r Hr. pow_consts. lia. }
    change (Int128_value (Native.of_native ?z)) with (Native.toNative (Native.of_native z)).
    rewrite toNative_of_native.
    rewrite (i128_small (Z.rem _ _)) by exact Hr.
    apply i128_small. exact Hr. }
  eexists. eexists. split; [ reflexivity | split; [ reflexivity | ] ].
  split; [ | split; [ exact Hv | split ] ].
  - unfold Native.sub, Native.mul. rewrite !toNative_of_native.
    change (Native.toNative a) with (Int128_value a).
    change (Native.toNative b) with (Int128_value b).
    f_equal. apply i128_congr.
    assert (Hm : (i128 (Int128_value a ÷ Int128_value b) * Int128_value b) mod 2 ^ 128
                 = (Int128_value a ÷ Int128_value b * Int128_value b) mod 2 ^ 128).
    { rewrite Z.mul_mod, i128_mod, <- Z.mul_mod by lia. reflexivity. }
    rewrite !i128_idem, Zminus_mod, i128_mod, Hm, <- Zminus_mod.
    f_equal. lia.
  - rewrite Hv. assumption.
  - rewrite Hv.
    destruct (Z.eq_dec (Z.rem (Int128_value a) (Int128_value b)) 0) as [|Hne];
      [ left; assumption | right ].
    apply Z.rem_sign_nz; assumption.
Qed.

(** The emulated remainder satisfies the same identity, with its own
    quotient. *)
Lemma emulated_rem_identity a b :
  Int128_wf a -> Int128_wf b -> Emulated.isZero b = false ->
  exists q r,
    Emulated.div a b = Ok q
    /\ Emulated.rem a b = Ok r
    /\ r = Emulated.sub a (Emulated.mul q b).
Proof.
  intros Ha Hb Hnz.
  unfold Emulated.rem. rewrite Hnz.
  destruct ((upper64bits a =? 0) && (upper64bits b =? 0)) eqn:Hfast.
  - apply andb_prop in Hfast. destruct Hfast as [Hua Hub].
    apply Z.eqb_eq in Hua, Hub.
    unfold Emulated.div. rewrite Hnz, Hua, Hub. cbn [Z.eqb andb].
    eexists. eexists. split; [ reflexivity | split; [ reflexivity | ] ].
    apply wf_bits_inj.
    + destruct a as [la ua], b as [lb ub]. unfold Int128_wf in *; cbn in *.
      unfold Emulated.isZero in Hnz; cbn in Hnz. subst ua ub.
      assert (lb <> 0).
      { intros ->. cbn in Hnz. discriminate. }
      pose proof (Z.mod_pos_bound la lb). zlia.
    + apply emulated_sub_wf.
    + destruct a as [la ua], b as [lb ub]. unfold Int128_wf in *; cbn [lower64bits upper64bits] in *.
      unfold Emulated.isZero in Hnz; cbn [lower64bits upper64bits] in Hnz. subst ua ub.
      assert (lb <> 0).
      { intros ->. cbn in Hnz. discriminate. }
      assert (0 <= la / lb <= la).
      { split; [ apply Z.div_pos; lia | ]. apply Z.div_le_upper_bound; nia. }
      rewrite emulated_sub_bits, emulated_mul_bits;
        try (unfold Int128_wf, Emulated.of_words; cbn [lower64bits upper64bits]; zlia);
        try apply emulated_mul_wf.
      unfold Emulated.of_words, bits128; cbn [lower64bits upper64bits].
      rewrite !Z.mul_0_r, !Z.add_0_r.
      pose proof (Z.mod_pos_bound la lb ltac:(lia)).
      pose proof (Z.div_mod la lb ltac:(lia)).
      assert (0 <= la / lb * lb <= la) by nia.
      rewrite (Z.mod_small (la / lb * lb)) by zlia.
      rewrite (Z.mod_small (la - _)) by (pow_consts; lia). lia.
  - destruct (Emulated.div a b) as [q|f] eqn:Hdiv.
    + exists q, (Emulated.sub a (Emulated.mul q b)). cbn [bind]. repeat split.
    + exfalso. unfold Emulated.div in Hdiv. rewrite Hnz, Hfast in Hdiv.
      repeat match type of Hdiv with
             | context [if ?c then _ else _] => destruct c
             | context [let '(_, _) := ?p in _] => destruct p
             end; discriminate.
Qed.

(** C7.  -7 % 2.  The native build returns -1.  The emulated build
    returns 1, a positive remainder for a negative dividend: its
    [operator/] takes the 128/64 path, which divides the two's-complement
    bits of -7 as an unsigned number. *)
Theorem emulated_rem_sign :
  Int128_rem false (Int128_of_int64 false (-7)) (Int128_of_int64 false 2)
  = Ok (Int128_of_int64 false 1)
  /\ Int128_rem true (Int128_of_int64 true (-7)) (Int128_of_int64 true 2)
     = Ok (Int128_of_int64 true (-1))
  /\ Int128_isNegative false (Int128_of_int64 false (-7)) = true
  /\ Int128_isNegative false (Int128_of_int64 false 1) = false.
Proof.
  split; [ vm_compute; reflexivity | ].
  split; [ vm_compute; reflexivity | ].
  split; vm_compute; reflexivity.
Qed.

(** C9.  -6 / 2.  The native build returns -3; the emulated build sends
    a dividend with a nonzero high word and a divisor that fits 64 bits
    down the unsigned 128/64 path and returns 2^127 - 3. *)
Theorem emulated_div_differs_from_native :
  Int128_div true (Int128_of_int64 true (-6)) (Int128_of_int64 true 2)
  = Ok (Int128_of_int64 true (-3))
  /\ exists q,
       Int128_div false (Int128_of_int64 false (-6)) (Int128_of_int64 false 2) = Ok q
       /\ Int128_value q = 2 ^ 127 - 3
       /\ q <> Int128_of_int64 true (-3).
Proof.
  split; [ vm_compute; reflexivity | ].
  eexists. split; [ vm_compute; reflexivity | ].
  split; [ vm_compute; reflexivity | vm_compute; discriminate ].
Qed.

(** ** Division by zero *)

(** C6.  Dividing by a zero of the type throws DivisionByZero, for
    [Int128] ([/], [%], [/=], [%=]) and for [Decimal] ([/], [/=]), in
    either build.  Nothing else is produced: the operators return no
    value, and after a compound assignment [*this] holds the value it
    held before. *)
Theorem division_by_zero_faults (native : bool) (a b : Int128) (x y : Decimal)
  (Hb : Int128_isZero native b = true) (Hy : isZero y = true) :
  Int128_div native a b = Throw DivisionByZero
  /\ Int128_rem native a b = Throw DivisionByZero
  /\ Int128_div_assign native a b = (Throw DivisionByZero, a)
  /\ Int128_rem_assign native a b = (Throw DivisionByZero, a)
  /\ Decimal_div native x y = Throw DivisionByZero
  /\ Decimal_div_assign native x y = (Throw DivisionByZero, x).
Proof.
  unfold Decimal_div_assign, Decimal_div.
  rewrite Hy.
  destruct native; cbn in Hb |- *.
  - unfold Native.isZero in Hb.
    unfold Native.div, Native.rem. rewrite Hb. repeat split.
  - unfold Emulated.rem, Emulated.div. rewrite Hb. repeat split.
Qed.

Lemma division_by_zero_faults_witness :
  Int128_div false (Emulated.of_int64 42) (Emulated.of_int64 0) = Throw DivisionByZero
  /\ Int128_rem false (Emulated.of_int64 42) (Emulated.of_int64 0) = Throw DivisionByZero
  /\ Int128_div_assign false (Emulated.of_int64 42) (Emulated.of_int64 0)
     = (Throw DivisionByZero, Emulated.of_int64 42)
  /\ Int128_rem_assign false (Emulated.of_int64 42) (Emulated.of_int64 0)
     = (Throw DivisionByZero, Emulated.of_int64 42)
  /\ Decimal_div false (Decimal_of_int64 7) (mkDecimal 0x80020000 0 0 0)
     = Throw DivisionByZero
  /\ Decimal_div_assign false (Decimal_of_int64 7) (mkDecimal 0x80020000 0 0 0)
     = (Throw DivisionByZero, Decimal_of_int64 7).
Proof.
  apply (division_by_zero_faults false (Emulated.of_int64 42) (Emulated.of_int64 0)
           (Decimal_of_int64 7) (mkDecimal 0x80020000 0 0 0)); reflexivity.
Defined.

(** ** Runs of decimal digits *)

Lemma code_digit_char d : 0 <= d <= 9 -> code (digit_char d) = 48 + d.
Proof.
  intros Hd. unfold code, digit_char.
  rewrite nat_ascii_embedding.
  - rewrite Z2Nat.id by zlia. zlia.
  - apply Nat2Z.inj_lt. rewrite Z2Nat.id by zlia. zlia.
Qed.

Lemma is_digit_code c : is_digit c <-> 48 <= code c <= 57.
Proof.
  unfold is_digit, not_a_digit. rewrite orb_false_iff.
  rewrite Z.ltb_ge, Z.gtb_ltb, Z.ltb_ge. reflexivity.
Qed.

Lemma digit_char_is_digit d : 0 <= d <= 9 -> is_digit (digit_char d).
Proof. intros Hd. apply is_digit_code. rewrite code_digit_char by assumption. lia. Qed.

Lemma digits_value_linear cs : forall acc,
  digits_value cs acc = acc * 10 ^ Z.of_nat (List.length cs) + digits_value cs 0.
Proof.
  induction cs as [|c cs IH]; intros acc; cbn [digits_value List.length].
  - cbn. lia.
  - rewrite IH, (IH (0 * 10 + _)), Nat2Z.inj_succ, Z.pow_succ_r by lia. ring.
Qed.

Lemma digits_value_app a b acc :
  digits_value (a ++ b) acc = digits_value b (digits_value a acc).
Proof.
  revert acc. induction a as [|c a IH]; intros acc; cbn; [ reflexivity | apply IH ].
Qed.

Lemma digits_value_bound cs :
  Forall is_digit cs -> 0 <= digits_value cs 0 < 10 ^ Z.of_nat (List.length cs).
Proof.
  induction 1 as [|c cs Hc _ IH]; cbn [digits_value List.length].
  - cbn. lia.
  - apply is_digit_code in Hc.
    rewrite digits_value_linear, Nat2Z.inj_succ, Z.pow_succ_r by lia.
    assert (0 < 10 ^ Z.of_nat (List.length cs)) by (apply Z.pow_pos_nonneg; lia).
    nia.
Qed.

Lemma digits_value_mod cs acc :
  digits_value cs (acc mod 2 ^ 128) mod 2 ^ 128 = digits_value cs acc mod 2 ^ 128.
Proof.
  rewrite (digits_value_linear cs (acc mod _)), (digits_value_linear cs acc).
  rewrite Z.add_mod, Z.mul_mod, Z.mod_mod, <- Z.mul_mod, <- Z.add_mod by lia.
  reflexivity.
Qed.

(** The digits [decimal_digits] writes. *)
Lemma decimal_digits_spec n : forall v acc,
  (0 < n)%nat ->
  0 <= v < 10 ^ Z.of_nat n ->
  exists ds,
    decimal_digits n v acc = ds ++ acc
    /\ Forall is_digit ds
    /\ ds <> []
    /\ digits_value ds 0 = v
    /\ (List.length ds = 1%nat \/ 10 ^ (Z.of_nat (List.length ds) - 1) <= v).
Proof.
  induction n as [|n IH]; intros v acc Hn Hv.
  - lia.
  - cbn [decimal_digits]. destruct (Z.ltb_spec v 10) as [Hlt|Hge].
    + exists [digit_char v]. repeat split.
      * constructor; [ apply digit_char_is_digit; lia | constructor ].
      * discriminate.
      * cbn [digits_value]. rewrite code_digit_char by lia. lia.
      * left. reflexivity.
    + rewrite Nat2Z.inj_succ, Z.pow_succ_r in Hv by lia.
      destruct (IH (v / 10) (digit_char (v mod 10) :: acc)) as (ds & E & Hd & Hne & Hval & Hlen).
      { destruct n; [ cbn in Hv; lia | lia ]. }
      { zlia. }
      exists (ds ++ [digit_char (v mod 10)]). repeat split.
      * rewrite E, <- app_assoc. reflexivity.
      * apply Forall_app. split; [ assumption | ].
        constructor; [ apply digit_char_is_digit; zlia | constructor ].
      * intros C. apply app_eq_nil in C. destruct C as [_ C]. discriminate.
      * rewrite digits_value_app. cbn [digits_value].
        rewrite Hval, code_digit_char by zlia. zlia.
      * right. rewrite length_app. cbn [List.length].
        replace (Z.of_nat (List.length ds + 1) - 1) with (Z.succ (Z.of_nat (List.length ds) - 1))
          by lia.
        assert (0 < List.length ds)%nat.
        { destruct ds; [ contradiction | cbn; lia ]. }
        rewrite Z.pow_succ_r by lia.
        destruct Hlen as [H1|H1].
        -- rewrite H1. cbn. lia.
        -- zlia.
Qed.

(** Among digit runs of one length the lexicographic order is the
    numeric order. *)
Lemma string_gt_value a : forall b,
  List.length a = List.length b ->
  Forall is_digit a -> Forall is_digit b ->
  digits_value a 0 <= digits_value b 0 ->
  string_gt a b = false.
Proof.
  induction a as [|x a IH]; intros b Hlen Ha Hb Hle.
  - reflexivity.
  - destruct b as [|y b]; [ discriminate | ].
    cbn [List.length] in Hlen. injection Hlen as Hlen.
    inversion Ha as [|? ? Hx Ha']; subst. inversion Hb as [|? ? Hy Hb']; subst.
    cbn [string_gt digits_value] in *.
    rewrite (digits_value_linear a), (digits_value_linear b) in Hle.
    pose proof (digits_value_bound a Ha') as Ba.
    pose proof (digits_value_bound b Hb') as Bb.
    rewrite Hlen in Ba, Hle.
    assert (0 < 10 ^ Z.of_nat (List.length b)) as Hp by (apply Z.pow_pos_nonneg; lia).
    rewrite Z.gtb_ltb.
    destruct (Z.ltb_spec (code y) (code x)) as [Hgt|Hngt].
    + exfalso. nia.
    + destruct (Z.ltb_spec (code x) (code y)) as [Hlt|Hnlt]; [ reflexivity | ].
      apply IH; try assumption.
      assert (code x = code y) as E by lia. rewrite E in Hle. lia.
Qed.

Section Accumulate.
Variable native : bool.

Lemma accumulate_int128_spec cs : forall r,
  Forall is_digit cs -> Int128_wf r ->
  exists x,
    accumulate_int128 native cs r = Some x
    /\ Int128_wf x
    /\ bits128 x = digits_value cs (bits128 r) mod 2 ^ 128.
Proof.
  induction cs as [|c cs IH]; intros r Hcs Hr.
  - exists r. cbn [accumulate_int128 digits_value].
    split; [ reflexivity | split; [ assumption | ] ].
    symmetry. apply Z.mod_small. apply wf_bits_range. assumption.
  - inversion Hcs as [|? ? Hc Hcs']; subst.
    cbn [accumulate_int128 digits_value]. rewrite Hc.
    pose proof (proj1 (is_digit_code c) Hc) as Rc.
    edestruct IH as (x & E & Hx & Hb); [ exact Hcs' | | ].
    2: { exists x. split; [ exact E | split; [ exact Hx | ] ].
         rewrite Hb.
         rewrite Int128_add_bits, Int128_mul_bits, !Int128_of_int64_bits
           by (try apply Int128_mul_wf; try apply Int128_of_int64_wf; try assumption;
               unfold INT_128_BASE; zlia).
         rewrite <- digits_value_mod. symmetry. rewrite <- digits_value_mod. symmetry.
         f_equal. f_equal. unfold INT_128_BASE. zlia. }
    apply Int128_add_wf.
Qed.

End Accumulate.

(** ** Parsing what the stream wrote *)

Lemma digit_not_sign c :
  is_digit c -> is_char c "-" = false /\ is_char c "+" = false.
Proof.
  intros Hc. unfold is_char. split.
  - destruct (Ascii.eqb_spec c "-"%char) as [->|]; [ discriminate Hc | reflexivity ].
  - destruct (Ascii.eqb_spec c "+"%char) as [->|]; [ discriminate Hc | reflexivity ].
Qed.

Lemma decimal_digits_fuel mag :
  0 <= mag -> mag < 10 ^ Z.of_nat (S (Z.to_nat (Z.log2 mag))).
Proof.
  intros Hm. rewrite Nat2Z.inj_succ, Z2Nat.id by apply Z.log2_nonneg.
  destruct (Z.eq_dec mag 0) as [->|Hnz].
  - cbn. lia.
  - pose proof (Z.log2_spec mag ltac:(lia)) as [_ Hlt].
    pose proof (Z.log2_nonneg mag).
    eapply Z.lt_le_trans; [ exact Hlt | ].
    apply Z.pow_le_mono_l. lia.
Qed.

Lemma digits_length_bound (ds : list ascii) mag :
  mag < 10 ^ 39 ->
  (List.length ds = 1%nat \/ 10 ^ (Z.of_nat (List.length ds) - 1) <= mag) ->
  (List.length ds <= 39)%nat.
Proof.
  intros Hm [H1|H1]; [ lia | ].
  destruct (Nat.le_gt_cases (List.length ds) 39) as [|Hgt]; [ assumption | exfalso ].
  assert (10 ^ 39 <= 10 ^ (Z.of_nat (List.length ds) - 1)) by (apply Z.pow_le_mono_r; lia).
  lia.
Qed.

Lemma max_negative_string_value :
  digits_value (chars INT_128_MAX_NEGATIVE_STRING) 0 = 2 ^ 127.
Proof. vm_compute. reflexivity. Qed.

Lemma max_positive_string_value :
  digits_value (chars INT_128_MAX_POSITIVE_STRING) 0 = 2 ^ 127 - 1.
Proof. vm_compute. reflexivity. Qed.

Section ParseFormat.
Variable native : bool.

Lemma tryParse_format (negative : bool) (mag : Z) :
  0 <= mag ->
  mag <= (if negative then 2 ^ 127 else 2 ^ 127 - 1) ->
  exists x,
    Int128_tryParse native (format_fixed0 negative mag) = Some x
    /\ Int128_wf x
    /\ Int128_value x = (if negative then - mag else mag).
Proof.
  intros Hm0 Hm1.
  destruct (decimal_digits_spec (S (Z.to_nat (Z.log2 mag))) mag [] ltac:(lia)
              (conj Hm0 (decimal_digits_fuel mag Hm0)))
    as (ds & E & Hd & Hne & Hval & Hlen).
  rewrite app_nil_r in E.
  assert (Hl39 : (List.length ds <= 39)%nat).
  { apply (digits_length_bound ds mag); [ | assumption ].
    destruct negative; zlia. }
  destruct (accumulate_int128_spec native ds (Int128_of_int64 native 0) Hd
              (Int128_of_int64_wf native 0)) as (x & Ex & Hx & Hb).
  rewrite Int128_of_int64_bits, Z.mod_0_l, Hval in Hb by zlia.
  unfold Int128_tryParse, format_fixed0, chars.
  rewrite list_ascii_of_string_of_list_ascii, E.
  destruct negative.
  - (* "-" followed by the digits *)
    cbn [list_ascii_of_string app is_char Ascii.eqb Bool.eqb List.length skipn].
    destruct ds as [|c ds']; [ contradiction | ].
    cbn [List.length Nat.leb Nat.sub negb].
    replace (INT_128_MAX_DIGIT_COUNT <? S (List.length ds'))%nat with false
      by (symmetry; apply Nat.ltb_ge; exact Hl39).
    replace ((S (List.length ds') =? INT_128_MAX_DIGIT_COUNT)%nat
             && string_gt (c :: ds') (list_ascii_of_string INT_128_MAX_NEGATIVE_STRING))
      with false.
    2: { symmetry. destruct (Nat.eqb_spec (S (List.length ds')) INT_128_MAX_DIGIT_COUNT) as [E39|];
           [ cbn [andb] | reflexivity ].
         apply string_gt_value.
         - exact E39.
         - exact Hd.
         - repeat constructor.
         - rewrite Hval. fold (chars INT_128_MAX_NEGATIVE_STRING).
           rewrite max_negative_string_value. exact Hm1. }
    rewrite Ex. eexists. split; [ reflexivity | ].
    split; [ apply Int128_neg_wf | ].
    unfold Int128_value. rewrite Int128_neg_bits, Hb by assumption.
    rewrite (Z.mod_small mag) by zlia.
    unfold i128. rewrite Z.mod_mod by lia. fold (i128 (- mag)).
    apply i128_small. zlia.
  - (* the digits alone *)
    rewrite app_nil_l.
    destruct ds as [|c ds']; [ contradiction | ].
    destruct (digit_not_sign c (Forall_inv Hd)) as [-> ->].
    cbn [List.length Nat.leb Nat.sub skipn negb].
    replace (INT_128_MAX_DIGIT_COUNT <? S (List.length ds'))%nat with false
      by (symmetry; apply Nat.ltb_ge; exact Hl39).
    replace ((S (List.length ds') =? INT_128_MAX_DIGIT_COUNT)%nat
             && string_gt (c :: ds') (list_ascii_of_string INT_128_MAX_POSITIVE_STRING))
      with false.
    2: { symmetry. destruct (Nat.eqb_spec (S (List.length ds')) INT_128_MAX_DIGIT_COUNT) as [E39|];
           [ cbn [andb] | reflexivity ].
         apply string_gt_value.
         - exact E39.
         - exact Hd.
         - repeat constructor.
         - rewrite Hval. fold (chars INT_128_MAX_POSITIVE_STRING).
           rewrite max_positive_string_value. exact Hm1. }
    rewrite Ex. eexists. split; [ reflexivity | ].
    split; [ assumption | ].
    unfold Int128_value. rewrite Hb. rewrite (Z.mod_small mag) by zlia.
    apply i128_small. zlia.
Qed.

End ParseFormat.

(** ** Construction from float and double *)

Lemma i64_small z : - 2 ^ 63 <= z < 2 ^ 63 -> i64 z = z.
Proof.
  intros H. unfold i64. cbv zeta. destruct (Z.ltb_spec (z mod 2 ^ 64) (2 ^ 63)); zlia.
Qed.

Lemma trunc_magnitude_nonneg m e : 0 <= m -> 0 <= trunc_magnitude m e.
Proof.
  intros Hm. unfold trunc_magnitude. destruct (Z.leb_spec 0 e).
  - apply Z.mul_nonneg_nonneg; [ assumption | apply Z.pow_nonneg; lia ].
  - apply Z.div_pos; [ assumption | apply Z.pow_pos_nonneg; lia ].
Qed.

(** [std::trunc] rounds toward zero: the magnitude is the largest integer
    not above [m * 2^e]. *)
Lemma trunc_magnitude_spec m e :
  0 <= m ->
  if 0 <=? e
  then trunc_magnitude m e = m * 2 ^ e
  else trunc_magnitude m e * 2 ^ (- e) <= m < (trunc_magnitude m e + 1) * 2 ^ (- e).
Proof.
  intros Hm. unfold trunc_magnitude. destruct (Z.leb_spec 0 e); [ reflexivity | ].
  assert (0 < 2 ^ (- e)) by (apply Z.pow_pos_nonneg; lia).
  generalize dependent (2 ^ (- e)). intros p Hp.
  Z.div_mod_to_equations. nia.
Qed.

Section FromFloating.
Variable native : bool.

Lemma Int128_value_of_int64 z :
  - 2 ^ 63 <= z < 2 ^ 63 -> Int128_value (Int128_of_int64 native z) = z.
Proof.
  intros Hz. unfold Int128_value. rewrite Int128_of_int64_bits by assumption.
  unfold i128. rewrite Z.mod_mod by lia. fold (i128 z). apply i128_small. zlia.
Qed.

(** C8, as the code has it.  NaN and the infinities give 0 in both
    constructors.  A finite [float] is truncated toward zero when the
    truncated value lies in the [int64_t] range, and is clamped to the
    largest or smallest [int64_t] when it lies above [2^63] or below
    [-2^63].  A finite [double] is truncated toward zero when the
    truncated value lies in the [Int128] range, and is clamped to the
    largest or smallest [Int128] when it lies above [2^127] or below
    [-2^127]. *)
Theorem int128_from_floating (f d : floating) (Hf : is_float f) (Hd : is_double d) :
  match f with
  | fp_nan | fp_inf _ => Int128_value (Int128_of_float native f) = 0
  | fp_finite s m e =>
      let t := trunc_value s m e in
      (- 2 ^ 63 <= t < 2 ^ 63 -> Int128_value (Int128_of_float native f) = t)
      /\ (2 ^ 63 < t -> Int128_value (Int128_of_float native f) = 2 ^ 63 - 1)
      /\ (t < - 2 ^ 63 -> Int128_value (Int128_of_float native f) = - 2 ^ 63)
  end
  /\
  match d with
  | fp_nan | fp_inf _ =>
      exists x, Int128_of_double native d = Ok x /\ Int128_value x = 0
  | fp_finite s m e =>
      let t := trunc_value s m e in
      (- 2 ^ 127 <= t < 2 ^ 127 ->
       exists x, Int128_of_double native d = Ok x /\ Int128_value x = t)
      /\ (2 ^ 127 < t ->
          exists x, Int128_of_double native d = Ok x /\ Int128_value x = 2 ^ 127 - 1)
      /\ (t < - 2 ^ 127 ->
          exists x, Int128_of_double native d = Ok x /\ Int128_value x = - 2 ^ 127)
  end.
Proof.
  split.
  - destruct f as [| neg | s m e]; cbn [Int128_of_float].
    + apply Int128_value_of_int64. zlia.
    + apply Int128_value_of_int64. zlia.
    + cbv zeta. unfold INT64_MAX_AS_DOUBLE, INT64_MIN_AS_DOUBLE.
      generalize (trunc_value s m e). intros t.
      repeat split; intros Ht.
      * replace ((t >? 2 ^ 63) || (t <? - 2 ^ 63)) with false.
        2: { symmetry. apply orb_false_iff. rewrite Z.gtb_ltb, !Z.ltb_ge. lia. }
        rewrite i64_small by assumption. apply Int128_value_of_int64. assumption.
      * replace (t >? 2 ^ 63) with true by (symmetry; rewrite Z.gtb_ltb; apply Z.ltb_lt; lia).
        cbn [orb].
        replace (t >? 0) with true by (symmetry; rewrite Z.gtb_ltb; apply Z.ltb_lt; zlia).
        apply Int128_value_of_int64. zlia.
      * replace (t <? - 2 ^ 63) with true by (symmetry; apply Z.ltb_lt; lia).
        rewrite orb_true_r.
        replace (t >? 0) with false by (symmetry; rewrite Z.gtb_ltb; apply Z.ltb_ge; zlia).
        apply Int128_value_of_int64. zlia.
  - destruct d as [| neg | s m e]; cbn [Int128_of_double].
    + eexists. split; [ reflexivity | apply Int128_value_of_int64; zlia ].
    + eexists. split; [ reflexivity | apply Int128_value_of_int64; zlia ].
    + cbv zeta. unfold INT_128_MAX_AS_DOUBLE, INT_128_MIN_AS_DOUBLE.
      destruct Hd as [[Hm _] _].
      pose proof (trunc_magnitude_nonneg m e Hm) as Hmag.
      repeat split; intros Ht.
      * replace ((trunc_value s m e >? 2 ^ 127) || (trunc_value s m e <? - 2 ^ 127)) with false.
        2: { symmetry. apply orb_false_iff. rewrite Z.gtb_ltb, !Z.ltb_ge. lia. }
        destruct (tryParse_format native s (trunc_magnitude m e) Hmag) as (x & Ex & _ & Hv).
        { unfold trunc_value in Ht. destruct s; lia. }
        exists x. unfold Int128_parse. rewrite Ex. split; [ reflexivity | ].
        rewrite Hv. unfold trunc_value. reflexivity.
      * replace (trunc_value s m e >? 2 ^ 127) with true
          by (symmetry; rewrite Z.gtb_ltb; apply Z.ltb_lt; lia).
        cbn [orb].
        replace (trunc_value s m e >? 0) with true
          by (symmetry; rewrite Z.gtb_ltb; apply Z.ltb_lt; zlia).
        eexists. split; [ reflexivity | destruct native; vm_compute; reflexivity ].
      * replace (trunc_value s m e <? - 2 ^ 127) with true by (symmetry; apply Z.ltb_lt; lia).
        rewrite orb_true_r.
        replace (trunc_value s m e >? 0) with false
          by (symmetry; rewrite Z.gtb_ltb; apply Z.ltb_ge; zlia).
        eexists. split; [ reflexivity | destruct native; vm_compute; reflexivity ].
Qed.

End FromFloating.

(** -3.5 as a float and 1e20 as a double, in the emulated build. *)
Lemma int128_from_floating_witness :
  Int128_value (Int128_of_float false (fp_finite true 7 (-1))) = -3
  /\ exists x,
       Int128_of_double false (fp_finite false 11368684 43) = Ok x
       /\ Int128_value x = 100000002004087734272.
Proof.
  destruct (int128_from_floating false (fp_finite true 7 (-1)) (fp_finite false 11368684 43))
    as [[H1 _] [H2 _]].
  - cbn. lia.
  - cbn. lia.
  - split.
    + apply H1. vm_compute. split; [ discriminate | reflexivity ].
    + apply H2. vm_compute. split; [ discriminate | reflexivity ].
Defined.

(** C8 as stated fails for [float]: 1e20f is 11368684 * 2^43 =
    100000002004087734272, well inside the [Int128] range, and both
    builds return 2^63 - 1 for it. *)
Lemma float_1e20_is_clamped :
  is_float (fp_finite false 11368684 43)
  /\ trunc_value false 11368684 43 = 100000002004087734272
  /\ - 2 ^ 127 <= trunc_value false 11368684 43 <= 2 ^ 127 - 1
  /\ Int128_value (Int128_of_float true (fp_finite false 11368684 43)) = 2 ^ 63 - 1
  /\ Int128_value (Int128_of_float false (fp_finite false 11368684 43)) = 2 ^ 63 - 1
  /\ Int128_value (Int128_of_float true (fp_finite false 11368684 43))
     <> trunc_value false 11368684 43
  /\ Int128_value (Int128_of_float false (fp_finite false 11368684 43))
     <> trunc_value false 11368684 43.
Proof.
  split; [ cbn; lia | ].
  split; [ reflexivity | ].
  split; [ vm_compute; split; discriminate | ].
  vm_compute. repeat split; discriminate.
Qed.

(** The one double between the largest [Int128] and the clamping
    threshold: [2^127] is not clamped, and [Int128::parse] rejects the 39
    digits written for it. *)
Example double_2_pow_127_throws (native : bool) :
  is_double (fp_finite false 1 127)
  /\ Int128_of_double native (fp_finite false 1 127) = Throw InvalidFormat.
Proof. split; [ cbn; lia | destruct native; vm_compute; reflexivity ]. Qed.

(** ** Decimal addition *)

Lemma lor_bound x y n :
  0 <= n -> 0 <= x < 2 ^ n -> 0 <= y < 2 ^ n -> 0 <= Z.lor x y < 2 ^ n.
Proof.
  intros Hn Hx Hy. split; [ apply Z.lor_nonneg; lia | ].
  destruct (Z.eq_dec x 0) as [->|Hx0]; [ rewrite Z.lor_0_l; lia | ].
  destruct (Z.eq_dec y 0) as [->|Hy0]; [ rewrite Z.lor_0_r; lia | ].
  apply Z.log2_lt_pow2.
  - assert (0 <= Z.lor x y) by (apply Z.lor_nonneg; lia).
    assert (Z.lor x y <> 0) by (intros C; apply Z.lor_eq_0_iff in C; lia).
    lia.
  - rewrite Z.log2_lor by lia.
    apply Z.max_lub_lt; apply Z.log2_lt_pow2; lia.
Qed.

Lemma scale_range d : 0 <= scale d < 2 ^ 8.
Proof. unfold scale, u8. apply Z.mod_pos_bound. reflexivity. Qed.

(** The bits of a valid flags word outside the scale field are its sign. *)
Lemma flags_without_scale d :
  Decimal_wf d ->
  Z.land (flags d) (u32 (Z.lnot DECIMAL_SCALE_MASK))
  = (if isNegative d then DECIMAL_SIGN_MASK else 0).
Proof.
  intros (Hf & Hs & _).
  pose proof (scale_range d) as Hr.
  unfold DECIMAL_MAXIMUM_PLACES in Hs.
  rewrite Hf at 1.
  generalize dependent (scale d). intros s _ Hs Hr.
  generalize (isNegative d). intros neg.
  assert (Hcases : exists n, s = Z.of_nat n /\ (n <= 28)%nat).
  { exists (Z.to_nat s). split; [ rewrite Z2Nat.id; lia | lia ]. }
  destruct Hcases as (n & -> & Hn).
  do 29 (destruct n as [|n]; [ destruct neg; reflexivity | ]).
  lia.
Qed.

Section SameSign.
Variable native : bool.

Lemma mantissaAsInt128_wf d :
  Decimal_wf d -> Int128_wf (mantissaAsInt128 native d).
Proof.
  intros (_ & _ & H0 & H1 & H2). unfold mantissaAsInt128.
  destruct native; [ apply of_native_wf | ].
  unfold Emulated.of_words, Int128_wf; cbn [lower64bits upper64bits].
  split; [ | zlia ].
  apply lor_bound; [ lia | unfold u64; zlia | zlia ].
Qed.

Lemma alignScale_wf a b :
  Decimal_wf a -> Decimal_wf b ->
  Int128_wf (fst (alignScale native a b)) /\ Int128_wf (snd (alignScale native a b)).
Proof.
  intros Ha Hb. unfold alignScale.
  destruct (scale a <? scale b); [ | destruct (scale b <? scale a) ]; cbn [fst snd];
    split; try apply Int128_mul_wf; apply mantissaAsInt128_wf; assumption.
Qed.

Lemma alignScale_swap a b :
  alignScale native b a = (snd (alignScale native a b), fst (alignScale native a b)).
Proof.
  unfold alignScale.
  destruct (Z.ltb_spec (scale a) (scale b)) as [Hab|Hab];
    destruct (Z.ltb_spec (scale b) (scale a)) as [Hba|Hba]; try lia; reflexivity.
Qed.

Lemma Int128_add_comm x y :
  Int128_wf x -> Int128_wf y -> Int128_add native x y = Int128_add native y x.
Proof.
  intros Hx Hy. apply wf_bits_inj; try apply Int128_add_wf.
  rewrite !Int128_add_bits by assumption. f_equal. lia.
Qed.

(** Addition commutes when the operands have the same sign: the defect
    of the mixed-sign branch is the only obstacle. *)
Lemma add_same_sign_commutative a b :
  Decimal_wf a -> Decimal_wf b ->
  isNegative a = isNegative b ->
  isZero a = false -> isZero b = false ->
  Decimal_add native a b = Decimal_add native b a.
Proof.
  intros Ha Hb Hs Hza Hzb. unfold Decimal_add.
  rewrite Hza, Hzb. cbv zeta.
  rewrite (alignScale_swap a b). cbn [fst snd].
  destruct (alignScale_wf a b Ha Hb) as [Hl Hr].
  rewrite (Int128_add_comm (snd _) (fst _)) by assumption.
  rewrite (flags_without_scale a Ha), (flags_without_scale b Hb).
  rewrite (Z.max_comm (scale b) (scale a)).
  rewrite <- Hs. rewrite !Bool.eqb_reflx. reflexivity.
Qed.

End SameSign.

Local Open Scope string_scope.
Local Open Scope Z_scope.

(** C1.  (-1) + 2 and 2 + (-1).  With a negative left operand of smaller
    magnitude the sign bit copied from [this->flags] is never cleared:
    the first sum is -1, the second is 1, and they compare unequal. *)
Theorem add_mixed_signs_not_commutative (native : bool) :
  Decimal_add native (Decimal_of_int64 (-1)) (Decimal_of_int64 2)
  = Ok (Decimal_of_int64 (-1))
  /\ Decimal_add native (Decimal_of_int64 2) (Decimal_of_int64 (-1))
     = Ok (Decimal_of_int64 1)
  /\ Decimal_eqb native (Decimal_of_int64 (-1)) (Decimal_of_int64 1) = false.
Proof.
  destruct native; vm_compute; repeat split.
Qed.

(** ** The representation invariant *)

(** C2.  0.00000000001 / 3.  The quotient 0.00000000000333333333333333333
    is returned with scale 29: [operator/] adds up to 18 digits of extra
    precision to the scale and never brings it back under 28, which
    [operator*] does. *)
Theorem div_result_scale_29 (native : bool) :
  Decimal_tryParse native "0.00000000001" = Some (mkDecimal 0x000B0000 1 0 0)
  /\ Decimal_tryParse native "3" = Some (Decimal_of_int64 3)
  /\ exists q,
       Decimal_div native (mkDecimal 0x000B0000 1 0 0) (Decimal_of_int64 3) = Ok q
       /\ mantissa_value q = 333333333333333333
       /\ scale q = 29
       /\ Decimal_toString native q = Ok "0.00000000000333333333333333333".
Proof.
  destruct native.
  - split; [ vm_compute; reflexivity | split; [ vm_compute; reflexivity | ] ].
    eexists. split; [ vm_compute; reflexivity | vm_compute; repeat split ].
  - split; [ vm_compute; reflexivity | split; [ vm_compute; reflexivity | ] ].
    eexists. split; [ vm_compute; reflexivity | vm_compute; repeat split ].
Qed.

(** ** Rounding *)

(** C10.  A negative number of places is clamped to zero: for every
    value, mode and [n < 0], [round(n, mode)] is [round(0, mode)]. *)
Theorem round_negative_places (native : bool) (x : Decimal) (m : RoundingMode)
  (n : Z) (Hn : n < 0) :
  Decimal_round native x n m = Decimal_round native x 0 m.
Proof.
  unfold Decimal_round.
  apply Z.ltb_lt in Hn. rewrite Hn.
  reflexivity.
Qed.

Lemma round_negative_places_witness :
  Decimal_round true (mkDecimal 0x00020000 255 0 0) (-3) ToNearestTiesAway
  = Decimal_round true (mkDecimal 0x00020000 255 0 0) 0 ToNearestTiesAway.
Proof.
  apply (round_negative_places true (mkDecimal 0x00020000 255 0 0) ToNearestTiesAway (-3)).
  lia.
Defined.

(** C5.  Banker's rounding of 2.55 to zero places.  The rounding digit
    is 5 and a nonzero digit follows it, so the value must round away
    from zero to 3; [round] returns 2 in either build.  The remainder
    below the rounding digit (5) is compared with the contribution of the
    rounding digit (5 * 1) instead of with zero. *)
Theorem round_to_nearest_2_55 (native : bool) :
  Decimal_tryParse native "2.55" = Some (mkDecimal 0x00020000 255 0 0)
  /\ Decimal_round native (mkDecimal 0x00020000 255 0 0) 0 ToNearest
     = Ok (Decimal_of_int64 2)
  /\ Decimal_toString native (Decimal_of_int64 2) = Ok "2".
Proof.
  destruct native; vm_compute; repeat split.
Qed.

(** ** Parsing and formatting *)

(** *** Integer literals, in general *)

Lemma is_digit_not_point c : is_digit c -> is_char c "." = false.
Proof.
  intros Hc. unfold is_char.
  destruct (Ascii.eqb_spec c "."%char) as [->|]; [ discriminate Hc | reflexivity ].
Qed.

Lemma find_decimal_point_digits cs : forall i p n,
  Forall is_digit cs -> find_decimal_point cs i p n = Some p.
Proof.
  induction cs as [|c cs IH]; intros i p n Hcs; cbn [find_decimal_point].
  - reflexivity.
  - inversion Hcs as [|? ? Hc Hcs']; subst.
    rewrite (is_digit_not_point c Hc). apply IH. assumption.
Qed.

Section DigitLoop.
Variable native : bool.

Lemma Int128_of_uint64_bits v :
  0 <= v < 2 ^ 64 -> bits128 (Int128_of_uint64 native v) = v.
Proof.
  intros Hv. destruct native; cbn.
  - rewrite bits128_of_native. zlia.
  - unfold bits128, Emulated.of_uint64; cbn [lower64bits upper64bits]. lia.
Qed.

Lemma Int128_of_uint64_wf v :
  0 <= v < 2 ^ 64 -> Int128_wf (Int128_of_uint64 native v).
Proof.
  intros Hv. destruct native; cbn.
  - apply of_native_wf.
  - unfold Int128_wf, Emulated.of_uint64; cbn [lower64bits upper64bits]. zlia.
Qed.

Lemma Int128_zero_bits : bits128 (Int128_zero native) = 0 /\ Int128_wf (Int128_zero native).
Proof. destruct native; split; vm_compute; try reflexivity; repeat split; discriminate. Qed.

Lemma Int128_neqb_zero m :
  Int128_wf m -> bits128 m <> 0 ->
  Int128_neqb native m (Int128_of_int64 native 0) = true.
Proof.
  intros Hm Hnz. destruct native; cbn.
  - unfold Native.neqb. apply negb_true_iff. apply Z.eqb_neq.
    change (Native.toNative (Native.of_int64 0)) with 0.
    unfold Native.toNative. pose proof (wf_bits_range m Hm) as R.
    pose proof (i128_mod (bits128 m)) as E. intros C. rewrite C in E. zlia.
  - destruct m as [l u]. unfold Int128_wf, bits128 in *; cbn [lower64bits upper64bits] in *.
    unfold Emulated.neqb, Emulated.of_int64; cbn [lower64bits upper64bits].
    change (u64 0) with 0. cbn [Z.ltb Z.compare].
    destruct (Z.eqb_spec l 0) as [->|]; [ | reflexivity ].
    destruct (Z.eqb_spec u 0) as [->|]; [ | reflexivity ].
    cbn in Hnz. contradiction.
Qed.

Lemma Int128_words_of_bits m :
  Int128_wf m -> bits128 m < 2 ^ 127 ->
  Int128_toLow native m = bits128 m mod 2 ^ 64
  /\ Int128_toHigh native m = bits128 m / 2 ^ 64.
Proof.
  intros Hm Hb. pose proof (wf_bits_range m Hm) as R.
  destruct native; cbn.
  - unfold Native.toLow, Native.toHigh, Native.toNative, u64, BITS_PER_UINT64.
    rewrite i128_small by zlia. rewrite Z.shiftr_div_pow2 by lia. split; zlia.
  - destruct m as [l u]. unfold Int128_wf, bits128 in *; cbn [lower64bits upper64bits] in *.
    unfold Emulated.toLow, Emulated.toHigh; cbn [lower64bits upper64bits]. split; zlia.
Qed.

(** The digit loop on a run of digits after a nonzero first digit: every
    digit counts as significant, and the loop either consumes the run or
    breaks at the digit that would be the 29th. *)
Lemma accumulate_digits_counting q : forall i st rest,
  Forall is_digit q ->
  Int128_wf (ps_mantissaValue st) ->
  1 <= bits128 (ps_mantissaValue st) < 10 ^ ps_significantDigits st ->
  ps_hasDigits st = true ->
  0 <= ps_significantDigits st ->
  ps_significantDigits st + Z.of_nat (List.length q) <= 28 ->
  (rest = []
   \/ (ps_significantDigits st + Z.of_nat (List.length q) = 28
       /\ exists c rest', rest = c :: rest' /\ is_digit c)) ->
  exists m',
    accumulate_digits native (q ++ rest) i None st
    = Some (mkParseState m' true
              (ps_significantDigits st + Z.of_nat (List.length q))
              (ps_decimalDigitsProcessed st) (ps_currentScale st))
    /\ Int128_wf m'
    /\ bits128 m' = digits_value q (bits128 (ps_mantissaValue st))
    /\ 1 <= bits128 m' < 10 ^ (ps_significantDigits st + Z.of_nat (List.length q)).
Proof.
  induction q as [|c q IH]; intros i st rest Hq Hwf Hm Hh Hk Hlen Hrest.
  - cbn [List.length app digits_value] in *. rewrite Z.add_0_r in *.
    destruct st as [m h k ddp cs]. cbn [ps_mantissaValue ps_hasDigits ps_significantDigits
      ps_decimalDigitsProcessed ps_currentScale] in *. subst h.
    exists m. split; [ | split; [ assumption | split; [ reflexivity | assumption ] ] ].
    destruct Hrest as [->|(Hk28 & c & rest' & -> & Hc)].
    + reflexivity.
    + cbn [accumulate_digits]. rewrite (is_digit_not_point c Hc), Hc.
      cbn [ps_significantDigits ps_mantissaValue ps_decimalDigitsProcessed ps_currentScale].
      subst k. reflexivity.
  - inversion Hq as [|? ? Hc Hq']; subst.
    cbn [List.length app] in *. rewrite Nat2Z.inj_succ in Hlen, Hrest |- *.
    cbn [accumulate_digits]. rewrite (is_digit_not_point c Hc), Hc.
    pose proof (proj1 (is_digit_code c) Hc) as Rc.
    destruct (Z.geb_spec (ps_significantDigits st) DECIMAL_MAXIMUM_PLACES) as [Hge|_];
      [ unfold DECIMAL_MAXIMUM_PLACES in Hge; lia | ].
    rewrite (Int128_neqb_zero _ Hwf) by lia.
    rewrite orb_true_r. cbn [orb after_point].
    assert (Hk1 : u8 (ps_significantDigits st + 1) = ps_significantDigits st + 1).
    { unfold u8. apply Z.mod_small. zlia. }
    rewrite Hk1.
    set (m1 := Int128_add native
                 (Int128_mul native (ps_mantissaValue st) (Int128_of_uint64 native DECIMAL_BASE))
                 (Int128_of_uint64 native (code c - 48))).
    assert (Hp : 0 < 10 ^ ps_significantDigits st) by (apply Z.pow_pos_nonneg; lia).
    assert (Hpow : 10 ^ (ps_significantDigits st + 1) = 10 * 10 ^ ps_significantDigits st).
    { rewrite Z.pow_add_r by lia. lia. }
    assert (Hle : 10 ^ (ps_significantDigits st + 1) <= 10 ^ 28)
      by (apply Z.pow_le_mono_r; lia).
    assert (Hb1 : bits128 m1 = bits128 (ps_mantissaValue st) * 10 + (code c - 48)).
    { unfold m1.
      rewrite Int128_add_bits, Int128_mul_bits, !Int128_of_uint64_bits
        by (try apply Int128_mul_wf; try apply Int128_of_uint64_wf; try assumption;
            unfold DECIMAL_BASE; zlia).
      unfold DECIMAL_BASE. rewrite Z.add_mod_idemp_l by lia.
      apply Z.mod_small. change (10 ^ 28) with 10000000000000000000000000000 in Hle. zlia. }
    destruct (IH (S i)
                (mkParseState m1 true (ps_significantDigits st + 1)
                   (ps_decimalDigitsProcessed st) (ps_currentScale st)) rest)
      as (m' & E & Hwf' & Hb' & Hr'); cbn [ps_mantissaValue ps_hasDigits ps_significantDigits
        ps_decimalDigitsProcessed ps_currentScale]; try assumption; try reflexivity; try lia.
    + apply Int128_add_wf.
    + destruct Hrest as [->|(Hk28 & c' & rest' & -> & Hc')]; [ left; reflexivity | right ].
      split; [ lia | exists c', rest'; split; [ reflexivity | assumption ] ].
    + exists m'. cbn [ps_mantissaValue ps_hasDigits ps_significantDigits
        ps_decimalDigitsProcessed ps_currentScale] in E, Hb', Hr'.
      replace (ps_significantDigits st + Z.succ (Z.of_nat (List.length q)))
        with (ps_significantDigits st + 1 + Z.of_nat (List.length q)) by lia.
      split; [ exact E | split; [ exact Hwf' | split; [ | exact Hr' ] ] ].
      rewrite Hb', Hb1. cbn [digits_value]. reflexivity.
Qed.

End DigitLoop.

Lemma code_zero_char c : code c = 48 -> c = "0"%char.
Proof.
  unfold code. intros E.
  rewrite <- (ascii_nat_embedding c).
  replace (nat_of_ascii c) with 48%nat by lia. reflexivity.
Qed.

Section IntegerLiteral.
Variable native : bool.

(** An unsigned integer literal with a nonzero first digit is parsed as
    the number its first 28 digits spell, with scale 0: exactly the
    literal when it has at most 28 digits, and the literal with its last
    digits removed, not replaced by zeros, when it has more. *)
Lemma parse_integer_literal (c : ascii) (tl : list ascii) :
  Forall is_digit (c :: tl) -> c <> "0"%char ->
  exists d,
    Decimal_tryParse native (string_of_list_ascii (c :: tl)) = Some d
    /\ flags d = 0
    /\ mantissa_value d = digits_value (firstn 28 (c :: tl)) 0.
Proof.
  intros Hds Hc0.
  pose proof (Forall_inv Hds) as Hc. pose proof (Forall_inv_tail Hds) as Htl.
  pose proof (proj1 (is_digit_code c) Hc) as Rc.
  assert (Hd0 : code c - 48 <> 0).
  { intros E. apply Hc0. apply code_zero_char. lia. }
  destruct (Int128_zero_bits native) as [Hz0 Hzwf].
  set (m1 := Int128_add native
               (Int128_mul native (Int128_zero native) (Int128_of_uint64 native DECIMAL_BASE))
               (Int128_of_uint64 native (code c - 48))).
  assert (Hb1 : bits128 m1 = code c - 48).
  { unfold m1.
    rewrite Int128_add_bits, Int128_mul_bits, !Int128_of_uint64_bits, Hz0
      by (try apply Int128_mul_wf; try apply Int128_of_uint64_wf; try assumption;
          unfold DECIMAL_BASE; zlia).
    rewrite Z.mul_0_l, Z.mod_0_l, Z.add_0_l by lia. apply Z.mod_small. zlia. }
  rewrite <- (firstn_skipn 27 tl) in Htl. apply Forall_app in Htl. destruct Htl as [Hq Hrest].
  assert (Hlq : (List.length (firstn 27 tl) <= 27)%nat) by (rewrite length_firstn; lia).
  destruct (accumulate_digits_counting native (firstn 27 tl) 1
              (mkParseState m1 true 1 0 0) (skipn 27 tl))
    as (m' & E & Hwf' & Hb' & Hr');
    cbn [ps_mantissaValue ps_hasDigits ps_significantDigits
         ps_decimalDigitsProcessed ps_currentScale]; try assumption; try reflexivity; try lia.
  { apply Int128_add_wf. }
  { destruct (skipn 27 tl) as [|c' rest'] eqn:Hsk; [ left; reflexivity | right ].
    split.
    - rewrite length_firstn.
      assert (27 < List.length tl)%nat.
      { destruct (Nat.le_gt_cases (List.length tl) 27) as [Hle|]; [ | assumption ].
        rewrite (skipn_all2 tl Hle) in Hsk. discriminate. }
      lia.
    - exists c', rest'. split; [ reflexivity | exact (Forall_inv Hrest) ]. }
  cbn [ps_mantissaValue ps_hasDigits ps_significantDigits
       ps_decimalDigitsProcessed ps_currentScale] in E, Hb', Hr'.
  rewrite (firstn_skipn 27 tl) in E.
  assert (Hb96 : 1 <= bits128 m' < 10 ^ 28).
  { split; [ lia | ]. eapply Z.lt_le_trans; [ apply Hr' | ].
    apply Z.pow_le_mono_r; lia. }
  change (10 ^ 28) with 10000000000000000000000000000 in Hb96.
  destruct (Int128_words_of_bits native m' Hwf' ltac:(zlia)) as [Hlow Hhigh].
  unfold Decimal_tryParse, tryParse_body, chars.
  rewrite list_ascii_of_string_of_list_ascii.
  destruct (digit_not_sign c Hc) as [-> ->].
  cbn [List.length Nat.leb skipn].
  rewrite (find_decimal_point_digits (c :: tl) 0 None 0 Hds).
  cbn [accumulate_digits]. rewrite (is_digit_not_point c Hc), Hc.
  cbn [ps_mantissaValue ps_hasDigits ps_significantDigits
       ps_decimalDigitsProcessed ps_currentScale after_point].
  change (0 >=? DECIMAL_MAXIMUM_PLACES) with false. cbv iota.
  replace (negb (code c - 48 =? 0)) with true
    by (symmetry; apply negb_true_iff; apply Z.eqb_neq; assumption).
  cbn [orb]. change (u8 (0 + 1)) with 1.
  fold m1. rewrite E.
  cbn [ps_mantissaValue ps_hasDigits ps_significantDigits
       ps_decimalDigitsProcessed ps_currentScale negb].
  rewrite Hhigh.
  replace (bits128 m' / 2 ^ 64 >? UINT32_MAX_VALUE) with false
    by (symmetry; rewrite Z.gtb_ltb; apply Z.ltb_ge; unfold UINT32_MAX_VALUE; zlia).
  cbn [bind set_sign_if]. rewrite Hhigh, Hlow.
  eexists. split; [ reflexivity | ].
  split; [ reflexivity | ].
  unfold mantissa_value; cbn [mantissa0 mantissa1 mantissa2].
  unfold u32, BITS_PER_UINT32. rewrite Z.shiftr_div_pow2 by lia.
  change (firstn 28 (c :: tl)) with (c :: firstn 27 tl).
  change (digits_value (c :: firstn 27 tl) 0)
    with (digits_value (firstn 27 tl) (code c - 48)).
  rewrite <- Hb1, <- Hb'.
  change (2 ^ 32) with 4294967296. zlia.
Qed.

End IntegerLiteral.

(** *** The two literals of the claims *)

(** C3.  [Decimal::maxValue()] is formatted as its 29 digits, and parsing
    these digits stops after 28 of them: the result is
    7922816251426433759354395033, not the value that was formatted. *)
Theorem maxValue_round_trip_fails (native : bool) :
  Decimal_toString native Decimal_maxValue = Ok "79228162514264337593543950335"
  /\ exists d,
       Decimal_tryParse native "79228162514264337593543950335" = Some d
       /\ mantissa_value d = 7922816251426433759354395033
       /\ scale d = 0
       /\ Decimal_eqb native d Decimal_maxValue = false.
Proof.
  destruct native.
  - split; [ vm_compute; reflexivity | ].
    eexists. split; [ vm_compute; reflexivity | vm_compute; repeat split ].
  - split; [ vm_compute; reflexivity | ].
    eexists. split; [ vm_compute; reflexivity | vm_compute; repeat split ].
Qed.

(** C4.  A 29-digit literal without a decimal point.  The 29th digit is
    dropped and there is no scale to correct, so the literal
    12345678901234567890123456789, which fits the 96-bit mantissa, is
    parsed as 1234567890123456789012345678: a tenth of the literal cut to
    its first 28 significant digits, 12345678901234567890123456780. *)
Theorem parse_29_digit_integer (native : bool) :
  12345678901234567890123456789 < 2 ^ 96
  /\ exists d,
       Decimal_tryParse native "12345678901234567890123456789" = Some d
       /\ isNegative d = false
       /\ scale d = 0
       /\ mantissa_value d = 1234567890123456789012345678
       /\ mantissa_value d <> 12345678901234567890123456780
       /\ Decimal_toString native d = Ok "1234567890123456789012345678".
Proof.
  split; [ reflexivity | ].
  destruct native.
  - eexists. split; [ vm_compute; reflexivity | ].
    vm_compute; repeat split; discriminate.
  - eexists. split; [ vm_compute; reflexivity | ].
    vm_compute; repeat split; discriminate.
Qed.

(** ** The worked examples of the specification

    The values the specification lists as testable properties, computed on
    the embedding in both builds. *)

Example one_tenth_plus_two_tenths (native : bool) :
  calc native (Decimal_add native) "0.1" "0.2" = Ok "0.3".
Proof. destruct native; vm_compute; reflexivity. Qed.

Example a_minus_a_and_a_over_a (native : bool) :
  calc native (Decimal_sub native) "123.456" "123.456" = Ok "0"
  /\ calc native (Decimal_div native) "123.456" "123.456" = Ok "1".
Proof. destruct native; vm_compute; split; reflexivity. Qed.

Example rounding_examples (native : bool) :
  rounded native "2.5" 0 ToNearest = Ok "2"
  /\ rounded native "3.5" 0 ToNearest = Ok "4"
  /\ rounded native "2.5" 0 ToNearestTiesAway = Ok "3"
  /\ rounded native "-2.1" 0 ToNegativeInfinity = Ok "-3"
  /\ rounded native "-2.1" 0 ToPositiveInfinity = Ok "-2"
  /\ rounded native "-2.9" 0 ToZero = Ok "-2"
  /\ rounded native "2.65" 0 ToNearest = Ok "3"
  /\ rounded native "2.51" 0 ToNearest = Ok "3".
Proof. destruct native; vm_compute; repeat split. Qed.

Example leading_zeros_in_the_fraction (native : bool) :
  Decimal_toString native (mkDecimal 0x00050000 123 0 0) = Ok "0.00123".
Proof. destruct native; vm_compute; reflexivity. Qed.

Example int128_parse_times_two (native : bool) :
  exists x y,
    Int128_parse native "123456789012345678901234567890" = Ok x
    /\ Int128_parse native "246913578024691357802469135780" = Ok y
    /\ Int128_mul native x (Int128_of_int64 native 2) = y.
Proof.
  destruct native; eexists; eexists;
    (split; [ vm_compute; reflexivity | split; vm_compute; reflexivity ]).
Qed.

Example literals_of_28_and_29_digits (native : bool) :
  calc native (Decimal_add native) "1234567890123456789012345678" "0"
  = Ok "1234567890123456789012345678"
  /\ calc native (Decimal_add native) "1.2345678901234567890123456789" "0"
     = Ok "1.234567890123456789012345678".
Proof. destruct native; vm_compute; split; reflexivity. Qed.

Example same_sign_sum_commutes (native : bool) :
  Decimal_add native (mkDecimal 0x80010000 15 0 0) (mkDecimal 0x80020000 225 0 0)
  = Decimal_add native (mkDecimal 0x80020000 225 0 0) (mkDecimal 0x80010000 15 0 0).
Proof.
  apply add_same_sign_commutative; try reflexivity;
    unfold Decimal_wf; vm_compute; repeat split; try reflexivity; discriminate.
Qed.

(* ================================================================== *)
(** * Further properties of Int128 *)

(** ** The emulated build against the native one *)

Lemma native_sub_bits a b :
  bits128 (Native.sub a b) = (bits128 a - bits128 b) mod 2 ^ 128.
Proof.
  unfold Native.sub. rewrite bits128_of_native, i128_mod.
  rewrite Zminus_mod, !toNative_mod, <- Zminus_mod. reflexivity.
Qed.

Lemma emulated_arithmetic_native (a b : Int128)
  (Ha : Int128_wf a) (Hb : Int128_wf b) :
  Emulated.add a b = Native.add a b
  /\ Emulated.sub a b = Native.sub a b
  /\ Emulated.mul a b = Native.mul a b
  /\ Emulated.neg a = Native.neg a.
Proof.
  repeat split.
  - apply wf_bits_inj; [ apply emulated_add_wf | apply of_native_wf | ].
    rewrite (Int128_add_bits false), (Int128_add_bits true) by assumption. reflexivity.
  - apply wf_bits_inj; [ apply emulated_sub_wf | apply of_native_wf | ].
    rewrite emulated_sub_bits, native_sub_bits by assumption. reflexivity.
  - apply emulated_mul_matches_native; assumption.
  - apply wf_bits_inj; [ apply (Int128_neg_wf false) | apply of_native_wf | ].
    rewrite (Int128_neg_bits false), (Int128_neg_bits true) by assumption. reflexivity.
Qed.

(** X1.  Emulated [+], binary [-], [*] and unary [-] return the sixteen bytes
    the native operators return, for all operands. *)
Theorem emulated_arithmetic_matches_native (a b : Int128)
  (Ha : Int128_wf a) (Hb : Int128_wf b) :
  Emulated.add a b = Native.add a b
  /\ Emulated.sub a b = Native.sub a b
  /\ Emulated.mul a b = Native.mul a b
  /\ Emulated.neg a = Native.neg a.
Proof. exact (emulated_arithmetic_native a b Ha Hb). Qed.

Lemma emulated_arithmetic_matches_native_witness :
  Emulated.add (Emulated.of_int64 (-5)) (Emulated.of_words 7 9)
  = Native.add (Emulated.of_int64 (-5)) (Emulated.of_words 7 9)
  /\ Emulated.sub (Emulated.of_int64 (-5)) (Emulated.of_words 7 9)
     = Native.sub (Emulated.of_int64 (-5)) (Emulated.of_words 7 9)
  /\ Emulated.mul (Emulated.of_int64 (-5)) (Emulated.of_words 7 9)
     = Native.mul (Emulated.of_int64 (-5)) (Emulated.of_words 7 9)
  /\ Emulated.neg (Emulated.of_int64 (-5)) = Native.neg (Emulated.of_int64 (-5)).
Proof.
  apply (emulated_arithmetic_matches_native (Emulated.of_int64 (-5)) (Emulated.of_words 7 9));
    vm_compute; repeat split; discriminate.
Defined.

Lemma i128_of_words l u :
  0 <= l < 2 ^ 64 -> 0 <= u < 2 ^ 64 ->
  i128 (l + 2 ^ 64 * u) = l + 2 ^ 64 * i64 u.
Proof.
  intros Hl Hu. unfold i128, i64. cbv zeta.
  rewrite (Z.mod_small (l + 2 ^ 64 * u)) by zlia.
  rewrite (Z.mod_small u) by zlia.
  destruct (Z.ltb_spec (l + 2 ^ 64 * u) (2 ^ 127));
    destruct (Z.ltb_spec u (2 ^ 63)); zlia.
Qed.

Lemma i64_range z : - 2 ^ 63 <= i64 z < 2 ^ 63.
Proof.
  unfold i64. cbv zeta. destruct (Z.ltb_spec (z mod 2 ^ 64) (2 ^ 63)); zlia.
Qed.

Lemma i64_inj_words u v :
  0 <= u < 2 ^ 64 -> 0 <= v < 2 ^ 64 -> i64 u = i64 v -> u = v.
Proof.
  intros Hu Hv. unfold i64. cbv zeta.
  rewrite (Z.mod_small u), (Z.mod_small v) by zlia.
  destruct (Z.ltb_spec u (2 ^ 63)); destruct (Z.ltb_spec v (2 ^ 63)); zlia.
Qed.

Lemma emulated_comparisons_native (a b : Int128)
  (Ha : Int128_wf a) (Hb : Int128_wf b) :
  Emulated.eqb a b = Native.eqb a b
  /\ Emulated.neqb a b = Native.neqb a b
  /\ Emulated.ltb a b = Native.ltb a b
  /\ Emulated.leb a b = Native.leb a b
  /\ Emulated.gtb a b = Native.gtb a b
  /\ Emulated.geb a b = Native.geb a b
  /\ Emulated.isZero a = Native.isZero a
  /\ Emulated.isNegative a = Native.isNegative a
  /\ Emulated.abs a = Native.abs a.
Proof.
  assert (Hneg : Emulated.isNegative a = Native.isNegative a).
  { destruct a as [la ua]. destruct Ha as [Hla Hua]. cbn [lower64bits upper64bits] in *.
    unfold Emulated.isNegative, Native.isNegative, Native.toNative, bits128;
      cbn [lower64bits upper64bits].
    rewrite i128_of_words by assumption. pose proof (i64_range ua).
    destruct (Z.ltb_spec (i64 ua) 0); destruct (Z.ltb_spec (la + 2 ^ 64 * i64 ua) 0);
      try reflexivity; zlia. }
  assert (Habs : Emulated.abs a = Native.abs a).
  { unfold Emulated.abs, Native.abs. rewrite Hneg. unfold Native.isNegative.
    destruct (Z.ltb_spec (Native.toNative a) 0); cbn [negb].
    - destruct (emulated_arithmetic_native a a Ha Ha) as (_ & _ & _ & ->).
      reflexivity.
    - apply wf_bits_inj; [ assumption | apply of_native_wf | ].
      rewrite bits128_of_native, toNative_mod. symmetry. apply Z.mod_small.
      apply wf_bits_range. assumption. }
  destruct a as [la ua], b as [lb ub].
  destruct Ha as [Hla Hua], Hb as [Hlb Hub]. cbn [lower64bits upper64bits] in *.
  unfold Emulated.eqb, Emulated.neqb, Emulated.ltb, Emulated.leb, Emulated.gtb, Emulated.geb,
    Emulated.isZero, Native.eqb, Native.neqb, Native.ltb, Native.leb, Native.gtb, Native.geb,
    Native.isZero, Native.toNative, bits128 in *; cbn [lower64bits upper64bits] in *.
  rewrite !i128_of_words by assumption.
  pose proof (i64_range ua) as Ra. pose proof (i64_range ub) as Rb.
  pose proof (i64_inj_words ua ub Hua Hub) as Hinj.
  assert (Hcong : ua = ub -> i64 ua = i64 ub) by (intros ->; reflexivity).
  assert (H0 : i64 0 = 0) by reflexivity.
  assert (Hcong0 : ua = 0 -> i64 ua = 0) by (intros ->; reflexivity).
  pose proof (i64_inj_words ua 0 Hua ltac:(zlia)) as Hinj0. rewrite H0 in Hinj0.
  rewrite !Z.gtb_ltb, !Z.geb_leb.
  repeat split; try assumption;
    repeat match goal with
           | |- context [Z.eqb ?x ?y] => destruct (Z.eqb_spec x y)
           | |- context [Z.ltb ?x ?y] => destruct (Z.ltb_spec x y)
           | |- context [Z.leb ?x ?y] => destruct (Z.leb_spec x y)
           end; cbn [negb andb orb]; try reflexivity; exfalso; zlia.
Qed.

(** X2.  The emulated comparisons and state checks decide what the native
    ones decide: the order and equality of the signed 128-bit values. *)
Theorem emulated_comparisons_match_native (a b : Int128)
  (Ha : Int128_wf a) (Hb : Int128_wf b) :
  Emulated.eqb a b = Native.eqb a b
  /\ Emulated.neqb a b = Native.neqb a b
  /\ Emulated.ltb a b = Native.ltb a b
  /\ Emulated.leb a b = Native.leb a b
  /\ Emulated.gtb a b = Native.gtb a b
  /\ Emulated.geb a b = Native.geb a b
  /\ Emulated.isZero a = Native.isZero a
  /\ Emulated.isNegative a = Native.isNegative a
  /\ Emulated.abs a = Native.abs a.
Proof. exact (emulated_comparisons_native a b Ha Hb). Qed.

Lemma emulated_comparisons_match_native_witness :
  Emulated.ltb (Emulated.of_int64 (-5)) (Emulated.of_words 7 9)
  = Native.ltb (Emulated.of_int64 (-5)) (Emulated.of_words 7 9)
  /\ Emulated.abs (Emulated.of_int64 (-5)) = Native.abs (Emulated.of_int64 (-5)).
Proof.
  destruct (emulated_comparisons_match_native (Emulated.of_int64 (-5)) (Emulated.of_words 7 9))
    as (_ & _ & H3 & _ & _ & _ & _ & _ & H9).
  - vm_compute; repeat split; discriminate.
  - vm_compute; repeat split; discriminate.
  - split; assumption.
Defined.

(** ** Emulated division by a divisor of at most 33 bits *)

Lemma div_two_words la ua d :
  0 < d -> 0 <= la -> 0 <= ua ->
  (la + 2 ^ 64 * ua) / d = 2 ^ 64 * (ua / d) + (la + 2 ^ 64 * (ua mod d)) / d.
Proof.
  intros Hd Hla Hua.
  rewrite (Z.div_mod ua d) at 1 by lia.
  replace (la + 2 ^ 64 * (d * (ua / d) + ua mod d))
    with ((la + 2 ^ 64 * (ua mod d)) + (2 ^ 64 * (ua / d)) * d) by ring.
  rewrite Z.div_add by lia. ring.
Qed.

Lemma div_two_halves h l d :
  0 < d -> 
  (l + 2 ^ 32 * h) / d = 2 ^ 32 * (h / d) + (l + 2 ^ 32 * (h mod d)) / d.
Proof.
  intros Hd.
  rewrite (Z.div_mod h d) at 1 by lia.
  replace (l + 2 ^ 32 * (d * (h / d) + h mod d))
    with ((l + 2 ^ 32 * (h mod d)) + (2 ^ 32 * (h / d)) * d) by ring.
  rewrite Z.div_add by lia. ring.
Qed.

Lemma div_lt_bound x d k : 0 < d -> 0 <= x < d * k -> 0 <= x / d < k.
Proof.
  intros Hd Hx. split.
  - apply Z.div_pos; lia.
  - apply Z.div_lt_upper_bound; lia.
Qed.

(** The quotient the 64/64 and 128/64 paths of the emulated [operator/]
    compute for a divisor of at most 2^32: the unsigned quotient of the
    sixteen bytes of the dividend. *)
Lemma emulated_div_small_bits a b :
  Int128_wf a -> Int128_wf b ->
  upper64bits b = 0 -> 0 < lower64bits b <= 2 ^ 32 ->
  exists q, Emulated.div a b = Ok q /\ Int128_wf q
            /\ bits128 q = bits128 a / lower64bits b.
Proof.
  destruct a as [la ua], b as [d ub]. unfold Int128_wf; cbn [lower64bits upper64bits].
  intros [Hla Hua] [Hd _] -> Hsmall.
  unfold Emulated.div, Emulated.isZero, Emulated.of_words, bits128;
    cbn [lower64bits upper64bits].
  destruct (Z.eqb_spec d 0) as [|_]; [ lia | ]. cbn [andb Z.eqb].
  rewrite Bool.andb_true_r.
  assert (Hhq : 0 <= ua / d < 2 ^ 64).
  { split; [ apply Z.div_pos; lia | ]. apply Z.div_lt_upper_bound; [ lia | ]. pow_consts; nia. }
  assert (Hlq : 0 <= la / d < 2 ^ 64).
  { split; [ apply Z.div_pos; lia | ]. apply Z.div_lt_upper_bound; [ lia | ]. pow_consts; nia. }
  destruct (Z.eqb_spec ua 0) as [-> | Hnz].
  { eexists. split; [ reflexivity | ]. cbn [lower64bits upper64bits].
    split; [ split; [ assumption | zlia ] | ]. rewrite Z.mul_0_r, !Z.add_0_r. reflexivity. }
  rewrite (div_two_words la ua d) by lia.
  pose proof (Z.mod_pos_bound ua d ltac:(lia)) as Hhr.
  destruct (Z.eqb_spec (ua mod d) 0) as [E | Hr].
  { eexists. split; [ reflexivity | ]. cbn [lower64bits upper64bits].
    split; [ split; assumption | ]. rewrite E, Z.mul_0_r, Z.add_0_r. ring. }
  eexists. split; [ reflexivity | ]. cbn [lower64bits upper64bits].
  unfold BITS_PER_UINT32. change UINT32_MAX_VALUE with (Z.ones 32).
  rewrite !Z.land_ones, !Z.shiftr_div_pow2, !Z.shiftl_mul_pow2 by lia.
  set (hr := ua mod d) in *.
  pose proof (Z.div_mod la (2 ^ 32) ltac:(lia)) as Ela.
  pose proof (Z.mod_pos_bound la (2 ^ 32) ltac:(lia)) as Rll.
  assert (Rlh : 0 <= la / 2 ^ 32 < 2 ^ 32) by zlia.
  set (ll := la mod 2 ^ 32) in *. set (lh := la / 2 ^ 32) in *.
  unfold u64.
  assert (Rtd : 0 <= hr * 2 ^ 32 + lh < d * 2 ^ 32) by (pow_consts; nia).
  assert (Etd : ((hr * 2 ^ 32) mod 2 ^ 64 + lh) mod 2 ^ 64 = hr * 2 ^ 32 + lh).
  { rewrite (Z.mod_small (hr * 2 ^ 32)) by (pow_consts; nia).
    apply Z.mod_small. pow_consts; nia. }
  rewrite Etd. set (td := hr * 2 ^ 32 + lh) in *.
  pose proof (div_lt_bound td d (2 ^ 32) ltac:(lia) Rtd) as Rtq.
  pose proof (Z.mod_pos_bound td d ltac:(lia)) as Rtr.
  set (tq := td / d) in *. 
  assert (Rfd : 0 <= (td mod d) * 2 ^ 32 + ll < d * 2 ^ 32) by (pow_consts; nia).
  assert (Efd : (((td mod d) * 2 ^ 32) mod 2 ^ 64 + ll) mod 2 ^ 64 = (td mod d) * 2 ^ 32 + ll).
  { rewrite (Z.mod_small ((td mod d) * 2 ^ 32)) by (pow_consts; nia).
    apply Z.mod_small. pow_consts; nia. }
  rewrite Efd. 
  pose proof (div_lt_bound _ d (2 ^ 32) ltac:(lia) Rfd) as Rfq.
  assert (Elq : ((tq * 2 ^ 32) mod 2 ^ 64 + (td mod d * 2 ^ 32 + ll) / d) mod 2 ^ 64
                = tq * 2 ^ 32 + (td mod d * 2 ^ 32 + ll) / d).
  { rewrite (Z.mod_small (tq * 2 ^ 32)) by (pow_consts; nia).
    apply Z.mod_small. pow_consts; nia. }
  rewrite Elq.
  split; [ split; [ pow_consts; nia | assumption ] | ].
  replace (la + 2 ^ 64 * hr) with (ll + 2 ^ 32 * td).
  2:{ unfold td. rewrite Ela. pow_consts. ring. }
  rewrite (div_two_halves td ll d) by lia. fold tq.
  replace (ll + 2 ^ 32 * (td mod d)) with (td mod d * 2 ^ 32 + ll) by ring. ring.
Qed.

Lemma emulated_div_rem_small (a b : Int128)
  (Ha : Int128_wf a) (Hb : Int128_wf b)
  (Hhigh : upper64bits b = 0) (Hlow : 0 < lower64bits b <= 2 ^ 32) :
  exists q r,
    Emulated.div a b = Ok q /\ Emulated.rem a b = Ok r
    /\ Int128_wf q /\ Int128_wf r
    /\ bits128 q = bits128 a / lower64bits b
    /\ bits128 r = bits128 a mod lower64bits b
    /\ (Emulated.isNegative a = false ->
        Native.div a b = Ok q /\ Native.rem a b = Ok r).
Proof.
  destruct (emulated_div_small_bits a b Ha Hb Hhigh Hlow) as (q & Hq & Hqwf & Hqb).
  assert (Hbb : bits128 b = lower64bits b).
  { unfold bits128. rewrite Hhigh. ring. }
  pose proof (wf_bits_range a Ha) as Ra.
  set (d := lower64bits b) in *. set (A := bits128 a) in *.
  pose proof (Z.div_mod A d ltac:(lia)) as EA.
  pose proof (Z.mod_pos_bound A d ltac:(lia)) as RA.
  assert (Hq0 : 0 <= A / d) by (apply Z.div_pos; lia).
  assert (Hqd : 0 <= d * (A / d) <= A) by nia.
  assert (Hsub : bits128 (Emulated.sub a (Emulated.mul q b)) = A mod d).
  { rewrite emulated_sub_bits, emulated_mul_bits by (try apply emulated_mul_wf; assumption).
    rewrite Hqb, Hbb. fold A.
    rewrite (Z.mod_small (A / d * d)) by (pow_consts; nia).
    rewrite Z.mod_small by (pow_consts; nia). lia. }
  assert (Hz : Emulated.isZero b = false).
  { unfold Emulated.isZero. fold d. destruct (Z.eqb_spec d 0); [ lia | reflexivity ]. }
  assert (Hrem : exists r, Emulated.rem a b = Ok r /\ Int128_wf r /\ bits128 r = A mod d).
  { unfold Emulated.rem. rewrite Hz, Hhigh. cbn [Z.eqb]. rewrite Bool.andb_true_r.
    destruct (Z.eqb_spec (upper64bits a) 0) as [E | _].
    - eexists. split; [ reflexivity | ].
      assert (EA' : A = lower64bits a) by (unfold A, bits128; rewrite E; ring).
      fold d. rewrite <- EA'.
      unfold Emulated.of_words, Int128_wf, bits128; cbn [lower64bits upper64bits].
      split; [ pow_consts; lia | ring ].
    - rewrite Hq. cbn [bind]. eexists. split; [ reflexivity | ].
      split; [ apply emulated_sub_wf | exact Hsub ]. }
  destruct Hrem as (r & Hr & Hrwf & Hrb).
  assert (Hnat : Emulated.isNegative a = false ->
                 Native.toNative a = A /\ Native.toNative b = d).
  { intros Hneg.
    destruct (emulated_comparisons_native a b Ha Hb)
      as (_ & _ & _ & _ & _ & _ & _ & Hn & _).
    rewrite Hneg in Hn. unfold Native.isNegative in Hn. symmetry in Hn.
    apply Z.ltb_ge in Hn. split.
    - unfold Native.toNative in *. fold A in Hn |- *. unfold i128 in *. cbv zeta in *.
      rewrite (Z.mod_small A) in * by lia.
      destruct (Z.ltb_spec A (2 ^ 127)); zlia.
    - unfold Native.toNative. rewrite Hbb. apply i128_small. pow_consts; lia. }
  exists q, r.
  split; [ assumption | ]. split; [ assumption | ]. split; [ assumption | ].
  split; [ assumption | ]. split; [ assumption | ]. split; [ assumption | ].
  intros Hneg. destruct (Hnat Hneg) as [HA HB].
  unfold Native.div, Native.rem. rewrite HA, HB.
  destruct (Z.eqb_spec d 0); [ lia | ].
  split; f_equal; (apply wf_bits_inj; [ apply of_native_wf | assumption | ]);
    rewrite bits128_of_native, i128_mod.
  - rewrite Z.quot_div_nonneg by lia.
    rewrite Hqb. apply Z.mod_small. pow_consts; nia.
  - rewrite Z.rem_mod_nonneg by lia.
    rewrite Hrb. apply Z.mod_small. pow_consts; lia.
Qed.

(** X3.  For a divisor [d] with [0 < d <= 2^32] the emulated quotient and
    remainder are those of the unsigned 128-bit dividend; when the
    dividend is not negative they are the results of the native build. *)
Theorem emulated_div_rem_small_divisor (a b : Int128)
  (Ha : Int128_wf a) (Hb : Int128_wf b)
  (Hhigh : upper64bits b = 0) (Hlow : 0 < lower64bits b <= 2 ^ 32) :
  exists q r,
    Emulated.div a b = Ok q /\ Emulated.rem a b = Ok r
    /\ Int128_wf q /\ Int128_wf r
    /\ bits128 q = bits128 a / lower64bits b
    /\ bits128 r = bits128 a mod lower64bits b
    /\ (Emulated.isNegative a = false ->
        Native.div a b = Ok q /\ Native.rem a b = Ok r).
Proof. exact (emulated_div_rem_small a b Ha Hb Hhigh Hlow). Qed.

Lemma emulated_div_rem_small_divisor_witness :
  exists q r,
    Emulated.div (Emulated.of_words 5 3) (Emulated.of_int64 7) = Ok q
    /\ Emulated.rem (Emulated.of_words 5 3) (Emulated.of_int64 7) = Ok r
    /\ Int128_wf q /\ Int128_wf r
    /\ bits128 q = bits128 (Emulated.of_words 5 3) / 7
    /\ bits128 r = bits128 (Emulated.of_words 5 3) mod 7
    /\ (Emulated.isNegative (Emulated.of_words 5 3) = false ->
        Native.div (Emulated.of_words 5 3) (Emulated.of_int64 7) = Ok q
        /\ Native.rem (Emulated.of_words 5 3) (Emulated.of_int64 7) = Ok r).
Proof.
  apply (emulated_div_rem_small_divisor (Emulated.of_words 5 3) (Emulated.of_int64 7)).
  - vm_compute; repeat split; discriminate.
  - vm_compute; repeat split; discriminate.
  - reflexivity.
  - vm_compute; split; [ reflexivity | discriminate ].
Defined.

(** ** The binary long division of the emulated [operator/] *)

Lemma lor_pow2_add x k :
  0 <= k -> x mod 2 ^ (k + 1) = 0 -> Z.lor x (2 ^ k) = x + 2 ^ k.
Proof.
  intros Hk Hx.
  assert (Hl : Z.land x (2 ^ k) = 0).
  { apply Z.bits_inj'. intros n Hn.
    rewrite Z.land_spec, Z.bits_0, Z.pow2_bits_eqb by lia.
    destruct (Z.eqb_spec k n) as [<- | _]; [ | apply Bool.andb_false_r ].
    rewrite <- (Z.mod_pow2_bits_low x (k + 1) k) by lia.
    rewrite Hx, Z.bits_0. reflexivity. }
  rewrite <- Z.lxor_lor by assumption.
  symmetry. apply Z.add_nocarry_lxor. assumption.
Qed.

Lemma bit_of_bits128 x i :
  Int128_wf x -> 0 <= i < 128 ->
  (bits128 x / 2 ^ i) mod 2
  = if i >=? 64 then (upper64bits x / 2 ^ (i - 64)) mod 2
    else (lower64bits x / 2 ^ i) mod 2.
Proof.
  destruct x as [l u]. unfold Int128_wf, bits128; cbn [lower64bits upper64bits].
  intros [Hl Hu] Hi. rewrite Z.geb_leb.
  destruct (Z.leb_spec 64 i).
  - replace (2 ^ i) with (2 ^ 64 * 2 ^ (i - 64)).
    2:{ rewrite <- Z.pow_add_r by lia. f_equal. lia. }
    rewrite <- Z.div_div by lia.
    replace ((l + 2 ^ 64 * u) / 2 ^ 64) with u; [ reflexivity | ].
    rewrite (Z.mul_comm (2 ^ 64) u), Z.div_add by lia.
    rewrite Z.div_small by lia. reflexivity.
  - replace (l + 2 ^ 64 * u) with (l + (2 ^ (63 - i) * u * 2) * 2 ^ i).
    2:{ replace (2 ^ 64) with (2 ^ (63 - i) * 2 ^ 1 * 2 ^ i).
        - change (2 ^ 1) with 2. ring.
        - rewrite <- !Z.pow_add_r by lia. f_equal. lia. }
    rewrite Z.div_add by lia.
    apply Z.mod_add. lia.
Qed.

Lemma emulated_ltb_bits x y :
  Int128_wf x -> Int128_wf y -> bits128 x < 2 ^ 127 -> bits128 y < 2 ^ 127 ->
  Emulated.ltb x y = (bits128 x <? bits128 y).
Proof.
  intros Hx Hy Bx By.
  destruct (emulated_comparisons_native x y Hx Hy) as (_ & _ & -> & _).
  unfold Native.ltb, Native.toNative.
  pose proof (wf_bits_range x Hx). pose proof (wf_bits_range y Hy).
  rewrite !i128_small by (pow_consts; lia). reflexivity.
Qed.

Lemma emulated_eqb_bits x y :
  Int128_wf x -> Int128_wf y -> Emulated.eqb x y = (bits128 x =? bits128 y).
Proof.
  destruct x as [lx ux], y as [ly uy].
  unfold Int128_wf, bits128, Emulated.eqb; cbn [lower64bits upper64bits].
  intros [Hlx Hux] [Hly Huy].
  destruct (Z.eqb_spec lx ly); destruct (Z.eqb_spec ux uy);
    destruct (Z.eqb_spec (lx + 2 ^ 64 * ux) (ly + 2 ^ 64 * uy));
    cbn [andb]; try reflexivity; exfalso; zlia.
Qed.

Section LongDivision.

Variables abs_dividend abs_divisor : Int128.
Hypothesis dividend_wf : Int128_wf abs_dividend.
Hypothesis divisor_wf : Int128_wf abs_divisor.
Hypothesis dividend_small : bits128 abs_dividend < 2 ^ 127.
Hypothesis divisor_small : 0 < bits128 abs_divisor < 2 ^ 127.

Local Abbreviation D := (bits128 abs_dividend).
Local Abbreviation V := (bits128 abs_divisor).

Lemma div_step_invariant i st :
  0 <= i < 128 -> div_invariant abs_dividend abs_divisor (i + 1) st ->
  div_invariant abs_dividend abs_divisor i (Emulated.div_step abs_dividend abs_divisor i st).
Proof.
  intros Hi. destruct st as [q r]. unfold div_invariant. cbn [fst snd].
  intros (Hq & Hr & Er & Eq).
  pose proof (wf_bits_range _ dividend_wf) as RD.
  pose proof dividend_small as HD. pose proof divisor_small as HV.
  assert (Ebit : (((i >=? BITS_PER_UINT64)
                   && negb (Z.land (Z.shiftr (upper64bits abs_dividend)
                                      (i - BITS_PER_UINT64)) 1 =? 0))
                  || ((i <? BITS_PER_UINT64)
                      && negb (Z.land (Z.shiftr (lower64bits abs_dividend) i) 1 =? 0)))
                 = negb ((D / 2 ^ i) mod 2 =? 0)).
  { rewrite bit_of_bits128 by assumption.
    unfold BITS_PER_UINT64. change 1 with (Z.ones 1) at 1 2.
    rewrite !Z.land_ones by lia. change (2 ^ 1) with 2.
    rewrite Z.geb_leb.
    destruct (Z.leb_spec 64 i); destruct (Z.ltb_spec i 64); try lia; cbn [andb orb].
    - rewrite Z.shiftr_div_pow2 by lia. apply Bool.orb_false_r.
    - rewrite Z.shiftr_div_pow2 by lia. reflexivity. }
  assert (Hsubb : forall x, Int128_wf x ->
            bits128 (Emulated.sub x abs_divisor) = (bits128 x - V) mod 2 ^ 128).
  { intros x Hx. apply emulated_sub_bits; assumption. }
  assert (Hltb : forall x, Int128_wf x -> bits128 x < 2 ^ 127 ->
            Emulated.ltb x abs_divisor = (bits128 x <? V)).
  { intros x Hx Bx. apply emulated_ltb_bits; try assumption. lia. }
  unfold Emulated.div_step. rewrite Ebit. clear Ebit.
  generalize dependent (bits128 abs_divisor). intros dV. intros.
  generalize dependent (bits128 abs_dividend). intros dD. intros.
  assert (H2i : 0 < 2 ^ i) by (apply Z.pow_pos_nonneg; lia).
  assert (EX : dD / 2 ^ (i + 1) = dD / 2 ^ i / 2).
  { rewrite Z.pow_add_r by lia. change (2 ^ 1) with 2. rewrite Z.div_div by lia. reflexivity. }
  rewrite EX in Er, Eq.
  assert (RX' : 0 <= dD / 2 ^ i <= dD).
  { split; [ apply Z.div_pos; lia | ]. apply Z.div_le_upper_bound; [ lia | nia ]. }
  assert (RXD : dD / 2 ^ i * 2 ^ i <= dD) by (rewrite Z.mul_comm; apply Z.mul_div_le; lia).
  set (X' := dD / 2 ^ i) in *.
  pose proof (Z.div_mod X' 2 ltac:(lia)) as EX'.
  pose proof (Z.mod_pos_bound X' 2 ltac:(lia)) as Rbit.
  set (X := X' / 2) in *.
  pose proof (Z.div_mod X dV ltac:(lia)) as EXV.
  pose proof (Z.mod_pos_bound X dV ltac:(lia)) as RrV.
  assert (RQ : 0 <= X / dV) by (apply Z.div_pos; lia).
  set (Qn := X / dV) in *. set (rv := X mod dV) in *.
  assert (Rrem : 0 <= 2 * rv + X' mod 2 <= X') by nia.
  clearbody X' X Qn rv.
  (* remainder + remainder *)
  assert (E1 : bits128 (Emulated.add r r) = 2 * rv).
  { rewrite emulated_add_bits by assumption. rewrite Er.
    rewrite Z.mod_small by (pow_consts; lia). ring. }
  set (r2 := if negb (X' mod 2 =? 0)
             then Emulated.add (Emulated.add r r) (Emulated.of_words 1 0)
             else Emulated.add r r).
  assert (Hr2 : Int128_wf r2) by (unfold r2; destruct (negb _); apply emulated_add_wf).
  assert (E2 : bits128 r2 = 2 * rv + X' mod 2).
  { unfold r2. destruct (Z.eqb_spec (X' mod 2) 0) as [E0 | N0]; cbn [negb].
    - rewrite E1, E0. ring.
    - rewrite emulated_add_bits; [ | apply emulated_add_wf | vm_compute; repeat split; discriminate ].
      rewrite E1. change (bits128 (Emulated.of_words 1 0)) with 1.
      replace (X' mod 2) with 1 by lia.
      apply Z.mod_small. pow_consts; lia. }
  clearbody r2.
  rewrite Hltb; [ | assumption | rewrite E2; lia ].
  rewrite E2.
  destruct (Z.ltb_spec (2 * rv + X' mod 2) dV) as [Hlt | Hge]; cbn [negb fst snd].
  - (* no subtraction; the quotient bit stays clear *)
    assert (EQ' : X' / dV = 2 * Qn).
    { symmetry. apply (Z.div_unique_pos X' dV (2 * Qn) (2 * rv + X' mod 2)); nia. }
    assert (ER' : X' mod dV = 2 * rv + X' mod 2).
    { symmetry. apply (Z.mod_unique_pos X' dV (2 * Qn) (2 * rv + X' mod 2)); nia. }
    repeat split; try apply Hq; try apply Hr2.
    + rewrite ER'. assumption.
    + rewrite Eq, EQ', Z.pow_add_r by lia. change (2 ^ 1) with 2. ring.
  - assert (EQ' : X' / dV = 2 * Qn + 1).
    { symmetry. apply (Z.div_unique_pos X' dV (2 * Qn + 1) (2 * rv + X' mod 2 - dV)); nia. }
    assert (ER' : X' mod dV = 2 * rv + X' mod 2 - dV).
    { symmetry. apply (Z.mod_unique_pos X' dV (2 * Qn + 1) (2 * rv + X' mod 2 - dV)); nia. }
    assert (Hsub : bits128 (Emulated.sub r2 abs_divisor) = X' mod dV).
    { rewrite Hsubb by assumption. rewrite E2, ER'.
      apply Z.mod_small. pow_consts; lia. }
    assert (Hbound : (2 * Qn + 1) * 2 ^ i < 2 ^ 128).
    { assert ((2 * Qn + 1) <= X') by nia.
      pow_consts. nia. }
    destruct q as [lq uq]. destruct Hq as [Hlq Huq].
    unfold bits128 in Eq. cbn [lower64bits upper64bits] in *.
    unfold BITS_PER_UINT64, BIT_MASK_ONE, u64.
    rewrite Z.geb_leb.
    destruct (Z.leb_spec 64 i) as [Hhi | Hlo]; cbn [fst snd];
      rewrite Z.shiftl_mul_pow2, Z.mul_1_l by lia.
    + assert (P : 2 ^ (i + 1) = 2 ^ 64 * (2 * 2 ^ (i - 64))).
      { replace (i + 1) with (64 + (1 + (i - 64))) by lia.
        rewrite !Z.pow_add_r by lia. reflexivity. }
      assert (P' : 2 ^ i = 2 ^ 64 * 2 ^ (i - 64)).
      { rewrite <- Z.pow_add_r by lia. f_equal. lia. }
      assert (H2k : 0 < 2 ^ (i - 64) < 2 ^ 64).
      { split; [ apply Z.pow_pos_nonneg; lia | apply Z.pow_lt_mono_r; lia ]. }
      rewrite P in Eq.
      assert (Elq : lq = 0) by (pow_consts; nia).
      assert (Euq : uq = Qn * (2 * 2 ^ (i - 64))) by (pow_consts; nia).
      rewrite (Z.mod_small (2 ^ (i - 64))) by lia.
      rewrite lor_pow2_add; [ | lia | ].
      2:{ rewrite Euq. replace (i - 64 + 1) with (1 + (i - 64)) by lia.
          rewrite Z.pow_add_r by lia. change (2 ^ 1) with 2. apply Z.mod_mul. lia. }
      assert (Ev : lq + 2 ^ 64 * (uq + 2 ^ (i - 64)) = X' / dV * 2 ^ i).
      { rewrite EQ', P', Elq, Euq. ring. }
      assert (Hu' : uq + 2 ^ (i - 64) < 2 ^ 64).
      { rewrite P' in Hbound. rewrite Euq. clear - Hbound.
        generalize dependent (2 ^ (i - 64)). intros p Hbound.
        replace ((2 * Qn + 1) * (2 ^ 64 * p)) with (2 ^ 64 * (Qn * (2 * p) + p)) in Hbound by ring.
        pow_consts. lia. }
      split; [ split; cbn [lower64bits upper64bits]; lia | ].
      split; [ apply emulated_sub_wf | ]. split; [ exact Hsub | ].
      unfold bits128; cbn [lower64bits upper64bits]. exact Ev.
    + assert (P : 2 ^ 64 = 2 ^ (i + 1) * 2 ^ (63 - i)).
      { rewrite <- Z.pow_add_r by lia. f_equal. lia. }
      assert (P' : 2 ^ (i + 1) = 2 * 2 ^ i).
      { rewrite Z.pow_add_r by lia. change (2 ^ 1) with 2. ring. }
      assert (H2k : 0 < 2 ^ i < 2 ^ 64).
      { split; [ apply Z.pow_pos_nonneg; lia | apply Z.pow_lt_mono_r; lia ]. }
      rewrite (Z.mod_small (2 ^ i)) by lia.
      assert (Hm : lq mod 2 ^ (i + 1) = 0).
      { replace lq with (Qn * 2 ^ (i + 1) - 2 ^ 64 * uq) by lia.
        rewrite P.
        replace (Qn * 2 ^ (i + 1) - 2 ^ (i + 1) * 2 ^ (63 - i) * uq)
          with ((Qn - 2 ^ (63 - i) * uq) * 2 ^ (i + 1)) by ring.
        apply Z.mod_mul. lia. }
      rewrite lor_pow2_add by (assumption || lia).
      assert (Ev : lq + 2 ^ i + 2 ^ 64 * uq = X' / dV * 2 ^ i).
      { rewrite EQ'. rewrite P' in Eq. lia. }
      assert (Hl' : lq + 2 ^ i < 2 ^ 64).
      { rewrite P' in Hm, P.
        apply Z.mod_divide in Hm; [ | lia ]. destruct Hm as [ka Hka].
        clear - Hka P Hlq H2k.
        generalize dependent (2 ^ (63 - i)). generalize dependent (2 ^ i).
        intros p Hp Hka kb P. 
        assert (ka < kb) by nia. assert (ka + 1 <= kb) by lia.
        assert ((ka + 1) * (2 * p) <= 2 * p * kb) by nia. pow_consts. lia. }
      split; [ split; cbn [lower64bits upper64bits]; lia | ].
      split; [ apply emulated_sub_wf | ]. split; [ exact Hsub | ].
      unfold bits128; cbn [lower64bits upper64bits]. lia.
Qed.

Lemma div_loop_invariant n st :
  (n <= 128)%nat -> div_invariant abs_dividend abs_divisor (Z.of_nat n) st ->
  div_invariant abs_dividend abs_divisor 0 (Emulated.div_loop abs_dividend abs_divisor n st).
Proof.
  revert st. induction n as [| n IH]; intros st Hn Hinv.
  - exact Hinv.
  - cbn [Emulated.div_loop]. apply IH; [ lia | ].
    apply div_step_invariant; [ lia | ].
    replace (Z.of_nat n + 1) with (Z.of_nat (S n)) by lia. exact Hinv.
Qed.

Lemma div_loop_quotient :
  let st := Emulated.div_loop abs_dividend abs_divisor (S INT_128_MAX_BIT_INDEX)
              (Emulated.of_words 0 0, Emulated.of_words 0 0) in
  Int128_wf (fst st) /\ bits128 (fst st) = D / V
  /\ Int128_wf (snd st) /\ bits128 (snd st) = D mod V.
Proof.
  cbv zeta.
  pose proof (wf_bits_range _ dividend_wf) as RD.
  destruct (div_loop_invariant (S INT_128_MAX_BIT_INDEX)
              (Emulated.of_words 0 0, Emulated.of_words 0 0)) as (Hq & Hr & Er & Eq).
  - unfold INT_128_MAX_BIT_INDEX. lia.
  - unfold div_invariant. cbn [fst snd].
    change (Z.of_nat (S INT_128_MAX_BIT_INDEX)) with 128.
    rewrite (Z.div_small D) by lia.
    rewrite Z.mod_0_l, Z.div_0_l by lia.
    repeat split; vm_compute; discriminate.
  - change (2 ^ 0) with 1 in *. rewrite Z.div_1_r in *. rewrite Z.mul_1_r in Eq.
    repeat split; try apply Hq; try apply Hr; assumption.
Qed.

End LongDivision.

(** The magnitude the general path of [operator/] works with. *)
Lemma emulated_magnitude x :
  Int128_wf x -> Int128_value x <> - 2 ^ 127 ->
  Emulated.isNegative x = (Int128_value x <? 0)
  /\ Int128_wf (if Emulated.isNegative x then Emulated.neg x else x)
  /\ bits128 (if Emulated.isNegative x then Emulated.neg x else x)
     = Z.abs (Int128_value x).
Proof.
  intros Hx Hmin.
  destruct (emulated_comparisons_native x x Hx Hx)
    as (_ & _ & _ & _ & _ & _ & _ & Hn & _).
  rewrite Hn. unfold Native.isNegative. change (Native.toNative x) with (Int128_value x).
  split; [ reflexivity | ].
  pose proof (wf_bits_range x Hx) as R.
  unfold Int128_value in *. unfold i128 in *. cbv zeta in *.
  rewrite (Z.mod_small (bits128 x)) in * by lia.
  destruct (Z.ltb_spec (bits128 x) (2 ^ 127)).
  - destruct (Z.ltb_spec (bits128 x) 0); [ lia | ]. split; [ assumption | lia ].
  - destruct (Z.ltb_spec (bits128 x - 2 ^ 128) 0); [ | pow_consts; lia ].
    split; [ apply (Int128_neg_wf false) | ].
    rewrite emulated_neg_bits by assumption. zlia.
Qed.

Lemma general_path_tail (result_negative : bool) (abs_dividend abs_divisor : Int128) :
  Int128_wf abs_dividend -> Int128_wf abs_divisor ->
  bits128 abs_dividend < 2 ^ 127 -> 0 < bits128 abs_divisor < 2 ^ 127 ->
  exists q,
    (if Emulated.ltb abs_dividend abs_divisor then Ok (Emulated.of_words 0 0)
     else if Emulated.eqb abs_dividend abs_divisor
     then Ok (if result_negative
              then Emulated.sub (Emulated.of_words 0 0) (Emulated.of_words 1 0)
              else Emulated.of_words 1 0)
     else
       let '(quotient, _) :=
         Emulated.div_loop abs_dividend abs_divisor (S INT_128_MAX_BIT_INDEX)
           (Emulated.of_words 0 0, Emulated.of_words 0 0) in
       Ok (if result_negative
           then Emulated.sub (Emulated.of_words 0 0) quotient else quotient))
    = Ok q
    /\ Int128_wf q
    /\ bits128 q
       = (if result_negative then - (bits128 abs_dividend / bits128 abs_divisor)
          else bits128 abs_dividend / bits128 abs_divisor) mod 2 ^ 128.
Proof.
  intros HA HB BA BB.
  pose proof (wf_bits_range _ HA) as RA.
  rewrite emulated_ltb_bits, emulated_eqb_bits by (assumption || lia).
  assert (Hzero : Int128_wf (Emulated.of_words 0 0)) by (vm_compute; repeat split; discriminate).
  assert (Hone : Int128_wf (Emulated.of_words 1 0)) by (vm_compute; repeat split; discriminate).
  destruct (Z.ltb_spec (bits128 abs_dividend) (bits128 abs_divisor)) as [Hlt | Hge].
  - eexists. split; [ reflexivity | ]. split; [ assumption | ].
    rewrite Z.div_small by lia. destruct result_negative; reflexivity.
  - destruct (Z.eqb_spec (bits128 abs_dividend) (bits128 abs_divisor)) as [E | N].
    + eexists. split; [ reflexivity | ].
      rewrite E, Z.div_same by lia.
      destruct result_negative; split; try assumption; try reflexivity.
      apply emulated_sub_wf.
    + destruct (div_loop_quotient abs_dividend abs_divisor HA HB BA BB) as (Hq & Eq & _).
      destruct (Emulated.div_loop abs_dividend abs_divisor (S INT_128_MAX_BIT_INDEX)
                  (Emulated.of_words 0 0, Emulated.of_words 0 0)) as [quotient remainder].
      cbn [fst snd] in *.
      eexists. split; [ reflexivity | ].
      assert (0 <= bits128 abs_dividend / bits128 abs_divisor <= bits128 abs_dividend).
      { split; [ apply Z.div_pos; lia | ]. apply Z.div_le_upper_bound; [ lia | nia ]. }
      destruct result_negative.
      * split; [ apply emulated_sub_wf | ].
        rewrite emulated_sub_bits by assumption. rewrite Eq. reflexivity.
      * split; [ assumption | ]. rewrite Eq. symmetry. apply Z.mod_small. pow_consts; lia.
Qed.

Lemma emulated_long_division_native (a b : Int128)
  (Ha : Int128_wf a) (Hb : Int128_wf b)
  (Hhigh : upper64bits b <> 0)
  (Hamin : Int128_value a <> - 2 ^ 127) (Hbmin : Int128_value b <> - 2 ^ 127) :
  Emulated.div a b = Native.div a b /\ Emulated.rem a b = Native.rem a b.
Proof.
  destruct (emulated_magnitude a Ha Hamin) as (Na & Wa & Ba).
  destruct (emulated_magnitude b Hb Hbmin) as (Nb & Wb & Bb).
  pose proof (i128_range (bits128 a)) as Ra. fold (Int128_value a) in Ra.
  pose proof (i128_range (bits128 b)) as Rb. fold (Int128_value b) in Rb.
  assert (Hz : Emulated.isZero b = false).
  { unfold Emulated.isZero. destruct (Z.eqb_spec (upper64bits b) 0); [ contradiction | ].
    apply Bool.andb_false_r. }
  assert (Hvb : Int128_value b <> 0).
  { destruct (emulated_comparisons_native b b Hb Hb)
      as (_ & _ & _ & _ & _ & _ & Hzn & _).
    rewrite Hz in Hzn. unfold Native.isZero in Hzn. symmetry in Hzn.
    apply Z.eqb_neq in Hzn. exact Hzn. }
  assert (Hfast : (upper64bits a =? 0) && (upper64bits b =? 0) = false).
  { destruct (Z.eqb_spec (upper64bits b) 0); [ contradiction | ]. apply Bool.andb_false_r. }
  assert (Hmid : (upper64bits b =? 0) = false).
  { destruct (Z.eqb_spec (upper64bits b) 0); [ contradiction | reflexivity ]. }
  assert (Hdiv : Emulated.div a b = Native.div a b).
  { unfold Native.div. change (Native.toNative b) with (Int128_value b).
    change (Native.toNative a) with (Int128_value a).
    destruct (Z.eqb_spec (Int128_value b) 0) as [|_]; [ contradiction | ].
    unfold Emulated.div. rewrite Hz, Hfast, Hmid.
    set (A' := if Emulated.isNegative a then Emulated.neg a else a) in *.
    set (B' := if Emulated.isNegative b then Emulated.neg b else b) in *.
    set (rn := xorb (Emulated.isNegative a) (Emulated.isNegative b)).
    destruct (general_path_tail rn A' B' Wa Wb ltac:(lia) ltac:(lia)) as (q & Hq & Wq & Bq).
    assert (Hgoal : (if Emulated.ltb A' B' then Ok (Emulated.of_words 0 0)
                     else if Emulated.eqb A' B'
                     then Ok (if rn
                              then Emulated.sub (Emulated.of_words 0 0) (Emulated.of_words 1 0)
                              else Emulated.of_words 1 0)
                     else
                       let '(quotient, _) :=
                         Emulated.div_loop A' B' (S INT_128_MAX_BIT_INDEX)
                           (Emulated.of_words 0 0, Emulated.of_words 0 0) in
                       Ok (if rn
                           then Emulated.sub (Emulated.of_words 0 0) quotient else quotient))
                    = Ok (Native.of_native
                            (i128 (Z.quot (Int128_value a) (Int128_value b))))).
    { rewrite Hq. f_equal. apply wf_bits_inj; [ assumption | apply of_native_wf | ].
      rewrite Bq, bits128_of_native, i128_mod, Ba, Bb.
      rewrite (Z.quot_div (Int128_value a) (Int128_value b)) by assumption.
      unfold rn. rewrite Na, Nb.
      f_equal.
      assert (0 <= Z.abs (Int128_value a) / Z.abs (Int128_value b))
        by (apply Z.div_pos; lia).
      destruct (Z.ltb_spec (Int128_value a) 0); destruct (Z.ltb_spec (Int128_value b) 0);
        cbn [xorb].
      - rewrite !Z.sgn_neg by lia. ring.
      - destruct (Z.eq_dec (Int128_value b) 0); [ contradiction | ].
        rewrite (Z.sgn_neg (Int128_value a)), (Z.sgn_pos (Int128_value b)) by lia. ring.
      - destruct (Z.eq_dec (Int128_value a) 0) as [E0 | N0].
        + rewrite E0. cbn. reflexivity.
        + rewrite (Z.sgn_pos (Int128_value a)), (Z.sgn_neg (Int128_value b)) by lia. ring.
      - destruct (Z.eq_dec (Int128_value a) 0) as [E0 | N0].
        + rewrite E0. cbn. reflexivity.
        + rewrite (Z.sgn_pos (Int128_value a)), (Z.sgn_pos (Int128_value b)) by lia. ring. }
    rewrite <- Hgoal. unfold A', B', rn.
    destruct (Emulated.isNegative a); destruct (Emulated.isNegative b); reflexivity. }
  split; [ assumption | ].
  destruct (native_rem_spec a b Hvb) as (q & r & Hq & Hr & Er & _).
  unfold Emulated.rem. rewrite Hz, Hfast, Hdiv, Hq, Hr. cbn [bind]. f_equal.
  assert (Wq : Int128_wf q).
  { unfold Native.div in Hq. destruct (Native.toNative b =? 0); [ discriminate | ].
    injection Hq as <-. apply of_native_wf. }
  rewrite Er.
  destruct (emulated_arithmetic_native q b Wq Hb) as (_ & _ & -> & _).
  destruct (emulated_arithmetic_native a (Native.mul q b) Ha (of_native_wf _))
    as (_ & -> & _).
  reflexivity.
Qed.

(** X4.  For a divisor whose upper word is not zero the emulated [operator/]
    runs its binary long division; unless an operand is the minimum
    value, quotient and remainder are those of the native build. *)
Theorem emulated_long_division_matches_native (a b : Int128)
  (Ha : Int128_wf a) (Hb : Int128_wf b)
  (Hhigh : upper64bits b <> 0)
  (Hamin : Int128_value a <> - 2 ^ 127) (Hbmin : Int128_value b <> - 2 ^ 127) :
  Emulated.div a b = Native.div a b /\ Emulated.rem a b = Native.rem a b.
Proof. exact (emulated_long_division_native a b Ha Hb Hhigh Hamin Hbmin). Qed.

Lemma emulated_long_division_matches_native_witness :
  Emulated.div (Emulated.of_int64 (-100)) (Emulated.of_int64 (-7))
  = Native.div (Emulated.of_int64 (-100)) (Emulated.of_int64 (-7))
  /\ Emulated.rem (Emulated.of_int64 (-100)) (Emulated.of_int64 (-7))
     = Native.rem (Emulated.of_int64 (-100)) (Emulated.of_int64 (-7)).
Proof.
  apply (emulated_long_division_matches_native
           (Emulated.of_int64 (-100)) (Emulated.of_int64 (-7)));
    vm_compute; repeat split; discriminate.
Defined.

(** Division by a divisor of at most 2^32 in either build, for a
    dividend that is not negative. *)
Lemma Int128_div_rem_small (native : bool) (t b : Int128) :
  Int128_wf t -> bits128 t < 2 ^ 127 ->
  Int128_wf b -> upper64bits b = 0 -> 0 < lower64bits b <= 2 ^ 32 ->
  exists q r,
    Int128_div native t b = Ok q /\ Int128_rem native t b = Ok r
    /\ Int128_wf q /\ Int128_wf r
    /\ bits128 q = bits128 t / lower64bits b
    /\ bits128 r = bits128 t mod lower64bits b.
Proof.
  intros Ht Hsmall Hb Hhigh Hlow.
  destruct (emulated_div_rem_small t b Ht Hb Hhigh Hlow)
    as (q & r & Hq & Hr & Wq & Wr & Bq & Br & Hnat).
  assert (Hneg : Emulated.isNegative t = false).
  { destruct t as [l u]. destruct Ht as [Hl Hu].
    unfold Emulated.isNegative, bits128 in *; cbn [lower64bits upper64bits] in *.
    rewrite i64_small by zlia. apply Z.ltb_ge. lia. }
  destruct (Hnat Hneg) as [Hqn Hrn].
  exists q, r. destruct native; cbn; repeat split; try assumption; apply Wq || apply Wr.
Qed.

(** ** Comparison with the built-in integers *)

Section BuiltinComparisons.
Variable native : bool.

(** X5.  Comparing an Int128 with an [int64_t] compares the two numbers, in
    both builds. *)
Theorem Int128_compare_int64 (x : Int128) (v : Z)
  (Hx : Int128_wf x) (Hv : - 2 ^ 63 <= v < 2 ^ 63) :
  Int128_eqb_int64 native x v = (Int128_value x =? v)
  /\ Int128_neqb_int64 native x v = negb (Int128_value x =? v)
  /\ Int128_ltb_int64 native x v = (Int128_value x <? v)
  /\ Int128_leb_int64 native x v = (Int128_value x <=? v)
  /\ Int128_gtb_int64 native x v = (v <? Int128_value x)
  /\ Int128_geb_int64 native x v = (v <=? Int128_value x).
Proof.
  unfold Int128_eqb_int64, Int128_neqb_int64, Int128_ltb_int64, Int128_leb_int64,
    Int128_gtb_int64, Int128_geb_int64.
  change (Native.toNative x) with (Int128_value x).
  destruct native.
  - rewrite Z.gtb_ltb, Z.geb_leb. repeat split.
  - unfold Int128_eqb_int64.
    pose proof (emulated_of_int64_wf v) as Wv.
    destruct (emulated_comparisons_native x (Emulated.of_int64 v) Hx Wv)
      as (_ & _ & -> & -> & -> & -> & _).
    unfold Native.ltb, Native.leb, Native.gtb, Native.geb.
    change (Native.toNative x) with (Int128_value x).
    change (Native.toNative (Emulated.of_int64 v)) with (Int128_value (Emulated.of_int64 v)).
    pose proof (Int128_value_of_int64 false v Hv) as Ev.
    change (Int128_of_int64 false v) with (Emulated.of_int64 v) in Ev. rewrite Ev.
    rewrite Z.gtb_ltb, Z.geb_leb.
    assert (Eeq : (upper64bits x =? (if v <? 0 then u64 (-1) else 0))
                  && (lower64bits x =? u64 v) = (Int128_value x =? v)).
    { destruct x as [l u]. destruct Hx as [Hl Hu].
      unfold Int128_value, bits128, u64; cbn [lower64bits upper64bits] in *.
      rewrite i128_of_words by assumption.
      pose proof (i64_range u) as Ru.
      assert (Hi : i64 u = if u <? 2 ^ 63 then u else u - 2 ^ 64).
      { unfold i64. cbv zeta. rewrite (Z.mod_small u) by lia. reflexivity. }
      rewrite Hi. clear Hi Ru.
      destruct (Z.ltb_spec v 0); destruct (Z.ltb_spec u (2 ^ 63));
        match goal with
        | |- (?a =? ?b) && (?c =? ?d) = (?e =? ?f) =>
            destruct (Z.eqb_spec a b); destruct (Z.eqb_spec c d); destruct (Z.eqb_spec e f)
        end; cbn [andb]; try reflexivity; exfalso; zlia. }
    cbv zeta. rewrite Eeq. repeat split.
Qed.

(** X6.  Comparing an Int128 with a [uint64_t] compares the two numbers: in
    the emulated build for every Int128, in the native build, which
    looks at the low word only, for every Int128 below 2^64. *)
Theorem Int128_compare_uint64 (x : Int128) (v : Z)
  (Hx : Int128_wf x) (Hv : 0 <= v < 2 ^ 64)
  (Hlow : native = false \/ Int128_value x < 2 ^ 64) :
  Int128_eqb_uint64 native x v = (Int128_value x =? v)
  /\ Int128_neqb_uint64 native x v = negb (Int128_value x =? v)
  /\ Int128_ltb_uint64 native x v = (Int128_value x <? v)
  /\ Int128_leb_uint64 native x v = (Int128_value x <=? v)
  /\ Int128_gtb_uint64 native x v = (v <? Int128_value x)
  /\ Int128_geb_uint64 native x v = (v <=? Int128_value x).
Proof.
  pose proof (i128_range (bits128 x)) as Rx. fold (Int128_value x) in Rx.
  unfold Int128_eqb_uint64, Int128_neqb_uint64, Int128_ltb_uint64, Int128_leb_uint64,
    Int128_gtb_uint64, Int128_geb_uint64.
  destruct native.
  - destruct Hlow as [C | Hlow]; [ discriminate C | ].
    change (Native.toNative x) with (Int128_value x).
    unfold u64. rewrite !Z.gtb_ltb, !Z.geb_leb.
    generalize dependent (Int128_value x). intros n Rn Hn.
    assert (Hm : 0 <= n -> n mod 2 ^ 64 = n) by (intros; apply Z.mod_small; lia).
    destruct (Z.leb_spec 0 n) as [Hpos | Hneg].
    + rewrite (Hm Hpos).
      replace (n <? 0) with false by (symmetry; apply Z.ltb_ge; exact Hpos).
      cbn [andb orb]. repeat split.
    + replace (n <? 0) with true by (symmetry; apply Z.ltb_lt; exact Hneg).
      cbn [andb orb].
      repeat split; lia.
  - unfold Int128_eqb_uint64, Emulated.isNegative.
    destruct x as [l u]. destruct Hx as [Hl Hu].
    unfold Int128_value, bits128 in *; cbn [lower64bits upper64bits] in *.
    rewrite i128_of_words in * by assumption.
    pose proof (i64_range u) as Ru.
    assert (Hi : i64 u = if u <? 2 ^ 63 then u else u - 2 ^ 64).
    { unfold i64. cbv zeta. rewrite (Z.mod_small u) by lia. reflexivity. }
    rewrite !Z.gtb_ltb, !Z.geb_leb.
    destruct (Z.ltb_spec u (2 ^ 63)) as [Hpos | Hneg].
    + replace (i64 u <? 0) with false by (symmetry; apply Z.ltb_ge; lia).
      rewrite Hi. clear Hi Ru.
      destruct (Z.eqb_spec u 0) as [-> | Hu0]; cbn [negb andb].
      * rewrite Z.mul_0_r, Z.add_0_r. repeat split.
      * assert (Hbig : v < l + 2 ^ 64 * u) by (pow_consts; lia).
        generalize dependent (l + 2 ^ 64 * u). intros n. intros.
        repeat split; lia.
    + replace (i64 u <? 0) with true by (symmetry; apply Z.ltb_lt; lia).
      assert (Hsmall : l + 2 ^ 64 * i64 u < 0) by (pow_consts; lia).
      replace (u =? 0) with false by (symmetry; apply Z.eqb_neq; pow_consts; lia).
      cbn [negb andb].
      generalize dependent (l + 2 ^ 64 * i64 u). intros n. intros.
      repeat split; lia.
Qed.

End BuiltinComparisons.

Lemma Int128_compare_int64_witness :
  Int128_eqb_int64 false (Emulated.of_int64 (-7)) (-7)
  = (Int128_value (Emulated.of_int64 (-7)) =? -7)
  /\ Int128_neqb_int64 false (Emulated.of_int64 (-7)) (-7)
     = negb (Int128_value (Emulated.of_int64 (-7)) =? -7)
  /\ Int128_ltb_int64 false (Emulated.of_int64 (-7)) (-7)
     = (Int128_value (Emulated.of_int64 (-7)) <? -7)
  /\ Int128_leb_int64 false (Emulated.of_int64 (-7)) (-7)
     = (Int128_value (Emulated.of_int64 (-7)) <=? -7)
  /\ Int128_gtb_int64 false (Emulated.of_int64 (-7)) (-7)
     = (-7 <? Int128_value (Emulated.of_int64 (-7)))
  /\ Int128_geb_int64 false (Emulated.of_int64 (-7)) (-7)
     = (-7 <=? Int128_value (Emulated.of_int64 (-7))).
Proof.
  apply (Int128_compare_int64 false (Emulated.of_int64 (-7)) (-7)).
  - vm_compute; repeat split; discriminate.
  - vm_compute; split; [ discriminate | reflexivity ].
Defined.

Lemma Int128_compare_uint64_witness :
  Int128_eqb_uint64 true (Emulated.of_int64 9) 9 = (Int128_value (Emulated.of_int64 9) =? 9)
  /\ Int128_neqb_uint64 true (Emulated.of_int64 9) 9
     = negb (Int128_value (Emulated.of_int64 9) =? 9)
  /\ Int128_ltb_uint64 true (Emulated.of_int64 9) 9 = (Int128_value (Emulated.of_int64 9) <? 9)
  /\ Int128_leb_uint64 true (Emulated.of_int64 9) 9
     = (Int128_value (Emulated.of_int64 9) <=? 9)
  /\ Int128_gtb_uint64 true (Emulated.of_int64 9) 9 = (9 <? Int128_value (Emulated.of_int64 9))
  /\ Int128_geb_uint64 true (Emulated.of_int64 9) 9
     = (9 <=? Int128_value (Emulated.of_int64 9)).
Proof.
  apply (Int128_compare_uint64 true (Emulated.of_int64 9) 9).
  - vm_compute; repeat split; discriminate.
  - vm_compute; split; [ discriminate | reflexivity ].
  - right. vm_compute. reflexivity.
Defined.

(** ** Int128::tryParse and Int128::toString *)

(** Among digit runs of one length, a run that is not lexicographically
    greater is not numerically greater. *)
Lemma string_gt_false_value a : forall b,
  List.length a = List.length b ->
  Forall is_digit a -> Forall is_digit b ->
  string_gt a b = false ->
  digits_value a 0 <= digits_value b 0.
Proof.
  induction a as [|x a IH]; intros b Hlen Ha Hb Hgt.
  - destruct b; [ cbn; lia | discriminate ].
  - destruct b as [|y b]; [ discriminate | ].
    cbn [List.length] in Hlen. injection Hlen as Hlen.
    pose proof (Forall_inv Ha) as Hx. pose proof (Forall_inv_tail Ha) as Ha'.
    pose proof (Forall_inv Hb) as Hy. pose proof (Forall_inv_tail Hb) as Hb'.
    cbn [string_gt digits_value] in *.
    rewrite (digits_value_linear a), (digits_value_linear b).
    pose proof (digits_value_bound a Ha') as Ba.
    pose proof (digits_value_bound b Hb') as Bb.
    rewrite Hlen in Ba |- *.
    assert (0 < 10 ^ Z.of_nat (List.length b)) as Hp by (apply Z.pow_pos_nonneg; lia).
    rewrite Z.gtb_ltb in Hgt.
    destruct (Z.ltb_spec (code y) (code x)) as [|Hngt]; [ discriminate | ].
    destruct (Z.ltb_spec (code x) (code y)) as [Hlt|Hnlt].
    + nia.
    + specialize (IH b Hlen Ha' Hb' Hgt).
      assert (code x = code y) as E by lia. rewrite E. lia.
Qed.

Lemma accumulate_int128_digits native cs : forall r x,
  accumulate_int128 native cs r = Some x -> Forall is_digit cs.
Proof.
  induction cs as [|c cs IH]; intros r x H.
  - constructor.
  - cbn [accumulate_int128] in H.
    destruct (not_a_digit c) eqn:Hc; [ discriminate | ].
    constructor; [ exact Hc | eapply IH; exact H ].
Qed.

Lemma pow10_38 : 10 ^ 38 < 2 ^ 127 - 1.
Proof. vm_compute. reflexivity. Qed.

(** The 39-digit guard of [tryParse], on a run of digits. *)
Lemma guard_39_digits (ds : list ascii) (maxstr : string) (bound : Z) :
  Forall is_digit ds -> (List.length ds <= 39)%nat ->
  Forall is_digit (chars maxstr) -> List.length (chars maxstr) = 39%nat ->
  digits_value (chars maxstr) 0 = bound -> 10 ^ 38 <= bound ->
  ((List.length ds =? INT_128_MAX_DIGIT_COUNT)%nat && string_gt ds (chars maxstr) = false
   <-> digits_value ds 0 <= bound).
Proof.
  intros Hd Hlen Hm Hl39 Hv Hb. unfold INT_128_MAX_DIGIT_COUNT.
  destruct (Nat.eqb_spec (List.length ds) 39) as [E | N]; cbn [andb].
  - split; intros H.
    + rewrite <- Hv. apply string_gt_false_value; try assumption. congruence.
    + apply string_gt_value; try assumption; [ congruence | rewrite Hv; exact H ].
  - split; [ intros _ | reflexivity ].
    pose proof (digits_value_bound ds Hd) as B.
    assert (10 ^ Z.of_nat (List.length ds) <= 10 ^ 38) by (apply Z.pow_le_mono_r; lia).
    lia.
Qed.

Lemma max_positive_string_digits :
  Forall is_digit (chars INT_128_MAX_POSITIVE_STRING)
  /\ List.length (chars INT_128_MAX_POSITIVE_STRING) = 39%nat.
Proof. split; [ repeat constructor | reflexivity ]. Qed.

Lemma max_negative_string_digits :
  Forall is_digit (chars INT_128_MAX_NEGATIVE_STRING)
  /\ List.length (chars INT_128_MAX_NEGATIVE_STRING) = 39%nat.
Proof. split; [ repeat constructor | reflexivity ]. Qed.

Section ParseDigits.
Variable native : bool.

(** The value [tryParse] returns for a run of digits it accepts. *)
Lemma parsed_digits (isNegative : bool) (ds : list ascii) :
  Forall is_digit ds ->
  digits_value ds 0 <= (if isNegative then 2 ^ 127 else 2 ^ 127 - 1) ->
  exists r,
    accumulate_int128 native ds (Int128_of_int64 native 0) = Some r
    /\ Int128_wf (if isNegative then Int128_neg native r else r)
    /\ Int128_value (if isNegative then Int128_neg native r else r)
       = (if isNegative then - digits_value ds 0 else digits_value ds 0).
Proof.
  intros Hd Hv.
  destruct (accumulate_int128_spec native ds (Int128_of_int64 native 0) Hd
              (Int128_of_int64_wf native 0)) as (r & Er & Hr & Hb).
  rewrite Int128_of_int64_bits, Z.mod_0_l in Hb by zlia.
  pose proof (digits_value_bound ds Hd) as [Hv0 _].
  exists r. split; [ exact Er | ].
  destruct isNegative.
  - split; [ apply Int128_neg_wf | ].
    unfold Int128_value. rewrite Int128_neg_bits, Hb by assumption.
    rewrite (Z.mod_small (digits_value ds 0)) by zlia.
    unfold i128. rewrite Z.mod_mod by lia. fold (i128 (- digits_value ds 0)).
    apply i128_small. zlia.
  - split; [ assumption | ].
    unfold Int128_value. rewrite Hb, (Z.mod_small (digits_value ds 0)) by zlia.
    apply i128_small. zlia.
Qed.

Lemma Int128_tryParse_digits (negative plus : bool) (ds : list ascii)
  (Hne : ds <> []) (Hd : Forall is_digit ds) (Hlen : (List.length ds <= 39)%nat)
  (Hv : digits_value ds 0 <= (if negative then 2 ^ 127 else 2 ^ 127 - 1)) :
  exists x,
    Int128_tryParse native
      (string_of_list_ascii
         ((if negative then chars "-" else if plus then chars "+" else []) ++ ds)%list)
    = Some x
    /\ Int128_wf x
    /\ Int128_value x = (if negative then - digits_value ds 0 else digits_value ds 0).
Proof.
  destruct (parsed_digits negative ds Hd Hv) as (r & Er & Wr & Vr).
  destruct max_positive_string_digits as [Pd Pl].
  destruct max_negative_string_digits as [Nd Nl].
  assert (Hguard : (List.length ds =? INT_128_MAX_DIGIT_COUNT)%nat
                   && (if negb negative
                       then string_gt ds (chars INT_128_MAX_POSITIVE_STRING)
                       else string_gt ds (chars INT_128_MAX_NEGATIVE_STRING)) = false).
  { destruct negative; cbn [negb].
    - apply (guard_39_digits ds _ (2 ^ 127)); try assumption.
      + apply max_negative_string_value.
      + pose proof pow10_38. lia.
    - apply (guard_39_digits ds _ (2 ^ 127 - 1)); try assumption.
      + apply max_positive_string_value.
      + pose proof pow10_38. lia. }
  assert (Hcount : (INT_128_MAX_DIGIT_COUNT <? List.length ds)%nat = false)
    by (apply Nat.ltb_ge; exact Hlen).
  destruct ds as [|c ds']; [ contradiction | ].
  destruct (digit_not_sign c (Forall_inv Hd)) as [Hm Hp].
  exists (if negative then Int128_neg native r else r).
  split; [ | split; assumption ].
  unfold Int128_tryParse, chars. rewrite list_ascii_of_string_of_list_ascii.
  destruct negative; [ | destruct plus ].
  - cbn [list_ascii_of_string app is_char Ascii.eqb Bool.eqb List.length skipn Nat.leb Nat.sub].
    fold (chars INT_128_MAX_NEGATIVE_STRING) (chars INT_128_MAX_POSITIVE_STRING).
    cbn [List.length] in Hcount, Hguard. rewrite Hcount, Hguard, Er. reflexivity.
  - cbn [list_ascii_of_string app is_char Ascii.eqb Bool.eqb List.length skipn Nat.leb Nat.sub].
    fold (chars INT_128_MAX_NEGATIVE_STRING) (chars INT_128_MAX_POSITIVE_STRING).
    cbn [List.length] in Hcount, Hguard. rewrite Hcount, Hguard, Er. reflexivity.
  - cbn [app]. rewrite Hm, Hp.
    cbn [List.length skipn Nat.leb Nat.sub].
    fold (chars INT_128_MAX_NEGATIVE_STRING) (chars INT_128_MAX_POSITIVE_STRING).
    cbn [List.length] in Hcount, Hguard. rewrite Hcount, Hguard, Er. reflexivity.
Qed.

(** X7.  [Int128::tryParse] accepts an optional sign followed by one to 39
    digits that spell a magnitude of the Int128 range, leading zeros
    included, and returns the number they denote. *)
Theorem Int128_tryParse_accepts (negative plus : bool) (ds : list ascii)
  (Hne : ds <> []) (Hd : Forall is_digit ds) (Hlen : (List.length ds <= 39)%nat)
  (Hv : digits_value ds 0 <= (if negative then 2 ^ 127 else 2 ^ 127 - 1)) :
  exists x,
    Int128_tryParse native
      (string_of_list_ascii
         ((if negative then chars "-" else if plus then chars "+" else []) ++ ds)%list)
    = Some x
    /\ Int128_wf x
    /\ Int128_value x = (if negative then - digits_value ds 0 else digits_value ds 0).
Proof. exact (Int128_tryParse_digits negative plus ds Hne Hd Hlen Hv). Qed.

(** X8.  Whatever [Int128::tryParse] accepts is an optional sign followed by
    one to 39 digits, and the result is the number they denote: the
    empty string, a lone sign, any other character, a 40th digit and a
    magnitude outside the Int128 range are all rejected. *)
Theorem Int128_tryParse_sound (str : string) (x : Int128)
  (Hparse : Int128_tryParse native str = Some x) :
  exists (negative plus : bool) (ds : list ascii),
    chars str
    = ((if negative then chars "-" else if plus then chars "+" else []) ++ ds)%list
    /\ ds <> [] /\ Forall is_digit ds /\ (List.length ds <= 39)%nat
    /\ digits_value ds 0 <= (if negative then 2 ^ 127 else 2 ^ 127 - 1)
    /\ Int128_wf x
    /\ Int128_value x = (if negative then - digits_value ds 0 else digits_value ds 0).
Proof.
  destruct max_positive_string_digits as [Pd Pl].
  destruct max_negative_string_digits as [Nd Nl].
  unfold Int128_tryParse in Hparse.
  destruct (chars str) as [|c0 rest] eqn:Es; [ discriminate | ].
  set (isNegative := if is_char c0 "-" then true else false).
  set (isPlus := if is_char c0 "-" then false else if is_char c0 "+" then true else false).
  set (ds := if is_char c0 "-" then rest else if is_char c0 "+" then rest else c0 :: rest).
  assert (Hshape : c0 :: rest
                   = ((if isNegative then chars "-" else if isPlus then chars "+" else [])
                      ++ ds)%list).
  { unfold isNegative, isPlus, ds, is_char.
    destruct (Ascii.eqb_spec c0 "-"%char) as [-> | _]; [ reflexivity | ].
    destruct (Ascii.eqb_spec c0 "+"%char) as [-> | _]; reflexivity. }
  assert (Hrest :
    (if (List.length ds =? 0)%nat then None
     else if (INT_128_MAX_DIGIT_COUNT <? List.length ds)%nat then None
     else if (List.length ds =? INT_128_MAX_DIGIT_COUNT)%nat
             && (if negb isNegative
                 then string_gt ds (chars INT_128_MAX_POSITIVE_STRING)
                 else string_gt ds (chars INT_128_MAX_NEGATIVE_STRING))
     then None
     else
       match accumulate_int128 native ds (Int128_of_int64 native 0) with
       | None => None
       | Some result => Some (if isNegative then Int128_neg native result else result)
       end) = Some x).
  { rewrite <- Hparse. unfold isNegative, ds.
    destruct (is_char c0 "-"); [ | destruct (is_char c0 "+") ];
      cbn [List.length skipn Nat.leb Nat.sub Nat.eqb];
      destruct rest; reflexivity. }
  clear Hparse. clearbody isNegative isPlus ds.
  destruct (Nat.eqb_spec (List.length ds) 0) as [|Hlen0]; [ discriminate | ].
  destruct (Nat.ltb_spec INT_128_MAX_DIGIT_COUNT (List.length ds)) as [|Hlen];
    [ discriminate | ].
  destruct ((List.length ds =? INT_128_MAX_DIGIT_COUNT)%nat
            && (if negb isNegative
                then string_gt ds (chars INT_128_MAX_POSITIVE_STRING)
                else string_gt ds (chars INT_128_MAX_NEGATIVE_STRING))) eqn:Hguard;
    [ discriminate | ].
  destruct (accumulate_int128 native ds (Int128_of_int64 native 0)) as [r|] eqn:Er;
    [ | discriminate ].
  injection Hrest as <-.
  pose proof (accumulate_int128_digits native ds _ _ Er) as Hd.
  assert (Hv : digits_value ds 0 <= (if isNegative then 2 ^ 127 else 2 ^ 127 - 1)).
  { destruct isNegative; cbn [negb] in Hguard.
    - apply (guard_39_digits ds INT_128_MAX_NEGATIVE_STRING (2 ^ 127)); try assumption.
      + apply max_negative_string_value.
      + pose proof pow10_38. lia.
    - apply (guard_39_digits ds INT_128_MAX_POSITIVE_STRING (2 ^ 127 - 1)); try assumption.
      + apply max_positive_string_value.
      + pose proof pow10_38. lia. }
  destruct (parsed_digits isNegative ds Hd Hv) as (r' & Er' & Wr & Vr).
  rewrite Er in Er'. injection Er' as <-.
  exists isNegative, isPlus, ds.
  split; [ exact Hshape | ].
  split; [ intros ->; apply Hlen0; reflexivity | ].
  split; [ exact Hd | ]. split; [ exact Hlen | ].
  split; [ exact Hv | ]. split; assumption.
Qed.

End ParseDigits.

Lemma Int128_tryParse_accepts_witness :
  exists x,
    Int128_tryParse false "-0042" = Some x /\ Int128_wf x /\ Int128_value x = - 42.
Proof.
  apply (Int128_tryParse_accepts false true false (chars "0042")).
  - discriminate.
  - repeat constructor.
  - cbn. lia.
  - vm_compute. discriminate.
Defined.

Lemma Int128_tryParse_sound_witness :
  exists (negative plus : bool) (ds : list ascii),
    chars "+17"
    = ((if negative then chars "-" else if plus then chars "+" else []) ++ ds)%list
    /\ ds <> [] /\ Forall is_digit ds /\ (List.length ds <= 39)%nat
    /\ digits_value ds 0 <= (if negative then 2 ^ 127 else 2 ^ 127 - 1)
    /\ Int128_wf (Emulated.of_int64 17)
    /\ Int128_value (Emulated.of_int64 17)
       = (if negative then - digits_value ds 0 else digits_value ds 0).
Proof.
  apply (Int128_tryParse_sound false "+17" (Emulated.of_int64 17)).
  reflexivity.
Defined.

(** *** Formatting *)

Lemma Int128_value_inj x y :
  Int128_wf x -> Int128_wf y -> Int128_value x = Int128_value y -> x = y.
Proof.
  intros Hx Hy E. apply wf_bits_inj; try assumption.
  pose proof (wf_bits_range x Hx). pose proof (wf_bits_range y Hy).
  rewrite <- (Z.mod_small (bits128 x) (2 ^ 128)), <- (Z.mod_small (bits128 y) (2 ^ 128))
    by assumption.
  rewrite <- (i128_mod (bits128 x)), <- (i128_mod (bits128 y)).
  unfold Int128_value in E. rewrite E. reflexivity.
Qed.

Section Formatting.
Variable native : bool.

Lemma Int128_isZero_bits x :
  Int128_wf x -> Int128_isZero native x = (bits128 x =? 0).
Proof.
  intros Hx.
  assert (E : Emulated.isZero x = (bits128 x =? 0)).
  { destruct x as [l u]. destruct Hx as [Hl Hu].
    unfold Emulated.isZero, bits128; cbn [lower64bits upper64bits] in *.
    destruct (Z.eqb_spec l 0); destruct (Z.eqb_spec u 0);
      destruct (Z.eqb_spec (l + 2 ^ 64 * u) 0); cbn [andb]; try reflexivity; exfalso; zlia. }
  destruct native; cbn; [ | exact E ].
  destruct (emulated_comparisons_native x x Hx Hx) as (_ & _ & _ & _ & _ & _ & <- & _).
  exact E.
Qed.

Lemma Int128_isNegative_value x :
  Int128_wf x -> Int128_isNegative native x = (Int128_value x <? 0).
Proof.
  intros Hx. destruct native; cbn; [ reflexivity | ].
  destruct (emulated_comparisons_native x x Hx Hx) as (_ & _ & _ & _ & _ & _ & _ & -> & _).
  reflexivity.
Qed.

Lemma Int128_abs_bits x :
  Int128_wf x ->
  Int128_wf (Int128_abs native x)
  /\ bits128 (Int128_abs native x) = Z.abs (Int128_value x) mod 2 ^ 128.
Proof.
  intros Hx.
  assert (E : Int128_abs native x = Native.abs x).
  { destruct native; cbn; [ reflexivity | ].
    destruct (emulated_comparisons_native x x Hx Hx) as (_ & _ & _ & _ & _ & _ & _ & _ & ->).
    reflexivity. }
  rewrite E. split; [ apply of_native_wf | ].
  unfold Native.abs. rewrite bits128_of_native.
  change (Native.toNative x) with (Int128_value x).
  destruct (Z.ltb_spec (Int128_value x) 0).
  - rewrite i128_mod. f_equal. lia.
  - f_equal. lia.
Qed.

Lemma Int128_words x :
  Int128_wf x ->
  Int128_toLow native x = lower64bits x /\ Int128_toHigh native x = upper64bits x.
Proof.
  intros Hx. destruct native; cbn; [ | split; reflexivity ].
  destruct x as [l u]. destruct Hx as [Hl Hu]. cbn [lower64bits upper64bits] in *.
  unfold Native.toLow, Native.toHigh, Native.toNative, bits128, u64, BITS_PER_UINT64;
    cbn [lower64bits upper64bits].
  rewrite Z.shiftr_div_pow2 by lia.
  unfold i128. cbv zeta. rewrite (Z.mod_small (l + 2 ^ 64 * u)) by zlia.
  destruct (Z.ltb_spec (l + 2 ^ 64 * u) (2 ^ 127)); split; zlia.
Qed.

(** One iteration of the loop of [toString]: quotient and last digit. *)
Lemma divide_by_ten t :
  Int128_wf t -> bits128 t < 2 ^ 127 ->
  exists q r,
    Int128_div native t (Int128_of_int64 native INT_128_BASE) = Ok q
    /\ Int128_rem native t (Int128_of_int64 native INT_128_BASE) = Ok r
    /\ Int128_wf q
    /\ bits128 q = bits128 t / 10
    /\ Int128_toLow native r = bits128 t mod 10.
Proof.
  intros Ht Hsmall.
  assert (Eten : Int128_of_int64 native INT_128_BASE = mkInt128 10 0)
    by (destruct native; reflexivity).
  rewrite Eten.
  assert (Wten : Int128_wf (mkInt128 10 0)) by (vm_compute; repeat split; discriminate).
  destruct (emulated_div_rem_small t (mkInt128 10 0) Ht Wten eq_refl)
    as (q & r & Hq & Hr & Wq & Wr & Bq & Br & Hnat).
  { cbn [lower64bits]. pow_consts. lia. }
  cbn [lower64bits] in Bq, Br.
  assert (Hneg : Emulated.isNegative t = false).
  { destruct t as [l u]. destruct Ht as [Hl Hu].
    unfold Emulated.isNegative, bits128 in *; cbn [lower64bits upper64bits] in *.
    rewrite i64_small by zlia. apply Z.ltb_ge. lia. }
  destruct (Hnat Hneg) as [Hqn Hrn].
  exists q, r.
  split; [ destruct native; assumption | ].
  split; [ destruct native; assumption | ].
  split; [ assumption | ]. split; [ assumption | ].
  destruct (Int128_words r Wr) as [-> _].
  destruct r as [lr ur]. destruct Wr as [Hlr Hur].
  change (bits128 (mkInt128 lr ur)) with (lr + 2 ^ 64 * ur) in Br.
  cbn [lower64bits upper64bits] in *.
  pose proof (Z.mod_pos_bound (bits128 t) 10 ltac:(lia)). zlia.
Qed.

(** The digits the loop of [toString] writes: those of [temp], with no
    leading zero, and none at all for zero. *)
Lemma toString_digits_spec n : forall t acc,
  Int128_wf t -> bits128 t < 2 ^ 127 -> bits128 t < 2 ^ Z.of_nat n ->
  exists ds,
    toString_digits native n t acc = Ok (Some (ds ++ acc)%list)
    /\ Forall is_digit ds
    /\ digits_value ds 0 = bits128 t
    /\ (bits128 t = 0 -> ds = [])
    /\ (0 < bits128 t -> 10 ^ (Z.of_nat (List.length ds) - 1) <= bits128 t).
Proof.
  induction n as [|n IH]; intros t acc Ht Hsmall Hfuel;
    pose proof (wf_bits_range t Ht) as R.
  - assert (E : bits128 t = 0) by (cbn in Hfuel; lia).
    exists []. cbn [toString_digits]. rewrite Int128_isZero_bits, E by assumption.
    cbn. repeat split; try constructor; lia.
  - cbn [toString_digits]. rewrite Int128_isZero_bits by assumption.
    destruct (Z.eqb_spec (bits128 t) 0) as [E | N].
    { exists []. rewrite E. cbn. repeat split; try constructor; lia. }
    destruct (divide_by_ten t Ht Hsmall) as (q & r & -> & -> & Wq & Bq & Lr).
    cbn [bind]. rewrite Lr.
    assert (Hq1 : bits128 q < 2 ^ 127) by (rewrite Bq; zlia).
    assert (Hq2 : bits128 q < 2 ^ Z.of_nat n).
    { rewrite Bq. rewrite Nat2Z.inj_succ, Z.pow_succ_r in Hfuel by lia.
      generalize dependent (2 ^ Z.of_nat n). intros. zlia. }
    destruct (IH q (digit_char (bits128 t mod 10) :: acc) Wq Hq1 Hq2)
      as (ds & E & Hd & Hv & Hz & Hl).
    rewrite E.
    exists (ds ++ [digit_char (bits128 t mod 10)])%list.
    split; [ rewrite <- app_assoc; reflexivity | ].
    split; [ apply Forall_app; split;
             [ assumption | repeat constructor; apply digit_char_is_digit; zlia ] | ].
    split; [ rewrite digits_value_app; cbn [digits_value];
             rewrite Hv, Bq, code_digit_char by zlia; zlia | ].
    split; [ lia | ]. intros _.
    rewrite length_app. cbn [List.length].
    destruct (Z.eq_dec (bits128 q) 0) as [Eq0 | Nq0].
    + rewrite (Hz Eq0). cbn. lia.
    + assert (Hq0 : 0 < bits128 q) by (rewrite Bq in *; zlia).
      specialize (Hl Hq0).
      replace (Z.of_nat (List.length ds + 1) - 1)
        with (Z.succ (Z.of_nat (List.length ds) - 1)) by lia.
      assert (0 < List.length ds)%nat.
      { destruct ds; [ cbn in Hv; lia | cbn; lia ]. }
      rewrite Z.pow_succ_r by lia. rewrite Bq in Hl. zlia.
Qed.

(** X9.  [Int128::toString] returns for every value, and [Int128::tryParse]
    reads the string back as the same value: the minimum value, whose
    magnitude is not an Int128, included. *)
Theorem Int128_toString_round_trip (x : Int128) (Hx : Int128_wf x) :
  exists s,
    Int128_toString native x = Ok (Some s)
    /\ Int128_tryParse native s = Some x.
Proof.
  pose proof (wf_bits_range x Hx) as R.
  unfold Int128_toString. rewrite Int128_isZero_bits by assumption.
  destruct (Int128_words x Hx) as [-> ->].
  assert (Hback : forall (negative : bool) (ds : list ascii),
            ds <> [] -> Forall is_digit ds -> (List.length ds <= 39)%nat ->
            digits_value ds 0 <= (if negative then 2 ^ 127 else 2 ^ 127 - 1) ->
            Int128_value x = (if negative then - digits_value ds 0 else digits_value ds 0) ->
            Int128_tryParse native
              (string_of_list_ascii ((if negative then chars "-" else []) ++ ds)%list)
            = Some x).
  { intros negative ds Hne Hd Hlen Hv Hval.
    destruct (Int128_tryParse_digits native negative false ds Hne Hd Hlen Hv)
      as (y & Ey & Wy & Vy).
    rewrite Ey. f_equal. apply Int128_value_inj; try assumption. congruence. }
  destruct (Z.eqb_spec (bits128 x) 0) as [E0 | N0].
  - (* zero *)
    exists "0". split; [ reflexivity | ].
    apply (Hback false (chars "0")).
    + discriminate.
    + repeat constructor.
    + cbn. lia.
    + vm_compute. discriminate.
    + unfold Int128_value. rewrite E0. reflexivity.
  - destruct ((upper64bits x =? INT_128_MIN_NEGATIVE_HIGH)
              && (lower64bits x =? INT_128_MIN_NEGATIVE_LOW)) eqn:Hmin.
    + (* the minimum value *)
      apply andb_prop in Hmin. destruct Hmin as [Hu Hl]. apply Z.eqb_eq in Hu, Hl.
      exists (String "-" INT_128_MAX_NEGATIVE_STRING). split; [ reflexivity | ].
      destruct max_negative_string_digits as [Nd Nl].
      apply (Hback true (chars INT_128_MAX_NEGATIVE_STRING)).
      * discriminate.
      * exact Nd.
      * rewrite Nl. lia.
      * rewrite max_negative_string_value. lia.
      * rewrite max_negative_string_value.
        unfold Int128_value, bits128. rewrite Hu, Hl. reflexivity.
    + (* every other value: the digits of the magnitude *)
      assert (Hnotmin : bits128 x <> 2 ^ 127).
      { intros C. destruct x as [l u]. destruct Hx as [Hl Hu].
        unfold bits128 in C; cbn [lower64bits upper64bits] in *.
        assert (u = INT_128_MIN_NEGATIVE_HIGH) by (unfold INT_128_MIN_NEGATIVE_HIGH; zlia).
        assert (l = INT_128_MIN_NEGATIVE_LOW) by (unfold INT_128_MIN_NEGATIVE_LOW; zlia).
        subst. discriminate Hmin. }
      pose proof (i128_range (bits128 x)) as Rv. fold (Int128_value x) in Rv.
      assert (Hv : Int128_value x <> - 2 ^ 127 /\ Int128_value x <> 0).
      { unfold Int128_value, i128 in *. cbv zeta in *.
        rewrite (Z.mod_small (bits128 x)) in * by lia.
        destruct (Z.ltb_spec (bits128 x) (2 ^ 127)); split; zlia. }
      destruct (Int128_abs_bits x Hx) as [Wa Ba].
      rewrite Z.mod_small in Ba by zlia.
      destruct (toString_digits_spec (S INT_128_MAX_BIT_INDEX) (Int128_abs native x) [] Wa)
        as (ds & E & Hd & Hval & _ & Hl).
      { rewrite Ba. zlia. }
      { rewrite Ba. change (2 ^ Z.of_nat (S INT_128_MAX_BIT_INDEX)) with (2 ^ 128). zlia. }
      rewrite E. cbn [bind]. rewrite app_nil_r.
      rewrite Int128_isNegative_value by assumption.
      rewrite Ba in Hval, Hl.
      assert (Hne : ds <> []) by (intros ->; cbn in Hval; lia).
      assert (Hlen : (List.length ds <= 39)%nat).
      { apply (digits_length_bound ds (Z.abs (Int128_value x))).
        - assert (2 ^ 127 < 10 ^ 39) by (vm_compute; reflexivity). lia.
        - right. apply Hl. lia. }
      eexists. split; [ reflexivity | ].
      replace (if Int128_value x <? 0 then "-"%char :: ds else ds)
        with ((if Int128_value x <? 0 then chars "-" else []) ++ ds)%list
        by (destruct (Int128_value x <? 0); reflexivity).
      apply Hback; try assumption.
      * rewrite Hval. destruct (Z.ltb_spec (Int128_value x) 0); zlia.
      * rewrite Hval. destruct (Z.ltb_spec (Int128_value x) 0); lia.
Qed.

End Formatting.

Lemma Int128_toString_round_trip_witness :
  exists s,
    Int128_toString false (Emulated.of_int64 (-1234567890123)) = Ok (Some s)
    /\ Int128_tryParse false s = Some (Emulated.of_int64 (-1234567890123)).
Proof.
  apply (Int128_toString_round_trip false (Emulated.of_int64 (-1234567890123))).
  vm_compute; repeat split; discriminate.
Defined.

(* ================================================================== *)
(** * Further properties of Decimal *)

(** ** The layout: flags and mantissa *)

(** A case analysis on a scale between 0 and 28. *)
Lemma scale_cases (P : Z -> Prop) :
  Forall P (map Z.of_nat (seq 0 29)) -> forall s, 0 <= s <= 28 -> P s.
Proof.
  intros H s Hs. rewrite Forall_forall in H. apply H.
  apply in_map_iff. exists (Z.to_nat s). split; [ lia | ].
  apply in_seq. lia.
Qed.

Ltac each_scale s :=
  pattern s; apply scale_cases; [ repeat constructor | assumption || lia ].

(** The flags word of a given sign and scale. *)
Lemma flags_fields (neg : bool) (s : Z) (m0 m1 m2 : Z) :
  0 <= s <= 28 ->
  let fl := Z.lor (if neg then DECIMAL_SIGN_MASK else 0) (Z.shiftl s DECIMAL_SCALE_SHIFT) in
  scale (mkDecimal fl m0 m1 m2) = s /\ isNegative (mkDecimal fl m0 m1 m2) = neg.
Proof.
  intros Hs. cbv zeta. unfold scale, isNegative. cbn [flags].
  split.
  - destruct neg; each_scale s.
  - destruct neg; each_scale s.
Qed.

(** Replacing the scale of a valid value. *)
Lemma with_scale_fields (d : Decimal) (s : Z) :
  Decimal_wf d -> 0 <= s <= 28 ->
  let d' := set_flags d (with_scale (flags d) s) in
  Decimal_wf d' /\ scale d' = s /\ isNegative d' = isNegative d
  /\ mantissa_value d' = mantissa_value d.
Proof.
  intros Hd Hs. cbv zeta.
  assert (E : with_scale (flags d) s
              = Z.lor (if isNegative d then DECIMAL_SIGN_MASK else 0)
                      (Z.shiftl s DECIMAL_SCALE_SHIFT)).
  { unfold with_scale. rewrite (flags_without_scale d Hd). f_equal.
    each_scale s. }
  rewrite E. unfold set_flags.
  destruct (flags_fields (isNegative d) s (mantissa0 d) (mantissa1 d) (mantissa2 d) Hs)
    as [Es En].
  destruct Hd as (_ & _ & H0 & H1 & H2).
  split; [ | split; [ exact Es | split; [ exact En | reflexivity ] ] ].
  unfold Decimal_wf. rewrite Es, En. cbn [flags mantissa0 mantissa1 mantissa2].
  unfold DECIMAL_MAXIMUM_PLACES. repeat split; try reflexivity; lia.
Qed.

Lemma mantissa_value_range d :
  Decimal_wf d -> 0 <= mantissa_value d < 2 ^ 96.
Proof.
  intros (_ & _ & H0 & H1 & H2). unfold mantissa_value.
  change (2 ^ 96) with 79228162514264337593543950336. zlia.
Qed.

Lemma lor_disjoint_add hi lo n :
  0 <= n -> 0 <= lo < 2 ^ n -> 0 <= hi ->
  Z.lor (Z.shiftl hi n) lo = hi * 2 ^ n + lo.
Proof.
  intros Hn Hlo Hhi.
  rewrite Z.shiftl_mul_pow2 by lia.
  rewrite <- Z.lxor_lor, <- Z.add_nocarry_lxor; try reflexivity.
  - apply Z.bits_inj'. intros k Hk. rewrite Z.land_spec, Z.bits_0.
    destruct (Z.lt_ge_cases k n) as [Hlt | Hge].
    + rewrite Z.mul_pow2_bits_low by lia. reflexivity.
    + destruct (Z.eq_dec lo 0) as [-> | Hnz]; [ rewrite Z.bits_0; apply andb_false_r | ].
      rewrite (Z.bits_above_log2 lo k); [ apply andb_false_r | lia | ].
      apply Z.log2_lt_pow2; [ lia | ].
      eapply Z.lt_le_trans; [ apply Hlo | apply Z.pow_le_mono_r; lia ].
  - apply Z.bits_inj'. intros k Hk. rewrite Z.land_spec, Z.bits_0.
    destruct (Z.lt_ge_cases k n) as [Hlt | Hge].
    + rewrite Z.mul_pow2_bits_low by lia. reflexivity.
    + destruct (Z.eq_dec lo 0) as [-> | Hnz]; [ rewrite Z.bits_0; apply andb_false_r | ].
      rewrite (Z.bits_above_log2 lo k); [ apply andb_false_r | lia | ].
      apply Z.log2_lt_pow2; [ lia | ].
      eapply Z.lt_le_trans; [ apply Hlo | apply Z.pow_le_mono_r; lia ].
Qed.

Section Mantissa.
Variable native : bool.

(** [mantissaAsInt128] reads the three words as one number. *)
Lemma mantissaAsInt128_bits d :
  Decimal_wf d -> bits128 (mantissaAsInt128 native d) = mantissa_value d.
Proof.
  intros Hd. pose proof (mantissa_value_range d Hd) as R.
  destruct Hd as (_ & _ & H0 & H1 & H2).
  unfold mantissa_value in *. unfold mantissaAsInt128, BITS_PER_UINT64, BITS_PER_UINT32.
  destruct native.
  - rewrite bits128_of_native.
    rewrite (Z.shiftl_mul_pow2 (mantissa2 d)) by lia.
    replace (Z.lor (mantissa2 d * 2 ^ 64) (Z.shiftl (mantissa1 d) 32))
      with (Z.shiftl (mantissa2 d * 2 ^ 32 + mantissa1 d) 32).
    2:{ rewrite <- (lor_disjoint_add (mantissa2 d) (mantissa1 d) 32) by lia.
        rewrite Z.shiftl_lor, Z.shiftl_shiftl by lia. 
        rewrite (Z.shiftl_mul_pow2 (mantissa2 d)) by lia. reflexivity. }
    rewrite lor_disjoint_add by zlia.
    change (2 ^ 96) with 79228162514264337593543950336 in R. zlia.
  - unfold Emulated.of_words, bits128, u64; cbn [lower64bits upper64bits].
    rewrite Z.shiftl_mul_pow2 by lia.
    rewrite (Z.mod_small (mantissa1 d * 2 ^ 32)) by zlia.
    rewrite <- Z.shiftl_mul_pow2 by lia.
    rewrite lor_disjoint_add by lia. zlia.
Qed.

(** [setMantissa] stores the low 96 bits of its argument. *)
Lemma setMantissa_fields d v :
  Int128_wf v ->
  flags (setMantissa native d v) = flags d
  /\ 0 <= mantissa0 (setMantissa native d v) < 2 ^ 32
  /\ 0 <= mantissa1 (setMantissa native d v) < 2 ^ 32
  /\ 0 <= mantissa2 (setMantissa native d v) < 2 ^ 32
  /\ mantissa_value (setMantissa native d v) = bits128 v mod 2 ^ 96.
Proof.
  intros Hv. pose proof (wf_bits_range v Hv) as R.
  change (2 ^ 96) with 79228162514264337593543950336.
  unfold setMantissa, mantissa_value, BITS_PER_UINT64, BITS_PER_UINT32, u32.
  destruct native; cbn [flags mantissa0 mantissa1 mantissa2].
  - rewrite !Z.shiftr_div_pow2 by lia.
    pose proof (toNative_mod v) as E. rewrite (Z.mod_small (bits128 v)) in E by lia.
    generalize dependent (Native.toNative v). intros n E.
    repeat split; try zlia.
  - destruct v as [l u]. destruct Hv as [Hl Hu].
    unfold Emulated.toLow, Emulated.toHigh, bits128 in *; cbn [lower64bits upper64bits] in *.
    rewrite !Z.shiftr_div_pow2 by lia.
    repeat split; try zlia.
Qed.

Lemma setMantissa_wf d v :
  Decimal_wf d -> Int128_wf v -> Decimal_wf (setMantissa native d v).
Proof.
  intros Hd Hv. destruct (setMantissa_fields d v Hv) as (Hf & H0 & H1 & H2 & _).
  destruct Hd as (Ef & Es & _).
  unfold Decimal_wf, scale, isNegative in *. rewrite Hf.
  repeat split; try assumption; lia.
Qed.

Lemma mantissa_words_round_trip (d : Decimal) (v : Int128)
  (Hd : Decimal_wf d) (Hv : Int128_wf v) (Hfit : bits128 v < 2 ^ 96) :
  mantissaAsInt128 native (setMantissa native d v) = v
  /\ setMantissa native d (mantissaAsInt128 native d) = d.
Proof.
  pose proof (wf_bits_range v Hv) as R.
  split.
  - apply wf_bits_inj; [ apply mantissaAsInt128_wf; apply setMantissa_wf; assumption
                       | assumption | ].
    rewrite mantissaAsInt128_bits by (apply setMantissa_wf; assumption).
    destruct (setMantissa_fields d v Hv) as (_ & _ & _ & _ & ->).
    apply Z.mod_small. lia.
  - pose proof (mantissaAsInt128_wf native d Hd) as Wm.
    destruct (setMantissa_fields d (mantissaAsInt128 native d) Wm) as (Ef & R0 & R1 & R2 & Ev).
    rewrite mantissaAsInt128_bits in Ev by assumption.
    pose proof (mantissa_value_range d Hd) as Rd.
    rewrite Z.mod_small in Ev by assumption.
    destruct Hd as (_ & _ & H0 & H1 & H2).
    destruct (setMantissa native d (mantissaAsInt128 native d)) as [f' a0 a1 a2].
    destruct d as [f b0 b1 b2].
    unfold mantissa_value in Ev. cbn [flags mantissa0 mantissa1 mantissa2] in *.
    subst f'. f_equal; zlia.
Qed.

(** X10.  [setMantissa] and [mantissaAsInt128] are inverse to each other on
    the values of 96 bits. *)
Theorem mantissa_round_trip (d : Decimal) (v : Int128)
  (Hd : Decimal_wf d) (Hv : Int128_wf v) (Hfit : bits128 v < 2 ^ 96) :
  mantissaAsInt128 native (setMantissa native d v) = v
  /\ setMantissa native d (mantissaAsInt128 native d) = d.
Proof. exact (mantissa_words_round_trip d v Hd Hv Hfit). Qed.

End Mantissa.

Lemma mantissa_round_trip_witness :
  mantissaAsInt128 false (setMantissa false (mkDecimal 0x80030000 1 2 3)
                            (Emulated.of_words 12345678901234567890 77))
  = Emulated.of_words 12345678901234567890 77
  /\ setMantissa false (mkDecimal 0x80030000 1 2 3)
       (mantissaAsInt128 false (mkDecimal 0x80030000 1 2 3))
     = mkDecimal 0x80030000 1 2 3.
Proof.
  apply (mantissa_round_trip false (mkDecimal 0x80030000 1 2 3)
           (Emulated.of_words 12345678901234567890 77)).
  - vm_compute. repeat split; discriminate.
  - vm_compute. repeat split; discriminate.
  - vm_compute. reflexivity.
Defined.

(** ** Powers of ten *)

Ltac each_scale_by s tac :=
  pattern s; apply scale_cases;
  [ repeat (apply Forall_cons; [ tac | ]); apply Forall_nil | assumption || lia ].

Section PowersOfTen.
Variable native : bool.

Lemma iterated_times_ten (n : nat) :
  let r := Nat.iter n (fun result => Int128_mul native result
                                       (Int128_of_uint64 native DECIMAL_BASE))
             (Int128_of_int64 native 1) in
  Int128_wf r /\ bits128 r = 10 ^ Z.of_nat n mod 2 ^ 128.
Proof.
  cbv zeta. unfold Nat.iter. induction n as [|n [Wn Bn]].
  - cbn [nat_rect]. split; [ apply Int128_of_int64_wf | ].
    rewrite Int128_of_int64_bits by zlia. reflexivity.
  - cbn [nat_rect]. split; [ apply Int128_mul_wf | ].
    rewrite Int128_mul_bits, Bn, Int128_of_uint64_bits;
      try assumption; try apply Int128_of_uint64_wf; try (unfold DECIMAL_BASE; zlia).
    rewrite Nat2Z.inj_succ, Z.pow_succ_r by lia.
    unfold DECIMAL_BASE. rewrite Z.mul_mod_idemp_l by lia. f_equal. ring.
Qed.

Lemma getPowerOf10_bits (power : Z) (Hpower : 0 <= power) :
  Int128_wf (getPowerOf10 native power)
  /\ bits128 (getPowerOf10 native power) = 10 ^ power mod 2 ^ 128
  /\ (power <= 38 -> bits128 (getPowerOf10 native power) = 10 ^ power).
Proof.
  assert (Hmain : Int128_wf (getPowerOf10 native power)
                  /\ bits128 (getPowerOf10 native power) = 10 ^ power mod 2 ^ 128).
  { destruct (Z.le_gt_cases power 28) as [Hle | Hgt].
    - assert (Hr : 0 <= power <= 28) by lia. clear Hpower Hle.
      destruct native;
        each_scale_by power ltac:(vm_compute; repeat split; discriminate || reflexivity).
    - unfold getPowerOf10.
      replace (power <? DECIMAL_POWER_TABLE_SIZE) with false
        by (symmetry; apply Z.ltb_ge; unfold DECIMAL_POWER_TABLE_SIZE; lia).
      replace (power <=? DECIMAL_EXTENDED_POWER_MAX) with false
        by (symmetry; apply Z.leb_gt; unfold DECIMAL_EXTENDED_POWER_MAX; lia).
      rewrite andb_false_r. cbn [andb].
      pose proof (iterated_times_ten (Z.to_nat power)) as H. cbv zeta in H.
      rewrite Z2Nat.id in H by lia. exact H. }
  destruct Hmain as [W B]. split; [ exact W | split; [ exact B | ] ].
  intros H38. rewrite B. apply Z.mod_small. split; [ apply Z.pow_nonneg; lia | ].
  apply Z.le_lt_trans with (10 ^ 38); [ apply Z.pow_le_mono_r; lia | ].
  vm_compute. reflexivity.
Qed.

(** X11.  [getPowerOf10] returns the power of ten, from both of its tables
    and from its loop: 10^power for every power up to 38, the largest
    that fits 128 bits, and 10^power modulo 2^128 above. *)
Theorem getPowerOf10_is_power (power : Z) (Hpower : 0 <= power) :
  Int128_wf (getPowerOf10 native power)
  /\ bits128 (getPowerOf10 native power) = 10 ^ power mod 2 ^ 128
  /\ (power <= 38 -> bits128 (getPowerOf10 native power) = 10 ^ power).
Proof. exact (getPowerOf10_bits power Hpower). Qed.

End PowersOfTen.

Lemma getPowerOf10_is_power_witness :
  Int128_wf (getPowerOf10 false 23)
  /\ bits128 (getPowerOf10 false 23) = 10 ^ 23 mod 2 ^ 128
  /\ (23 <= 38 -> bits128 (getPowerOf10 false 23) = 10 ^ 23).
Proof.
  apply (getPowerOf10_is_power false 23). lia.
Defined.

(** ** Removing trailing zeros *)

Section Normalize.
Variable native : bool.

Lemma ten_words :
  Int128_of_uint64 native DECIMAL_BASE = mkInt128 10 0
  /\ getPowerOf10 native 1 = mkInt128 10 0
  /\ Int128_of_int64 native 0 = mkInt128 0 0.
Proof. destruct native; repeat split; reflexivity. Qed.

Lemma Int128_eqb_bits x y :
  Int128_wf x -> Int128_wf y -> Int128_eqb native x y = (bits128 x =? bits128 y).
Proof.
  intros Hx Hy.
  destruct native; cbn; [ | apply emulated_eqb_bits; assumption ].
  destruct (emulated_comparisons_native x y Hx Hy) as (<- & _).
  apply emulated_eqb_bits; assumption.
Qed.

(** Mantissa, last digit and quotient by ten of a valid value. *)
Lemma mantissa_div_ten d :
  Decimal_wf d ->
  exists q r,
    Int128_div native (mantissaAsInt128 native d) (mkInt128 10 0) = Ok q
    /\ Int128_rem native (mantissaAsInt128 native d) (mkInt128 10 0) = Ok r
    /\ Int128_wf q /\ Int128_wf r
    /\ bits128 q = mantissa_value d / 10
    /\ bits128 r = mantissa_value d mod 10.
Proof.
  intros Hd. pose proof (mantissa_value_range d Hd) as R.
  rewrite <- (mantissaAsInt128_bits native d Hd) in *.
  apply (Int128_div_rem_small native (mantissaAsInt128 native d) (mkInt128 10 0)).
  - apply mantissaAsInt128_wf. assumption.
  - eapply Z.lt_trans; [ apply R | reflexivity ].
  - vm_compute. repeat split; discriminate.
  - reflexivity.
  - cbn [lower64bits]. pow_consts. lia.
Qed.

Lemma divideByPowerOf10_one d :
  Decimal_wf d ->
  exists d',
    divideByPowerOf10 native d 1 = Ok d'
    /\ Decimal_wf d' /\ flags d' = flags d
    /\ mantissa_value d' = mantissa_value d / 10.
Proof.
  intros Hd. pose proof (mantissa_value_range d Hd) as R.
  destruct (mantissa_div_ten d Hd) as (q & r & Eq & _ & Wq & _ & Bq & _).
  destruct ten_words as (_ & E10 & _).
  unfold divideByPowerOf10. rewrite E10, Eq. cbn [bind].
  exists (setMantissa native d q). split; [ reflexivity | ].
  destruct (setMantissa_fields native d q Wq) as (Ef & _ & _ & _ & Ev).
  split; [ apply setMantissa_wf; assumption | ]. split; [ exact Ef | ].
  rewrite Ev, Bq. apply Z.mod_small. zlia.
Qed.

(** The loop of [normalize]: [n] bounds the scale. *)
Lemma normalize_loop_spec (n : nat) : forall d,
  Decimal_wf d -> scale d <= Z.of_nat n ->
  exists d',
    normalize_loop native n d = Ok d'
    /\ Decimal_wf d'
    /\ isNegative d' = isNegative d
    /\ scale d' <= scale d
    /\ mantissa_value d = mantissa_value d' * 10 ^ (scale d - scale d')
    /\ (scale d' = 0 \/ mantissa_value d' mod 10 <> 0).
Proof.
  induction n as [|n IH]; intros d Hd Hn; pose proof (scale_range d) as Rs.
  - exists d. cbn [normalize_loop]. split; [ reflexivity | ].
    split; [ assumption | ]. split; [ reflexivity | ]. split; [ lia | ].
    split; [ rewrite Z.sub_diag; cbn; lia | left; lia ].
  - cbn [normalize_loop]. rewrite Z.gtb_ltb.
    destruct (Z.ltb_spec 0 (scale d)) as [Hpos | Hz].
    2:{ exists d. split; [ reflexivity | ].
        split; [ assumption | ]. split; [ reflexivity | ]. split; [ lia | ].
        split; [ rewrite Z.sub_diag; cbn; lia | left; lia ]. }
    destruct (mantissa_div_ten d Hd) as (q & r & _ & Er & _ & Wr & _ & Br).
    destruct ten_words as (E10 & _ & E0).
    rewrite E10, Er, E0. cbn [bind].
    rewrite Int128_eqb_bits by (assumption || (vm_compute; repeat split; discriminate)).
    rewrite Br. change (bits128 (mkInt128 0 0)) with 0.
    destruct (Z.eqb_spec (mantissa_value d mod 10) 0) as [Ediv | Ndiv].
    2:{ exists d. split; [ reflexivity | ].
        split; [ assumption | ]. split; [ reflexivity | ]. split; [ lia | ].
        split; [ rewrite Z.sub_diag; cbn; lia | right; assumption ]. }
    destruct (divideByPowerOf10_one d Hd) as (d1 & -> & W1 & F1 & V1). cbn [bind].
    assert (Es1 : scale d1 = scale d) by (unfold scale; rewrite F1; reflexivity).
    assert (En1 : isNegative d1 = isNegative d) by (unfold isNegative; rewrite F1; reflexivity).
    assert (Hs28 : scale d <= 28) by (destruct Hd as (_ & H & _); exact H).
    destruct (with_scale_fields d1 (scale d1 - 1) W1 ltac:(lia)) as (W2 & Es2 & En2 & V2).
    destruct (IH _ W2 ltac:(lia)) as (d' & E & W' & En' & Hs' & Hv' & Hnorm).
    exists d'. split; [ exact E | ]. split; [ exact W' | ].
    split; [ congruence | ]. split; [ lia | ]. split; [ | exact Hnorm ].
    rewrite V2, V1, Es2, Es1 in Hv'.
    replace (scale d - scale d') with (Z.succ (scale d - 1 - scale d')) by lia.
    rewrite Z.pow_succ_r by lia.
    rewrite Z.mul_assoc, (Z.mul_comm (mantissa_value d')), <- Z.mul_assoc, <- Hv'.
    zlia.
Qed.

Lemma normalize_spec (d : Decimal) (Hd : Decimal_wf d) :
  exists d',
    normalize native d = Ok d'
    /\ Decimal_wf d'
    /\ isNegative d' = isNegative d
    /\ scale d' <= scale d
    /\ mantissa_value d = mantissa_value d' * 10 ^ (scale d - scale d')
    /\ (scale d' = 0 \/ mantissa_value d' mod 10 <> 0).
Proof.
  unfold normalize. apply normalize_loop_spec; [ assumption | ].
  pose proof (scale_range d). lia.
Qed.

(** X12.  [normalize] strips the trailing zeros of the mantissa and lowers
    the scale by their number: the number denoted and the sign stay,
    and afterwards the scale is 0 or the last digit is not 0. *)
Theorem normalize_strips_trailing_zeros (d : Decimal) (Hd : Decimal_wf d) :
  exists d',
    normalize native d = Ok d'
    /\ Decimal_wf d'
    /\ isNegative d' = isNegative d
    /\ scale d' <= scale d
    /\ mantissa_value d = mantissa_value d' * 10 ^ (scale d - scale d')
    /\ (scale d' = 0 \/ mantissa_value d' mod 10 <> 0).
Proof. exact (normalize_spec d Hd). Qed.

End Normalize.

Lemma normalize_strips_trailing_zeros_witness :
  exists d',
    normalize false (mkDecimal 0x80050000 1200 0 0) = Ok d'
    /\ Decimal_wf d'
    /\ isNegative d' = isNegative (mkDecimal 0x80050000 1200 0 0)
    /\ scale d' <= scale (mkDecimal 0x80050000 1200 0 0)
    /\ mantissa_value (mkDecimal 0x80050000 1200 0 0)
       = mantissa_value d' * 10 ^ (scale (mkDecimal 0x80050000 1200 0 0) - scale d')
    /\ (scale d' = 0 \/ mantissa_value d' mod 10 <> 0).
Proof.
  apply (normalize_strips_trailing_zeros false (mkDecimal 0x80050000 1200 0 0)).
  vm_compute. repeat split; discriminate.
Defined.

(** ** Arithmetic and comparison of Decimal values *)

Lemma isZero_value d :
  Decimal_wf d -> isZero d = (mantissa_value d =? 0).
Proof.
  intros (_ & _ & H0 & H1 & H2). unfold isZero, mantissa_value.
  destruct (Z.eqb_spec (mantissa0 d) 0); destruct (Z.eqb_spec (mantissa1 d) 0);
    destruct (Z.eqb_spec (mantissa2 d) 0);
    destruct (Z.eqb_spec (mantissa0 d + 2 ^ 32 * mantissa1 d + 2 ^ 64 * mantissa2 d) 0);
    cbn [andb]; try reflexivity; exfalso; zlia.
Qed.

(** Setting the sign bit of a valid value. *)
Lemma set_sign_if_fields (c : bool) (d : Decimal) :
  Decimal_wf d ->
  Decimal_wf (set_sign_if c d)
  /\ scale (set_sign_if c d) = scale d
  /\ isNegative (set_sign_if c d) = (c || isNegative d)
  /\ mantissa_value (set_sign_if c d) = mantissa_value d.
Proof.
  intros Hd. destruct c; cbn [set_sign_if orb]; [ | split; [ exact Hd | repeat split ] ].
  destruct Hd as (Ef & Es & H0 & H1 & H2). pose proof (scale_range d) as Rs.
  unfold DECIMAL_MAXIMUM_PLACES in Es.
  assert (E : Z.lor (flags d) DECIMAL_SIGN_MASK
              = Z.lor DECIMAL_SIGN_MASK (Z.shiftl (scale d) DECIMAL_SCALE_SHIFT)).
  { rewrite Ef at 1. generalize (isNegative d). intros neg.
    assert (Hr : 0 <= scale d <= 28) by lia. clear Ef Es Rs.
    generalize dependent (scale d). intros s Hr.
    destruct neg; each_scale s. }
  unfold set_flags. rewrite E.
  destruct (flags_fields true (scale d) (mantissa0 d) (mantissa1 d) (mantissa2 d)
              ltac:(lia)) as [Es' En'].
  cbv zeta in Es', En'.
  split; [ | split; [ exact Es' | split; [ exact En' | reflexivity ] ] ].
  unfold Decimal_wf. rewrite Es', En'. cbn [flags mantissa0 mantissa1 mantissa2].
  unfold DECIMAL_MAXIMUM_PLACES. repeat split; try reflexivity; lia.
Qed.

(** Flipping the sign bit of a valid value. *)
Lemma Decimal_neg_fields (d : Decimal) :
  Decimal_wf d ->
  Decimal_wf (Decimal_neg d)
  /\ scale (Decimal_neg d) = scale d
  /\ isNegative (Decimal_neg d) = negb (isNegative d)
  /\ mantissa_value (Decimal_neg d) = mantissa_value d.
Proof.
  intros Hd.
  destruct Hd as (Ef & Es & H0 & H1 & H2). pose proof (scale_range d) as Rs.
  unfold DECIMAL_MAXIMUM_PLACES in Es.
  assert (E : Z.lxor (flags d) DECIMAL_SIGN_MASK
              = Z.lor (if negb (isNegative d) then DECIMAL_SIGN_MASK else 0)
                      (Z.shiftl (scale d) DECIMAL_SCALE_SHIFT)).
  { rewrite Ef at 1. generalize (isNegative d). intros neg.
    assert (Hr : 0 <= scale d <= 28) by lia. clear Ef Es Rs.
    generalize dependent (scale d). intros s Hr.
    destruct neg; each_scale s. }
  unfold Decimal_neg, set_flags. rewrite E.
  destruct (flags_fields (negb (isNegative d)) (scale d)
              (mantissa0 d) (mantissa1 d) (mantissa2 d) ltac:(lia)) as [Es' En'].
  cbv zeta in Es', En'.
  split; [ | split; [ exact Es' | split; [ exact En' | reflexivity ] ] ].
  unfold Decimal_wf. rewrite Es', En'. cbn [flags mantissa0 mantissa1 mantissa2].
  unfold DECIMAL_MAXIMUM_PLACES. repeat split; try reflexivity; lia.
Qed.

(** A value under construction: sign and scale written to the flags of
    a mantissa already set. *)
Lemma result_flags_fields (neg : bool) (s : Z) (d : Decimal) :
  0 <= s <= 28 ->
  0 <= mantissa0 d < 2 ^ 32 -> 0 <= mantissa1 d < 2 ^ 32 -> 0 <= mantissa2 d < 2 ^ 32 ->
  let d' := set_flags d (Z.lor (if neg then DECIMAL_SIGN_MASK else 0)
                               (u32 (Z.shiftl s DECIMAL_SCALE_SHIFT))) in
  Decimal_wf d' /\ scale d' = s /\ isNegative d' = neg
  /\ mantissa_value d' = mantissa_value d.
Proof.
  intros Hs H0 H1 H2. cbv zeta.
  assert (E : u32 (Z.shiftl s DECIMAL_SCALE_SHIFT) = Z.shiftl s DECIMAL_SCALE_SHIFT)
    by each_scale s.
  rewrite E. unfold set_flags.
  destruct (flags_fields neg s (mantissa0 d) (mantissa1 d) (mantissa2 d) Hs) as [Es En].
  cbv zeta in Es, En.
  split; [ | split; [ exact Es | split; [ exact En | reflexivity ] ] ].
  unfold Decimal_wf. rewrite Es, En. cbn [flags mantissa0 mantissa1 mantissa2].
  unfold DECIMAL_MAXIMUM_PLACES. repeat split; try reflexivity; lia.
Qed.

Section Operations.
Variable native : bool.

Lemma Int128_order_bits x y :
  Int128_wf x -> Int128_wf y -> bits128 x < 2 ^ 127 -> bits128 y < 2 ^ 127 ->
  Int128_ltb native x y = (bits128 x <? bits128 y)
  /\ Int128_gtb native x y = (bits128 y <? bits128 x).
Proof.
  intros Hx Hy Bx By.
  pose proof (wf_bits_range x Hx). pose proof (wf_bits_range y Hy).
  assert (E : Native.toNative x = bits128 x /\ Native.toNative y = bits128 y).
  { unfold Native.toNative. rewrite !i128_small by (pow_consts; lia). split; reflexivity. }
  destruct E as [Ex Ey].
  destruct (emulated_comparisons_native x y Hx Hy) as (_ & _ & Hlt & _ & Hgt & _).
  destruct native; cbn; [ | rewrite Hlt, Hgt ];
    unfold Native.ltb, Native.gtb; rewrite Ex, Ey, Z.gtb_ltb; split; reflexivity.
Qed.

Lemma Int128_mul_comm x y :
  Int128_wf x -> Int128_wf y -> Int128_mul native x y = Int128_mul native y x.
Proof.
  intros Hx Hy. apply wf_bits_inj; try apply Int128_mul_wf.
  rewrite !Int128_mul_bits by assumption. f_equal. ring.
Qed.

Lemma Int128_sub_bits a b :
  Int128_wf a -> Int128_wf b ->
  Int128_wf (Int128_sub native a b)
  /\ bits128 (Int128_sub native a b) = (bits128 a - bits128 b) mod 2 ^ 128.
Proof.
  intros Ha Hb. destruct native; cbn.
  - split; [ apply of_native_wf | apply native_sub_bits ].
  - split; [ apply emulated_sub_wf | apply emulated_sub_bits; assumption ].
Qed.

Lemma Int128_of_words_bits low high :
  0 <= low < 2 ^ 64 -> 0 <= high < 2 ^ 64 ->
  Int128_wf (Int128_of_words native low high)
  /\ bits128 (Int128_of_words native low high) = low + 2 ^ 64 * high.
Proof.
  intros Hl Hh. destruct native; unfold Int128_of_words.
  - split; [ apply of_native_wf | ].
    unfold Native.of_words, BITS_PER_UINT64.
    rewrite bits128_of_native, i128_mod, lor_disjoint_add by lia.
    rewrite Z.mod_small; [ ring | pow_consts; lia ].
  - unfold Emulated.of_words, Int128_wf, bits128; cbn [lower64bits upper64bits].
    split; [ split; assumption | reflexivity ].
Qed.

(** The two mantissas [alignScale] returns, brought to the larger of
    the two scales. *)
Lemma alignScale_bits a b :
  Decimal_wf a -> Decimal_wf b ->
  bits128 (fst (alignScale native a b))
  = (mantissa_value a * 10 ^ (Z.max (scale a) (scale b) - scale a)) mod 2 ^ 128
  /\ bits128 (snd (alignScale native a b))
     = (mantissa_value b * 10 ^ (Z.max (scale a) (scale b) - scale b)) mod 2 ^ 128.
Proof.
  intros Ha Hb.
  pose proof (mantissa_value_range a Ha) as Ra. pose proof (mantissa_value_range b Hb) as Rb.
  pose proof (scale_range a) as Sa. pose proof (scale_range b) as Sb.
  assert (Hsmall : forall m, 0 <= m < 2 ^ 96 -> m = (m * 10 ^ 0) mod 2 ^ 128).
  { intros m Hm. rewrite Z.mul_1_r, Z.mod_small; [ reflexivity | ].
    change (2 ^ 96) with 79228162514264337593543950336 in Hm. zlia. }
  unfold alignScale.
  destruct (Z.ltb_spec (scale a) (scale b)) as [Hab | Hab];
    [ | destruct (Z.ltb_spec (scale b) (scale a)) as [Hba | Hba] ]; cbn [fst snd].
  - rewrite Z.max_r, Z.sub_diag by lia.
    rewrite Int128_mul_bits, !mantissaAsInt128_bits;
      try assumption; try (apply mantissaAsInt128_wf; assumption);
      try (apply getPowerOf10_bits; unfold u8; zlia).
    destruct (getPowerOf10_bits native (u8 (scale b - scale a)) ltac:(unfold u8; zlia))
      as (_ & -> & _).
    unfold u8. rewrite (Z.mod_small (scale b - scale a)) by zlia.
    rewrite Z.mul_mod_idemp_r by lia. split; [ reflexivity | apply Hsmall; assumption ].
  - rewrite Z.max_l, Z.sub_diag by lia.
    rewrite Int128_mul_bits, !mantissaAsInt128_bits;
      try assumption; try (apply mantissaAsInt128_wf; assumption);
      try (apply getPowerOf10_bits; unfold u8; zlia).
    destruct (getPowerOf10_bits native (u8 (scale a - scale b)) ltac:(unfold u8; zlia))
      as (_ & -> & _).
    unfold u8. rewrite (Z.mod_small (scale a - scale b)) by zlia.
    rewrite Z.mul_mod_idemp_r by lia. split; [ apply Hsmall; assumption | reflexivity ].
  - assert (E : scale a = scale b) by lia.
    rewrite E, Z.max_id, Z.sub_diag, !mantissaAsInt128_bits by assumption.
    split; apply Hsmall; assumption.
Qed.

Lemma max96bit_bits :
  Int128_wf (Int128_of_words native DECIMAL_96BIT_MAX_LOW DECIMAL_96BIT_MAX_HIGH)
  /\ bits128 (Int128_of_words native DECIMAL_96BIT_MAX_LOW DECIMAL_96BIT_MAX_HIGH)
     = 2 ^ 96 - 1.
Proof.
  destruct (Int128_of_words_bits DECIMAL_96BIT_MAX_LOW DECIMAL_96BIT_MAX_HIGH) as [W B];
    [ vm_compute; split; discriminate || reflexivity .. | ].
  split; [ exact W | rewrite B; reflexivity ].
Qed.

(** The value an operator assembles from a mantissa, a scale and a sign,
    before it is normalized. *)
Lemma assembled_result (neg : bool) (s : Z) (v : Int128) (fl : Z) :
  0 <= s <= 28 -> Int128_wf v -> bits128 v < 2 ^ 96 ->
  fl = Z.lor (if neg then DECIMAL_SIGN_MASK else 0) (u32 (Z.shiftl s DECIMAL_SCALE_SHIFT)) ->
  let d := set_flags (setMantissa native Decimal_zero v) fl in
  Decimal_wf d /\ scale d = s /\ isNegative d = neg /\ mantissa_value d = bits128 v.
Proof.
  intros Hs Wv Bv -> . cbv zeta. pose proof (wf_bits_range v Wv) as Rv.
  destruct (setMantissa_fields native Decimal_zero v Wv) as (_ & H0 & H1 & H2 & Ev).
  rewrite Z.mod_small in Ev by lia.
  destruct (result_flags_fields neg s (setMantissa native Decimal_zero v) Hs H0 H1 H2)
    as (W & Es & En & Em).
  cbv zeta in W, Es, En, Em.
  split; [ exact W | split; [ exact Es | split; [ exact En | congruence ] ] ].
Qed.

Lemma Decimal_zero_wf : Decimal_wf Decimal_zero.
Proof. vm_compute. repeat split; discriminate || reflexivity. Qed.

(** X13.  [operator*] gives the same result for both orders of its operands. *)
Theorem Decimal_mul_commutes (a b : Decimal) (Ha : Decimal_wf a) (Hb : Decimal_wf b) :
  Decimal_mul native a b = Decimal_mul native b a.
Proof.
  unfold Decimal_mul. rewrite (orb_comm (isZero b)).
  rewrite (Int128_mul_comm (mantissaAsInt128 native b))
    by (apply mantissaAsInt128_wf; assumption).
  rewrite (Z.add_comm (scale b)).
  replace (Bool.eqb (isNegative b) (isNegative a))
    with (Bool.eqb (isNegative a) (isNegative b))
    by (destruct (isNegative a), (isNegative b); reflexivity).
  reflexivity.
Qed.

(** X14.  A product whose mantissa fits 96 bits and whose scale fits 28 is
    exact: [operator*] returns the product of the two numbers, with the
    trailing zeros of its mantissa removed. *)
Theorem Decimal_mul_exact (a b : Decimal) (Ha : Decimal_wf a) (Hb : Decimal_wf b)
  (Hfit : mantissa_value a * mantissa_value b < 2 ^ 96)
  (Hscale : scale a + scale b <= 28) :
  exists r,
    Decimal_mul native a b = Ok r
    /\ Decimal_wf r
    /\ scale r <= scale a + scale b
    /\ Decimal_signed r (scale a + scale b)
       = Decimal_signed a (scale a) * Decimal_signed b (scale b)
    /\ (scale r = 0 \/ mantissa_value r mod 10 <> 0).
Proof.
  pose proof (mantissa_value_range a Ha) as Ra. pose proof (mantissa_value_range b Hb) as Rb.
  pose proof (scale_range a) as Sa. pose proof (scale_range b) as Sb.
  unfold Decimal_mul. rewrite !isZero_value by assumption.
  destruct (Z.eqb_spec (mantissa_value a) 0) as [Ea | Na];
    [ | destruct (Z.eqb_spec (mantissa_value b) 0) as [Eb | Nb] ]; cbn [orb].
  - exists Decimal_zero. split; [ reflexivity | ]. split; [ apply Decimal_zero_wf | ].
    split; [ change (scale Decimal_zero) with 0; lia | ].
    split; [ | left; reflexivity ].
    unfold Decimal_signed. rewrite Ea. change (mantissa_value Decimal_zero) with 0. ring.
  - exists Decimal_zero. split; [ reflexivity | ]. split; [ apply Decimal_zero_wf | ].
    split; [ change (scale Decimal_zero) with 0; lia | ].
    split; [ | left; reflexivity ].
    unfold Decimal_signed. rewrite Eb. change (mantissa_value Decimal_zero) with 0. ring.
  - cbv zeta.
    set (P := Int128_mul native (mantissaAsInt128 native a) (mantissaAsInt128 native b)).
    assert (WP : Int128_wf P) by apply Int128_mul_wf.
    assert (BP : bits128 P = mantissa_value a * mantissa_value b).
    { unfold P. rewrite Int128_mul_bits, !mantissaAsInt128_bits
        by (try apply mantissaAsInt128_wf; assumption).
      apply Z.mod_small. change (2 ^ 96) with 79228162514264337593543950336 in *.
      pow_consts. nia. }
    clearbody P.
    destruct max96bit_bits as [Wmax Bmax].
    assert (Hgt : Int128_gtb native P
                    (Int128_of_words native DECIMAL_96BIT_MAX_LOW DECIMAL_96BIT_MAX_HIGH)
                  = false).
    { assert (H1 : bits128 P < 2 ^ 127)
        by (rewrite BP; eapply Z.lt_trans; [ exact Hfit | reflexivity ]).
      assert (H2 : bits128 (Int128_of_words native DECIMAL_96BIT_MAX_LOW
                              DECIMAL_96BIT_MAX_HIGH) < 2 ^ 127)
        by (rewrite Bmax; reflexivity).
      destruct (Int128_order_bits P _ WP Wmax H1 H2) as [_ ->].
      rewrite Bmax, BP. apply Z.ltb_ge. lia. }
    assert (Eu8 : u8 (scale a + scale b) = scale a + scale b) by (unfold u8; zlia).
    rewrite Eu8.
    assert (Eloop : forall n,
              mul_truncate_loop native (S n)
                (Int128_of_words native DECIMAL_96BIT_MAX_LOW DECIMAL_96BIT_MAX_HIGH)
                P (scale a + scale b)
              = Ok (P, scale a + scale b)).
    { intros n. cbn [mul_truncate_loop]. rewrite Hgt.
      replace (scale a + scale b >? DECIMAL_MAXIMUM_PLACES) with false
        by (symmetry; rewrite Z.gtb_ltb; apply Z.ltb_ge; exact Hscale).
      reflexivity. }
    change 300%nat with (S 299). rewrite Eloop. cbn [bind].
    set (neg := negb (Bool.eqb (isNegative a) (isNegative b))).
    assert (Hasm := assembled_result false (scale a + scale b) P
                      (u32 (Z.shiftl (scale a + scale b) DECIMAL_SCALE_SHIFT))
                      ltac:(lia) WP ltac:(rewrite BP; exact Hfit) eq_refl).
    cbv zeta in Hasm. destruct Hasm as (W1 & S1 & N1 & M1).
    destruct (set_sign_if_fields neg _ W1) as (W2 & S2 & N2 & M2).
    rewrite N1, orb_false_r in N2. rewrite S1 in S2. rewrite M1, BP in M2.
    destruct (normalize_spec native _ W2) as (r & Er & Wr & Nr & Sr & Mr & Hnorm).
    rewrite S2 in Sr, Mr. rewrite M2 in Mr. rewrite N2 in Nr.
    exists r. split; [ exact Er | ]. split; [ exact Wr | ]. split; [ exact Sr | ].
    split; [ | exact Hnorm ].
    unfold Decimal_signed. rewrite Nr, <- Mr, !Z.sub_diag, !Z.mul_1_r.
    unfold neg. destruct (isNegative a), (isNegative b); cbn [Bool.eqb negb]; ring.
Qed.

(** X15.  The sum of two numbers of one sign whose aligned mantissas add up
    to less than 2^96 is exact: [operator+] returns their sum, with the
    trailing zeros of its mantissa removed. *)
Theorem Decimal_add_same_sign_exact (a b : Decimal)
  (Ha : Decimal_wf a) (Hb : Decimal_wf b)
  (Hsign : isNegative a = isNegative b)
  (Hfit : mantissa_value a * 10 ^ (Z.max (scale a) (scale b) - scale a)
          + mantissa_value b * 10 ^ (Z.max (scale a) (scale b) - scale b) < 2 ^ 96) :
  exists r,
    Decimal_add native a b = Ok r
    /\ Decimal_wf r
    /\ scale r <= Z.max (scale a) (scale b)
    /\ Decimal_signed r (Z.max (scale a) (scale b))
       = Decimal_signed a (Z.max (scale a) (scale b))
         + Decimal_signed b (Z.max (scale a) (scale b)).
Proof.
  pose proof (mantissa_value_range a Ha) as Ra. pose proof (mantissa_value_range b Hb) as Rb.
  pose proof (scale_range a) as Sa. pose proof (scale_range b) as Sb.
  assert (Sa28 : scale a <= 28) by (destruct Ha as (_ & H & _); exact H).
  assert (Sb28 : scale b <= 28) by (destruct Hb as (_ & H & _); exact H).
  set (s := Z.max (scale a) (scale b)) in *.
  assert (Pa : 0 < 10 ^ (s - scale a)) by (apply Z.pow_pos_nonneg; lia).
  assert (Pb : 0 < 10 ^ (s - scale b)) by (apply Z.pow_pos_nonneg; lia).
  unfold Decimal_add. rewrite !isZero_value by assumption.
  destruct (Z.eqb_spec (mantissa_value a) 0) as [Ea | Na];
    [ | destruct (Z.eqb_spec (mantissa_value b) 0) as [Eb | Nb] ].
  - exists b. split; [ reflexivity | ]. split; [ assumption | ]. split; [ lia | ].
    unfold Decimal_signed. rewrite Ea. ring.
  - exists a. split; [ reflexivity | ]. split; [ assumption | ]. split; [ lia | ].
    unfold Decimal_signed. rewrite Eb. ring.
  - cbv zeta.
    destruct (alignScale_wf native a b Ha Hb) as [WL WR].
    destruct (alignScale_bits a b Ha Hb) as [BL BR]. fold s in BL, BR.
    set (L := mantissa_value a * 10 ^ (s - scale a)) in *.
    set (R := mantissa_value b * 10 ^ (s - scale b)) in *.
    assert (RL : 0 <= L) by (unfold L; nia). assert (RR : 0 <= R) by (unfold R; nia).
    change (2 ^ 96) with 79228162514264337593543950336 in Hfit.
    rewrite Z.mod_small in BL, BR by zlia.
    set (sum := Int128_add native (fst (alignScale native a b)) (snd (alignScale native a b))).
    assert (Wsum : Int128_wf sum) by apply Int128_add_wf.
    assert (Bsum : bits128 sum = L + R).
    { unfold sum. rewrite Int128_add_bits, BL, BR by assumption. apply Z.mod_small. zlia. }
    clearbody sum.
    rewrite (flags_without_scale a Ha).
    assert (Hasm := assembled_result (isNegative a) s sum
                      (Z.lor (if isNegative a then DECIMAL_SIGN_MASK else 0)
                             (u32 (Z.shiftl s DECIMAL_SCALE_SHIFT)))
                      ltac:(lia) Wsum
                      ltac:(rewrite Bsum;
                            change (2 ^ 96) with 79228162514264337593543950336; lia)
                      eq_refl).
    cbv zeta in Hasm. destruct Hasm as (W1 & S1 & N1 & M1).
    rewrite <- Hsign, Bool.eqb_reflx.
    destruct (set_sign_if_fields (isNegative a) _ W1) as (W2 & S2 & N2 & M2).
    rewrite N1, orb_diag in N2. rewrite S1 in S2. rewrite M1, Bsum in M2.
    destruct (normalize_spec native _ W2) as (r & Er & Wr & Nr & Sr & Mr & _).
    rewrite S2 in Sr, Mr. rewrite M2 in Mr. rewrite N2 in Nr.
    exists r. split; [ exact Er | ]. split; [ exact Wr | ]. split; [ exact Sr | ].
    unfold Decimal_signed. rewrite Nr, <- Mr, <- Hsign. fold L R. ring.
Qed.

(** X16.  [operator+] gives the same result for both orders of two operands
    of one sign, unless both are zero. *)
Theorem Decimal_add_same_sign_commutes (a b : Decimal)
  (Ha : Decimal_wf a) (Hb : Decimal_wf b)
  (Hsign : isNegative a = isNegative b)
  (Hnz : isZero a = false \/ isZero b = false) :
  Decimal_add native a b = Decimal_add native b a.
Proof.
  destruct (isZero a) eqn:Za; destruct (isZero b) eqn:Zb.
  - destruct Hnz; discriminate.
  - unfold Decimal_add. rewrite Za, Zb. reflexivity.
  - unfold Decimal_add. rewrite Za, Zb. reflexivity.
  - apply add_same_sign_commutative; assumption.
Qed.

(** X17.  [x - x] is a zero: it compares equal to zero, and when [x] is not
    zero it has scale 0 and the sign bit set, whatever the sign of [x]. *)
Theorem Decimal_sub_self (a : Decimal) (Ha : Decimal_wf a) :
  exists r,
    Decimal_sub native a a = Ok r
    /\ isZero r = true
    /\ Decimal_eqb native r Decimal_zero = true
    /\ (isZero a = false -> isNegative r = true /\ scale r = 0).
Proof.
  pose proof (scale_range a) as Sa.
  assert (Sa28 : scale a <= 28) by (destruct Ha as (_ & H & _); exact H).
  destruct (Decimal_neg_fields a Ha) as (Wn & Sn & Nn & Mn).
  assert (Hz : forall r, isZero r = true -> Decimal_eqb native r Decimal_zero = true).
  { intros r Hr. unfold Decimal_eqb. rewrite Hr. reflexivity. }
  unfold Decimal_sub. fold (Decimal_neg a). unfold Decimal_add.
  assert (Zn : isZero (Decimal_neg a) = isZero a) by reflexivity.
  rewrite Zn.
  destruct (isZero a) eqn:Za.
  - exists (Decimal_neg a). split; [ reflexivity | ]. split; [ exact Zn | ].
    split; [ apply Hz; exact Zn | discriminate ].
  - cbv zeta.
    assert (Ealign : alignScale native a (Decimal_neg a)
                     = (mantissaAsInt128 native a, mantissaAsInt128 native a)).
    { unfold alignScale. rewrite Sn, Z.ltb_irrefl. reflexivity. }
    rewrite Ealign. cbn [fst snd]. rewrite Nn.
    replace (Bool.eqb (isNegative a) (negb (isNegative a))) with false
      by (destruct (isNegative a); reflexivity).
    pose proof (mantissaAsInt128_wf native a Ha) as Wm.
    pose proof (mantissaAsInt128_bits native a Ha) as Bm.
    pose proof (mantissa_value_range a Ha) as Rm.
    assert (Hgt : Int128_gtb native (mantissaAsInt128 native a) (mantissaAsInt128 native a)
                  = false).
    { assert (H1 : bits128 (mantissaAsInt128 native a) < 2 ^ 127)
        by (rewrite Bm; eapply Z.lt_trans; [ apply Rm | reflexivity ]).
      destruct (Int128_order_bits _ _ Wm Wm H1 H1) as [_ ->]. apply Z.ltb_irrefl. }
    rewrite Hgt.
    rewrite (flags_without_scale a Ha), Sn, Z.max_id.
    destruct (Int128_sub_bits (mantissaAsInt128 native a) (mantissaAsInt128 native a) Wm Wm)
      as [Wd Bd].
    rewrite Z.sub_diag, Z.mod_0_l in Bd by lia.
    set (sum := Int128_add native (mantissaAsInt128 native a) (mantissaAsInt128 native a)).
    set (d1 := set_flags (setMantissa native Decimal_zero sum)
                 (Z.lor (if isNegative a then DECIMAL_SIGN_MASK else 0)
                        (u32 (Z.shiftl (scale a) DECIMAL_SCALE_SHIFT)))).
    assert (F1 : setMantissa native d1
                   (Int128_sub native (mantissaAsInt128 native a) (mantissaAsInt128 native a))
                 = set_flags (setMantissa native Decimal_zero
                                (Int128_sub native (mantissaAsInt128 native a)
                                   (mantissaAsInt128 native a)))
                     (Z.lor (if isNegative a then DECIMAL_SIGN_MASK else 0)
                            (u32 (Z.shiftl (scale a) DECIMAL_SCALE_SHIFT)))).
    { unfold d1. generalize (Int128_sub native (mantissaAsInt128 native a)
                               (mantissaAsInt128 native a)).
      generalize sum. intros v w.
      generalize (Z.lor (if isNegative a then DECIMAL_SIGN_MASK else 0)
                        (u32 (Z.shiftl (scale a) DECIMAL_SCALE_SHIFT))). intros fl.
      unfold setMantissa, set_flags. destruct native;
        cbn [flags mantissa0 mantissa1 mantissa2]; reflexivity. }
    rewrite F1.
    assert (Hasm := assembled_result (isNegative a) (scale a)
                      (Int128_sub native (mantissaAsInt128 native a)
                         (mantissaAsInt128 native a))
                      (Z.lor (if isNegative a then DECIMAL_SIGN_MASK else 0)
                             (u32 (Z.shiftl (scale a) DECIMAL_SCALE_SHIFT)))
                      ltac:(lia) Wd ltac:(rewrite Bd; reflexivity) eq_refl).
    cbv zeta in Hasm. destruct Hasm as (W1 & S1 & N1 & M1).
    destruct (set_sign_if_fields (negb (isNegative a)) _ W1) as (W2 & S2 & N2 & M2).
    rewrite N1 in N2. rewrite M1, Bd in M2.
    replace (negb (isNegative a) || isNegative a) with true in N2
      by (destruct (isNegative a); reflexivity).
    destruct (normalize_spec native _ W2) as (r & Er & Wr & Nr & Sr & Mr & Hnorm).
    rewrite M2 in Mr. rewrite N2 in Nr.
    assert (Mr0 : mantissa_value r = 0).
    { assert (0 < 10 ^ (scale (set_sign_if (negb (isNegative a))
                                 (set_flags (setMantissa native Decimal_zero
                                    (Int128_sub native (mantissaAsInt128 native a)
                                       (mantissaAsInt128 native a)))
                                    (Z.lor (if isNegative a then DECIMAL_SIGN_MASK else 0)
                                       (u32 (Z.shiftl (scale a) DECIMAL_SCALE_SHIFT)))))
                      - scale r)) by (apply Z.pow_pos_nonneg; lia).
      nia. }
    assert (Zr : isZero r = true).
    { rewrite isZero_value by assumption. rewrite Mr0. reflexivity. }
    exists r. split; [ exact Er | ]. split; [ exact Zr | ].
    split; [ apply Hz; exact Zr | ]. intros _. split; [ exact Nr | ].
    destruct Hnorm as [H0 | H0]; [ exact H0 | ]. rewrite Mr0 in H0. contradiction H0. reflexivity.
Qed.

End Operations.

Lemma Decimal_mul_commutes_witness :
  Decimal_mul false (mkDecimal 0x80020000 150 0 0) (mkDecimal 0x00010000 7 1 0)
  = Decimal_mul false (mkDecimal 0x00010000 7 1 0) (mkDecimal 0x80020000 150 0 0).
Proof.
  apply (Decimal_mul_commutes false);
    vm_compute; repeat split; discriminate || reflexivity.
Defined.

Lemma Decimal_mul_exact_witness :
  exists r,
    Decimal_mul false (mkDecimal 0x80020000 150 0 0) (mkDecimal 0x00010000 4 0 0) = Ok r
    /\ Decimal_wf r
    /\ scale r <= 2 + 1
    /\ Decimal_signed r (2 + 1) = (- 150) * 4
    /\ (scale r = 0 \/ mantissa_value r mod 10 <> 0).
Proof.
  apply (Decimal_mul_exact false (mkDecimal 0x80020000 150 0 0) (mkDecimal 0x00010000 4 0 0)).
  - vm_compute; repeat split; discriminate || reflexivity.
  - vm_compute; repeat split; discriminate || reflexivity.
  - vm_compute; reflexivity.
  - vm_compute; discriminate.
Defined.

Lemma Decimal_add_same_sign_exact_witness :
  exists r,
    Decimal_add false (mkDecimal 0x00010000 5 0 0) (mkDecimal 0x00020000 25 0 0) = Ok r
    /\ Decimal_wf r
    /\ scale r <= 2
    /\ Decimal_signed r 2 = 50 + 25.
Proof.
  apply (Decimal_add_same_sign_exact false
           (mkDecimal 0x00010000 5 0 0) (mkDecimal 0x00020000 25 0 0)).
  - vm_compute; repeat split; discriminate || reflexivity.
  - vm_compute; repeat split; discriminate || reflexivity.
  - reflexivity.
  - vm_compute; reflexivity.
Defined.

Lemma Decimal_add_same_sign_commutes_witness :
  Decimal_add false (mkDecimal 0x00010000 5 0 0) (mkDecimal 0x00020000 25 0 0)
  = Decimal_add false (mkDecimal 0x00020000 25 0 0) (mkDecimal 0x00010000 5 0 0).
Proof.
  apply (Decimal_add_same_sign_commutes false
           (mkDecimal 0x00010000 5 0 0) (mkDecimal 0x00020000 25 0 0)).
  - vm_compute; repeat split; discriminate || reflexivity.
  - vm_compute; repeat split; discriminate || reflexivity.
  - reflexivity.
  - left. reflexivity.
Defined.

Lemma Decimal_sub_self_witness :
  exists r,
    Decimal_sub false (mkDecimal 0x00010000 5 0 0) (mkDecimal 0x00010000 5 0 0) = Ok r
    /\ isZero r = true
    /\ Decimal_eqb false r Decimal_zero = true
    /\ (isZero (mkDecimal 0x00010000 5 0 0) = false -> isNegative r = true /\ scale r = 0).
Proof.
  apply (Decimal_sub_self false (mkDecimal 0x00010000 5 0 0)).
  vm_compute; repeat split; discriminate || reflexivity.
Defined.

(** *** Comparisons *)

Section Comparisons.
Variable native : bool.

(** What the comparison operators look at: the aligned mantissas. *)
Lemma aligned_mantissas (a b : Decimal) :
  Decimal_wf a -> Decimal_wf b ->
  mantissa_value a * 10 ^ (Z.max (scale a) (scale b) - scale a) < 2 ^ 127 ->
  mantissa_value b * 10 ^ (Z.max (scale a) (scale b) - scale b) < 2 ^ 127 ->
  let L := mantissa_value a * 10 ^ (Z.max (scale a) (scale b) - scale a) in
  let R := mantissa_value b * 10 ^ (Z.max (scale a) (scale b) - scale b) in
  Int128_eqb native (fst (alignScale native a b)) (snd (alignScale native a b)) = (L =? R)
  /\ Int128_ltb native (fst (alignScale native a b)) (snd (alignScale native a b)) = (L <? R)
  /\ Int128_gtb native (fst (alignScale native a b)) (snd (alignScale native a b)) = (R <? L)
  /\ (0 <= L) /\ (0 <= R)
  /\ (L = 0 <-> mantissa_value a = 0) /\ (R = 0 <-> mantissa_value b = 0).
Proof.
  intros Ha Hb Fa Fb. cbv zeta.
  pose proof (mantissa_value_range a Ha) as Ra. pose proof (mantissa_value_range b Hb) as Rb.
  pose proof (scale_range a) as Sa. pose proof (scale_range b) as Sb.
  destruct (alignScale_wf native a b Ha Hb) as [WL WR].
  destruct (alignScale_bits native a b Ha Hb) as [BL BR].
  set (s := Z.max (scale a) (scale b)) in *.
  assert (Pa : 0 < 10 ^ (s - scale a)) by (apply Z.pow_pos_nonneg; lia).
  assert (Pb : 0 < 10 ^ (s - scale b)) by (apply Z.pow_pos_nonneg; lia).
  set (L := mantissa_value a * 10 ^ (s - scale a)) in *.
  set (R := mantissa_value b * 10 ^ (s - scale b)) in *.
  assert (RL : 0 <= L) by (unfold L; nia). assert (RR : 0 <= R) by (unfold R; nia).
  assert (ZL : L = 0 <-> mantissa_value a = 0) by (unfold L; split; nia).
  assert (ZR : R = 0 <-> mantissa_value b = 0) by (unfold R; split; nia).
  clearbody L R.
  rewrite Z.mod_small in BL, BR by zlia.
  rewrite Int128_eqb_bits by assumption.
  assert (H1 : bits128 (fst (alignScale native a b)) < 2 ^ 127) by lia.
  assert (H2 : bits128 (snd (alignScale native a b)) < 2 ^ 127) by lia.
  destruct (Int128_order_bits native _ _ WL WR H1 H2) as [-> ->].
  rewrite BL, BR. repeat split; try assumption; try apply ZL; try apply ZR.
Qed.

Lemma Decimal_eqb_values (a b : Decimal)
  (Ha : Decimal_wf a) (Hb : Decimal_wf b)
  (Hfit_a : mantissa_value a * 10 ^ (Z.max (scale a) (scale b) - scale a) < 2 ^ 127)
  (Hfit_b : mantissa_value b * 10 ^ (Z.max (scale a) (scale b) - scale b) < 2 ^ 127) :
  Decimal_eqb native a b
  = (Decimal_signed a (Z.max (scale a) (scale b))
     =? Decimal_signed b (Z.max (scale a) (scale b)))
  /\ Decimal_neqb native a b
     = negb (Decimal_signed a (Z.max (scale a) (scale b))
             =? Decimal_signed b (Z.max (scale a) (scale b))).
Proof.
  assert (Hmain : Decimal_eqb native a b
                  = (Decimal_signed a (Z.max (scale a) (scale b))
                     =? Decimal_signed b (Z.max (scale a) (scale b)))).
  { pose proof (aligned_mantissas a b Ha Hb Hfit_a Hfit_b) as H. cbv zeta in H.
    destruct H as (Eeq & _ & _ & RL & RR & ZL & ZR).
    unfold Decimal_eqb, Decimal_signed. rewrite !isZero_value by assumption.
    cbv zeta. rewrite Eeq.
    set (L := mantissa_value a * 10 ^ (Z.max (scale a) (scale b) - scale a)) in *.
    set (R := mantissa_value b * 10 ^ (Z.max (scale a) (scale b) - scale b)) in *.
    clearbody L R.
    destruct (Z.eqb_spec (mantissa_value a) 0) as [Za | Za];
      destruct (Z.eqb_spec (mantissa_value b) 0) as [Zb | Zb]; cbn [andb];
      destruct (isNegative a), (isNegative b); cbn [Bool.eqb negb];
      destruct (Z.eqb_spec L R);
      match goal with
      | |- _ = (?x =? ?y) => destruct (Z.eqb_spec x y)
      end; try reflexivity; exfalso; lia. }
  split; [ exact Hmain | ]. unfold Decimal_neqb. rewrite Hmain. reflexivity.
Qed.

(** X18.  [operator==] compares the numbers denoted, whatever the scales and
    the sign of a zero, as long as the aligned mantissas fit 127 bits. *)
Theorem Decimal_eqb_compares_values (a b : Decimal)
  (Ha : Decimal_wf a) (Hb : Decimal_wf b)
  (Hfit_a : mantissa_value a * 10 ^ (Z.max (scale a) (scale b) - scale a) < 2 ^ 127)
  (Hfit_b : mantissa_value b * 10 ^ (Z.max (scale a) (scale b) - scale b) < 2 ^ 127) :
  Decimal_eqb native a b
  = (Decimal_signed a (Z.max (scale a) (scale b))
     =? Decimal_signed b (Z.max (scale a) (scale b)))
  /\ Decimal_neqb native a b
     = negb (Decimal_signed a (Z.max (scale a) (scale b))
             =? Decimal_signed b (Z.max (scale a) (scale b))).
Proof. exact (Decimal_eqb_values a b Ha Hb Hfit_a Hfit_b). Qed.

(** X19.  [operator<] and the operators derived from it compare the numbers
    denoted, as long as the aligned mantissas fit 127 bits and neither
    operand is a zero with the sign bit set. *)
Theorem Decimal_ltb_compares_values (a b : Decimal)
  (Ha : Decimal_wf a) (Hb : Decimal_wf b)
  (Hza : isZero a = true -> isNegative a = false)
  (Hzb : isZero b = true -> isNegative b = false)
  (Hfit_a : mantissa_value a * 10 ^ (Z.max (scale a) (scale b) - scale a) < 2 ^ 127)
  (Hfit_b : mantissa_value b * 10 ^ (Z.max (scale a) (scale b) - scale b) < 2 ^ 127) :
  Decimal_ltb native a b
  = (Decimal_signed a (Z.max (scale a) (scale b))
     <? Decimal_signed b (Z.max (scale a) (scale b)))
  /\ Decimal_leb native a b
     = (Decimal_signed a (Z.max (scale a) (scale b))
        <=? Decimal_signed b (Z.max (scale a) (scale b)))
  /\ Decimal_gtb native a b
     = (Decimal_signed b (Z.max (scale a) (scale b))
        <? Decimal_signed a (Z.max (scale a) (scale b)))
  /\ Decimal_geb native a b
     = (Decimal_signed b (Z.max (scale a) (scale b))
        <=? Decimal_signed a (Z.max (scale a) (scale b))).
Proof.
  pose proof (aligned_mantissas a b Ha Hb Hfit_a Hfit_b) as H. cbv zeta in H.
  destruct H as (Eeq & Elt & Egt & RL & RR & ZL & ZR).
  rewrite isZero_value in Hza, Hzb by assumption.
  unfold Decimal_gtb, Decimal_geb, Decimal_leb, Decimal_ltb, Decimal_eqb, Decimal_signed.
  rewrite !isZero_value by assumption.
  cbv zeta. rewrite Eeq, Elt, Egt.
  set (L := mantissa_value a * 10 ^ (Z.max (scale a) (scale b) - scale a)) in *.
  set (R := mantissa_value b * 10 ^ (Z.max (scale a) (scale b) - scale b)) in *.
  clearbody L R.
  destruct (Z.eqb_spec (mantissa_value a) 0) as [Za | Za];
    destruct (Z.eqb_spec (mantissa_value b) 0) as [Zb | Zb]; cbn [andb];
    destruct (isNegative a), (isNegative b); cbn [Bool.eqb negb];
    try (specialize (Hza eq_refl); discriminate Hza);
    try (specialize (Hzb eq_refl); discriminate Hzb);
    destruct (Z.eqb_spec L R); destruct (Z.ltb_spec L R); destruct (Z.ltb_spec R L);
    cbn [orb negb];
    repeat match goal with
           | |- context [Z.ltb ?x ?y] => destruct (Z.ltb_spec x y)
           | |- context [Z.leb ?x ?y] => destruct (Z.leb_spec x y)
           end;
    repeat split; try reflexivity; exfalso; lia.
Qed.

End Comparisons.

Lemma Decimal_eqb_compares_values_witness :
  Decimal_eqb false (mkDecimal 0x00010000 10 0 0) (mkDecimal 0x00020000 100 0 0)
  = (100 =? 100)
  /\ Decimal_neqb false (mkDecimal 0x00010000 10 0 0) (mkDecimal 0x00020000 100 0 0)
     = negb (100 =? 100).
Proof.
  apply (Decimal_eqb_compares_values false
           (mkDecimal 0x00010000 10 0 0) (mkDecimal 0x00020000 100 0 0)).
  - vm_compute; repeat split; discriminate || reflexivity.
  - vm_compute; repeat split; discriminate || reflexivity.
  - vm_compute; reflexivity.
  - vm_compute; reflexivity.
Defined.

Lemma Decimal_ltb_compares_values_witness :
  Decimal_ltb false (mkDecimal 0x80010000 15 0 0) (mkDecimal 0x00020000 7 0 0)
  = (-150 <? 7)
  /\ Decimal_leb false (mkDecimal 0x80010000 15 0 0) (mkDecimal 0x00020000 7 0 0)
     = (-150 <=? 7)
  /\ Decimal_gtb false (mkDecimal 0x80010000 15 0 0) (mkDecimal 0x00020000 7 0 0)
     = (7 <? -150)
  /\ Decimal_geb false (mkDecimal 0x80010000 15 0 0) (mkDecimal 0x00020000 7 0 0)
     = (7 <=? -150).
Proof.
  apply (Decimal_ltb_compares_values false
           (mkDecimal 0x80010000 15 0 0) (mkDecimal 0x00020000 7 0 0)).
  - vm_compute; repeat split; discriminate || reflexivity.
  - vm_compute; repeat split; discriminate || reflexivity.
  - discriminate.
  - discriminate.
  - vm_compute; reflexivity.
  - vm_compute; reflexivity.
Defined.

(** ** Rounding *)

Section Rounding.
Variable native : bool.

(** Division and remainder return for every divisor but zero. *)
Lemma emulated_div_ok (a b : Int128) :
  Emulated.isZero b = false -> exists q, Emulated.div a b = Ok q.
Proof.
  intros Hnz. unfold Emulated.div. rewrite Hnz.
  destruct ((upper64bits a =? 0) && (upper64bits b =? 0)); [ eexists; reflexivity | ].
  destruct (upper64bits b =? 0).
  - cbv zeta. destruct (upper64bits a mod lower64bits b =? 0); eexists; reflexivity.
  - cbv zeta.
    destruct (Emulated.isNegative a); destruct (Emulated.isNegative b);
      match goal with
      | |- context [Emulated.ltb ?x ?y] => destruct (Emulated.ltb x y)
      end; try (eexists; reflexivity);
      match goal with
      | |- context [Emulated.eqb ?x ?y] => destruct (Emulated.eqb x y)
      end; try (eexists; reflexivity);
      match goal with
      | |- context [Emulated.div_loop ?x ?y ?n ?st] => destruct (Emulated.div_loop x y n st)
      end; eexists; reflexivity.
Qed.

Lemma Int128_div_rem_ok (a b : Int128) :
  Int128_wf b -> bits128 b <> 0 ->
  exists q r, Int128_div native a b = Ok q /\ Int128_rem native a b = Ok r.
Proof.
  intros Hb Hnz.
  pose proof (Int128_isZero_bits native b Hb) as Ez.
  replace (bits128 b =? 0) with false in Ez by (symmetry; apply Z.eqb_neq; exact Hnz).
  destruct native; cbn in Ez |- *.
  - unfold Native.div, Native.rem. unfold Native.isZero in Ez. rewrite Ez.
    eexists. eexists. split; reflexivity.
  - destruct (emulated_div_ok a b Ez) as (q & Eq).
    unfold Emulated.rem. rewrite Ez, Eq.
    exists q. destruct ((upper64bits a =? 0) && (upper64bits b =? 0));
      eexists; split; reflexivity.
Qed.

(** The truncation loop of [round]. *)
Lemma truncate_digits_spec (n : nat) : forall d,
  Decimal_wf d ->
  exists d',
    truncate_digits native n d = Ok d'
    /\ Decimal_wf d' /\ flags d' = flags d
    /\ mantissa_value d' = mantissa_value d / 10 ^ Z.of_nat n.
Proof.
  induction n as [|n IH]; intros d Hd.
  - exists d. cbn [truncate_digits]. repeat split; try assumption; try apply Hd.
    change (10 ^ Z.of_nat 0) with 1. rewrite Z.div_1_r. reflexivity.
  - cbn [truncate_digits].
    destruct (divideByPowerOf10_one native d Hd) as (d1 & -> & W1 & F1 & V1). cbn [bind].
    destruct (IH d1 W1) as (d' & E & W' & F' & V').
    exists d'. split; [ exact E | ]. split; [ exact W' | ]. split; [ congruence | ].
    rewrite V', V1, Nat2Z.inj_succ, Z.pow_succ_r, Z.div_div by (try apply Z.pow_pos_nonneg; lia).
    reflexivity.
Qed.

Lemma shouldRoundUpToNearest_ok roundingDigit mantissa divisor digitsToRemove result :
  Int128_wf mantissa -> Int128_wf divisor -> bits128 divisor <> 0 -> Decimal_wf result ->
  exists up,
    shouldRoundUpToNearest native roundingDigit mantissa divisor digitsToRemove result
    = Ok up.
Proof.
  intros Wm Wd Nd Wr. unfold shouldRoundUpToNearest.
  destruct (Int128_toLow native roundingDigit >? DECIMAL_ROUNDING_THRESHOLD);
    [ eexists; reflexivity | ].
  destruct (Int128_toLow native roundingDigit =? DECIMAL_ROUNDING_THRESHOLD);
    [ | eexists; reflexivity ].
  destruct (ten_words native) as (E10 & _ & _).
  assert (W10 : Int128_wf (mkInt128 10 0)) by (vm_compute; repeat split; discriminate).
  assert (W2 : Int128_wf (Int128_of_int64 native 2)) by apply Int128_of_int64_wf.
  assert (N2 : bits128 (Int128_of_int64 native 2) <> 0)
    by (rewrite Int128_of_int64_bits by zlia; discriminate).
  destruct (Int128_div_rem_ok (mantissaAsInt128 native result) (Int128_of_int64 native 2)
              W2 N2) as (_ & r2 & _ & Er2).
  destruct (digitsToRemove >? 1).
  - destruct (Int128_div_rem_ok mantissa divisor Wd Nd) as (_ & r & _ & ->).
    destruct (Int128_div_rem_ok divisor (mkInt128 10 0) W10 ltac:(discriminate))
      as (q & _ & Eq & _).
    rewrite E10, Eq. cbn [bind].
    destruct (Int128_neqb native r (Int128_mul native roundingDigit q));
      [ eexists; reflexivity | ].
    rewrite Er2. cbn [bind]. eexists; reflexivity.
  - cbn [bind]. rewrite Er2. cbn [bind]. eexists; reflexivity.
Qed.

Lemma shouldRoundUpToInfinity_ok mantissa digitsToRemove isNeg :
  Int128_wf mantissa -> 0 <= digitsToRemove <= 28 ->
  (exists up, shouldRoundUpToPositiveInfinity native mantissa digitsToRemove isNeg = Ok up)
  /\ (exists up, shouldRoundUpToNegativeInfinity native mantissa digitsToRemove isNeg = Ok up).
Proof.
  intros Wm Hd.
  destruct (getPowerOf10_bits native digitsToRemove ltac:(lia)) as (Wp & _ & Bp).
  specialize (Bp ltac:(lia)).
  assert (Np : bits128 (getPowerOf10 native digitsToRemove) <> 0).
  { rewrite Bp. apply Z.pow_nonzero; lia. }
  destruct (Int128_div_rem_ok mantissa _ Wp Np) as (_ & r & _ & Er).
  unfold shouldRoundUpToPositiveInfinity, shouldRoundUpToNegativeInfinity.
  rewrite Er. cbn [bind].
  split; destruct isNeg; cbn [negb]; destruct (digitsToRemove >? 0); eexists; reflexivity.
Qed.

(** X20.  [round] to fewer places than the value has: it returns for every
    rounding mode, the result has the places asked for and the sign of
    the value, and its mantissa is the truncated mantissa or the next
    integer; the mode [ToZero], and with it [truncate], gives the
    truncated mantissa. *)
Theorem Decimal_round_result (x : Decimal) (places : Z) (mode : RoundingMode)
  (Hx : Decimal_wf x) (Hplaces : 0 <= places < scale x) (Hnz : isZero x = false) :
  exists r,
    Decimal_round native x places mode = Ok r
    /\ Decimal_wf r
    /\ scale r = places
    /\ isNegative r = isNegative x
    /\ (mantissa_value r = mantissa_value x / 10 ^ (scale x - places)
        \/ mantissa_value r = mantissa_value x / 10 ^ (scale x - places) + 1)
    /\ (mode = ToZero -> mantissa_value r = mantissa_value x / 10 ^ (scale x - places)).
Proof.
  pose proof (scale_range x) as Sx.
  assert (Sx28 : scale x <= 28) by (destruct Hx as (_ & H & _); exact H).
  pose proof (mantissa_value_range x Hx) as Rx.
  pose proof (mantissaAsInt128_wf native x Hx) as Wm.
  unfold Decimal_round.
  replace (places <? 0) with false by (symmetry; apply Z.ltb_ge; lia).
  replace (places >=? scale x) with false by (symmetry; rewrite Z.geb_leb; apply Z.leb_gt; lia).
  rewrite Hnz. cbn [orb]. cbv zeta.
  assert (Ets : u8 places = places) by (unfold u8; zlia).
  rewrite Ets.
  assert (Edr : u8 (scale x - places) = scale x - places) by (unfold u8; zlia).
  rewrite Edr.
  set (dr := scale x - places) in *.
  assert (Hdr : 1 <= dr <= 28) by (unfold dr; lia). clearbody dr.
  (* the divisor of the rounding digit *)
  set (divisor := if dr >? 1
                  then Nat.iter (Z.to_nat (u8 (dr - 1)))
                         (fun divisor => Int128_mul native divisor
                                           (Int128_of_uint64 native DECIMAL_BASE))
                         (Int128_of_int64 native 1)
                  else Int128_of_int64 native 1).
  assert (Hdiv : Int128_wf divisor /\ bits128 divisor <> 0).
  { unfold divisor. destruct (dr >? 1).
    - pose proof (iterated_times_ten native (Z.to_nat (u8 (dr - 1)))) as H. cbv zeta in H.
      destruct H as [W B]. split; [ exact W | ]. rewrite B.
      assert (Hn : 0 <= Z.of_nat (Z.to_nat (u8 (dr - 1))) <= 38) by (unfold u8; zlia).
      rewrite Z.mod_small.
      + apply Z.pow_nonzero; lia.
      + split; [ apply Z.pow_nonneg; lia | ].
        apply Z.le_lt_trans with (10 ^ 38); [ apply Z.pow_le_mono_r; lia | reflexivity ].
    - split; [ apply Int128_of_int64_wf | ].
      rewrite Int128_of_int64_bits by zlia. discriminate. }
  destruct Hdiv as [Wd Nd]. clearbody divisor.
  destruct (Int128_div_rem_ok (mantissaAsInt128 native x) divisor Wd Nd)
    as (q & _ & -> & _).
  cbn [bind].
  destruct (ten_words native) as (E10 & _ & _).
  assert (W10 : Int128_wf (mkInt128 10 0)) by (vm_compute; repeat split; discriminate).
  assert (Wq : exists rd, Int128_rem native q (Int128_of_uint64 native DECIMAL_BASE) = Ok rd).
  { rewrite E10.
    destruct (Int128_div_rem_ok q (mkInt128 10 0) W10 ltac:(discriminate)) as (_ & rd & _ & E).
    exists rd. exact E. }
  destruct Wq as (roundingDigit & ->). cbn [bind].
  (* the truncation *)
  destruct (truncate_digits_spec (Z.to_nat dr) x Hx) as (t & -> & Wt & Ft & Vt).
  cbn [bind]. rewrite Z2Nat.id in Vt by lia.
  destruct (with_scale_fields t places Wt ltac:(lia)) as (W1 & S1 & N1 & V1).
  cbv zeta in W1, S1, N1, V1.
  assert (Nt : isNegative t = isNegative x) by (unfold isNegative; rewrite Ft; reflexivity).
  rewrite Nt in N1. rewrite Vt in V1.
  set (result := set_flags t (with_scale (flags t) places)) in *. clearbody result.
  assert (Hq0 : 0 <= mantissa_value x / 10 ^ dr <= mantissa_value x).
  { assert (0 < 10 ^ dr) by (apply Z.pow_pos_nonneg; lia).
    split; [ apply Z.div_pos; lia | ]. apply Z.div_le_upper_bound; [ lia | nia ]. }
  assert (Hq1 : mantissa_value x / 10 ^ dr + 1 < 2 ^ 96).
  { assert (10 <= 10 ^ dr).
    { change 10 with (10 ^ 1) at 1. apply Z.pow_le_mono_r; lia. }
    assert (mantissa_value x / 10 ^ dr <= mantissa_value x / 10).
    { apply Z.div_le_compat_l; lia. }
    change (2 ^ 96) with 79228162514264337593543950336 in *. zlia. }
  (* the rounding decision *)
  assert (Hup : exists up,
            match mode with
            | ToNearest =>
                shouldRoundUpToNearest native roundingDigit (mantissaAsInt128 native x)
                  divisor dr result
            | ToNearestTiesAway => Ok (shouldRoundUpToNearestTiesAway native roundingDigit)
            | ToZero => Ok false
            | ToPositiveInfinity =>
                shouldRoundUpToPositiveInfinity native (mantissaAsInt128 native x) dr
                  (isNegative x)
            | ToNegativeInfinity =>
                shouldRoundUpToNegativeInfinity native (mantissaAsInt128 native x) dr
                  (isNegative x)
            end = Ok up /\ (mode = ToZero -> up = false)).
  { destruct (shouldRoundUpToInfinity_ok (mantissaAsInt128 native x) dr (isNegative x) Wm)
      as [(u1 & E1) (u2 & E2)]; [ lia | ].
    destruct mode.
    - destruct (shouldRoundUpToNearest_ok roundingDigit (mantissaAsInt128 native x)
                  divisor dr result Wm Wd Nd W1) as (up & E).
      exists up. split; [ exact E | discriminate ].
    - eexists. split; [ reflexivity | discriminate ].
    - exists false. split; reflexivity.
    - exists u1. split; [ exact E1 | discriminate ].
    - exists u2. split; [ exact E2 | discriminate ]. }
  destruct Hup as (up & -> & Hzero). cbn [bind].
  destruct up.
  - (* one more unit in the last place *)
    assert (Eadd : (if isNegative x
                    then Int128_add native (mantissaAsInt128 native result)
                           (Int128_of_int64 native 1)
                    else Int128_add native (mantissaAsInt128 native result)
                           (Int128_of_int64 native 1))
                   = Int128_add native (mantissaAsInt128 native result)
                       (Int128_of_int64 native 1))
      by (destruct (isNegative x); reflexivity).
    rewrite Eadd.
    set (v := Int128_add native (mantissaAsInt128 native result) (Int128_of_int64 native 1)).
    assert (Wv : Int128_wf v) by apply Int128_add_wf.
    assert (Bv : bits128 v = mantissa_value x / 10 ^ dr + 1).
    { unfold v.
      rewrite (Int128_add_bits native _ _ (mantissaAsInt128_wf native result W1)
                 (Int128_of_int64_wf native 1)).
      rewrite mantissaAsInt128_bits by assumption.
      rewrite Int128_of_int64_bits by (pow_consts; lia).
      rewrite V1. change (1 mod 2 ^ 128) with 1.
      apply Z.mod_small. change (2 ^ 96) with 79228162514264337593543950336 in Hq1.
      pow_consts. lia. }
    clearbody v.
    destruct (setMantissa_fields native result v Wv) as (Ef & _ & _ & _ & Ev).
    rewrite Bv, Z.mod_small in Ev by lia.
    exists (setMantissa native result v). split; [ reflexivity | ].
    split; [ apply setMantissa_wf; assumption | ].
    split; [ unfold scale; rewrite Ef; exact S1 | ].
    split; [ unfold isNegative; rewrite Ef; exact N1 | ].
    split; [ right; exact Ev | ].
    intros Hm. specialize (Hzero Hm). discriminate.
  - exists result. split; [ reflexivity | ]. split; [ exact W1 | ].
    split; [ exact S1 | ]. split; [ exact N1 | ].
    split; [ left; exact V1 | intros _; exact V1 ].
Qed.

End Rounding.

Lemma Decimal_round_result_witness :
  exists r,
    Decimal_round false (mkDecimal 0x80030000 12345 0 0) 1 ToNearestTiesAway = Ok r
    /\ Decimal_wf r
    /\ scale r = 1
    /\ isNegative r = isNegative (mkDecimal 0x80030000 12345 0 0)
    /\ (mantissa_value r
        = mantissa_value (mkDecimal 0x80030000 12345 0 0)
          / 10 ^ (scale (mkDecimal 0x80030000 12345 0 0) - 1)
        \/ mantissa_value r
           = mantissa_value (mkDecimal 0x80030000 12345 0 0)
             / 10 ^ (scale (mkDecimal 0x80030000 12345 0 0) - 1) + 1)
    /\ (ToNearestTiesAway = ToZero ->
        mantissa_value r
        = mantissa_value (mkDecimal 0x80030000 12345 0 0)
          / 10 ^ (scale (mkDecimal 0x80030000 12345 0 0) - 1)).
Proof.
  apply (Decimal_round_result false (mkDecimal 0x80030000 12345 0 0) 1 ToNearestTiesAway).
  - vm_compute; repeat split; discriminate || reflexivity.
  - vm_compute; split; [ discriminate | reflexivity ].
  - reflexivity.
Defined.

(** ** Conversions between integers, Int128 and Decimal *)

(** X21.  The constructors from the built-in integers store the magnitude
    with scale 0 and set the sign bit of a negative argument: the
    Decimal denotes the integer. *)
Theorem Decimal_of_builtin_integer (v : Z) :
  (- 2 ^ 31 < v < 2 ^ 31 ->
   Decimal_wf (Decimal_of_int32 v) /\ scale (Decimal_of_int32 v) = 0
   /\ Decimal_signed (Decimal_of_int32 v) 0 = v)
  /\ (- 2 ^ 63 < v < 2 ^ 63 ->
      Decimal_wf (Decimal_of_int64 v) /\ scale (Decimal_of_int64 v) = 0
      /\ Decimal_signed (Decimal_of_int64 v) 0 = v)
  /\ (0 <= v < 2 ^ 32 ->
      Decimal_wf (Decimal_of_uint32 v) /\ scale (Decimal_of_uint32 v) = 0
      /\ Decimal_signed (Decimal_of_uint32 v) 0 = v)
  /\ (0 <= v < 2 ^ 64 ->
      Decimal_wf (Decimal_of_uint64 v) /\ scale (Decimal_of_uint64 v) = 0
      /\ Decimal_signed (Decimal_of_uint64 v) 0 = v).
Proof.
  assert (Hflags : forall (neg : bool) m0 m1,
            0 <= m0 < 2 ^ 32 -> 0 <= m1 < 2 ^ 32 ->
            let d := mkDecimal (if neg then Z.lor 0 DECIMAL_SIGN_MASK else 0) m0 m1 0 in
            Decimal_wf d /\ scale d = 0 /\ isNegative d = neg
            /\ mantissa_value d = m0 + 2 ^ 32 * m1).
  { intros neg m0 m1 H0 H1. cbv zeta.
    unfold Decimal_wf, scale, isNegative, mantissa_value, DECIMAL_MAXIMUM_PLACES.
    cbn [flags mantissa0 mantissa1 mantissa2].
    destruct neg; (repeat split; try reflexivity; try lia); vm_compute; discriminate. }
  assert (Hsplit : forall m, 0 <= m < 2 ^ 64 ->
            0 <= u32 m < 2 ^ 32 /\ 0 <= u32 (Z.shiftr m BITS_PER_UINT32) < 2 ^ 32
            /\ u32 m + 2 ^ 32 * u32 (Z.shiftr m BITS_PER_UINT32) = m).
  { intros m Hm. unfold u32, BITS_PER_UINT32. rewrite Z.shiftr_div_pow2 by lia. zlia. }
  split; [ | split; [ | split ] ]; intros Hv.
  - unfold Decimal_of_int32.
    destruct (Z.ltb_spec v 0).
    + assert (Hm : 0 <= u32 (- v) < 2 ^ 32) by (unfold u32; zlia).
      destruct (Hflags true (u32 (- v)) 0 Hm ltac:(pow_consts; lia)) as (W & S & N & M).
      cbv zeta in *. split; [ exact W | split; [ exact S | ] ].
      unfold Decimal_signed. rewrite N, M, S. unfold u32. change (10 ^ (0 - 0)) with 1. zlia.
    + assert (Hm : 0 <= u32 v < 2 ^ 32) by (unfold u32; zlia).
      destruct (Hflags false (u32 v) 0 Hm ltac:(pow_consts; lia)) as (W & S & N & M).
      cbv zeta in *. split; [ exact W | split; [ exact S | ] ].
      unfold Decimal_signed. rewrite N, M, S. unfold u32. change (10 ^ (0 - 0)) with 1. zlia.
  - unfold Decimal_of_int64.
    destruct (Z.ltb_spec v 0).
    + destruct (Hsplit (- v) ltac:(pow_consts; lia)) as (R0 & R1 & E).
      destruct (Hflags true _ _ R0 R1) as (W & S & N & M).
      cbv zeta in *. split; [ exact W | split; [ exact S | ] ].
      unfold Decimal_signed. rewrite N, M, S, E. change (10 ^ (0 - 0)) with 1. lia.
    + destruct (Hsplit v ltac:(pow_consts; lia)) as (R0 & R1 & E).
      destruct (Hflags false _ _ R0 R1) as (W & S & N & M).
      cbv zeta in *. split; [ exact W | split; [ exact S | ] ].
      unfold Decimal_signed. rewrite N, M, S, E. change (10 ^ (0 - 0)) with 1. lia.
  - unfold Decimal_of_uint32.
    destruct (Hflags false v 0 Hv ltac:(pow_consts; lia)) as (W & S & N & M).
    cbv zeta in *. split; [ exact W | split; [ exact S | ] ].
    unfold Decimal_signed. rewrite N, M, S. change (10 ^ (0 - 0)) with 1. lia.
  - unfold Decimal_of_uint64.
    destruct (Hsplit v Hv) as (R0 & R1 & E).
    destruct (Hflags false _ _ R0 R1) as (W & S & N & M).
    cbv zeta in *. split; [ exact W | split; [ exact S | ] ].
    unfold Decimal_signed. rewrite N, M, S, E. change (10 ^ (0 - 0)) with 1. lia.
Qed.

Section Conversions.
Variable native : bool.

(** The test for the minimum value in [Decimal(const Int128&)]. *)
Lemma is_minimum_value (v : Int128) :
  Int128_wf v ->
  (if native
   then Native.toNative v
        =? i128 (Z.shiftl (i128 INT_128_MIN_NEGATIVE_HIGH) BITS_PER_UINT64)
   else (Emulated.toHigh v =? INT_128_MIN_NEGATIVE_HIGH)
        && (Emulated.toLow v =? INT_128_MIN_NEGATIVE_LOW))
  = (Int128_value v =? - 2 ^ 127).
Proof.
  intros Hv. pose proof (wf_bits_range v Hv) as R.
  destruct native.
  - change (i128 (Z.shiftl (i128 INT_128_MIN_NEGATIVE_HIGH) BITS_PER_UINT64))
      with (- 2 ^ 127).
    reflexivity.
  - destruct v as [l u]. destruct Hv as [Hl Hu].
    unfold Int128_value, bits128, Emulated.toHigh, Emulated.toLow,
      INT_128_MIN_NEGATIVE_HIGH, INT_128_MIN_NEGATIVE_LOW in *;
      cbn [lower64bits upper64bits] in *.
    unfold i128. cbv zeta. rewrite (Z.mod_small (l + 2 ^ 64 * u)) by lia.
    destruct (Z.eqb_spec u 0x8000000000000000); destruct (Z.eqb_spec l 0);
      destruct (Z.ltb_spec (l + 2 ^ 64 * u) (2 ^ 127)); cbn [andb];
      match goal with
      | |- _ = (?x =? ?y) => destruct (Z.eqb_spec x y)
      end; try reflexivity; exfalso; zlia.
Qed.

Lemma Decimal_of_Int128_fields (v : Int128) (Hv : Int128_wf v) :
  Decimal_wf (Decimal_of_Int128 native v)
  /\ scale (Decimal_of_Int128 native v) = 0
  /\ (Z.abs (Int128_value v) < 2 ^ 96 ->
      Decimal_signed (Decimal_of_Int128 native v) 0 = Int128_value v)
  /\ (2 ^ 96 <= Z.abs (Int128_value v) ->
      isNegative (Decimal_of_Int128 native v) = (Int128_value v <? 0)
      /\ mantissa_value (Decimal_of_Int128 native v) = 2 ^ 96 - 1).
Proof.
  pose proof (wf_bits_range v Hv) as R.
  pose proof (i128_range (bits128 v)) as Rv. fold (Int128_value v) in Rv.
  assert (Hmax : forall neg : bool,
            let d := set_sign_if neg
                       (mkDecimal 0 DECIMAL_MAX_MANTISSA_0 DECIMAL_MAX_MANTISSA_1
                          DECIMAL_MAX_MANTISSA_2) in
            Decimal_wf d /\ scale d = 0 /\ isNegative d = neg
            /\ mantissa_value d = 2 ^ 96 - 1).
  { intros neg. cbv zeta.
    destruct neg; vm_compute; repeat split; discriminate || reflexivity. }
  unfold Decimal_of_Int128. cbv zeta.
  rewrite Int128_isZero_bits by assumption.
  rewrite is_minimum_value by assumption.
  rewrite Int128_isNegative_value by assumption.
  assert (Ev0 : bits128 v = 0 <-> Int128_value v = 0).
  { unfold Int128_value, i128. cbv zeta. rewrite (Z.mod_small (bits128 v)) by lia.
    destruct (Z.ltb_spec (bits128 v) (2 ^ 127)); zlia. }
  destruct (Z.eqb_spec (bits128 v) 0) as [E0 | N0].
  { apply Ev0 in E0. rewrite E0.
    split; [ apply Decimal_zero_wf | ]. split; [ reflexivity | ].
    split; [ intros _; reflexivity | ]. intros H. exfalso. pow_consts.
    change (2 ^ 96) with 79228162514264337593543950336 in H. lia. }
  assert (Nv0 : Int128_value v <> 0) by (intros C; apply N0; apply Ev0; exact C).
  destruct (Z.eqb_spec (Int128_value v) (- 2 ^ 127)) as [Emin | Nmin].
  { destruct (Hmax (Int128_value v <? 0)) as (W & S & N & M). cbv zeta in W, S, N, M.
    change (flags Decimal_zero) with 0.
    split; [ exact W | ]. split; [ exact S | ].
    split; [ | intros _; split; assumption ].
    intros H. exfalso. rewrite Emin in H.
    change (2 ^ 96) with 79228162514264337593543950336 in H. pow_consts. lia. }
  destruct (Int128_abs_bits native v Hv) as [Wa Ba].
  rewrite Z.mod_small in Ba by (pow_consts; lia).
  destruct (Int128_words native (Int128_abs native v) Wa) as [_ ->].
  assert (Ehigh : upper64bits (Int128_abs native v) = Z.abs (Int128_value v) / 2 ^ 64).
  { rewrite <- Ba. destruct (Int128_abs native v) as [l u]. destruct Wa as [Hl Hu].
    unfold bits128; cbn [lower64bits upper64bits] in *. zlia. }
  rewrite Ehigh. unfold UINT32_MAX_VALUE. rewrite Z.gtb_ltb.
  set (neg := Int128_value v <? 0).
  assert (Wsign : Decimal_wf (set_sign_if neg Decimal_zero)
                  /\ scale (set_sign_if neg Decimal_zero) = 0
                  /\ isNegative (set_sign_if neg Decimal_zero) = neg).
  { destruct neg; vm_compute; repeat split; discriminate || reflexivity. }
  destruct Wsign as (Ws & Ss & Ns).
  change (2 ^ 96) with 79228162514264337593543950336.
  destruct (Z.ltb_spec 0xFFFFFFFF (Z.abs (Int128_value v) / 2 ^ 64)) as [Hbig | Hfit].
  - (* clamped *)
    assert (Hb : 79228162514264337593543950336 <= Z.abs (Int128_value v)) by zlia.
    assert (E : mkDecimal (flags (set_sign_if neg Decimal_zero))
                  DECIMAL_MAX_MANTISSA_0 DECIMAL_MAX_MANTISSA_1 DECIMAL_MAX_MANTISSA_2
                = set_sign_if neg
                    (mkDecimal 0 DECIMAL_MAX_MANTISSA_0 DECIMAL_MAX_MANTISSA_1
                       DECIMAL_MAX_MANTISSA_2))
      by (destruct neg; reflexivity).
    rewrite E. destruct (Hmax neg) as (W & S & N & M). cbv zeta in W, S, N, M.
    split; [ exact W | ]. split; [ exact S | ].
    split; [ intros H; exfalso; lia | intros _; split; assumption ].
  - (* stored *)
    assert (Hb : Z.abs (Int128_value v) < 79228162514264337593543950336) by zlia.
    destruct (setMantissa_fields native (set_sign_if neg Decimal_zero) _ Wa)
      as (Ef & _ & _ & _ & Em).
    rewrite Ba in Em. change (2 ^ 96) with 79228162514264337593543950336 in Em.
    rewrite Z.mod_small in Em by lia.
    split; [ apply setMantissa_wf; assumption | ].
    split; [ unfold scale; rewrite Ef; exact Ss | ].
    split; [ | intros H; exfalso; lia ].
    intros _. unfold Decimal_signed.
    replace (isNegative (setMantissa native (set_sign_if neg Decimal_zero)
                           (Int128_abs native v))) with neg
      by (unfold isNegative; rewrite Ef; symmetry; exact Ns).
    replace (scale (setMantissa native (set_sign_if neg Decimal_zero)
                      (Int128_abs native v))) with 0
      by (unfold scale; rewrite Ef; symmetry; exact Ss).
    rewrite Em. change (10 ^ (0 - 0)) with 1. unfold neg.
    destruct (Z.ltb_spec (Int128_value v) 0); lia.
Qed.

(** X22.  [Decimal(const Int128&)]: a magnitude below 2^96 is stored as it
    is, so that the Decimal denotes the integer; a larger magnitude is
    clamped to 2^96 - 1, the sign being kept. *)
Theorem Decimal_of_Int128_value (v : Int128) (Hv : Int128_wf v) :
  Decimal_wf (Decimal_of_Int128 native v)
  /\ scale (Decimal_of_Int128 native v) = 0
  /\ (Z.abs (Int128_value v) < 2 ^ 96 ->
      Decimal_signed (Decimal_of_Int128 native v) 0 = Int128_value v)
  /\ (2 ^ 96 <= Z.abs (Int128_value v) ->
      isNegative (Decimal_of_Int128 native v) = (Int128_value v <? 0)
      /\ mantissa_value (Decimal_of_Int128 native v) = 2 ^ 96 - 1).
Proof. exact (Decimal_of_Int128_fields v Hv). Qed.

(** Division of operands that are not negative, on the paths of the
    emulated [operator/] that compute the quotient. *)
Lemma Int128_div_nonneg (a b : Int128) :
  Int128_wf a -> Int128_wf b -> bits128 a < 2 ^ 127 -> 0 < bits128 b < 2 ^ 127 ->
  native = true \/ bits128 b <= 2 ^ 32 \/ 2 ^ 64 <= bits128 b \/ bits128 a < 2 ^ 64 ->
  exists q, Int128_div native a b = Ok q /\ Int128_wf q /\ bits128 q = bits128 a / bits128 b.
Proof.
  intros Ha Hb Ba Bb Hpath.
  pose proof (wf_bits_range a Ha) as Ra. pose proof (wf_bits_range b Hb) as Rb.
  assert (Hnat : exists q, Native.div a b = Ok q /\ Int128_wf q
                           /\ bits128 q = bits128 a / bits128 b).
  { unfold Native.div, Native.toNative.
    rewrite (i128_small (bits128 a)), (i128_small (bits128 b)) by (pow_consts; lia).
    destruct (Z.eqb_spec (bits128 b) 0); [ lia | ].
    eexists. split; [ reflexivity | ]. split; [ apply of_native_wf | ].
    rewrite bits128_of_native, i128_mod, Z.quot_div_nonneg by lia.
    assert (0 <= bits128 a / bits128 b <= bits128 a).
    { split; [ apply Z.div_pos; lia | ]. apply Z.div_le_upper_bound; [ lia | nia ]. }
    apply Z.mod_small. lia. }
  destruct native; [ exact Hnat | ]. cbn.
  assert (Hwords : forall x, Int128_wf x ->
            (upper64bits x = 0 <-> bits128 x < 2 ^ 64)
            /\ (upper64bits x = 0 -> lower64bits x = bits128 x)).
  { intros [l u] [Hl Hu]. unfold bits128; cbn [lower64bits upper64bits] in *.
    split; [ split | ]; intros; zlia. }
  destruct (Hwords a Ha) as [Ua La]. destruct (Hwords b Hb) as [Ub Lb].
  assert (Hlong : upper64bits b <> 0 -> Emulated.div a b = Native.div a b).
  { intros Hu. apply emulated_long_division_native; try assumption.
    - unfold Int128_value. rewrite i128_small by (pow_consts; lia). pow_consts. lia.
    - unfold Int128_value. rewrite i128_small by (pow_consts; lia). pow_consts. lia. }
  destruct (Z.eq_dec (upper64bits b) 0) as [Eb | Nb];
    [ | rewrite (Hlong Nb); exact Hnat ].
  specialize (Lb Eb).
  destruct Hpath as [C | [Hsmall | [Hbig | Hlow]]].
  - discriminate C.
  - destruct (Int128_div_rem_small false a b Ha Ba Hb Eb ltac:(lia))
      as (q & _ & Eq & _ & Wq & _ & Bq & _).
    exists q. rewrite Lb in Bq. repeat split; try assumption; apply Wq.
  - exfalso. apply Ub in Eb. lia.
  - rewrite (emulated_div_matches_native_low_word a b Ha Hb); try assumption.
    + apply Ua. exact Hlow.
    + lia.
Qed.

(** [Int128(const Decimal&)] drops the fractional digits: the result is
    the integer part of the number, toward zero.  In the emulated build
    this is shown for the scales and mantissas named in [Hpath]. *)
Lemma Int128_of_Decimal_spec (d : Decimal) (Hd : Decimal_wf d)
  (Hpath : native = true \/ scale d <= 9 \/ 20 <= scale d \/ mantissa2 d = 0) :
  exists x,
    Int128_of_Decimal native d = Ok x
    /\ Int128_wf x
    /\ Int128_value x
       = (if isNegative d then -1 else 1) * (mantissa_value d / 10 ^ scale d).
Proof.
  pose proof (mantissa_value_range d Hd) as Rm. pose proof (scale_range d) as Sd.
  assert (Sd28 : scale d <= 28) by (destruct Hd as (_ & H & _); exact H).
  assert (P10 : 0 < 10 ^ scale d) by (apply Z.pow_pos_nonneg; lia).
  change (2 ^ 96) with 79228162514264337593543950336 in Rm.
  unfold Int128_of_Decimal. rewrite isZero_value by assumption.
  destruct (Z.eqb_spec (mantissa_value d) 0) as [E0 | N0].
  { exists (Int128_of_int64 native 0). split; [ reflexivity | ].
    split; [ apply Int128_of_int64_wf | ].
    rewrite Int128_value_of_int64 by (pow_consts; lia).
    rewrite E0, Z.div_0_l by lia. destruct (isNegative d); reflexivity. }
  cbv zeta.
  (* the mantissa as an Int128 *)
  set (ip := Int128_of_words native
               (Z.lor (u64 (Z.shiftl (mantissa1 d) BITS_PER_UINT32)) (mantissa0 d))
               (mantissa2 d)).
  assert (Hip : Int128_wf ip /\ bits128 ip = mantissa_value d).
  { destruct Hd as (_ & _ & H0 & H1 & H2).
    assert (El : Z.lor (u64 (Z.shiftl (mantissa1 d) BITS_PER_UINT32)) (mantissa0 d)
                 = mantissa1 d * 2 ^ 32 + mantissa0 d).
    { unfold u64, BITS_PER_UINT32. rewrite Z.shiftl_mul_pow2 by lia.
      rewrite (Z.mod_small (mantissa1 d * 2 ^ 32)) by zlia.
      rewrite <- (lor_disjoint_add (mantissa1 d) (mantissa0 d) 32) by lia.
      rewrite Z.shiftl_mul_pow2 by lia. reflexivity. }
    unfold ip. rewrite El.
    destruct (Int128_of_words_bits native (mantissa1 d * 2 ^ 32 + mantissa0 d) (mantissa2 d))
      as [W B]; [ zlia | zlia | ].
    split; [ exact W | ]. rewrite B. unfold mantissa_value. ring. }
  destruct Hip as [Wip Bip]. clearbody ip.
  (* the quotient *)
  assert (Hq : exists q,
            (if scale d >? 0
             then Int128_div native ip
                    (Nat.iter (Z.to_nat (scale d))
                       (fun divisor => Int128_mul native divisor
                                         (Int128_of_int64 native INT_128_BASE))
                       (Int128_of_int64 native 1))
             else Ok ip) = Ok q
            /\ Int128_wf q /\ bits128 q = mantissa_value d / 10 ^ scale d).
  { rewrite Z.gtb_ltb. destruct (Z.ltb_spec 0 (scale d)) as [Hpos | Hz].
    - assert (E10 : Int128_of_int64 native INT_128_BASE
                    = Int128_of_uint64 native DECIMAL_BASE) by (destruct native; reflexivity).
      rewrite E10.
      pose proof (iterated_times_ten native (Z.to_nat (scale d))) as H. cbv zeta in H.
      destruct H as [Wd Bd]. rewrite Z2Nat.id in Bd by lia.
      assert (H38 : 10 ^ scale d <= 10 ^ 28) by (apply Z.pow_le_mono_r; lia).
      change (10 ^ 28) with 10000000000000000000000000000 in H38.
      rewrite Z.mod_small in Bd by (pow_consts; lia).
      set (divisor := Nat.iter (Z.to_nat (scale d))
                        (fun result => Int128_mul native result
                                         (Int128_of_uint64 native DECIMAL_BASE))
                        (Int128_of_int64 native 1)) in *.
      clearbody divisor.
      destruct (Int128_div_nonneg ip divisor Wip Wd) as (q & Eq & Wq & Bq).
      + rewrite Bip. pow_consts. lia.
      + rewrite Bd. pow_consts. lia.
      + rewrite Bd, Bip.
        destruct Hpath as [C | [C | [C | C]]].
        * left. exact C.
        * right. left. apply Z.le_trans with (10 ^ 9); [ apply Z.pow_le_mono_r; lia | ].
          vm_compute. discriminate.
        * right. right. left.
          apply Z.le_trans with (10 ^ 20); [ vm_compute; discriminate | ].
          apply Z.pow_le_mono_r; lia.
        * right. right. right.
          destruct Hd as (_ & _ & H0 & H1 & H2). unfold mantissa_value. rewrite C. zlia.
      + exists q. split; [ exact Eq | ]. split; [ exact Wq | ]. rewrite Bq, Bip, Bd.
        reflexivity.
    - exists ip. split; [ reflexivity | ]. split; [ exact Wip | ].
      replace (scale d) with 0 by lia. change (10 ^ 0) with 1. rewrite Z.div_1_r. exact Bip. }
  destruct Hq as (q & -> & Wq & Bq). cbn [bind].
  assert (Rq : 0 <= mantissa_value d / 10 ^ scale d <= mantissa_value d).
  { split; [ apply Z.div_pos; lia | ]. apply Z.div_le_upper_bound; [ lia | nia ]. }
  eexists. split; [ reflexivity | ].
  destruct (isNegative d).
  - split; [ apply Int128_neg_wf | ].
    unfold Int128_value. rewrite Int128_neg_bits, Bq by assumption.
    unfold i128. rewrite Z.mod_mod by lia.
    fold (i128 (- (mantissa_value d / 10 ^ scale d))).
    rewrite i128_small by (pow_consts; lia). ring.
  - split; [ exact Wq | ].
    unfold Int128_value. rewrite Bq, i128_small by (pow_consts; lia). ring.
Qed.

(** X23.  [Int128(const Decimal&)] drops the fractional digits: the result is
    the integer part of the number, toward zero.  The native build does
    so for every value; the emulated build for every value whose scale
    is at most 9 or at least 20, or whose mantissa has a zero third
    word. *)
Theorem Int128_of_Decimal_truncates (d : Decimal) (Hd : Decimal_wf d)
  (Hpath : native = true \/ scale d <= 9 \/ 20 <= scale d \/ mantissa2 d = 0) :
  exists x,
    Int128_of_Decimal native d = Ok x
    /\ Int128_wf x
    /\ Int128_value x
       = (if isNegative d then -1 else 1) * (mantissa_value d / 10 ^ scale d).
Proof. exact (Int128_of_Decimal_spec d Hd Hpath). Qed.

(** X24.  An Int128 of magnitude below 2^96 converted to Decimal and back is
    the same Int128. *)
Theorem Int128_Decimal_round_trip (v : Int128) (Hv : Int128_wf v)
  (Hfit : Z.abs (Int128_value v) < 2 ^ 96) :
  Int128_of_Decimal native (Decimal_of_Int128 native v) = Ok v.
Proof.
  destruct (Decimal_of_Int128_fields v Hv) as (W & S & Hval & _).
  specialize (Hval Hfit).
  destruct (Int128_of_Decimal_spec (Decimal_of_Int128 native v) W) as (x & -> & Wx & Vx).
  { right. left. rewrite S. lia. }
  f_equal. apply Int128_value_inj; try assumption.
  rewrite Vx, <- Hval. unfold Decimal_signed. rewrite S.
  change (10 ^ (0 - 0)) with 1. change (10 ^ 0) with 1. rewrite Z.div_1_r. ring.
Qed.

End Conversions.

Lemma Decimal_of_builtin_integer_witness :
  Decimal_wf (Decimal_of_int64 (-5000000000)) /\ scale (Decimal_of_int64 (-5000000000)) = 0
  /\ Decimal_signed (Decimal_of_int64 (-5000000000)) 0 = -5000000000.
Proof.
  apply (Decimal_of_builtin_integer (-5000000000)). pow_consts. lia.
Defined.

Lemma Decimal_of_Int128_value_witness :
  Decimal_wf (Decimal_of_Int128 false (Emulated.of_int64 (-42)))
  /\ scale (Decimal_of_Int128 false (Emulated.of_int64 (-42))) = 0
  /\ (Z.abs (Int128_value (Emulated.of_int64 (-42))) < 2 ^ 96 ->
      Decimal_signed (Decimal_of_Int128 false (Emulated.of_int64 (-42))) 0
      = Int128_value (Emulated.of_int64 (-42)))
  /\ (2 ^ 96 <= Z.abs (Int128_value (Emulated.of_int64 (-42))) ->
      isNegative (Decimal_of_Int128 false (Emulated.of_int64 (-42)))
      = (Int128_value (Emulated.of_int64 (-42)) <? 0)
      /\ mantissa_value (Decimal_of_Int128 false (Emulated.of_int64 (-42))) = 2 ^ 96 - 1).
Proof.
  apply (Decimal_of_Int128_value false (Emulated.of_int64 (-42))).
  vm_compute; repeat split; discriminate.
Defined.

Lemma Int128_of_Decimal_truncates_witness :
  exists x,
    Int128_of_Decimal false (mkDecimal 0x80020000 12399 0 0) = Ok x
    /\ Int128_wf x
    /\ Int128_value x
       = (if isNegative (mkDecimal 0x80020000 12399 0 0) then -1 else 1)
         * (mantissa_value (mkDecimal 0x80020000 12399 0 0)
            / 10 ^ scale (mkDecimal 0x80020000 12399 0 0)).
Proof.
  apply (Int128_of_Decimal_truncates false (mkDecimal 0x80020000 12399 0 0)).
  - vm_compute; repeat split; discriminate || reflexivity.
  - right. left. vm_compute. discriminate.
Defined.

Lemma Int128_Decimal_round_trip_witness :
  Int128_of_Decimal false (Decimal_of_Int128 false (Emulated.of_int64 (-42)))
  = Ok (Emulated.of_int64 (-42)).
Proof.
  apply (Int128_Decimal_round_trip false (Emulated.of_int64 (-42))).
  - vm_compute; repeat split; discriminate.
  - vm_compute. reflexivity.
Defined.

(** ** Decimal::tryParse and Decimal::toString *)

Section ParseLiteral.
Variable native : bool.

Lemma Int128_neqb_zero_bits m :
  Int128_wf m -> bits128 m = 0 ->
  Int128_neqb native m (Int128_of_int64 native 0) = false.
Proof.
  intros Hm Hz.
  assert (E : m = mkInt128 0 0).
  { apply wf_bits_inj; [ assumption | vm_compute; repeat split; discriminate | exact Hz ]. }
  rewrite E. destruct native; reflexivity.
Qed.

(** One more digit in the mantissa. *)
Lemma next_digit_bits (mant : Int128) (c : ascii) (m : Z) :
  Int128_wf mant -> is_digit c -> 0 <= m < 38 -> 0 <= bits128 mant < 10 ^ m ->
  let mant' := Int128_add native
                 (Int128_mul native mant (Int128_of_uint64 native DECIMAL_BASE))
                 (Int128_of_uint64 native (code c - 48)) in
  Int128_wf mant'
  /\ bits128 mant' = bits128 mant * 10 + (code c - 48)
  /\ 0 <= bits128 mant' < 10 ^ (m + 1).
Proof.
  intros Wm Hc Hm Bm. cbv zeta.
  pose proof (proj1 (is_digit_code c) Hc) as Rc.
  assert (Hpow : 10 ^ (m + 1) = 10 * 10 ^ m) by (rewrite Z.pow_add_r by lia; lia).
  assert (Hle : 10 ^ (m + 1) <= 10 ^ 38) by (apply Z.pow_le_mono_r; lia).
  change (10 ^ 38) with 100000000000000000000000000000000000000 in Hle.
  split; [ apply Int128_add_wf | ].
  assert (E : bits128 (Int128_add native
                         (Int128_mul native mant (Int128_of_uint64 native DECIMAL_BASE))
                         (Int128_of_uint64 native (code c - 48)))
              = bits128 mant * 10 + (code c - 48)).
  { rewrite Int128_add_bits, Int128_mul_bits, !Int128_of_uint64_bits
      by (try apply Int128_mul_wf; try apply Int128_of_uint64_wf; try assumption;
          unfold DECIMAL_BASE; zlia).
    unfold DECIMAL_BASE. rewrite Z.add_mod_idemp_l by lia.
    apply Z.mod_small. pow_consts. lia. }
  rewrite E. split; [ reflexivity | lia ].
Qed.

(** The digit loop over leading zeros of the integer part: nothing is
    counted and the mantissa stays zero. *)
Lemma accumulate_leading_zeros (k : nat) : forall i dp st rest,
  Int128_wf (ps_mantissaValue st) -> bits128 (ps_mantissaValue st) = 0 ->
  ps_significantDigits st = 0 ->
  (forall j, (i <= j < i + k)%nat -> after_point dp j = false) ->
  exists st',
    accumulate_digits native (repeat "0"%char k ++ rest) i dp st
    = accumulate_digits native rest (i + k) dp st'
    /\ Int128_wf (ps_mantissaValue st') /\ bits128 (ps_mantissaValue st') = 0
    /\ ps_significantDigits st' = 0
    /\ ps_hasDigits st' = (ps_hasDigits st || negb (k =? 0)%nat)
    /\ ps_currentScale st' = ps_currentScale st.
Proof.
  induction k as [|k IH]; intros i dp st rest Wm Bm Hsig Hap.
  - exists st. cbn [repeat app Nat.eqb negb]. rewrite Nat.add_0_r, orb_false_r.
    split; [ reflexivity | ]. split; [ exact Wm | ]. split; [ exact Bm | ].
    split; [ exact Hsig | split; reflexivity ].
  - cbn [repeat app accumulate_digits].
    change (is_char "0" ".") with false. change (not_a_digit "0") with false. cbv iota.
    rewrite Hsig. change (0 >=? DECIMAL_MAXIMUM_PLACES) with false. cbv iota.
    change (code "0" - 48) with 0. change (negb (0 =? 0)) with false.
    rewrite Int128_neqb_zero_bits by assumption.
    rewrite (Hap i) by lia. cbn [orb].
    set (mant' := Int128_add native
                    (Int128_mul native (ps_mantissaValue st)
                       (Int128_of_uint64 native DECIMAL_BASE))
                    (Int128_of_uint64 native 0)).
    assert (Wm' : Int128_wf mant') by apply Int128_add_wf.
    assert (Bm' : bits128 mant' = 0).
    { unfold mant'.
      rewrite Int128_add_bits, Int128_mul_bits, !Int128_of_uint64_bits, Bm
        by (try apply Int128_mul_wf; try apply Int128_of_uint64_wf; try assumption;
            unfold DECIMAL_BASE; zlia).
      reflexivity. }
    clearbody mant'.
    destruct (IH (S i) dp
                (mkParseState mant' true 0 (ps_decimalDigitsProcessed st) (ps_currentScale st))
                rest Wm' Bm' eq_refl) as (st' & E & W' & B' & S' & H' & C').
    { intros j Hj. apply Hap. lia. }
    exists st'. rewrite E. replace (S i + k)%nat with (i + S k)%nat by lia.
    cbn [ps_hasDigits ps_currentScale] in H', C'.
    split; [ reflexivity | ]. split; [ exact W' | ]. split; [ exact B' | ].
    split; [ exact S' | ]. split; [ | exact C' ].
    rewrite H'. rewrite orb_true_r. reflexivity.
Qed.

(** The digit loop over a run of digits that stays below the limit of
    28 significant digits. *)
Lemma accumulate_run (q : list ascii) : forall i dp st rest m,
  Forall is_digit q ->
  Int128_wf (ps_mantissaValue st) ->
  0 <= m -> 0 <= bits128 (ps_mantissaValue st) < 10 ^ m ->
  m + Z.of_nat (List.length q) <= 28 ->
  0 <= ps_significantDigits st ->
  ps_significantDigits st + Z.of_nat (List.length q) <= 28 ->
  exists st',
    accumulate_digits native (q ++ rest) i dp st
    = accumulate_digits native rest (i + List.length q) dp st'
    /\ Int128_wf (ps_mantissaValue st')
    /\ bits128 (ps_mantissaValue st') = digits_value q (bits128 (ps_mantissaValue st))
    /\ 0 <= bits128 (ps_mantissaValue st') < 10 ^ (m + Z.of_nat (List.length q))
    /\ 0 <= ps_significantDigits st' <= ps_significantDigits st + Z.of_nat (List.length q)
    /\ ps_hasDigits st' = (ps_hasDigits st || negb (List.length q =? 0)%nat)
    /\ ps_currentScale st' = ps_currentScale st.
Proof.
  induction q as [|c q IH]; intros i dp st rest m Hq Wm Hm Bm Hlen Hsig Hsig28.
  - exists st. cbn [app List.length digits_value Nat.eqb negb].
    rewrite Nat.add_0_r, orb_false_r. change (Z.of_nat 0) with 0. rewrite !Z.add_0_r.
    split; [ reflexivity | ]. split; [ exact Wm | ]. split; [ reflexivity | ].
    split; [ exact Bm | ]. split; [ lia | split; reflexivity ].
  - pose proof (Forall_inv Hq) as Hc. pose proof (Forall_inv_tail Hq) as Hq'.
    cbn [List.length] in *. rewrite Nat2Z.inj_succ in *.
    cbn [app accumulate_digits]. rewrite (is_digit_not_point c Hc), Hc.
    destruct (Z.geb_spec (ps_significantDigits st) DECIMAL_MAXIMUM_PLACES) as [Hge|_];
      [ unfold DECIMAL_MAXIMUM_PLACES in Hge; lia | ].
    destruct (next_digit_bits (ps_mantissaValue st) c m Wm Hc ltac:(lia) Bm)
      as (W1 & B1 & R1).
    cbv zeta in W1, B1, R1.
    set (mant' := Int128_add native
                    (Int128_mul native (ps_mantissaValue st)
                       (Int128_of_uint64 native DECIMAL_BASE))
                    (Int128_of_uint64 native (code c - 48))) in *.
    clearbody mant'.
    set (sig' := if negb (code c - 48 =? 0)
                    || Int128_neqb native (ps_mantissaValue st) (Int128_of_int64 native 0)
                    || after_point dp i
                 then u8 (ps_significantDigits st + 1)
                 else ps_significantDigits st).
    assert (Hsig' : ps_significantDigits st <= sig' <= ps_significantDigits st + 1).
    { unfold sig'.
      destruct (negb (code c - 48 =? 0)
                || Int128_neqb native (ps_mantissaValue st) (Int128_of_int64 native 0)
                || after_point dp i); [ | lia ].
      unfold u8. rewrite Z.mod_small by zlia. lia. }
    clearbody sig'.
    destruct (IH (S i) dp
                (mkParseState mant' true sig'
                   (if after_point dp i
                    then u8 (ps_decimalDigitsProcessed st + 1)
                    else ps_decimalDigitsProcessed st)
                   (ps_currentScale st)) rest (m + 1))
      as (st' & E & W' & B' & R' & S' & H' & C');
      cbn [ps_mantissaValue ps_hasDigits ps_significantDigits ps_currentScale];
      try assumption; try lia.
    exists st'. rewrite E. replace (S i + List.length q)%nat with (i + S (List.length q))%nat
      by lia.
    cbn [ps_mantissaValue ps_hasDigits ps_significantDigits ps_currentScale] in *.
    split; [ reflexivity | ]. split; [ exact W' | ].
    split; [ rewrite B', B1; reflexivity | ].
    split; [ replace (m + Z.succ (Z.of_nat (List.length q)))
               with (m + 1 + Z.of_nat (List.length q)) by lia; exact R' | ].
    split; [ lia | ]. split; [ | exact C' ].
    rewrite H'. rewrite orb_true_r. reflexivity.
Qed.

Lemma find_decimal_point_once (a b : list ascii) : forall i,
  Forall is_digit a -> Forall is_digit b ->
  find_decimal_point (a ++ "."%char :: b) i None 0 = Some (Some (i + List.length a)%nat).
Proof.
  induction a as [|c a IH]; intros i Ha Hb.
  - cbn [app find_decimal_point List.length]. change (is_char "." ".") with true. cbv iota.
    cbn [Nat.ltb Nat.leb]. rewrite Nat.add_0_r.
    apply find_decimal_point_digits. exact Hb.
  - cbn [app find_decimal_point List.length].
    rewrite (is_digit_not_point c (Forall_inv Ha)).
    rewrite (IH (S i) (Forall_inv_tail Ha) Hb). do 2 f_equal. lia.
Qed.

Lemma zeros_are_digits (k : nat) : Forall is_digit (repeat "0"%char k).
Proof. induction k; cbn [repeat]; constructor; [ reflexivity | assumption ]. Qed.

(** The digit loop over a whole literal: leading zeros, integer digits
    and, after the point, fractional digits. *)
Lemma accumulate_literal (point : bool) (k : nat) (ip fp : list ascii) (pos : nat) (cs0 : Z) :
  Forall is_digit ip -> Forall is_digit fp ->
  (0 < k + List.length ip + List.length fp)%nat ->
  (List.length ip + List.length fp <= 28)%nat ->
  (point = false -> fp = []) ->
  exists mant sig ddp,
    accumulate_digits native
      (repeat "0"%char k ++ ip ++ (if point then "."%char :: fp else [])) pos
      (if point then Some (pos + k + List.length ip)%nat else None)
      (mkParseState (Int128_zero native) false 0 0 cs0)
    = Some (mkParseState mant true sig ddp cs0)
    /\ Int128_wf mant
    /\ bits128 mant = digits_value (ip ++ if point then fp else []) 0
    /\ 0 <= bits128 mant < 10 ^ 28.
Proof.
  intros Hip Hfp Hdigits Hlen Hpoint.
  destruct (Int128_zero_bits native) as [Bz Wz].
  set (dp := if point then Some (pos + k + List.length ip)%nat else None).
  assert (Hbefore : forall j, (j <= pos + k + List.length ip)%nat -> after_point dp j = false).
  { intros j Hj. unfold dp. destruct point; [ | reflexivity ].
    cbn [after_point]. apply Nat.ltb_ge. lia. }
  destruct (accumulate_leading_zeros k pos dp
              (mkParseState (Int128_zero native) false 0 0 cs0)
              (ip ++ (if point then "."%char :: fp else [])) Wz Bz eq_refl)
    as (st1 & E1 & W1 & B1 & S1 & H1 & C1).
  { intros j Hj. apply Hbefore. lia. }
  rewrite E1. clear E1.
  assert (A1 : 0 <= bits128 (ps_mantissaValue st1) < 10 ^ 0) by (rewrite B1; cbn; lia).
  assert (A2 : 0 + Z.of_nat (List.length ip) <= 28) by lia.
  assert (A3 : 0 <= ps_significantDigits st1) by lia.
  assert (A4 : ps_significantDigits st1 + Z.of_nat (List.length ip) <= 28) by lia.
  destruct (accumulate_run ip (pos + k) dp st1 (if point then "."%char :: fp else []) 0
              Hip W1 (Z.le_refl 0) A1 A2 A3 A4)
    as (st2 & E2 & W2 & B2 & R2 & S2 & H2 & C2).
  rewrite E2. clear E2 A1 A2 A3 A4. rewrite B1 in B2. rewrite S1 in S2. rewrite H1 in H2. rewrite C1 in C2.
  cbn [ps_hasDigits ps_currentScale orb] in H2, C2.
  destruct point.
  - cbn [accumulate_digits]. change (is_char "." ".") with true. cbv iota.
    assert (A1 : 0 <= 0 + Z.of_nat (List.length ip)) by lia.
    assert (A2 : 0 + Z.of_nat (List.length ip) + Z.of_nat (List.length fp) <= 28) by lia.
    assert (A3 : 0 <= ps_significantDigits st2) by lia.
    assert (A4 : ps_significantDigits st2 + Z.of_nat (List.length fp) <= 28) by lia.
    destruct (accumulate_run fp (S (pos + k + List.length ip)) dp st2 []
                (0 + Z.of_nat (List.length ip)) Hfp W2 A1 R2 A2 A3 A4)
      as (st3 & E3 & W3 & B3 & R3 & S3 & H3 & C3).
    rewrite app_nil_r in E3. rewrite E3. clear E3. cbn [accumulate_digits].
    destruct st3 as [mant h sig ddp cs].
    cbn [ps_mantissaValue ps_hasDigits ps_significantDigits ps_currentScale] in *.
    exists mant, sig, ddp.
    assert (Hh : h = true).
    { rewrite H3, H2. destruct k; [ | reflexivity ].
      destruct ip; [ | reflexivity ]. destruct fp; [ cbn in Hdigits; lia | reflexivity ]. }
    rewrite Hh, C3, C2. split; [ reflexivity | ]. split; [ exact W3 | ].
    split; [ rewrite B3, B2, digits_value_app; reflexivity | ].
    split; [ lia | ]. eapply Z.lt_le_trans; [ apply R3 | ]. apply Z.pow_le_mono_r; lia.
  - rewrite !app_nil_r in *. cbn [accumulate_digits].
    destruct st2 as [mant h sig ddp cs].
    cbn [ps_mantissaValue ps_hasDigits ps_significantDigits ps_currentScale] in *.
    exists mant, sig, ddp.
    assert (Hh : h = true).
    { rewrite H2. rewrite (Hpoint eq_refl) in Hdigits. destruct k; [ | reflexivity ].
      destruct ip; [ cbn in Hdigits; lia | reflexivity ]. }
    rewrite Hh, C2. split; [ reflexivity | ]. split; [ exact W2 | ].
    split; [ exact B2 | ]. split; [ lia | ].
    eapply Z.lt_le_trans; [ apply R2 | ]. apply Z.pow_le_mono_r; lia.
Qed.

(** The value [tryParse] assembles from sign, scale and mantissa. *)
Lemma parsed_result (negative : bool) (cs : Z) (mant : Int128) :
  0 <= cs <= 28 -> Int128_wf mant -> 0 <= bits128 mant < 10 ^ 28 ->
  let result := set_sign_if negative Decimal_zero in
  let result :=
    set_flags result (Z.lor (flags result) (u32 (Z.shiftl cs DECIMAL_SCALE_SHIFT))) in
  let low := Int128_toLow native mant in
  let high := Int128_toHigh native mant in
  let result :=
    mkDecimal (flags result) (u32 low) (u32 (Z.shiftr low BITS_PER_UINT32)) (u32 high) in
  (Int128_toHigh native mant >? UINT32_MAX_VALUE) = false
  /\ Decimal_wf result /\ scale result = cs /\ isNegative result = negative
  /\ mantissa_value result = bits128 mant.
Proof.
  intros Hcs Wm Bm. cbv zeta.
  change (10 ^ 28) with 10000000000000000000000000000 in Bm.
  destruct (Int128_words_of_bits native mant Wm ltac:(pow_consts; lia)) as [-> ->].
  split; [ rewrite Z.gtb_ltb; apply Z.ltb_ge; unfold UINT32_MAX_VALUE; zlia | ].
  assert (Ef : flags (set_sign_if negative Decimal_zero)
               = (if negative then DECIMAL_SIGN_MASK else 0))
    by (destruct negative; reflexivity).
  cbn [set_flags flags]. rewrite Ef.
  set (m0 := u32 (bits128 mant mod 2 ^ 64)).
  set (m1 := u32 (Z.shiftr (bits128 mant mod 2 ^ 64) BITS_PER_UINT32)).
  set (m2 := u32 (bits128 mant / 2 ^ 64)).
  assert (Hm : 0 <= m0 < 2 ^ 32 /\ 0 <= m1 < 2 ^ 32 /\ 0 <= m2 < 2 ^ 32
               /\ m0 + 2 ^ 32 * m1 + 2 ^ 64 * m2 = bits128 mant).
  { unfold m0, m1, m2, u32, BITS_PER_UINT32. rewrite Z.shiftr_div_pow2 by lia. zlia. }
  destruct Hm as (R0 & R1 & R2 & Ev). clearbody m0 m1 m2.
  destruct (result_flags_fields negative cs (mkDecimal 0 m0 m1 m2) Hcs R0 R1 R2)
    as (W & S & N & M).
  cbv zeta in W, S, N, M. unfold set_flags in W, S, N, M.
  cbn [flags mantissa0 mantissa1 mantissa2] in W, S, N, M.
  split; [ exact W | ]. split; [ exact S | ]. split; [ exact N | ].
  rewrite M. unfold mantissa_value. cbn [mantissa0 mantissa1 mantissa2]. exact Ev.
Qed.

(** The literals [tryParse] reads exactly. *)
Lemma Decimal_tryParse_digits (negative plus point : bool) (k : nat) (ip fp : list ascii)
  (Hip : Forall is_digit ip) (Hfp : Forall is_digit fp)
  (Hdigits : (0 < k + List.length ip + List.length fp)%nat)
  (Hlen : (List.length ip + List.length fp <= 28)%nat)
  (Hpoint : point = false -> fp = []) :
  exists r,
    Decimal_tryParse native
      (string_of_list_ascii
         ((if negative then chars "-" else if plus then chars "+" else [])
          ++ repeat "0"%char k ++ ip ++ (if point then "."%char :: fp else []))%list)
    = Some r
    /\ Decimal_wf r
    /\ isNegative r = negative
    /\ scale r <= Z.of_nat (List.length fp)
    /\ Decimal_signed r (Z.of_nat (List.length fp))
       = (if negative then -1 else 1) * digits_value (ip ++ fp) 0
    /\ (scale r = 0 \/ mantissa_value r mod 10 <> 0).
Proof.
  set (body := (repeat "0"%char k ++ ip ++ (if point then "."%char :: fp else []))%list).
  (* the body starts with a digit or with the point *)
  assert (Hbody : exists c body', body = c :: body'
                                  /\ is_char c "-" = false /\ is_char c "+" = false).
  { unfold body. destruct k as [|k'].
    - destruct ip as [|c ip'].
      + destruct point.
        * exists "."%char, fp. repeat split.
        * rewrite (Hpoint eq_refl) in Hdigits. cbn in Hdigits. lia.
      + exists c, (ip' ++ (if point then "."%char :: fp else []))%list.
        destruct (digit_not_sign c (Forall_inv Hip)) as [-> ->]. repeat split.
    - exists "0"%char,
        (repeat "0"%char k' ++ ip ++ (if point then "."%char :: fp else []))%list.
      repeat split. }
  destruct Hbody as (c & body' & Ebody & Hminus & Hplus).
  (* the facts about the body, for either start position *)
  assert (Hfind : forall pos,
            find_decimal_point body pos None 0
            = Some (if point then Some (pos + k + List.length ip)%nat else None)).
  { intros pos. unfold body. destruct point.
    - rewrite app_assoc. rewrite find_decimal_point_once.
      + rewrite length_app, repeat_length. do 2 f_equal. lia.
      + apply Forall_app. split; [ apply zeros_are_digits | exact Hip ].
      + exact Hfp.
    - rewrite app_nil_r. apply find_decimal_point_digits.
      apply Forall_app. split; [ apply zeros_are_digits | exact Hip ]. }
  assert (Hlenb : List.length body
                  = (k + List.length ip + if point then S (List.length fp) else 0)%nat).
  { unfold body. rewrite !length_app, repeat_length. destruct point; cbn [List.length]; lia. }
  assert (Hscale : forall pos,
            match (if point then Some (pos + k + List.length ip)%nat else None) with
            | Some p =>
                let currentScale :=
                  u8 (Z.of_nat (pos + List.length body) - Z.of_nat p - 1) in
                if currentScale >? DECIMAL_MAXIMUM_PLACES
                then DECIMAL_MAXIMUM_PLACES else currentScale
            | None => 0
            end = Z.of_nat (List.length fp)).
  { intros pos. rewrite Hlenb. destruct point.
    - cbv zeta.
      replace (Z.of_nat (pos + (k + List.length ip + S (List.length fp)))
               - Z.of_nat (pos + k + List.length ip) - 1)
        with (Z.of_nat (List.length fp)) by lia.
      unfold u8. rewrite Z.mod_small by zlia.
      rewrite Z.gtb_ltb. unfold DECIMAL_MAXIMUM_PLACES.
      destruct (Z.ltb_spec 28 (Z.of_nat (List.length fp))); [ lia | reflexivity ].
    - rewrite (Hpoint eq_refl). reflexivity. }
  assert (Hacc : forall pos,
            exists mant sig ddp,
              accumulate_digits native body pos
                (if point then Some (pos + k + List.length ip)%nat else None)
                (mkParseState (Int128_zero native) false 0 0 (Z.of_nat (List.length fp)))
              = Some (mkParseState mant true sig ddp (Z.of_nat (List.length fp)))
              /\ Int128_wf mant
              /\ bits128 mant = digits_value (ip ++ fp) 0
              /\ 0 <= bits128 mant < 10 ^ 28).
  { intros pos.
    destruct (accumulate_literal point k ip fp pos (Z.of_nat (List.length fp))
                Hip Hfp Hdigits Hlen Hpoint) as (mant & sig & ddp & E & W & B & R).
    exists mant, sig, ddp. split; [ exact E | ]. split; [ exact W | ]. split; [ | exact R ].
    rewrite B. destruct point; [ reflexivity | ]. rewrite (Hpoint eq_refl). reflexivity. }
  (* what follows the search for the point and the digit loop *)
  assert (Hrest : forall pos,
            exists r,
              match find_decimal_point body pos None 0 with
              | None => Ok None
              | Some decimalPos =>
                  let currentScale :=
                    match decimalPos with
                    | Some p =>
                        let currentScale :=
                          u8 (Z.of_nat (pos + List.length body) - Z.of_nat p - 1) in
                        if currentScale >? DECIMAL_MAXIMUM_PLACES
                        then DECIMAL_MAXIMUM_PLACES else currentScale
                    | None => 0
                    end in
                  match accumulate_digits native body pos decimalPos
                          (mkParseState (Int128_zero native) false 0 0 currentScale) with
                  | None => Ok None
                  | Some st =>
                      if negb (ps_hasDigits st) then Ok None
                      else
                        let mantissaValue := ps_mantissaValue st in
                        let currentScale := ps_currentScale st in
                        ' (mantissaValue, currentScale) <-
                           (if Int128_toHigh native mantissaValue >? UINT32_MAX_VALUE
                            then
                              ' (mantissaValue, currentScale) <-
                                 fit_by_scale native 40 mantissaValue currentScale ;;
                              mantissaValue <- fit_by_integer native 40 mantissaValue ;;
                              Ok (mantissaValue, currentScale)
                            else Ok (mantissaValue, currentScale)) ;;
                        let result := Decimal_zero in
                        let result := set_sign_if negative result in
                        let result :=
                          set_flags result
                            (Z.lor (flags result)
                                   (u32 (Z.shiftl currentScale DECIMAL_SCALE_SHIFT))) in
                        let low := Int128_toLow native mantissaValue in
                        let high := Int128_toHigh native mantissaValue in
                        let result :=
                          mkDecimal (flags result) (u32 low)
                            (u32 (Z.shiftr low BITS_PER_UINT32)) (u32 high) in
                        result <- normalize native result ;;
                        Ok (Some result)
                  end
              end = Ok (Some r)
              /\ Decimal_wf r
              /\ isNegative r = negative
              /\ scale r <= Z.of_nat (List.length fp)
              /\ Decimal_signed r (Z.of_nat (List.length fp))
                 = (if negative then -1 else 1) * digits_value (ip ++ fp) 0
              /\ (scale r = 0 \/ mantissa_value r mod 10 <> 0)).
  { intros pos. rewrite Hfind. cbv zeta. rewrite Hscale.
    destruct (Hacc pos) as (mant & sig & ddp & -> & Wm & Bm & Rm).
    cbn [ps_hasDigits ps_mantissaValue ps_currentScale negb].
    pose proof (parsed_result negative (Z.of_nat (List.length fp)) mant ltac:(lia) Wm Rm) as P.
    cbv zeta in P. destruct P as (Ehigh & W & S & N & M).
    rewrite Ehigh. cbn [bind].
    destruct (normalize_spec native _ W) as (r & -> & Wr & Nr & Sr & Mr & Hnorm).
    cbn [bind]. exists r. split; [ reflexivity | ]. split; [ exact Wr | ].
    rewrite N in Nr. rewrite S in Sr, Mr. rewrite M, Bm in Mr.
    split; [ exact Nr | ]. split; [ exact Sr | ]. split; [ | exact Hnorm ].
    unfold Decimal_signed. rewrite Nr, <- Mr. reflexivity. }
  clearbody body. subst body.
  unfold Decimal_tryParse, tryParse_body, chars.
  rewrite list_ascii_of_string_of_list_ascii.
  destruct negative; [ | destruct plus ].
  - destruct (Hrest 1%nat) as (r & E & Hr).
    cbn [chars list_ascii_of_string app is_char Ascii.eqb Bool.eqb List.length skipn
         Nat.leb Nat.add] in E |- *.
    rewrite E. exists r. split; [ reflexivity | exact Hr ].
  - destruct (Hrest 1%nat) as (r & E & Hr).
    cbn [chars list_ascii_of_string app is_char Ascii.eqb Bool.eqb List.length skipn
         Nat.leb Nat.add] in E |- *.
    rewrite E. exists r. split; [ reflexivity | exact Hr ].
  - destruct (Hrest 0%nat) as (r & E & Hr).
    cbn [app]. rewrite Hminus, Hplus.
    cbn [List.length skipn Nat.leb Nat.add] in E |- *.
    rewrite E. exists r. split; [ reflexivity | exact Hr ].
Qed.

(** X25.  [tryParse] reads every literal of at most 28 digits exactly: an
    optional sign, leading zeros, integer digits and, after an optional
    decimal point, fractional digits.  The result carries the sign of
    the literal and denotes the number written, with the trailing zeros
    of the fraction removed. *)
Theorem Decimal_tryParse_literal (negative plus point : bool) (k : nat) (ip fp : list ascii)
  (Hip : Forall is_digit ip) (Hfp : Forall is_digit fp)
  (Hdigits : (0 < k + List.length ip + List.length fp)%nat)
  (Hlen : (List.length ip + List.length fp <= 28)%nat)
  (Hpoint : point = false -> fp = []) :
  exists r,
    Decimal_tryParse native
      (string_of_list_ascii
         ((if negative then chars "-" else if plus then chars "+" else [])
          ++ repeat "0"%char k ++ ip ++ (if point then "."%char :: fp else []))%list)
    = Some r
    /\ Decimal_wf r
    /\ isNegative r = negative
    /\ scale r <= Z.of_nat (List.length fp)
    /\ Decimal_signed r (Z.of_nat (List.length fp))
       = (if negative then -1 else 1) * digits_value (ip ++ fp) 0
    /\ (scale r = 0 \/ mantissa_value r mod 10 <> 0).
Proof.
  exact (Decimal_tryParse_digits negative plus point k ip fp Hip Hfp Hdigits Hlen Hpoint).
Qed.

End ParseLiteral.

Lemma Decimal_tryParse_literal_witness :
  exists r,
    Decimal_tryParse false "-007.250" = Some r
    /\ Decimal_wf r
    /\ isNegative r = true
    /\ scale r <= 3
    /\ Decimal_signed r 3 = -1 * 7250
    /\ (scale r = 0 \/ mantissa_value r mod 10 <> 0).
Proof.
  apply (Decimal_tryParse_literal false true false true 2 (chars "7") (chars "250")).
  - repeat constructor.
  - repeat constructor.
  - cbn. lia.
  - cbn. lia.
  - discriminate.
Defined.

(** *** Formatting *)

(** [ds] are the decimal digits of [v], most significant first, with no
    leading zero; zero has no digits. *)
Lemma digits_step (ds : list ascii) (v : Z) :
  0 < v ->
  Forall is_digit ds /\ digits_value ds 0 = v / 10
  /\ (v / 10 = 0 -> ds = [])
  /\ (0 < v / 10 -> 10 ^ (Z.of_nat (List.length ds) - 1) <= v / 10) ->
  let ds' := (ds ++ [digit_char (v mod 10)])%list in
  Forall is_digit ds' /\ digits_value ds' 0 = v
  /\ (v = 0 -> ds' = [])
  /\ (0 < v -> 10 ^ (Z.of_nat (List.length ds') - 1) <= v).
Proof.
  intros Hv (Hd & Hval & Hz & Hl). cbv zeta.
  split; [ apply Forall_app; split;
           [ assumption | repeat constructor; apply digit_char_is_digit; zlia ] | ].
  split; [ rewrite digits_value_app; cbn [digits_value];
           rewrite Hval, code_digit_char by zlia; zlia | ].
  split; [ lia | ]. intros _.
  rewrite length_app. cbn [List.length].
  destruct (Z.eq_dec (v / 10) 0) as [E0 | N0].
  - rewrite (Hz E0). cbn. lia.
  - assert (Hq0 : 0 < v / 10) by zlia.
    specialize (Hl Hq0).
    replace (Z.of_nat (List.length ds + 1) - 1)
      with (Z.succ (Z.of_nat (List.length ds) - 1)) by lia.
    assert (0 < List.length ds)%nat.
    { destruct ds; [ cbn in Hval; lia | cbn; lia ]. }
    rewrite Z.pow_succ_r by lia. zlia.
Qed.

Lemma extract_digits_64_spec (n : nat) : forall v acc,
  0 <= v < 10 ^ Z.of_nat n ->
  exists ds,
    extract_digits_64 n v acc = (acc ++ rev ds)%list
    /\ Forall is_digit ds /\ digits_value ds 0 = v
    /\ (v = 0 -> ds = [])
    /\ (0 < v -> 10 ^ (Z.of_nat (List.length ds) - 1) <= v).
Proof.
  induction n as [|n IH]; intros v acc Hv.
  - assert (v = 0) by (cbn in Hv; lia). subst v.
    exists []. cbn [extract_digits_64 rev]. rewrite app_nil_r.
    repeat split; try constructor; lia.
  - cbn [extract_digits_64]. rewrite Z.gtb_ltb.
    destruct (Z.ltb_spec 0 v) as [Hpos | Hz].
    + rewrite Nat2Z.inj_succ, Z.pow_succ_r in Hv by lia.
      destruct (IH (v / DECIMAL_BASE) (acc ++ [digit_char (v mod DECIMAL_BASE)])%list)
        as (ds & E & Hds); [ unfold DECIMAL_BASE; zlia | ].
      unfold DECIMAL_BASE in *.
      exists (ds ++ [digit_char (v mod 10)])%list.
      split; [ rewrite E, rev_app_distr, <- app_assoc; reflexivity | ].
      apply (digits_step ds v Hpos Hds).
    + assert (v = 0) by lia. subst v.
      exists []. cbn [rev]. rewrite app_nil_r.
      repeat split; try constructor; lia.
Qed.

Lemma extract_digits_native_spec (n : nat) : forall mantissa acc,
  Int128_wf mantissa -> bits128 mantissa < 2 ^ 127 ->
  bits128 mantissa < 10 ^ Z.of_nat n ->
  exists ds,
    extract_digits_native n mantissa acc = (acc ++ rev ds)%list
    /\ Forall is_digit ds /\ digits_value ds 0 = bits128 mantissa
    /\ (bits128 mantissa = 0 -> ds = [])
    /\ (0 < bits128 mantissa -> 10 ^ (Z.of_nat (List.length ds) - 1) <= bits128 mantissa).
Proof.
  induction n as [|n IH]; intros mantissa acc Wm Bm Hv;
    pose proof (wf_bits_range mantissa Wm) as R.
  - assert (E0 : bits128 mantissa = 0) by (cbn in Hv; lia). rewrite E0.
    exists []. cbn [extract_digits_native rev]. rewrite app_nil_r.
    repeat split; try constructor; lia.
  - cbn [extract_digits_native].
    pose proof (Int128_isZero_bits true mantissa Wm) as Ez. cbn in Ez. rewrite Ez.
    assert (En : Native.toNative mantissa = bits128 mantissa).
    { unfold Native.toNative. apply i128_small. pow_consts. lia. }
    rewrite En.
    destruct (Z.eqb_spec (bits128 mantissa) 0) as [E0 | N0]; cbn [negb].
    + rewrite E0. exists []. cbn [rev]. rewrite app_nil_r.
      repeat split; try constructor; lia.
    + unfold DECIMAL_BASE.
      rewrite Z.rem_mod_nonneg, Z.quot_div_nonneg by lia.
      rewrite Nat2Z.inj_succ, Z.pow_succ_r in Hv by lia.
      assert (Bq : bits128 (Native.of_native (bits128 mantissa / 10)) = bits128 mantissa / 10).
      { rewrite bits128_of_native. apply Z.mod_small. zlia. }
      destruct (IH (Native.of_native (bits128 mantissa / 10))
                  (acc ++ [digit_char (bits128 mantissa mod 10)])%list)
        as (ds & E & Hds); [ apply of_native_wf | rewrite Bq; zlia | rewrite Bq; zlia | ].
      rewrite Bq in Hds.
      exists (ds ++ [digit_char (bits128 mantissa mod 10)])%list.
      split; [ rewrite E, rev_app_distr, <- app_assoc; reflexivity | ].
      apply (digits_step ds (bits128 mantissa) ltac:(lia) Hds).
Qed.

Lemma extract_digits_emulated_spec (n : nat) : forall mantissa acc,
  Int128_wf mantissa -> bits128 mantissa < 2 ^ 127 ->
  bits128 mantissa < 10 ^ Z.of_nat n ->
  exists ds,
    extract_digits_emulated n mantissa acc = Ok (acc ++ rev ds)%list
    /\ Forall is_digit ds /\ digits_value ds 0 = bits128 mantissa
    /\ (bits128 mantissa = 0 -> ds = [])
    /\ (0 < bits128 mantissa -> 10 ^ (Z.of_nat (List.length ds) - 1) <= bits128 mantissa).
Proof.
  induction n as [|n IH]; intros mantissa acc Wm Bm Hv;
    pose proof (wf_bits_range mantissa Wm) as R.
  - assert (E0 : bits128 mantissa = 0) by (cbn in Hv; lia). rewrite E0.
    exists []. cbn [extract_digits_emulated rev]. rewrite app_nil_r.
    repeat split; try constructor; lia.
  - cbn [extract_digits_emulated].
    pose proof (Int128_isZero_bits false mantissa Wm) as Ez. cbn in Ez. rewrite Ez.
    destruct (Z.eqb_spec (bits128 mantissa) 0) as [E0 | N0]; cbn [negb].
    + rewrite E0. exists []. cbn [rev]. rewrite app_nil_r.
      repeat split; try constructor; lia.
    + unfold Emulated.toHigh, Emulated.toLow.
      destruct (Z.eqb_spec (upper64bits mantissa) 0) as [Eh | Nh].
      * (* the 64-bit loop takes over *)
        assert (El : lower64bits mantissa = bits128 mantissa).
        { unfold bits128. rewrite Eh. ring. }
        rewrite El.
        destruct (extract_digits_64_spec (S n) (bits128 mantissa) acc ltac:(lia))
          as (ds & E & Hds).
        exists ds. rewrite E. split; [ reflexivity | exact Hds ].
      * change (Emulated.of_uint64 DECIMAL_BASE) with (mkInt128 10 0).
        destruct (Int128_div_rem_small false mantissa (mkInt128 10 0) Wm Bm)
          as (q & r & Eq & Er & Wq & Wr & Bq & Br);
          [ vm_compute; repeat split; discriminate | reflexivity
          | cbn [lower64bits]; pow_consts; lia | ].
        cbn [Int128_div Int128_rem lower64bits] in Eq, Er, Bq, Br.
        rewrite Er, Eq. cbn [bind].
        assert (Lr : lower64bits r = bits128 mantissa mod 10).
        { destruct r as [lr ur]. destruct Wr as [Hlr Hur].
          change (bits128 (mkInt128 lr ur)) with (lr + 2 ^ 64 * ur) in Br.
          cbn [lower64bits upper64bits] in *.
          pose proof (Z.mod_pos_bound (bits128 mantissa) 10 ltac:(lia)). zlia. }
        rewrite Lr.
        rewrite Nat2Z.inj_succ, Z.pow_succ_r in Hv by lia.
        destruct (IH q (acc ++ [digit_char (bits128 mantissa mod 10)])%list Wq)
          as (ds & E & Hds); [ rewrite Bq; zlia | rewrite Bq; zlia | ].
        rewrite Bq in Hds.
        exists (ds ++ [digit_char (bits128 mantissa mod 10)])%list.
        split; [ rewrite E, rev_app_distr, <- app_assoc; reflexivity | ].
        apply (digits_step ds (bits128 mantissa) ltac:(lia) Hds).
Qed.

(** A number has one representation without trailing zeros. *)
Lemma normal_form_unique (m1 m2 s1 s2 s : Z) :
  0 <= s1 <= s -> 0 <= s2 <= s ->
  m1 * 10 ^ (s - s1) = m2 * 10 ^ (s - s2) ->
  (s1 = 0 \/ m1 mod 10 <> 0) -> (s2 = 0 \/ m2 mod 10 <> 0) ->
  s1 = s2 /\ m1 = m2.
Proof.
  intros H1 H2 Hv N1 N2.
  assert (Hlt : forall a b sa sb,
            0 <= sa < sb -> sb <= s ->
            a * 10 ^ (s - sa) = b * 10 ^ (s - sb) -> b mod 10 = 0).
  { intros a b sa sb Hs Hsb E.
    replace (s - sa) with ((s - sb) + Z.succ (sb - sa - 1)) in E by lia.
    rewrite Z.pow_add_r, Z.pow_succ_r in E by lia.
    assert (P : 0 < 10 ^ (s - sb)) by (apply Z.pow_pos_nonneg; lia).
    assert (E' : b = a * (10 * 10 ^ (sb - sa - 1))) by nia.
    rewrite E'. replace (a * (10 * 10 ^ (sb - sa - 1))) with (a * 10 ^ (sb - sa - 1) * 10)
      by ring.
    apply Z.mod_mul. lia. }
  assert (Es : s1 = s2).
  { destruct (Z.lt_trichotomy s1 s2) as [L | [E | L]]; [ | exact E | ].
    - exfalso. pose proof (Hlt m1 m2 s1 s2 ltac:(lia) ltac:(lia) Hv) as C.
      destruct N2 as [N2 | N2]; [ lia | contradiction ].
    - exfalso. symmetry in Hv. pose proof (Hlt m2 m1 s2 s1 ltac:(lia) ltac:(lia) Hv) as C.
      destruct N1 as [N1 | N1]; [ lia | contradiction ]. }
  split; [ exact Es | ].
  rewrite Es in Hv. assert (P : 0 < 10 ^ (s - s2)) by (apply Z.pow_pos_nonneg; lia).
  nia.
Qed.

(** A normalized representation is unique. *)
Lemma normalized_unique (r1 r2 : Decimal) (s : Z) :
  Decimal_wf r1 -> Decimal_wf r2 ->
  isNegative r1 = isNegative r2 ->
  scale r1 <= s -> scale r2 <= s ->
  mantissa_value r1 * 10 ^ (s - scale r1) = mantissa_value r2 * 10 ^ (s - scale r2) ->
  (scale r1 = 0 \/ mantissa_value r1 mod 10 <> 0) ->
  (scale r2 = 0 \/ mantissa_value r2 mod 10 <> 0) ->
  r1 = r2.
Proof.
  intros W1 W2 Hn H1 H2 Hv N1 N2.
  pose proof (scale_range r1) as S1. pose proof (scale_range r2) as S2.
  destruct (normal_form_unique _ _ (scale r1) (scale r2) s ltac:(lia) ltac:(lia) Hv N1 N2)
    as [Es Em].
  destruct W1 as (F1 & _ & A0 & A1 & A2). destruct W2 as (F2 & _ & B0 & B1 & B2).
  rewrite Hn, Es in F1. rewrite <- F2 in F1.
  destruct r1 as [f1 a0 a1 a2], r2 as [f2 b0 b1 b2].
  unfold mantissa_value in Em. cbn [flags mantissa0 mantissa1 mantissa2] in *.
  subst f1. f_equal; zlia.
Qed.

Section Format.
Variable native : bool.

(** The digits [toString] extracts, least significant first. *)
Lemma toString_extraction (d : Decimal) :
  Decimal_wf d -> isZero d = false ->
  exists ds,
    (if native
     then
       if Native.toNative (Int128_abs native (mantissaAsInt128 native d))
          <=? 0xFFFFFFFFFFFFFFFF
       then Ok (extract_digits_64 DECIMAL_MAX_STRING_LENGTH
                  (u64 (Native.toNative (Int128_abs native (mantissaAsInt128 native d)))) [])
       else Ok (extract_digits_native DECIMAL_MAX_STRING_LENGTH
                  (Int128_abs native (mantissaAsInt128 native d)) [])
     else
       if Emulated.toHigh (Int128_abs native (mantissaAsInt128 native d)) =? 0
       then Ok (extract_digits_64 DECIMAL_MAX_STRING_LENGTH
                  (Emulated.toLow (Int128_abs native (mantissaAsInt128 native d))) [])
       else extract_digits_emulated DECIMAL_MAX_STRING_LENGTH
              (Int128_abs native (mantissaAsInt128 native d)) [])
    = Ok (rev ds)
    /\ Forall is_digit ds /\ digits_value ds 0 = mantissa_value d
    /\ ds <> []
    /\ 10 ^ (Z.of_nat (List.length ds) - 1) <= mantissa_value d.
Proof.
  intros Hd Hnz. pose proof (mantissa_value_range d Hd) as Rm.
  rewrite isZero_value in Hnz by assumption. apply Z.eqb_neq in Hnz.
  pose proof (mantissaAsInt128_wf native d Hd) as Wm.
  pose proof (mantissaAsInt128_bits native d Hd) as Bm.
  change (2 ^ 96) with 79228162514264337593543950336 in Rm.
  destruct (Int128_abs_bits native (mantissaAsInt128 native d) Wm) as [Wa Ba].
  assert (Ev : Int128_value (mantissaAsInt128 native d) = mantissa_value d).
  { unfold Int128_value. rewrite Bm. apply i128_small. pow_consts. lia. }
  rewrite Ev, Z.abs_eq, Z.mod_small in Ba by (pow_consts; lia).
  set (m := Int128_abs native (mantissaAsInt128 native d)) in *. clearbody m.
  assert (Hfuel : mantissa_value d < 10 ^ Z.of_nat DECIMAL_MAX_STRING_LENGTH).
  { eapply Z.lt_trans; [ apply Rm | reflexivity ]. }
  assert (Hfin : forall ds,
            Forall is_digit ds /\ digits_value ds 0 = mantissa_value d
            /\ (mantissa_value d = 0 -> ds = [])
            /\ (0 < mantissa_value d
                -> 10 ^ (Z.of_nat (List.length ds) - 1) <= mantissa_value d) ->
            Forall is_digit ds /\ digits_value ds 0 = mantissa_value d
            /\ ds <> []
            /\ 10 ^ (Z.of_nat (List.length ds) - 1) <= mantissa_value d).
  { intros ds (H1 & H2 & _ & H4).
    split; [ exact H1 | ]. split; [ exact H2 | ].
    split; [ intros ->; cbn in H2; lia | apply H4; lia ]. }
  destruct native.
  - assert (En : Native.toNative m = mantissa_value d).
    { unfold Native.toNative. rewrite Ba. apply i128_small. pow_consts. lia. }
    rewrite En.
    destruct (Z.leb_spec (mantissa_value d) 0xFFFFFFFFFFFFFFFF).
    + unfold u64. rewrite Z.mod_small by (pow_consts; lia).
      destruct (extract_digits_64_spec DECIMAL_MAX_STRING_LENGTH (mantissa_value d) [])
        as (ds & E & Hds); [ lia | ].
      exists ds. rewrite E. split; [ reflexivity | apply Hfin; exact Hds ].
    + destruct (extract_digits_native_spec DECIMAL_MAX_STRING_LENGTH m [] Wa)
        as (ds & E & Hds); try (rewrite Ba; pow_consts; lia).
      rewrite Ba in Hds.
      exists ds. rewrite E. split; [ reflexivity | apply Hfin; exact Hds ].
  - unfold Emulated.toHigh, Emulated.toLow.
    destruct (Z.eqb_spec (upper64bits m) 0) as [Eh | Nh].
    + assert (El : lower64bits m = mantissa_value d).
      { rewrite <- Ba. unfold bits128. rewrite Eh. ring. }
      rewrite El.
      destruct (extract_digits_64_spec DECIMAL_MAX_STRING_LENGTH (mantissa_value d) [])
        as (ds & E & Hds); [ lia | ].
      exists ds. rewrite E. split; [ reflexivity | apply Hfin; exact Hds ].
    + destruct (extract_digits_emulated_spec DECIMAL_MAX_STRING_LENGTH m [] Wa)
        as (ds & E & Hds); try (rewrite Ba; pow_consts; lia).
      rewrite Ba in Hds.
      exists ds. rewrite E. split; [ reflexivity | apply Hfin; exact Hds ].
Qed.

(** What [toString] writes for a value that is not zero: the sign, the
    digits of the mantissa, and the decimal point [scale] digits from
    the right, after a zero and leading zeros where the mantissa has
    no more than [scale] digits. *)
Lemma Decimal_toString_spec (d : Decimal) :
  Decimal_wf d -> isZero d = false ->
  exists ds,
    Forall is_digit ds /\ digits_value ds 0 = mantissa_value d
    /\ ds <> []
    /\ 10 ^ (Z.of_nat (List.length ds) - 1) <= mantissa_value d
    /\ Decimal_toString native d
       = Ok (string_of_list_ascii
               ((if isNegative d then chars "-" else [])
                ++ (if (0 <? Z.to_nat (scale d))%nat
                    then
                      if (List.length ds <=? Z.to_nat (scale d))%nat
                      then chars "0." ++ repeat "0"%char (Z.to_nat (scale d) - List.length ds)
                           ++ ds
                      else firstn (List.length ds - Z.to_nat (scale d)) ds
                           ++ chars "." ++ skipn (List.length ds - Z.to_nat (scale d)) ds
                    else ds))%list).
Proof.
  intros Hd Hnz.
  destruct (toString_extraction d Hd Hnz) as (ds & E & Hdig & Hval & Hne & Hlen).
  exists ds. split; [ exact Hdig | ]. split; [ exact Hval | ].
  split; [ exact Hne | ]. split; [ exact Hlen | ].
  unfold Decimal_toString. rewrite Hnz. cbv zeta. rewrite E. cbn [bind].
  assert (Erev : match rev ds with [] => [digit_char 0] | _ :: _ => rev ds end = rev ds).
  { destruct (rev ds) eqn:Er; [ | reflexivity ].
    exfalso. apply Hne. rewrite <- (rev_involutive ds), Er. reflexivity. }
  rewrite Erev, length_rev, rev_involutive, skipn_rev, firstn_rev, !rev_involutive.
  change (digit_char 0) with "0"%char.
  f_equal. f_equal.
  destruct (isNegative d);
    destruct (0 <? Z.to_nat (scale d))%nat;
    destruct (List.length ds <=? Z.to_nat (scale d))%nat;
    rewrite <- ?app_assoc; reflexivity.
Qed.

(** X26.  Formatting and parsing back.  For a mantissa of at most 28 digits
    [toString] returns a string that [tryParse] accepts; the value
    parsed compares equal to the value formatted and, unless that is
    zero, is the value formatted with the trailing zeros of its
    mantissa removed. *)
Theorem Decimal_toString_round_trip (d : Decimal) (Hd : Decimal_wf d)
  (Hfit : mantissa_value d < 10 ^ 28) :
  exists s r,
    Decimal_toString native d = Ok s
    /\ Decimal_tryParse native s = Some r
    /\ Decimal_eqb native r d = true
    /\ (isZero d = false -> normalize native d = Ok r).
Proof.
  pose proof (mantissa_value_range d Hd) as Rm. pose proof (scale_range d) as Sd.
  assert (Sd28 : scale d <= 28) by (destruct Hd as (_ & H & _); exact H).
  destruct (isZero d) eqn:Hz.
  - (* zero is written as "0" *)
    destruct (Decimal_tryParse_digits native false false false 1 [] [])
      as (r & Er & Wr & Nr & Sr & Vr & _);
      try constructor; try (cbn; lia); try reflexivity.
    exists "0", r. split; [ unfold Decimal_toString; rewrite Hz; reflexivity | ].
    split; [ exact Er | ]. split; [ | discriminate ].
    pose proof (scale_range r) as Srr. cbn [List.length] in Sr, Vr.
    change (Z.of_nat 0) with 0 in Sr, Vr.
    assert (Mr : mantissa_value r = 0).
    { unfold Decimal_signed in Vr. rewrite Nr in Vr.
      replace (scale r) with 0 in Vr by lia.
      change (10 ^ (0 - 0)) with 1 in Vr. cbn [app digits_value] in Vr. lia. }
    unfold Decimal_eqb. rewrite Hz, isZero_value, Mr by assumption. reflexivity.
  - destruct (Decimal_toString_spec d Hd Hz) as (ds & Hdig & Hval & Hne & Hlen & Es).
    rewrite isZero_value in Hz by assumption. apply Z.eqb_neq in Hz.
    (* at most 28 digits *)
    assert (Hn : (List.length ds <= 28)%nat).
    { destruct (Nat.le_gt_cases (List.length ds) 28) as [|Hgt]; [ assumption | exfalso ].
      assert (10 ^ 28 <= 10 ^ (Z.of_nat (List.length ds) - 1))
        by (apply Z.pow_le_mono_r; lia).
      lia. }
    assert (Hn0 : (0 < List.length ds)%nat) by (destruct ds; [ contradiction | cbn; lia ]).
    (* the literal written, in the form [tryParse] is specified for *)
    assert (Hparse : exists r,
              Decimal_tryParse native
                (string_of_list_ascii
                   ((if isNegative d then chars "-" else [])
                    ++ (if (0 <? Z.to_nat (scale d))%nat
                        then
                          if (List.length ds <=? Z.to_nat (scale d))%nat
                          then chars "0."
                               ++ repeat "0"%char (Z.to_nat (scale d) - List.length ds) ++ ds
                          else firstn (List.length ds - Z.to_nat (scale d)) ds
                               ++ chars "."
                               ++ skipn (List.length ds - Z.to_nat (scale d)) ds
                        else ds))%list) = Some r
              /\ Decimal_wf r /\ isNegative r = isNegative d
              /\ scale r <= scale d
              /\ mantissa_value r * 10 ^ (scale d - scale r) = mantissa_value d
              /\ (scale r = 0 \/ mantissa_value r mod 10 <> 0)).
    { assert (Hfin : forall (point : bool) (k : nat) (ip fp : list ascii),
                Forall is_digit ip -> Forall is_digit fp ->
                (0 < k + List.length ip + List.length fp)%nat ->
                (List.length ip + List.length fp <= 28)%nat ->
                (point = false -> fp = []) ->
                Z.of_nat (List.length fp) = scale d ->
                digits_value (ip ++ fp) 0 = mantissa_value d ->
                exists r,
                  Decimal_tryParse native
                    (string_of_list_ascii
                       ((if isNegative d then chars "-" else [])
                        ++ repeat "0"%char k ++ ip
                        ++ (if point then "."%char :: fp else []))%list) = Some r
                  /\ Decimal_wf r /\ isNegative r = isNegative d
                  /\ scale r <= scale d
                  /\ mantissa_value r * 10 ^ (scale d - scale r) = mantissa_value d
                  /\ (scale r = 0 \/ mantissa_value r mod 10 <> 0)).
      { intros point k ip fp Hip Hfp Hdigits Hlen28 Hpoint Efp Eval.
        destruct (Decimal_tryParse_digits native (isNegative d) false point k ip fp
                    Hip Hfp Hdigits Hlen28 Hpoint) as (r & Er & Wr & Nr & Sr & Vr & Hnorm).
        exists r. rewrite Efp in Sr, Vr. rewrite Eval in Vr.
        split; [ exact Er | ]. split; [ exact Wr | ]. split; [ exact Nr | ].
        split; [ exact Sr | ]. split; [ | exact Hnorm ].
        unfold Decimal_signed in Vr. rewrite Nr in Vr. destruct (isNegative d); lia. }
      destruct (Nat.ltb_spec 0 (Z.to_nat (scale d))) as [Hpos | Hz0].
      - destruct (Nat.leb_spec (List.length ds) (Z.to_nat (scale d))) as [Hle | Hgt].
        + (* "0." and leading zeros *)
          apply (Hfin true 1%nat [] (repeat "0"%char (Z.to_nat (scale d) - List.length ds)
                                       ++ ds)%list).
          * constructor.
          * apply Forall_app. split; [ apply zeros_are_digits | exact Hdig ].
          * cbn. lia.
          * rewrite length_app, repeat_length. cbn [List.length]. lia.
          * discriminate.
          * rewrite length_app, repeat_length. lia.
          * cbn [app]. rewrite digits_value_app.
            assert (Ez : forall j, digits_value (repeat "0"%char j) 0 = 0).
            { induction j; [ reflexivity | cbn [repeat digits_value]; exact IHj ]. }
            rewrite Ez. exact Hval.
        + (* integer digits, point, fractional digits *)
          assert (Hparts : Forall is_digit (firstn (List.length ds - Z.to_nat (scale d)) ds)
                           /\ Forall is_digit
                                (skipn (List.length ds - Z.to_nat (scale d)) ds)).
          { apply Forall_app. rewrite firstn_skipn. exact Hdig. }
          apply (Hfin true 0%nat (firstn (List.length ds - Z.to_nat (scale d)) ds)
                   (skipn (List.length ds - Z.to_nat (scale d)) ds)).
          * apply Hparts.
          * apply Hparts.
          * rewrite length_firstn, length_skipn. lia.
          * rewrite length_firstn, length_skipn. lia.
          * discriminate.
          * rewrite length_skipn. lia.
          * rewrite firstn_skipn. exact Hval.
      - (* no fraction *)
        assert (Hfin0 := Hfin false 0%nat ds [] Hdig (Forall_nil _)).
        rewrite !app_nil_r in Hfin0. apply Hfin0.
        + cbn [List.length]. lia.
        + cbn [List.length]. lia.
        + reflexivity.
        + cbn [List.length]. lia.
        + exact Hval. }
    destruct Hparse as (r & Er & Wr & Nr & Sr & Vr & Hnorm).
    exists (string_of_list_ascii
              ((if isNegative d then chars "-" else [])
               ++ (if (0 <? Z.to_nat (scale d))%nat
                   then
                     if (List.length ds <=? Z.to_nat (scale d))%nat
                     then chars "0."
                          ++ repeat "0"%char (Z.to_nat (scale d) - List.length ds) ++ ds
                     else firstn (List.length ds - Z.to_nat (scale d)) ds
                          ++ chars "."
                          ++ skipn (List.length ds - Z.to_nat (scale d)) ds
                   else ds))%list), r.
    split; [ exact Es | ]. split; [ exact Er | ].
    pose proof (scale_range r) as Srr.
    assert (P10 : 0 < 10 ^ (scale d - scale r)) by (apply Z.pow_pos_nonneg; lia).
    split.
    + assert (Emax : Z.max (scale r) (scale d) = scale d) by lia.
      assert (F1 : mantissa_value r * 10 ^ (Z.max (scale r) (scale d) - scale r) < 2 ^ 127).
      { rewrite Emax, Vr. eapply Z.lt_trans; [ exact Hfit | reflexivity ]. }
      assert (F2 : mantissa_value d * 10 ^ (Z.max (scale r) (scale d) - scale d) < 2 ^ 127).
      { rewrite Emax, Z.sub_diag, Z.mul_1_r. eapply Z.lt_trans; [ exact Hfit | reflexivity ]. }
      destruct (Decimal_eqb_values native r d Wr Hd F1 F2) as [-> _].
      rewrite Emax. unfold Decimal_signed.
      rewrite Nr, Vr, Z.sub_diag, Z.mul_1_r. apply Z.eqb_refl.
    + intros _.
      destruct (normalize_spec native d Hd) as (r' & Er' & Wr' & Nr' & Sr' & Vr' & Hnorm').
      rewrite Er'. f_equal.
      apply (normalized_unique r' r (scale d)); try assumption; congruence.
Qed.

End Format.

Lemma Decimal_toString_round_trip_witness :
  exists s r,
    Decimal_toString false (mkDecimal 0x80050000 1200 0 0) = Ok s
    /\ Decimal_tryParse false s = Some r
    /\ Decimal_eqb false r (mkDecimal 0x80050000 1200 0 0) = true
    /\ (isZero (mkDecimal 0x80050000 1200 0 0) = false ->
        normalize false (mkDecimal 0x80050000 1200 0 0) = Ok r).
Proof.
  apply (Decimal_toString_round_trip false (mkDecimal 0x80050000 1200 0 0)).
  - vm_compute. repeat split; discriminate || reflexivity.
  - vm_compute. reflexivity.
Defined.

(** ** Decimal places *)

Section Places.
Variable native : bool.

(** The loop of [decimalPlacesCount]: it stops at the first digit that
    is not zero, or when [trailingZeros] reaches the scale. *)
Lemma count_trailing_zeros_spec (n : nat) : forall m tz cs,
  Int128_wf m -> bits128 m < 2 ^ 127 ->
  0 <= tz <= cs -> cs <= 28 -> cs - tz <= Z.of_nat n ->
  exists tz',
    count_trailing_zeros native n m (mkInt128 10 0) tz cs = Ok tz'
    /\ tz <= tz' <= cs
    /\ bits128 m mod 10 ^ (tz' - tz) = 0
    /\ (tz' = cs \/ (bits128 m / 10 ^ (tz' - tz)) mod 10 <> 0).
Proof.
  induction n as [|n IH]; intros m tz cs Wm Bm Htz Hcs Hn;
    pose proof (wf_bits_range m Wm) as Rm.
  - exists tz. cbn [count_trailing_zeros]. split; [ reflexivity | ].
    split; [ lia | ]. rewrite Z.sub_diag. change (10 ^ 0) with 1.
    split; [ apply Z.mod_1_r | left; lia ].
  - cbn [count_trailing_zeros].
    destruct (Z.ltb_spec tz cs) as [Hlt | Hge].
    2:{ exists tz. split; [ reflexivity | ]. split; [ lia | ].
        rewrite Z.sub_diag. change (10 ^ 0) with 1.
        split; [ apply Z.mod_1_r | left; lia ]. }
    destruct (Int128_div_rem_small native m (mkInt128 10 0) Wm Bm)
      as (q & r & Eq & Er & Wq & Wr & Bq & Br);
      [ vm_compute; repeat split; discriminate | reflexivity
      | cbn [lower64bits]; pow_consts; lia | ].
    cbn [lower64bits] in Bq, Br.
    rewrite Er. cbn [bind].
    destruct (Z.eq_dec (bits128 m mod 10) 0) as [E0 | N0].
    + rewrite (Int128_neqb_zero_bits native r Wr) by (rewrite Br; exact E0).
      rewrite Eq. cbn [bind].
      assert (Eu8 : u8 (tz + 1) = tz + 1) by (unfold u8; zlia).
      rewrite Eu8.
      destruct (IH q (tz + 1) cs Wq) as (tz' & E & Ht & Hm & Hstop); try lia.
      { rewrite Bq. zlia. }
      exists tz'. split; [ exact E | ]. split; [ lia | ].
      rewrite Bq in Hm, Hstop.
      assert (P : 0 < 10 ^ (tz' - (tz + 1))) by (apply Z.pow_pos_nonneg; lia).
      assert (Epow : 10 ^ (tz' - tz) = 10 * 10 ^ (tz' - (tz + 1))).
      { replace (tz' - tz) with (Z.succ (tz' - (tz + 1))) by lia.
        apply Z.pow_succ_r. lia. }
      rewrite Epow. rewrite <- Z.div_div by lia.
      split; [ | exact Hstop ].
      rewrite Z.rem_mul_r by lia. rewrite E0, Hm. reflexivity.
    + rewrite (Int128_neqb_zero native r Wr) by (rewrite Br; exact N0).
      exists tz. split; [ reflexivity | ]. split; [ lia | ].
      rewrite Z.sub_diag. change (10 ^ 0) with 1. rewrite Z.div_1_r.
      split; [ apply Z.mod_1_r | right; exact N0 ].
Qed.

(** X27.  [decimalPlacesCount] is the scale [normalize] would leave: the
    number of decimal places without the trailing zeros. *)
Theorem decimalPlacesCount_is_normalized_scale (d : Decimal) (Hd : Decimal_wf d) :
  exists r,
    normalize native d = Ok r
    /\ Decimal_decimalPlacesCount native d = Ok (scale r).
Proof.
  pose proof (mantissa_value_range d Hd) as Rm. pose proof (scale_range d) as Sd.
  assert (Sd28 : scale d <= 28) by (destruct Hd as (_ & H & _); exact H).
  destruct (normalize_spec native d Hd) as (r & Er & Wr & Nr & Sr & Vr & Hnorm).
  pose proof (scale_range r) as Srr.
  exists r. split; [ exact Er | ].
  unfold Decimal_decimalPlacesCount. rewrite isZero_value by assumption.
  assert (P : 0 < 10 ^ (scale d - scale r)) by (apply Z.pow_pos_nonneg; lia).
  destruct (Z.eqb_spec (mantissa_value d) 0) as [E0 | N0].
  { (* zero: every digit is a trailing zero *)
    f_equal. destruct Hnorm as [H0 | H0]; [ lia | ].
    exfalso. apply H0. assert (Hr0 : mantissa_value r = 0) by nia. rewrite Hr0. reflexivity. }
  cbv zeta.
  destruct (Z.eqb_spec (scale d) 0) as [Es0 | Ns0]; [ f_equal; lia | ].
  change (if native
          then Native.of_native
                 (Z.lor (Z.lor (Z.shiftl (mantissa2 d) BITS_PER_UINT64)
                               (Z.shiftl (mantissa1 d) BITS_PER_UINT32))
                        (mantissa0 d))
          else Emulated.of_words
                 (Z.lor (u64 (Z.shiftl (mantissa1 d) BITS_PER_UINT32)) (mantissa0 d))
                 (mantissa2 d))
    with (mantissaAsInt128 native d).
  destruct (ten_words native) as (-> & _ & _).
  pose proof (mantissaAsInt128_wf native d Hd) as Wm.
  pose proof (mantissaAsInt128_bits native d Hd) as Bm.
  change (2 ^ 96) with 79228162514264337593543950336 in Rm.
  destruct (count_trailing_zeros_spec (Z.to_nat (scale d)) (mantissaAsInt128 native d)
              0 (scale d) Wm) as (tz & -> & Ht & Hm & Hstop); try lia.
  cbn [bind]. rewrite Bm, Z.sub_0_r in Hm, Hstop.
  assert (Eu8 : u8 (scale d - tz) = scale d - tz) by (unfold u8; zlia).
  rewrite Eu8. f_equal.
  assert (Pt : 0 < 10 ^ tz) by (apply Z.pow_pos_nonneg; lia).
  assert (Ed : mantissa_value d = (mantissa_value d / 10 ^ tz) * 10 ^ tz).
  { pose proof (Z.div_mod (mantissa_value d) (10 ^ tz) ltac:(lia)) as E.
    rewrite Hm in E. lia. }
  destruct (normal_form_unique (mantissa_value d / 10 ^ tz) (mantissa_value r)
              (scale d - tz) (scale r) (scale d)) as [Es _]; try lia.
  replace (scale d - (scale d - tz)) with tz by lia. rewrite <- Ed. exact Vr.
Qed.

End Places.

Lemma decimalPlacesCount_is_normalized_scale_witness :
  exists r,
    normalize false (mkDecimal 0x00050000 1200 0 0) = Ok r
    /\ Decimal_decimalPlacesCount false (mkDecimal 0x00050000 1200 0 0) = Ok (scale r).
Proof.
  apply (decimalPlacesCount_is_normalized_scale false (mkDecimal 0x00050000 1200 0 0)).
  vm_compute. repeat split; discriminate || reflexivity.
Defined.
